(* ===== verification/_CoqProject ===== *)
-Q . S2P
Prelude.v
Avro.v
AvroBinary.v
IoUtil.v
Protocol.v
Oid2Avro.v
Oid2AvroFacts.v
Sample.v
Rows.v
SchemaCache.v
ProtocolServer.v
LogDecoder.v
ProtocolClient.v
EndToEnd.v
Snapshot.v
NetBytes.v
Libpq.v
Replication.v
Connect.v
Registry.v
TableMapper.v
Json.v
Producer.v
ProducerSafety.v
Delivery.v
Main.v
Program.v
Quiet.v
Liveness.v
Pipeline.v
Progress.v
Calls.v
Arrival.v
Launch.v
Restart.v
BwTest.v
