(* ===== verification/Prelude.v ===== *)
(** * Bottled Water: a verification development

    Bottled Water copies the contents of a PostgreSQL database to Kafka and then keeps Kafka
    up to date with every change. It has three parts, all under
    [src/00-bottledwater-pg/]:

    - [ext/], loaded into the server: the type translation from Postgres to Avro
      ([oid2avro.c]), the wire protocol ([protocol.c], [protocol_server.c]) with its cache
      of the schemas announced so far ([schema_cache.c]), the logical decoding plugin that
      writes a frame per transaction event or row change ([logdecoder.c]), the SQL function
      that exports all tables for the initial snapshot ([snapshot.c]), and the buffers they
      write to ([io_util.c]);
    - [client/], the client library: the frame parser, which runs an application's
      callbacks ([protocol_client.c]), the replication stream ([replication.c]), and the
      connections, which create the slot, read the snapshot and switch to the stream
      ([connect.c]); and a test client that prints the events ([bwtest.c]);
    - [kafka/], the application: the producer with its circular buffer of transactions in
      flight, delivery reports, backpressure, checkpoints, options and main loop
      ([bottledwater.c]), the registry client ([registry.c]), the tables' metadata
      ([table_mapper.c]) and JSON output ([json.c]).

    The server's frames are the client's input, the client's callbacks are the producer's
    operations, and the position that the producer writes into the stream
    ([fsync_lsn]) is what the client reports to the server, which discards its log up to it.

    ** How the code is modelled

    A C function with an [int] status that mutates its arguments is a computation of the
    state monad [M] below; its outcome is a result, an error code, the end of the process
    ([Exit]), an error raised in the server ([Elog]), waiting forever ([Blocked]) or
    undefined behaviour ([Undef]: a null, released or out-of-range pointer used). The state
    is also left behind by a failing call. Structs are records, with a setter for each
    field that changes; a component inside a larger struct is reached by [zoom] through the
    class [Has]. Integers are [Z]; where the C type matters they are wrapped ([u32], [s32],
    [u64], [s64]). Byte strings are lists of [Z].

    Libraries are parameters or scripts, never guessed:

    - libavro is a record of functions ([Avro.avro_lib]); the theorems ask for the class
      [AvroConforms], its documented behaviour on legal calls; [AvroBinary] is an instance
      with the binary encoding of the Avro specification, used to run the model;
    - Postgres, inside the server, is [Oid2Avro.pg_lib] (output functions, dates),
      [catalog], and [Snapshot.spi] (the rows of queries), with class [PgConforms];
    - libpq, [select], libcurl and librdkafka are scripts inside the state: what they will
      answer, call after call ([Libpq], [Connect.client_context], [Registry], [Producer.kafka_t]);
      nothing is assumed of them, so the theorems hold for every behaviour of the server,
      the network, the registry and Kafka (only those of [Launch], which promise that the
      program comes through, ask for surroundings that work: [Launch.obliging] and the
      records beside it). Two results of one call are two entries: what [PQputCopyData] and
      [PQflush] return, whether [rd_kafka_produce] accepts a message and what it leaves in
      [errno]. A script that has run out blocks, or, where a
      call does not wait, answers that there is nothing. [gettimeofday] is a function from
      the number of the reading.

    ** Files, in order

    - [Prelude]: integers, outcomes, the monad, [zoom], and the rules used everywhere:
      [preserves], [triple], [returns], [total], [maintains], the refinement [⊑], [Compositional].
    - [Avro], [AvroBinary]: schemas, values, the library and its instance.
    - [IoUtil]: [try_writing] and the writers of [io_util.c].
    - [Protocol]: the schemas and messages of [protocol.c].
    - [Oid2Avro], [Oid2AvroFacts], [Sample], [Rows]: [oid2avro.c], its proofs, a sample
      database, its theorems.
    - [SchemaCache]: [schema_cache.c], a map from relation ids to entries.
    - [ProtocolServer]: [protocol_server.c]; the state is the frame and the cache.
    - [LogDecoder]: [logdecoder.c]; the output is the list of frames written.
    - [ProtocolClient]: [protocol_client.c]; the schema list as an array with its capacity.
      A [knowledge] is the abstract state: the schemas known by relation.
    - [EndToEnd]: plugin and parser together.
    - [Snapshot]: [snapshot.c]; tables, cursor, locks, the function called until it is done.
    - [NetBytes], [Libpq], [Replication]: byte order, log positions as text, connections,
      [replication.c].
    - [Connect]: [connect.c].
    - [Registry], [TableMapper], [Json]: [registry.c], [table_mapper.c], [json.c].
    - [Producer]: the callbacks and the buffer of [bottledwater.c]; [ProducerSafety]: its
      invariant; [Delivery]: runs of events and polls.
    - [Main]: options, start-up and main loop of [bottledwater.c]; [Program]: the program as
      a whole, with a record of the callbacks it makes.
    - [Quiet], [Pipeline]: server, client and producer together; [Quiet] is what the
      callbacks leave alone.
    - [Liveness], [Progress], [Calls], [Arrival], [Launch]: the same, when the surroundings
      work: every callback returns, every iteration of the loop returns, what the loop needs
      holds for the calls that Postgres makes, everything that is sent arrives, and the
      program from its command line on.
    - [Restart]: the database as a list of transactions, runs that are interrupted, and a run
      that is not.
    - [BwTest]: [bwtest.c].

    Operations keep their C names; names taken by Rocq or by two files are prefixed (the
    callbacks [on_begin_txn], ... of the producer are [begin_txn], ...; those of the test
    client are [print_begin_txn], ...; its other functions start with [bw_]).

    ** What is proved

    - The program delivers: in surroundings that work, the program, from its command line on,
      comes through the start and the loop, hands Kafka one message for every row of the
      snapshot and of the stream, gets them all acknowledged, and has the position of the
      last commit as the one that status updates carry, with either output format
      ([Launch.first_run_delivers], [Launch.later_run_delivers]). If runs before were stopped, between any two iterations
      or by a signal, in any surroundings, every transaction was delivered by one of the runs
      ([Restart.committed_delivered]): Postgres, which streams again what was committed after
      a position that it read in a status update, and the program, which sends no position
      before Kafka has everything up to it, together lose nothing. The hypotheses are about
      the database, the calls that Postgres makes of the plugin and what the surroundings do;
      only of the runs that are stopped it is given what they returned, which the
      surroundings, being any, do not settle.
    - The pipeline: in any surroundings, for any calls of the plugin, and any exported
      tables, the program hands Kafka exactly one message for every row event that it got, in
      order, with the right topic, key and value ([Pipeline]); it rests on the refinement
      theorems of the two halves, [EndToEnd.replication_end_to_end] and [Snapshot.snapshot_complete], which
      say that the application sees exactly the abstract events of the calls.
    - At-least-once delivery: whatever the surroundings do, an unacknowledged message is in
      an open transaction or one committed after [fsync_lsn], and no status update that was
      sent carries a higher position ([Program.program_nothing_lost]). It rests on the
      invariant of the circular buffer ([Delivery.ring_exact]), monotone positions
      ([fsync_monotone]), maximal checkpoints ([checkpoint_maximal]), and one message per
      row however often the queue is full ([row_message_exact]). The assumption is a history: that the events received are
      such as Postgres produces (transactions one after the other, commit positions
      increasing); the history is computed from the record ([Delivery.h_run]).
    - The server side: rows and keys have the generated schemas and the specified values,
      snapshot and stream agree, the cache is coherent, each event appends exactly its
      messages, buffers are exact up to their limit.
    - The client side: frames are processed in order, unknown relations and trailing bytes
      are rejected, the schema list stays in its array, a start does what the answers of the
      server ask for (the position of the slot, or the new slot and its snapshot), status
      updates carry positions that were reached and have the layout of the protocol.
    - The application: options mean what they say, exits release every topic and key schema
      once, close the connections and drop the slot only after an error during the snapshot
      ([Main.exit_effects]), the mapper implements a map, registry prefixes and positions
      round-trip, JSON is the JSON of the values.
    - Defects, as theorems: NUMERIC values are lost, a failed rename destroys a topic twice,
      a rejected key schema is released twice, the registry URL keeps its trailing slash,
      a signal during the snapshot keeps the slot of an incomplete snapshot.

    ** Bounds

    - [try_writing] tries buffers of 16 KiB, 64 KiB, 256 KiB and 1 MiB; its fuel of five
      rounds never runs out ([IoUtil.try_writing_correct] covers every outcome).
    - The checkpoint loop has fuel 1000, the size of the buffer: the tail reaches the head
      before ([ProducerSafety.maybe_checkpoint_spec] shows that it returns).
    - The loop that waits for a free slot has as many rounds as the script of Kafka polls:
      a further round would not change anything, so it is [Blocked]. The loop that enqueues
      a message has one round for each scripted refusal and one more, which accepts.
    - The main loop is run for [n] iterations, for every [n]. The theorems of [Launch] run
      it once for each thing that arrives, and [d] times more if acknowledgements may be [d]
      polls late. For each iteration they ask for one wait, and for at most [d] + 3 polls of
      Kafka and as many status updates ([Progress.per_turn]: a keepalive message may ask for
      an update, so may the interval, the loop polls once, and a transaction that finds the
      buffer full waits for [d] + 1 polls), and for one more of both for each time that
      Kafka's queue is full; a commit makes at most one round of checkpoints per slot of the
      buffer.
    - The schema arrays grow by a factor of four; theorems about them assume fewer than
      2^29 entries, where the C [int] capacity would overflow.

    ** Not modelled

    Memory management, apart from what is released twice (topics and key schemas): the
    other pointers are valid by construction, and [malloc] succeeds. Texts of error messages
    and what is printed on stderr, the usage text, the schema cache's debugging output. The
    SQL of the catalog query (its rows are a parameter). What [getopt_long] makes of the
    command line (its results are an argument). Signals arrive during polls of Kafka only;
    the program looks for them right after such polls. Threads of librdkafka: reports are
    served by polls. Surroundings that fail (a message that is refused or never acknowledged,
    an error of the registry or of a connection, a signal) are covered by the theorems for any
    surroundings, not by those of [Launch]. In [Restart] a run is stopped between two
    iterations of the loop or by a signal, and had found its slot. A snapshot that is
    interrupted is taken again if the slot was dropped, which the program tries when it exits
    with an error, but not after a signal ([Launch.interrupted_snapshot]). The parts of the
    repository that are not C (container images, configuration, the Node application,
    tests, documents) have no model. *)

From Stdlib Require Export ZArith Lia.
From stdpp Require Export base tactics list strings pretty gmap numbers.

Open Scope Z_scope.


(** ** Error numbers *)

(** The errno values the sources name (Linux numbering). *)
Definition EIO : Z := 5.
Definition EINTR : Z := 4.
Definition EINVAL : Z := 22.
Definition ENOSPC : Z := 28.
Definition ENOBUFS : Z := 105.

(** ** Machine integers *)

(** Conversion to an unsigned integer of [n] bits, and to a signed one (two's
    complement), as C does it when a wider value is stored in the narrow type. *)
Definition uwrap (n v : Z) : Z := v mod 2 ^ n.
Definition swrap (n v : Z) : Z := (v + 2 ^ (n - 1)) mod 2 ^ n - 2 ^ (n - 1).

Abbreviation u32 := (uwrap 32).
Abbreviation u64 := (uwrap 64).
Abbreviation s32 := (swrap 32).
Abbreviation s64 := (swrap 64).

Definition is_u32 (v : Z) : Prop := 0 <= v < 2 ^ 32.
Definition is_u64 (v : Z) : Prop := 0 <= v < 2 ^ 64.
Definition is_s32 (v : Z) : Prop := - 2 ^ 31 <= v < 2 ^ 31.
Definition is_s64 (v : Z) : Prop := - 2 ^ 63 <= v < 2 ^ 63.
Definition is_byte (v : Z) : Prop := 0 <= v < 256.

#[export] Instance is_u32_dec v : Decision (is_u32 v).
Proof. unfold is_u32; apply _. Defined.
#[export] Instance is_u64_dec v : Decision (is_u64 v).
Proof. unfold is_u64; apply _. Defined.
#[export] Instance is_s64_dec v : Decision (is_s64 v).
Proof. unfold is_s64; apply _. Defined.
#[export] Instance is_byte_dec v : Decision (is_byte v).
Proof. unfold is_byte; apply _. Defined.

Create HintDb bw discriminated.

(** Unfold the machine-integer vocabulary and call [lia]. *)
Ltac int_lia :=
  unfold is_u32, is_u64, is_s32, is_s64, is_byte, uwrap, swrap in *;
  change (2 ^ 64) with 18446744073709551616 in *;
  change (2 ^ 63) with 9223372036854775808 in *;
  change (2 ^ (64 - 1)) with 9223372036854775808 in *;
  change (2 ^ 32) with 4294967296 in *;
  change (2 ^ 31) with 2147483648 in *;
  change (2 ^ (32 - 1)) with 2147483648 in *;
  Z.to_euclidean_division_equations; lia.

Section machine_integers.

Lemma uwrap_range n v : 0 <= n -> 0 <= uwrap n v < 2 ^ n.
Proof. intros. apply Z.mod_pos_bound, Z.pow_pos_nonneg; lia. Qed.

Lemma uwrap_id n v : 0 <= v < 2 ^ n -> uwrap n v = v.
Proof. intros. by apply Z.mod_small. Qed.

Lemma swrap_id n v : 0 < n -> - 2 ^ (n - 1) <= v < 2 ^ (n - 1) -> swrap n v = v.
Proof.
  intros Hn Hv. unfold swrap. rewrite Z.mod_small; [lia|].
  replace (2 ^ n) with (2 * 2 ^ (n - 1)); [lia|].
  rewrite <- (Z.pow_succ_r 2 (n - 1)) by lia. f_equal. lia.
Qed.

Lemma u64_s64 v : is_u64 v -> u64 (s64 v) = v.
Proof. int_lia. Qed.

Lemma s64_u64 v : is_s64 v -> s64 (u64 v) = v.
Proof. int_lia. Qed.

Lemma u64_range v : is_u64 (u64 v).
Proof. int_lia. Qed.
Lemma s64_range v : is_s64 (s64 v).
Proof. int_lia. Qed.

Lemma s32_small v : 0 <= v < 2 ^ 31 -> s32 v = v.
Proof. int_lia. Qed.

End machine_integers.

(** ** Outcomes and the state monad

    A C function that returns an [int] status and mutates its arguments is a
    computation of [M S A]: it takes the state and gives an outcome and the state
    it leaves behind, also when it fails. *)

Inductive outcome (A : Type) : Type :=
| Ret (a : A)          (* normal return; for an int status, return 0 *)
| Err (e : Z)          (* return of a nonzero error code *)
| Exit (status : Z)    (* the process called exit() *)
| Elog (msg : string)  (* elog(ERROR, ...): Postgres unwinds the call *)
| Blocked              (* waiting for an event that the environment never gives *)
| Undef.               (* undefined behaviour: null or dangling pointer used *)
Arguments Ret {_} _.
Arguments Err {_} _.
Arguments Exit {_} _.
Arguments Elog {_} _.
Arguments Blocked {_}.
Arguments Undef {_}.

Definition M (S A : Type) : Type := S -> outcome A * S.

Definition cast_outcome {A B} (o : outcome A) : outcome B :=
  match o with
  | Ret _ => Undef
  | Err e => Err e
  | Exit n => Exit n
  | Elog m => Elog m
  | Blocked => Blocked
  | Undef => Undef
  end.

#[export] Instance M_ret S : MRet (M S) := fun A a s => (Ret a, s).
#[export] Instance M_bind S : MBind (M S) := fun A B f m s =>
  match m s with
  | (Ret a, s') => f a s'
  | (o, s') => (cast_outcome o, s')
  end.

(** [stop o] ends the computation with the abnormal outcome [o]. *)
Definition stop {S A} (o : outcome A) : M S A := fun s => (o, s).
Definition fail {S A} (e : Z) : M S A := stop (Err e).
Definition gets {S A} (f : S -> A) : M S A := fun s => (Ret (f s), s).
Definition modify {S} (f : S -> S) : M S unit := fun s => (Ret tt, f s).

(** The value of a C call whose status is stored instead of checked. *)
Definition status {S} (m : M S unit) : M S Z := fun s =>
  match m s with
  | (Ret _, s') => (Ret 0, s')
  | (Err e, s') => (Ret e, s')
  | (o, s') => (cast_outcome o, s')
  end.

Definition when {S} (b : bool) (m : M S unit) : M S unit :=
  if b then m else mret ().

(** ** Components inside a larger state *)

(** [Has T X]: the state [X] holds a component of type [T]. *)
Class Has (T X : Type) := {
  prj : X -> T;
  upd : T -> X -> X;
  prj_upd t x : prj (upd t x) = t;
  upd_prj x : upd (prj x) x = x;
  upd_upd t1 t2 x : upd t1 (upd t2 x) = upd t1 x;
}.

(** Run a component's computation inside the larger state. *)
Definition zoom {T X A} `{Has T X} (m : M T A) : M X A := fun x =>
  let '(o, t) := m (prj x) in (o, upd t x).

Lemma zoom_run {T X A} `{Has T X} (m : M T A) x o t :
  m (prj x) = (o, t) -> zoom m x = (o, upd t x).
Proof. intros Hm. unfold zoom. by rewrite Hm. Qed.

#[export] Instance Has_refl T : Has T T.
Proof. by refine {| prj := fun x => x; upd := fun t _ => t |}. Defined.
#[export] Instance Has_fst A B : Has A (A * B).
Proof. by refine {| prj := fst; upd := fun t x => (t, snd x) |}; intros; destruct_and?; repeat match goal with p : _ * _ |- _ => destruct p end. Defined.
#[export] Instance Has_snd A B : Has B (A * B).
Proof. by refine {| prj := snd; upd := fun t x => (fst x, t) |}; intros; destruct_and?; repeat match goal with p : _ * _ |- _ => destruct p end. Defined.

(** ** Reasoning about computations *)

Section monad_laws.
Context {S A B : Type}.
Implicit Types (m : M S A) (f : A -> M S B) (s : S).

Lemma bind_Ret m f s a s' : m s = (Ret a, s') -> (m ≫= f) s = f a s'.
Proof. intros H. unfold mbind, M_bind. by rewrite H. Qed.

Lemma bind_Ret_inv m f s b s' :
  (m ≫= f) s = (Ret b, s') ->
  exists a s1, m s = (Ret a, s1) /\ f a s1 = (Ret b, s').
Proof.
  unfold mbind, M_bind. destruct (m s) as [[] ?]; simpl; intros H;
    simplify_eq; eauto.
Qed.

Lemma bind_Err m f s e s' : m s = (Err e, s') -> (m ≫= f) s = (Err e, s').
Proof. intros H. unfold mbind, M_bind. by rewrite H. Qed.

Lemma bind_stop m f s o s' :
  m s = (o, s') -> (forall a, o <> Ret a) -> (m ≫= f) s = (cast_outcome o, s').
Proof.
  intros H Ho. unfold mbind, M_bind. rewrite H. destruct o; auto. by destruct (Ho a).
Qed.

Lemma status_Ret (m : M S unit) s s' : m s = (Ret tt, s') -> status m s = (Ret 0, s').
Proof. intros H. unfold status. by rewrite H. Qed.

End monad_laws.

(** [preserves I m]: the computation [m] leaves [I] true whatever its outcome. *)
Definition preserves {S A} (I : S -> Prop) (m : M S A) : Prop :=
  forall s, I s -> I (snd (m s)).

Section preserves.
Context {S : Type} (I : S -> Prop).

Lemma preserves_ret {A} (a : A) : preserves I (mret a).
Proof. by intros s. Qed.

Lemma preserves_stop {A} (o : outcome A) : preserves I (stop o).
Proof. by intros s. Qed.

Lemma preserves_gets {A} (f : S -> A) : preserves I (gets f).
Proof. by intros s. Qed.

Lemma preserves_modify f : (forall s, I s -> I (f s)) -> preserves I (modify f).
Proof. intros H s. apply H. Qed.

Lemma preserves_bind {A B} (m : M S A) (f : A -> M S B) :
  preserves I m -> (forall a, preserves I (f a)) -> preserves I (m ≫= f).
Proof.
  intros Hm Hf s Hs. specialize (Hm s Hs). unfold mbind, M_bind.
  destruct (m s) as [[] s']; simpl in *; auto. by apply Hf.
Qed.

Lemma preserves_when b m : (b = true -> preserves I m) -> preserves I (when b m).
Proof. destruct b; simpl; auto using preserves_ret. Qed.

Lemma preserves_status m : preserves I m -> preserves I (status m).
Proof.
  intros Hm s Hs. specialize (Hm s Hs). unfold status.
  by destruct (m s) as [[] s'].
Qed.

End preserves.

#[export] Hint Resolve preserves_ret preserves_stop preserves_gets preserves_modify
  preserves_bind preserves_when preserves_status : bw.

(** ** Hoare triples

    [triple I m J]: when [m] returns normally from a state with [I], the result and the
    final state satisfy [J]. *)
Definition triple {S A} (I : S -> Prop) (m : M S A) (J : A -> S -> Prop) : Prop :=
  forall s a s', I s -> m s = (Ret a, s') -> J a s'.

Section triples.
Context {S : Type}.

Lemma triple_ret {A} (a : A) (J : A -> S -> Prop) : triple (J a) (mret a) J.
Proof. by intros s b s' H [= <- <-]. Qed.

Lemma triple_gets {A} (f : S -> A) (J : A -> S -> Prop) : triple (fun s => J (f s) s) (gets f) J.
Proof. by intros s b s' H [= <- <-]. Qed.

Lemma triple_modify f (J : unit -> S -> Prop) : triple (fun s => J tt (f s)) (modify f) J.
Proof. by intros s b s' H [= <- <-]. Qed.

Lemma triple_stop {A} (o : outcome A) I (J : A -> S -> Prop) :
  (forall a, o <> Ret a) -> triple I (stop o) J.
Proof. intros Ho s a s' H [= E]. by destruct (Ho a). Qed.

Lemma triple_bind {A B} I (m : M S A) (f : A -> M S B) J K :
  triple I m J -> (forall a, triple (J a) (f a) K) -> triple I (m ≫= f) K.
Proof.
  intros Hm Hf s b s' HI Hrun. apply bind_Ret_inv in Hrun as (a & s1 & H1 & H2).
  eapply Hf; [|exact H2]. by eapply Hm.
Qed.

Lemma triple_weaken {A} (I I' : S -> Prop) (m : M S A) (J J' : A -> S -> Prop) :
  (forall s, I' s -> I s) -> (forall a s, J a s -> J' a s) -> triple I m J -> triple I' m J'.
Proof. intros HI HJ Hm s a s' H Hrun. eauto. Qed.

Lemma triple_when b I (m : M S unit) (J : unit -> S -> Prop) :
  (b = true -> triple I m J) -> (forall s, b = false -> I s -> J tt s) -> triple I (when b m) J.
Proof.
  intros Ht Hf. destruct b; simpl; [by apply Ht|]. intros s [] s' HI [= <-]. by apply Hf.
Qed.

(** What an invariant-preserving computation does under a status test. *)
Lemma triple_preserves {A} I (m : M S A) : preserves I m -> triple I m (fun _ => I).
Proof. intros Hm s a s' HI Hrun. specialize (Hm s HI). by rewrite Hrun in Hm. Qed.

End triples.

(** ** Properties of computations that compose

    [Compositional P]: the property [P] of computations holds of returns and stops, and is
    kept by sequencing and by the idiom that stores a status, goes on, and returns it. *)
Class Compositional {S : Type} (P : forall A, M S A -> Prop) : Prop := {
  comp_ret A (a : A) : P A (mret a);
  comp_stop A (o : outcome A) : P A (stop o);
  comp_bind A B (m : M S A) (f : A -> M S B) : P A m -> (forall a, P B (f a)) -> P B (m ≫= f);
  comp_status (m : M S unit) : P unit m -> P Z (status m);
}.

#[export] Instance preserves_compositional {S} (I : S -> Prop) :
  Compositional (fun A => @preserves S A I).
Proof.
  split; intros; [apply preserves_ret|apply preserves_stop|by apply preserves_bind|by apply preserves_status].
Qed.

(** [maintains I m]: when [m] returns, normally or with an error code, [I] is still true;
    when the process ends or hangs inside [m] nothing is said. *)
Definition maintains {S A} (I : S -> Prop) (m : M S A) : Prop :=
  forall s, I s -> match fst (m s) with Ret _ | Err _ => I (snd (m s)) | _ => True end.

#[export] Instance maintains_compositional {S} (I : S -> Prop) :
  Compositional (fun A => @maintains S A I).
Proof.
  split.
  - by intros A a s Hs.
  - intros A o s Hs. by destruct o.
  - intros A B m f Hm Hf s Hs. specialize (Hm s Hs). unfold mbind, M_bind.
    destruct (m s) as [[] s1]; simpl in *; try done. by apply Hf.
  - intros m Hm s Hs. specialize (Hm s Hs). unfold status. by destruct (m s) as [[] s1].
Qed.

Lemma maintains_Ret {S A} (I : S -> Prop) (m : M S A) s a s' :
  maintains I m -> I s -> m s = (Ret a, s') -> I s'.
Proof. intros Hm Hs Hrun. specialize (Hm s Hs). by rewrite Hrun in Hm. Qed.

Lemma triple_maintains {S A} (I : S -> Prop) (m : M S A) : maintains I m -> triple I m (fun _ => I).
Proof. intros Hm s a s' Hs. by apply maintains_Ret. Qed.

Lemma preserves_maintains {S A} (I : S -> Prop) (m : M S A) : preserves I m -> maintains I m.
Proof. intros Hm s Hs. specialize (Hm s Hs). by destruct (fst (m s)). Qed.

(** [returns I m Q E]: started with [I], [m] leaves [Q] when it returns a result and [E] when
    it returns an error code. *)
Definition returns {S A} (I : S -> Prop) (m : M S A) (Q : A -> S -> Prop) (E : Z -> S -> Prop) : Prop :=
  forall s, I s -> match m s with (Ret a, s') => Q a s' | (Err e, s') => E e s' | _ => True end.

Section returns.
Context {S : Type}.

Lemma returns_bind {A B} (I : S -> Prop) (m : M S A) (f : A -> M S B) Q K E :
  returns I m Q E -> (forall a, returns (Q a) (f a) K E) -> returns I (m ≫= f) K E.
Proof.
  intros Hm Hf s Hs. specialize (Hm s Hs). unfold mbind, M_bind.
  destruct (m s) as [[] s']; try done. by apply Hf.
Qed.

Lemma returns_ret {A} (a : A) (Q : A -> S -> Prop) E : returns (Q a) (mret a) Q E.
Proof. by intros s Hs. Qed.

Lemma returns_fail {A} e (Q : A -> S -> Prop) E : returns (E e) (fail e) Q E.
Proof. by intros s Hs. Qed.

Lemma returns_weaken {A} (I I' : S -> Prop) (m : M S A) (Q Q' : A -> S -> Prop) (E E' : Z -> S -> Prop) :
  (forall s, I' s -> I s) -> (forall a s, Q a s -> Q' a s) -> (forall e s, E e s -> E' e s) ->
  returns I m Q E -> returns I' m Q' E'.
Proof.
  intros HI HQ HE Hm s Hs. specialize (Hm s (HI s Hs)). destruct (m s) as [[] s']; auto.
Qed.

Lemma returns_preserves {A} (I : S -> Prop) (m : M S A) :
  preserves I m -> returns I m (fun _ => I) (fun _ => I).
Proof. intros Hm s Hs. specialize (Hm s Hs). by destruct (m s) as [[] s']. Qed.

Lemma returns_modify (I : S -> Prop) f (Q : unit -> S -> Prop) E :
  (forall s, I s -> Q tt (f s)) -> returns I (modify f) Q E.
Proof. intros H s Hs. by apply H. Qed.

(** Storing the status of [m], which returns no error code. *)
Lemma returns_status (I : S -> Prop) (m : M S unit) (Q : S -> Prop) E :
  returns I m (fun _ => Q) (fun _ _ => False) -> returns I (status m) (fun _ => Q) E.
Proof.
  intros Hm s Hs. specialize (Hm s Hs). unfold status. by destruct (m s) as [[] s'].
Qed.

End returns.

(** [total I m Q]: started with [I], [m] returns a result and leaves [Q]. *)
Definition total {S A} (I : S -> Prop) (m : M S A) (Q : A -> S -> Prop) : Prop :=
  forall s, I s -> exists a s', m s = (Ret a, s') /\ Q a s'.

Section total.
Context {S : Type}.

Lemma total_ret {A} (a : A) (Q : A -> S -> Prop) : total (Q a) (mret a) Q.
Proof. intros s Hs. by exists a, s. Qed.

Lemma total_gets {A} (f : S -> A) (Q : A -> S -> Prop) : total (fun s => Q (f s) s) (gets f) Q.
Proof. intros s Hs. by exists (f s), s. Qed.

Lemma total_modify (I : S -> Prop) f (Q : unit -> S -> Prop) :
  (forall s, I s -> Q tt (f s)) -> total I (modify f) Q.
Proof. intros H s Hs. exists tt, (f s). split; [done|by apply H]. Qed.

Lemma total_bind {A B} (I : S -> Prop) (m : M S A) (f : A -> M S B) Q K :
  total I m Q -> (forall a, total (Q a) (f a) K) -> total I (m ≫= f) K.
Proof.
  intros Hm Hf s Hs. destruct (Hm s Hs) as (a & s1 & H1 & HQ). destruct (Hf a s1 HQ) as (b & s2 & H2 & HK).
  exists b, s2. split; [|done]. by rewrite (bind_Ret _ _ _ _ _ H1).
Qed.

Lemma total_when b (I : S -> Prop) (m : M S unit) (Q : unit -> S -> Prop) :
  (b = true -> total I m Q) -> (b = false -> forall s, I s -> Q tt s) -> total I (when b m) Q.
Proof. intros Ht Hf. destruct b; [by apply Ht|]. intros s Hs. exists tt, s. split; [done|by apply Hf]. Qed.

Lemma total_status (I : S -> Prop) (m : M S unit) (Q : Z -> S -> Prop) :
  total I m (fun _ => Q 0) -> total I (status m) Q.
Proof.
  intros Hm s Hs. destruct (Hm s Hs) as ([] & s1 & H1 & HQ). exists 0, s1. split; [|done]. by apply status_Ret.
Qed.

Lemma total_weaken {A} (I I' : S -> Prop) (m : M S A) (Q Q' : A -> S -> Prop) :
  (forall s, I' s -> I s) -> (forall a s, Q a s -> Q' a s) -> total I m Q -> total I' m Q'.
Proof. intros HI HQ Hm s Hs. destruct (Hm s (HI s Hs)) as (a & s1 & H1 & H). eauto. Qed.

(** A fact about the state before. *)
Lemma total_assume {A} (I : S -> Prop) (X : Prop) (m : M S A) Q :
  (forall s, I s -> X) -> (X -> total I m Q) -> total I m Q.
Proof. intros HX Hm s Hs. by apply (Hm (HX s Hs)). Qed.

(** What holds of every return holds of this one. *)
Lemma total_returns {A} (I J : S -> Prop) (m : M S A) Q K E :
  total I m Q -> returns J m K E -> total (fun s => I s /\ J s) m (fun a s => Q a s /\ K a s).
Proof.
  intros Ht Hr s [HI HJ]. destruct (Ht s HI) as (a & s1 & H1 & HQ). specialize (Hr s HJ). rewrite H1 in Hr. eauto.
Qed.

Lemma total_zoom {X A} {H : Has S X} (I : S -> Prop) (m : M S A) Q (K : A -> X -> Prop) (J : X -> Prop) :
  total I m Q -> (forall x, J x -> I (prj x)) ->
  (forall x a t, J x -> Q a t -> K a (upd t x)) -> total J (zoom m) K.
Proof.
  intros Hm HI HK x Hx. destruct (Hm (prj x) (HI x Hx)) as (a & t & H1 & HQ). exists a, (upd t x).
  split; [|by apply HK]. by apply zoom_run.
Qed.

End total.

(** A computation that never returns an error code. *)
Definition no_error {S A} (m : M S A) : Prop := forall s e, fst (m s) <> Err e.

Lemma no_error_bind {S A B} (m : M S A) (f : A -> M S B) :
  no_error m -> (forall a, no_error (f a)) -> no_error (m ≫= f).
Proof.
  intros Hm Hf s e. specialize (Hm s). unfold mbind, M_bind.
  destruct (m s) as [[] s1]; simpl in *; try done; [apply Hf|by destruct (Hm e0)].
Qed.
Lemma returns_no_error {S A} (I : S -> Prop) (m : M S A) E :
  preserves I m -> no_error m -> returns I m (fun _ => I) E.
Proof.
  intros Hm Hne s Hs. specialize (Hm s Hs). specialize (Hne s).
  destruct (m s) as [[] s']; try done. by destruct (Hne e).
Qed.
Lemma no_error_status {S} (m : M S unit) : no_error (status m).
Proof. intros s e. unfold status. by destruct (m s) as [[] ?]. Qed.
Lemma no_error_when {S} b (m : M S unit) : no_error m -> no_error (when b m).
Proof. by destruct b. Qed.

(** What returns keeps [I]; what cannot return an error code needs no more. *)
Lemma maintains_triple {S A} (I : S -> Prop) (m : M S A) :
  triple I m (fun _ => I) -> no_error m -> maintains I m.
Proof.
  intros Hm Hne s Hs. specialize (Hne s). destruct (m s) as [[] s1] eqn:E; simpl in *; try done.
  - by eapply Hm.
  - by destruct (Hne e).
Qed.

(** ** Lists *)

Lemma filter_iff_in {A} (P Q : A -> Prop) `{!forall x, Decision (P x), !forall x, Decision (Q x)}
  (l : list A) :
  (forall x, x ∈ l -> P x <-> Q x) -> filter P l = filter Q l.
Proof.
  induction l as [|a l IH]; intros HPQ; [done|]. rewrite !filter_cons.
  assert (Ha : P a <-> Q a) by (apply HPQ; by left).
  assert (IH' : filter P l = filter Q l) by (apply IH; intros x Hx; apply HPQ; by right).
  rewrite IH'. repeat case_decide; tauto.
Qed.

(** ** Success refinement

    [m1 ⊑ m2]: whenever [m1] returns normally, [m2] returns the same value in the
    same state. It relates a library of which only the documented behaviour on
    legal calls is known to a reference definition of that behaviour. *)
#[export] Instance M_refines S A : SqSubsetEq (M S A) := fun m1 m2 =>
  forall s a s', m1 s = (Ret a, s') -> m2 s = (Ret a, s').

#[export] Instance M_refines_preorder S A : PreOrder (⊑@{M S A}).
Proof. split; [by intros m s|intros m1 m2 m3 H1 H2 s a s' H; eauto]. Qed.

Section refines.
Context {S : Type}.

Lemma refines_bind {A B} (m1 m2 : M S A) (f1 f2 : A -> M S B) :
  m1 ⊑ m2 -> (forall a, f1 a ⊑ f2 a) -> (m1 ≫= f1) ⊑ (m2 ≫= f2).
Proof.
  intros Hm Hf s b s' H. apply bind_Ret_inv in H as (a & s1 & H1 & H2).
  rewrite (bind_Ret _ _ _ _ _ (Hm _ _ _ H1)). by apply Hf.
Qed.

#[export] Instance mbind_refines_proper {A B} :
  Proper (pointwise_relation A (⊑@{M S B}) ==> (⊑@{M S A}) ==> (⊑@{M S B})) (mbind (M := M S)).
Proof. intros f1 f2 Hf m1 m2 Hm. by apply refines_bind. Qed.

Lemma refines_when b (m1 m2 : M S unit) : m1 ⊑ m2 -> when b m1 ⊑ when b m2.
Proof. by destruct b. Qed.

Lemma refines_zoom {T A} `{Has S T} (m1 m2 : M S A) :
  m1 ⊑ m2 -> zoom (X := T) m1 ⊑ zoom m2.
Proof.
  intros Hm x a x' Hx. unfold zoom in *.
  destruct (m1 (prj x)) as [o t] eqn:E. simplify_eq. by rewrite (Hm _ _ _ E).
Qed.

End refines.

#[export] Hint Resolve refines_bind refines_when refines_zoom : bw.

(** Split a refinement goal along the structure of the two programs. *)
Ltac refine_step :=
  lazymatch goal with
  | |- ?m ⊑ ?m => reflexivity
  | |- mbind _ _ ⊑ mbind _ _ => apply refines_bind; [|intros ?]
  | |- when _ _ ⊑ when _ _ => apply refines_when
  | |- zoom _ ⊑ zoom _ => apply refines_zoom
  | |- (if ?b then _ else _) ⊑ (if ?b then _ else _) => destruct b
  | |- match ?x with _ => _ end ⊑ match ?x with _ => _ end => destruct x
  end.
Ltac refine_all := repeat refine_step; eauto with bw.
