(* ===== verification/Avro.v ===== *)
(** * The Avro library as the program uses it

    libavro is linked, not part of the repository. This file states the part of
    its interface the program relies on: Avro schemas and generic values as data,
    the operations of the value API as a record [avro_lib] of functions, and the
    class [AvroConforms] of the documented behaviour of these functions on legal
    calls (headers [avro/value.h], [avro/schema.h], [avro/io.h]). The models of
    the program take the library as an argument; the theorems hold for every
    conforming library. [AvroBinary] has an instance. *)

From S2P Require Import Prelude.
Open Scope Z_scope.
Set Warnings "-register-all".

(** ** Schemas *)

(** A schema is what the [avro_schema_*] constructors build. A link holds the
    named schema it points to. *)
Inductive avro_schema : Type :=
| SNull
| SBoolean
| SInt
| SLong
| SFloat
| SDouble
| SBytes
| SString
| SEnum (name : string) (symbols : list string)
| SRecord (name ns : string) (fields : list (string * avro_schema))
| SArray (items : avro_schema)
| SUnion (branches : list avro_schema)
| SLink (to : avro_schema).

(** [avro_schema_record_field_append], [avro_schema_union_append] and
    [avro_schema_enum_symbol_append] add at the end. *)
Definition avro_schema_record_field_append (r : avro_schema) (f : string) (s : avro_schema)
  : avro_schema :=
  match r with
  | SRecord name ns fs => SRecord name ns (fs ++ [(f, s)])
  | _ => r
  end.
Definition avro_schema_union_append (u s : avro_schema) : avro_schema :=
  match u with
  | SUnion bs => SUnion (bs ++ [s])
  | _ => u
  end.
Definition avro_schema_enum_symbol_append (e : avro_schema) (sym : string) : avro_schema :=
  match e with
  | SEnum name syms => SEnum name (syms ++ [sym])
  | _ => e
  end.
Definition avro_schema_union_size (u : avro_schema) : Z :=
  match u with
  | SUnion bs => Z.of_nat (length bs)
  | _ => 0
  end.

(** [avro_schema_name]: the name of a named schema. *)
Fixpoint avro_schema_name (s : avro_schema) : string :=
  match s with
  | SEnum name _ | SRecord name _ _ => name
  | SLink s => avro_schema_name s
  | _ => ""
  end.

Definition avro_schema_fields (s : avro_schema) : list (string * avro_schema) :=
  match s with
  | SRecord _ _ fs => fs
  | _ => []
  end.

(** *** Valid schemas

    The Avro specification restricts names to letters, digits and underscore, not
    starting with a digit, a named type is defined once, and a union does not hold a
    union. libavro reads back the JSON text of such schemas. *)
Definition name_start (c : Ascii.ascii) : bool :=
  let n := Ascii.nat_of_ascii c in
  ((65 <=? n) && (n <=? 90) || (97 <=? n) && (n <=? 122) || (n =? 95))%nat.
Definition name_char (c : Ascii.ascii) : bool :=
  let n := Ascii.nat_of_ascii c in (name_start c || (48 <=? n) && (n <=? 57))%nat.
Definition valid_name (s : string) : bool :=
  match String.list_ascii_of_string s with
  | [] => false
  | c :: cs => name_start c && forallb name_char cs
  end.

Definition is_union (s : avro_schema) : bool :=
  match s with SUnion _ => true | _ => false end.

Fixpoint names_ok (s : avro_schema) : bool :=
  match s with
  | SEnum n syms => valid_name n && forallb valid_name syms && bool_decide (NoDup syms)
  | SRecord n _ fs =>
      valid_name n && forallb (fun f => valid_name f.1 && names_ok f.2) fs &&
      bool_decide (NoDup (map fst fs))
  | SArray s => names_ok s
  | SUnion bs => forallb (fun b => negb (is_union b) && names_ok b) bs
  | _ => true
  end.

(** The names a schema defines (a link defines nothing). *)
Fixpoint defined_names (s : avro_schema) : list string :=
  match s with
  | SEnum n _ => [n]
  | SRecord n ns fs => (ns +:+ "." +:+ n) :: concat (map (fun f => defined_names f.2) fs)
  | SArray s => defined_names s
  | SUnion bs => concat (map defined_names bs)
  | _ => []
  end.

Definition valid_schema (s : avro_schema) : bool :=
  names_ok s && bool_decide (NoDup (defined_names s)).

(** ** Values *)

(** A generic value. Arrays and unions know the schemas of what they can hold;
    floating point numbers are kept as their bit patterns; a string is kept without
    its terminating NUL. *)
Inductive avro_value : Type :=
| VNull
| VBoolean (b : bool)
| VInt (z : Z)
| VLong (z : Z)
| VFloat (bits : Z)
| VDouble (bits : Z)
| VBytes (l : list Z)
| VString (l : list Z)
| VEnum (z : Z)
| VRecord (fields : list avro_value)
| VArray (items : avro_schema) (elems : list avro_value)
| VUnion (branches : list avro_schema) (disc : Z) (branch : avro_value).

(** A union in which no branch has been selected yet. *)
Definition unset_union (bs : list avro_schema) : avro_value := VUnion bs (-1) VNull.

(** [avro_generic_value_new]: the default value of a schema. *)
Fixpoint default_value (s : avro_schema) : avro_value :=
  match s with
  | SNull => VNull
  | SBoolean => VBoolean false
  | SInt => VInt 0
  | SLong => VLong 0
  | SFloat => VFloat 0
  | SDouble => VDouble 0
  | SBytes => VBytes []
  | SString => VString []
  | SEnum _ _ => VEnum 0
  | SRecord _ _ fs => VRecord (map (fun f => default_value f.2) fs)
  | SArray s => VArray s []
  | SUnion bs => unset_union bs
  | SLink s => default_value s
  end.

(** [avro_value_reset]: back to the default value. *)
Fixpoint vreset (v : avro_value) : avro_value :=
  match v with
  | VNull => VNull
  | VBoolean _ => VBoolean false
  | VInt _ => VInt 0
  | VLong _ => VLong 0
  | VFloat _ => VFloat 0
  | VDouble _ => VDouble 0
  | VBytes _ => VBytes []
  | VString _ => VString []
  | VEnum _ => VEnum 0
  | VRecord fs => VRecord (map vreset fs)
  | VArray s _ => VArray s []
  | VUnion bs _ _ => unset_union bs
  end.

(** [has_schema s v]: [v] is a complete value of schema [s], every union in it
    having a branch selected, every number in the range of its type. *)
Inductive has_schema : avro_schema -> avro_value -> Prop :=
| HS_null : has_schema SNull VNull
| HS_boolean b : has_schema SBoolean (VBoolean b)
| HS_int z : is_s32 z -> has_schema SInt (VInt z)
| HS_long z : is_s64 z -> has_schema SLong (VLong z)
| HS_float z : is_u32 z -> has_schema SFloat (VFloat z)
| HS_double z : is_u64 z -> has_schema SDouble (VDouble z)
| HS_bytes l : Forall is_byte l -> Z.of_nat (length l) < 2 ^ 63 -> has_schema SBytes (VBytes l)
| HS_string l : Forall is_byte l -> Z.of_nat (length l) < 2 ^ 63 -> has_schema SString (VString l)
| HS_enum n syms z :
    0 <= z < Z.of_nat (length syms) -> is_s32 z -> has_schema (SEnum n syms) (VEnum z)
| HS_record n ns fs vs :
    Forall2 has_schema (map snd fs) vs -> has_schema (SRecord n ns fs) (VRecord vs)
| HS_array s vs :
    Forall (has_schema s) vs -> Z.of_nat (length vs) < 2 ^ 63 ->
    has_schema (SArray s) (VArray s vs)
| HS_union bs d s v :
    0 <= d < 2 ^ 31 -> bs !! Z.to_nat d = Some s -> has_schema s v ->
    has_schema (SUnion bs) (VUnion bs d v)
| HS_link s v : has_schema s v -> has_schema (SLink s) v.

(** ** References into a value

    An [avro_value_t] the program holds is a reference into the value it was
    obtained from: a path of child indices. The current branch of a union is its
    child 0. *)
Abbreviation path := (list nat).

Fixpoint vget (v : avro_value) (p : path) : option avro_value :=
  match p with
  | [] => Some v
  | i :: p =>
      match v with
      | VRecord vs | VArray _ vs => c ← vs !! i; vget c p
      | VUnion _ d b => if decide (i = 0%nat /\ 0 <= d) then vget b p else None
      | _ => None
      end
  end.

Fixpoint vupd (f : avro_value -> option avro_value) (v : avro_value) (p : path)
  : option avro_value :=
  match p with
  | [] => f v
  | i :: p =>
      match v with
      | VRecord vs => c ← vs !! i; c' ← vupd f c p; Some (VRecord (<[i := c']> vs))
      | VArray s vs => c ← vs !! i; c' ← vupd f c p; Some (VArray s (<[i := c']> vs))
      | VUnion bs d b =>
          if decide (i = 0%nat /\ 0 <= d)
          then b' ← vupd f b p; Some (VUnion bs d b') else None
      | _ => None
      end
  end.

Lemma vupd_app f v p q :
  vupd f v (p ++ q) = vupd (fun w => vupd f w q) v p.
Proof.
  revert v. induction p as [|i p IH]; intros v; [done|].
  destruct v; simpl; try done.
  - destruct (fields !! i); simpl; [by rewrite IH|done].
  - destruct (elems !! i); simpl; [by rewrite IH|done].
  - case_decide; [by rewrite IH|done].
Qed.

Lemma vupd_ext f g v p : (forall w, f w = g w) -> vupd f v p = vupd g v p.
Proof.
  intros Hfg. revert v. induction p as [|i p IH]; intros v; [apply Hfg|].
  destruct v; simpl; try done.
  - destruct (fields !! i); simpl; [by rewrite IH|done].
  - destruct (elems !! i); simpl; [by rewrite IH|done].
  - by rewrite IH.
Qed.

Lemma vget_app v p q w : vget v p = Some w -> vget v (p ++ q) = vget w q.
Proof.
  revert v. induction p as [|i p IH]; intros v H; simpl in *; [by simplify_eq|].
  destruct v; simpl in *; try done.
  - destruct (fields !! i); simpl in *; [eauto|done].
  - destruct (elems !! i); simpl in *; [eauto|done].
  - case_decide; [eauto|done].
Qed.

(** ** The reference behaviour of the value API *)

Section reference.

Definition ref_get {A} (p : path) (f : avro_value -> option A) : M avro_value A := fun v =>
  match vget v p ≫= f with
  | Some a => (Ret a, v)
  | None => (Err EINVAL, v)
  end.

Definition ref_set (p : path) (f : avro_value -> option avro_value) : M avro_value unit :=
  fun v =>
  match vupd f v p with
  | Some v' => (Ret tt, v')
  | None => (Err EINVAL, v)
  end.

(** For records and arrays, the element with the given index. *)
Definition ref_get_by_index (p : path) (i : nat) : M avro_value path :=
  ref_get p (fun v =>
    match v with
    | VRecord vs | VArray _ vs => if decide (i < length vs)%nat then Some (p ++ [i]) else None
    | _ => None
    end).

(** Number of elements of an array or record. *)
Definition ref_get_size (p : path) : M avro_value nat :=
  ref_get p (fun v =>
    match v with VRecord vs | VArray _ vs => Some (length vs) | _ => None end).

Definition ref_get_discriminant (p : path) : M avro_value Z :=
  ref_get p (fun v =>
    match v with VUnion _ d _ => if decide (0 <= d) then Some d else None | _ => None end).

Definition ref_get_current_branch (p : path) : M avro_value path :=
  ref_get p (fun v =>
    match v with
    | VUnion _ d _ => if decide (0 <= d) then Some (p ++ [0%nat]) else None
    | _ => None
    end).

Definition ref_get_long (p : path) : M avro_value Z :=
  ref_get p (fun v => match v with VLong z => Some z | _ => None end).

Definition ref_get_bytes (p : path) : M avro_value (list Z) :=
  ref_get p (fun v => match v with VBytes l => Some l | _ => None end).

(** The result is NUL-terminated; the size includes the terminator. *)
Definition ref_get_string (p : path) : M avro_value (list Z * Z) :=
  ref_get p (fun v =>
    match v with VString l => Some (l ++ [0], Z.of_nat (length l) + 1) | _ => None end).

(** Creates a new array element. *)
Definition ref_append (p : path) : M avro_value path := fun v =>
  match vget v p with
  | Some (VArray s vs) =>
      (_ ← ref_set p (fun w =>
         match w with VArray s vs => Some (VArray s (vs ++ [default_value s])) | _ => None end);
       mret (p ++ [length vs])) v
  | _ => (Err EINVAL, v)
  end.

(** Selects a union branch. *)
Definition ref_set_branch (p : path) (d : Z) : M avro_value path :=
  _ ← ref_set p (fun w =>
    match w with
    | VUnion bs _ _ =>
        if decide (0 <= d) then
          s ← bs !! Z.to_nat d; Some (VUnion bs d (default_value s))
        else None
    | _ => None
    end);
  mret (p ++ [0%nat]).

Definition ref_reset (p : path) : M avro_value unit := ref_set p (fun w => Some (vreset w)).

Definition ref_set_boolean (p : path) (b : bool) : M avro_value unit :=
  ref_set p (fun w => match w with VBoolean _ => Some (VBoolean b) | _ => None end).
Definition ref_set_int (p : path) (z : Z) : M avro_value unit :=
  ref_set p (fun w => match w with VInt _ => Some (VInt z) | _ => None end).
Definition ref_set_long (p : path) (z : Z) : M avro_value unit :=
  ref_set p (fun w => match w with VLong _ => Some (VLong z) | _ => None end).
Definition ref_set_float (p : path) (z : Z) : M avro_value unit :=
  ref_set p (fun w => match w with VFloat _ => Some (VFloat z) | _ => None end).
Definition ref_set_double (p : path) (z : Z) : M avro_value unit :=
  ref_set p (fun w => match w with VDouble _ => Some (VDouble z) | _ => None end).
Definition ref_set_enum (p : path) (z : Z) : M avro_value unit :=
  ref_set p (fun w => match w with VEnum _ => Some (VEnum z) | _ => None end).
Definition ref_set_bytes (p : path) (l : list Z) : M avro_value unit :=
  ref_set p (fun w => match w with VBytes _ => Some (VBytes l) | _ => None end).
(** The size given with the string must include the NUL terminator. *)
Definition ref_set_string_len (p : path) (l : list Z) (size : Z) : M avro_value unit :=
  ref_set p (fun w =>
    match w with
    | VString _ =>
        if decide (1 <= size <= Z.of_nat (length l) /\ l !! Z.to_nat (size - 1) = Some 0)
        then Some (VString (take (Z.to_nat (size - 1)) l)) else None
    | _ => None
    end).

End reference.

(** ** In-memory writers and readers *)

(** A memory writer: the capacity of its buffer and the bytes written so far. *)
Record avro_writer : Type := AvroWriter { w_cap : Z; w_data : list Z }.

Definition avro_writer_memory (cap : Z) : avro_writer := AvroWriter cap [].
Definition avro_writer_tell (w : avro_writer) : Z := Z.of_nat (length (w_data w)).
Definition writer_fits (w : avro_writer) (bs : list Z) : Prop :=
  avro_writer_tell w + Z.of_nat (length bs) <= w_cap w.
Definition writer_push (w : avro_writer) (bs : list Z) : avro_writer :=
  AvroWriter (w_cap w) (w_data w ++ bs).

#[export] Instance writer_fits_dec w bs : Decision (writer_fits w bs).
Proof. unfold writer_fits; apply _. Defined.

(** [m] writes exactly [bs]: it appends them if they fit in the buffer, and
    otherwise returns ENOSPC. *)
Definition writes (m : M avro_writer unit) (bs : list Z) : Prop :=
  (forall w, writer_fits w bs -> m w = (Ret tt, writer_push w bs)) /\
  (forall w, ~ writer_fits w bs -> exists w', m w = (Err ENOSPC, w')).

(** ** The library *)

Record avro_lib : Type := AvroLib {
  avro_value_reset : path -> M avro_value unit;
  avro_value_get_by_index : path -> nat -> M avro_value path;
  avro_value_get_size : path -> M avro_value nat;
  avro_value_get_discriminant : path -> M avro_value Z;
  avro_value_get_current_branch : path -> M avro_value path;
  avro_value_get_long : path -> M avro_value Z;
  avro_value_get_bytes : path -> M avro_value (list Z);
  avro_value_get_string : path -> M avro_value (list Z * Z);
  avro_value_append : path -> M avro_value path;
  avro_value_set_branch : path -> Z -> M avro_value path;
  avro_value_set_boolean : path -> bool -> M avro_value unit;
  avro_value_set_int : path -> Z -> M avro_value unit;
  avro_value_set_long : path -> Z -> M avro_value unit;
  avro_value_set_float : path -> Z -> M avro_value unit;
  avro_value_set_double : path -> Z -> M avro_value unit;
  avro_value_set_enum : path -> Z -> M avro_value unit;
  avro_value_set_bytes : path -> list Z -> M avro_value unit;
  avro_value_set_string_len : path -> list Z -> Z -> M avro_value unit;
  (* binary encoding *)
  avro_write : list Z -> M avro_writer unit;
  avro_value_write : avro_value -> M avro_writer unit;
  avro_value_read : M (list Z * avro_value) unit;
  avro_skip : Z -> M (list Z * avro_value) unit;
  (* schemas as JSON text *)
  avro_schema_to_json : avro_schema -> M avro_writer unit;
  avro_schema_from_json_length : list Z -> Z -> outcome avro_schema;
  avro_value_to_json : avro_value -> outcome (list Z);
  (* what the library writes *)
  encode : avro_value -> list Z;
  schema_json : avro_schema -> list Z;
}.

(** [avro_value_set_string] takes a NUL-terminated string. *)
Definition avro_value_set_string (L : avro_lib) (p : path) (str : list Z) : M avro_value unit :=
  avro_value_set_string_len L p (str ++ [0]) (Z.of_nat (length str) + 1).

(** The documented behaviour. On legal calls the value API does what the
    reference operations do; what it does on other calls is left open. Reading the
    encoding of a value into a value of the same schema gives the value back and
    leaves the rest of the buffer; skipping past the end of the buffer is ENOSPC. *)
Class AvroConforms (L : avro_lib) : Prop := {
  conf_reset p : ref_reset p ⊑ avro_value_reset L p;
  conf_get_by_index p i : ref_get_by_index p i ⊑ avro_value_get_by_index L p i;
  conf_get_size p : ref_get_size p ⊑ avro_value_get_size L p;
  conf_get_discriminant p : ref_get_discriminant p ⊑ avro_value_get_discriminant L p;
  conf_get_current_branch p : ref_get_current_branch p ⊑ avro_value_get_current_branch L p;
  conf_get_long p : ref_get_long p ⊑ avro_value_get_long L p;
  conf_get_bytes p : ref_get_bytes p ⊑ avro_value_get_bytes L p;
  conf_get_string p : ref_get_string p ⊑ avro_value_get_string L p;
  conf_append p : ref_append p ⊑ avro_value_append L p;
  conf_set_branch p d : ref_set_branch p d ⊑ avro_value_set_branch L p d;
  conf_set_boolean p b : ref_set_boolean p b ⊑ avro_value_set_boolean L p b;
  conf_set_int p z : ref_set_int p z ⊑ avro_value_set_int L p z;
  conf_set_long p z : ref_set_long p z ⊑ avro_value_set_long L p z;
  conf_set_float p z : ref_set_float p z ⊑ avro_value_set_float L p z;
  conf_set_double p z : ref_set_double p z ⊑ avro_value_set_double L p z;
  conf_set_enum p z : ref_set_enum p z ⊑ avro_value_set_enum L p z;
  conf_set_bytes p l : ref_set_bytes p l ⊑ avro_value_set_bytes L p l;
  conf_set_string_len p l n : ref_set_string_len p l n ⊑ avro_value_set_string_len L p l n;
  conf_write bs : writes (avro_write L bs) bs;
  conf_value_write s v : has_schema s v -> writes (avro_value_write L v) (encode L v);
  conf_encode_bytes s v : has_schema s v -> Forall is_byte (encode L v);
  conf_value_read s v v0 rest :
    has_schema s v -> vreset v0 = default_value s ->
    avro_value_read L (encode L v ++ rest, v0) = (Ret tt, (rest, v));
  conf_skip_end v : exists st, avro_skip L 1 ([], v) = (Err ENOSPC, st);
  conf_skip_more b l v : exists st, avro_skip L 1 (b :: l, v) = (Ret tt, st);
  conf_schema_to_json s : valid_schema s = true -> writes (avro_schema_to_json L s) (schema_json L s);
  conf_json_bytes s : valid_schema s = true -> Forall (fun b => is_byte b /\ b <> 0) (schema_json L s);
  conf_schema_from_json s rest :
    valid_schema s = true ->
    avro_schema_from_json_length L (schema_json L s ++ rest)
      (Z.of_nat (length (schema_json L s))) = Ret s;
}.

#[export] Hint Resolve conf_reset conf_get_by_index conf_get_size conf_get_discriminant
  conf_get_current_branch conf_get_long conf_get_bytes conf_get_string conf_append
  conf_set_branch conf_set_boolean conf_set_int conf_set_long conf_set_float conf_set_double
  conf_set_enum conf_set_bytes conf_set_string_len : bw.

(** ** Working at a place inside a value

    A context [C] at [p] is a value with a hole at [p]: reading and writing below
    [p] only concerns what fills the hole. *)
Record is_ctx (p : path) (C : avro_value -> avro_value) : Prop := {
  ctx_get x q : vget (C x) (p ++ q) = vget x q;
  ctx_upd f x q : vupd f (C x) (p ++ q) = C <$> vupd f x q;
}.

Lemma is_ctx_id : is_ctx [] (fun x => x).
Proof. split; [done|]. intros f x q. simpl. by destruct (vupd f x q). Qed.

Lemma is_ctx_field vs i :
  (i < length vs)%nat -> is_ctx [i] (fun x => VRecord (<[i := x]> vs)).
Proof.
  intros Hi. split; [intros x q|intros f x q]; simpl; rewrite list_lookup_insert_eq by done; simpl;
    [done|].
  destruct (vupd f x q); simpl; [|done]. by rewrite list_insert_insert_eq.
Qed.

Lemma is_ctx_middle done rest :
  is_ctx [length done] (fun x => VRecord (done ++ x :: rest)).
Proof.
  split; [intros x q|intros f x q]; simpl; rewrite list_lookup_middle by reflexivity; simpl; [reflexivity|].
  destruct (vupd f x q); simpl; [|reflexivity].
  by rewrite insert_app_r_alt, Nat.sub_diag by reflexivity.
Qed.

Lemma is_ctx_comp p q C D :
  is_ctx p C -> is_ctx q D -> is_ctx (p ++ q) (fun x => C (D x)).
Proof.
  intros HC HD. split; [intros x r|intros f x r]; rewrite <- (assoc_L (++)).
  - by rewrite (ctx_get _ _ HC), (ctx_get _ _ HD).
  - rewrite (ctx_upd _ _ HC), (ctx_upd _ _ HD). by destruct (vupd f x r).
Qed.

(** The current branch of a union in a context is a place of its own. *)
Lemma is_ctx_branch p C bs d :
  0 <= d -> is_ctx p C -> is_ctx (p ++ [0%nat]) (fun x => C (VUnion bs d x)).
Proof.
  intros Hd HC. split; [intros x q|intros f x q]; rewrite <- (assoc_L (++)).
  - rewrite (ctx_get _ _ HC). simpl. by rewrite decide_True.
  - rewrite (ctx_upd _ _ HC). simpl. rewrite decide_True by done. by destruct (vupd f x q).
Qed.

Section context_runs.
Context {p : path} {C : avro_value -> avro_value} (HC : is_ctx p C).

Lemma ctx_ref_get {A} r q x (f : avro_value -> option A) w a :
  r = p ++ q -> vget x q = Some w -> f w = Some a -> ref_get r f (C x) = (Ret a, C x).
Proof. intros -> Hw Ha. unfold ref_get. rewrite (ctx_get _ _ HC), Hw. simpl. by rewrite Ha. Qed.

Lemma ctx_ref_set r q x f x' :
  r = p ++ q -> vupd f x q = Some x' -> ref_set r f (C x) = (Ret tt, C x').
Proof. intros -> Hx. unfold ref_set. by rewrite (ctx_upd _ _ HC), Hx. Qed.

Lemma ctx_ref_set_branch r q d x x' :
  r = p ++ q ->
  vupd (fun w =>
    match w with
    | VUnion bs _ _ =>
        if decide (0 <= d) then s ← bs !! Z.to_nat d; Some (VUnion bs d (default_value s))
        else None
    | _ => None
    end) x q = Some x' ->
  ref_set_branch r d (C x) = (Ret (r ++ [0%nat]), C x').
Proof.
  intros Hr H. unfold ref_set_branch. erewrite bind_Ret; [done|]. by eapply ctx_ref_set.
Qed.

End context_runs.

(** A step of a conforming library where the reference operation succeeds. *)
Lemma lib_bind {A B} (r m : M avro_value A) (f : A -> M avro_value B) v a v' :
  r ⊑ m -> r v = (Ret a, v') -> (m ≫= f) v = f a v'.
Proof. intros Hr H. apply bind_Ret, Hr, H. Qed.
Lemma lib_last {A} (r m : M avro_value A) v a v' :
  r ⊑ m -> r v = (Ret a, v') -> m v = (Ret a, v').
Proof. intros Hr H. apply Hr, H. Qed.

Ltac conf :=
  first [ apply conf_get_by_index | apply conf_append | apply conf_set_branch
        | apply conf_set_long | apply conf_set_bytes | apply conf_set_string_len
        | apply conf_get_long | apply conf_get_bytes | apply conf_get_string
        | apply conf_get_discriminant | apply conf_get_current_branch | apply conf_get_size
        | apply conf_reset | apply conf_set_boolean | apply conf_set_int
        | apply conf_set_float | apply conf_set_double | apply conf_set_enum ].

(** [r = p ++ ?q] for a path [r] that extends [p]. *)
Ltac path_eq := rewrite <- ?app_assoc; simpl; first [reflexivity | symmetry; apply app_nil_r].

(** Run one library call at a place below the context [HC]. *)
Ltac ctx_run HC :=
  first [ eapply (ctx_ref_set_branch HC); [path_eq|reflexivity]
        | eapply (ctx_ref_get HC); [path_eq|reflexivity|reflexivity]
        | eapply (ctx_ref_set HC); [path_eq|reflexivity] ].
Ltac ctx_step HC := etrans; [eapply lib_bind; [conf|ctx_run HC]|].
Ltac ctx_last HC := eapply lib_last; [conf|ctx_run HC].
