(* ===== verification/AvroBinary.v ===== *)
(** * A conforming Avro library

    The Avro binary encoding (zig-zag variable-length integers, length-prefixed
    bytes and strings, array blocks, union indices) with its decoder, the proof
    that decoding inverts encoding, and [ref_lib], the library made of the
    reference operations of [Avro]. The instance shows that the hypotheses of the
    theorems about the program can hold, and lets their witnesses run. *)

From S2P Require Import Prelude Avro.
Open Scope Z_scope.

(** ** Variable-length integers *)

Definition zigzag (z : Z) : Z := if decide (0 <= z) then 2 * z else - 2 * z - 1.
Definition unzigzag (n : Z) : Z := if Z.even n then n / 2 else - ((n + 1) / 2).

Fixpoint enc_varint (fuel : nat) (n : Z) : list Z :=
  match fuel with
  | O => []
  | S fuel => if decide (n < 128) then [n] else (n mod 128 + 128) :: enc_varint fuel (n / 128)
  end.

Fixpoint dec_varint (fuel : nat) (l : list Z) : option (Z * list Z) :=
  match fuel, l with
  | S fuel, b :: l =>
      if decide (b < 128) then Some (b, l)
      else '(n, l') ← dec_varint fuel l; Some (b - 128 + 128 * n, l')
  | _, _ => None
  end.

Definition enc_long (z : Z) : list Z := enc_varint 10 (zigzag z).
Definition dec_long (l : list Z) : option (Z * list Z) :=
  '(n, l') ← dec_varint 10 l; Some (unzigzag n, l').

Lemma unzigzag_zigzag z : unzigzag (zigzag z) = z.
Proof.
  unfold unzigzag, zigzag. case_decide.
  - rewrite Z.even_mul. simpl. rewrite Z.mul_comm, Z.div_mul; lia.
  - replace (-2 * z - 1) with (-1 + 2 * (- z)) by lia.
    rewrite Z.even_add_mul_2. simpl.
    replace (-1 + 2 * - z + 1) with (- z * 2) by lia. rewrite Z.div_mul; lia.
Qed.

Lemma dec_enc_varint fuel n rest :
  (0 < fuel)%nat -> 0 <= n < 128 ^ Z.of_nat fuel ->
  dec_varint fuel (enc_varint fuel n ++ rest) = Some (n, rest).
Proof.
  revert n. induction fuel as [|fuel IH]; intros n Hf Hn; [lia|].
  rewrite Nat2Z.inj_succ, Z.pow_succ_r in Hn by lia. simpl.
  case_decide as Hs; simpl.
  - by rewrite decide_True by lia.
  - rewrite decide_False by (Z.to_euclidean_division_equations; lia). rewrite IH.
    + simpl. do 2 f_equal. pose proof (Z.div_mod n 128). lia.
    + destruct fuel; [simpl in Hn; lia|lia].
    + split; [apply Z.div_pos; lia|]. apply Z.div_lt_upper_bound; lia.
Qed.

Lemma enc_varint_bytes fuel n : 0 <= n -> Forall is_byte (enc_varint fuel n).
Proof.
  revert n. induction fuel as [|fuel IH]; intros n Hn; simpl; [constructor|].
  case_decide; [repeat constructor; int_lia|].
  constructor; [unfold is_byte; Z.to_euclidean_division_equations; lia|].
  apply IH, Z.div_pos; lia.
Qed.

Lemma zigzag_nonneg z : 0 <= zigzag z.
Proof. unfold zigzag. case_decide; lia. Qed.

Lemma dec_enc_long z rest : is_s64 z -> dec_long (enc_long z ++ rest) = Some (z, rest).
Proof.
  intros Hz. unfold dec_long, enc_long. rewrite dec_enc_varint.
  - simpl. by rewrite unzigzag_zigzag.
  - lia.
  - change (128 ^ Z.of_nat 10) with (2 ^ 70). unfold is_s64 in Hz.
    unfold zigzag. case_decide; lia.
Qed.

Lemma enc_long_bytes z : Forall is_byte (enc_long z).
Proof. apply enc_varint_bytes, zigzag_nonneg. Qed.

(** ** Fixed-width little-endian words (float and double) *)

Fixpoint enc_le (n : nat) (v : Z) : list Z :=
  match n with
  | O => []
  | S n => v mod 256 :: enc_le n (v / 256)
  end.
Fixpoint dec_le (n : nat) (l : list Z) : option (Z * list Z) :=
  match n, l with
  | O, _ => Some (0, l)
  | S n, b :: l => '(v, l') ← dec_le n l; Some (b + 256 * v, l')
  | S _, [] => None
  end.

Lemma dec_enc_le n v rest :
  0 <= v < 256 ^ Z.of_nat n -> dec_le n (enc_le n v ++ rest) = Some (v, rest).
Proof.
  revert v. induction n as [|n IH]; intros v Hv; simpl.
  { simpl in Hv. do 2 f_equal. lia. }
  rewrite Nat2Z.inj_succ, Z.pow_succ_r in Hv by lia.
  rewrite IH; simpl.
  - do 2 f_equal. pose proof (Z.div_mod v 256). lia.
  - split; [apply Z.div_pos; lia|]. apply Z.div_lt_upper_bound; lia.
Qed.

Lemma enc_le_bytes n v : Forall is_byte (enc_le n v).
Proof.
  revert v. induction n; intros v; simpl; constructor; auto.
  unfold is_byte. apply Z.mod_pos_bound. lia.
Qed.

(** ** Values *)

Fixpoint enc (v : avro_value) : list Z :=
  match v with
  | VNull => []
  | VBoolean b => [if b then 1 else 0]
  | VInt z | VLong z | VEnum z => enc_long z
  | VFloat z => enc_le 4 z
  | VDouble z => enc_le 8 z
  | VBytes l | VString l => enc_long (Z.of_nat (length l)) ++ l
  | VRecord vs => concat (map enc vs)
  | VArray _ [] => enc_long 0
  | VArray _ vs => enc_long (Z.of_nat (length vs)) ++ concat (map enc vs) ++ enc_long 0
  | VUnion _ d b => enc_long d ++ enc b
  end.

Definition take_bytes (n : Z) (l : list Z) : option (list Z * list Z) :=
  if decide (0 <= n <= Z.of_nat (length l))
  then Some (take (Z.to_nat n) l, drop (Z.to_nat n) l) else None.

(** [n] values read one after another by [d]. *)
Fixpoint dec_repeat (d : list Z -> option (avro_value * list Z)) (n : nat) (l : list Z)
  : option (list avro_value * list Z) :=
  match n with
  | O => Some ([], l)
  | S n =>
      '(v, l1) ← d l; '(vs, l2) ← dec_repeat d n l1; Some (v :: vs, l2)
  end.

(** The blocks of an array: each a count and its items, up to a count of zero. *)
Fixpoint dec_blocks (d : list Z -> option (avro_value * list Z)) (fuel : nat) (l : list Z)
  : option (list avro_value * list Z) :=
  match fuel with
  | O => None
  | S fuel =>
      '(n, l1) ← dec_long l;
      if decide (n = 0) then Some ([], l1) else
      l2 ← (if decide (n < 0) then '(_, l2) ← dec_long l1; Some l2 else Some l1);
      '(vs, l3) ← dec_repeat d (Z.to_nat (Z.abs n)) l2;
      '(ws, l4) ← dec_blocks d fuel l3;
      Some (vs ++ ws, l4)
  end.

Fixpoint dec (s : avro_schema) (l : list Z) {struct s} : option (avro_value * list Z) :=
  match s with
  | SNull => Some (VNull, l)
  | SBoolean =>
      match l with
      | b :: l => if decide (b = 0) then Some (VBoolean false, l)
                  else if decide (b = 1) then Some (VBoolean true, l) else None
      | [] => None
      end
  | SInt => '(z, l) ← dec_long l; Some (VInt z, l)
  | SLong => '(z, l) ← dec_long l; Some (VLong z, l)
  | SEnum _ _ => '(z, l) ← dec_long l; Some (VEnum z, l)
  | SFloat => '(z, l) ← dec_le 4 l; Some (VFloat z, l)
  | SDouble => '(z, l) ← dec_le 8 l; Some (VDouble z, l)
  | SBytes => '(n, l) ← dec_long l; '(x, l) ← take_bytes n l; Some (VBytes x, l)
  | SString => '(n, l) ← dec_long l; '(x, l) ← take_bytes n l; Some (VString x, l)
  | SRecord _ _ fs =>
      (fix go fs acc l :=
        match fs with
        | [] => Some (VRecord (rev acc), l)
        | f :: fs => '(v, l) ← dec f.2 l; go fs (v :: acc) l
        end) fs [] l
  | SArray s => '(vs, l') ← dec_blocks (dec s) (S (length l)) l; Some (VArray s vs, l')
  | SUnion bs =>
      '(d, l) ← dec_long l;
      if decide (d < 0) then None else
      (fix go bs' n :=
        match bs', n with
        | b :: _, O => '(v, l) ← dec b l; Some (VUnion bs d v, l)
        | _ :: bs', S n => go bs' n
        | [], _ => None
        end) bs (Z.to_nat d)
  | SLink s => dec s l
  end.

(** ** Decoding inverts encoding *)

(** An induction principle for [has_schema] that reaches into records and arrays. *)
Section has_schema_ind.
Variable P : avro_schema -> avro_value -> Prop.
Hypotheses
  (Hnull : P SNull VNull)
  (Hbool : forall b, P SBoolean (VBoolean b))
  (Hint : forall z, is_s32 z -> P SInt (VInt z))
  (Hlong : forall z, is_s64 z -> P SLong (VLong z))
  (Hfloat : forall z, is_u32 z -> P SFloat (VFloat z))
  (Hdouble : forall z, is_u64 z -> P SDouble (VDouble z))
  (Hbytes : forall l, Forall is_byte l -> Z.of_nat (length l) < 2 ^ 63 -> P SBytes (VBytes l))
  (Hstring : forall l, Forall is_byte l -> Z.of_nat (length l) < 2 ^ 63 -> P SString (VString l))
  (Henum : forall n syms z,
     0 <= z < Z.of_nat (length syms) -> is_s32 z -> P (SEnum n syms) (VEnum z))
  (Hrecord : forall n ns fs vs, Forall2 P (map snd fs) vs -> P (SRecord n ns fs) (VRecord vs))
  (Harray : forall s vs,
     Forall (P s) vs -> Z.of_nat (length vs) < 2 ^ 63 -> P (SArray s) (VArray s vs))
  (Hunion : forall bs d s v,
     0 <= d < 2 ^ 31 -> bs !! Z.to_nat d = Some s -> P s v -> P (SUnion bs) (VUnion bs d v))
  (Hlink : forall s v, P s v -> P (SLink s) v).

Fixpoint has_schema_deep_ind s v (H : has_schema s v) {struct H} : P s v.
Proof.
  destruct H; [auto..| | | |].
  - apply Hrecord. induction H; constructor; [by apply has_schema_deep_ind|assumption].
  - apply Harray; [|done]. clear -has_schema_deep_ind H.
    induction H; constructor; [by apply has_schema_deep_ind|assumption].
  - eapply Hunion; eauto.
  - auto.
Qed.

End has_schema_ind.

(** Resetting a complete value gives the default of its schema. *)
Lemma has_schema_vreset s v : has_schema s v -> vreset v = default_value s.
Proof.
  intros H. induction H using has_schema_deep_ind; simpl; try done.
  f_equal. revert vs H. induction fs as [|f fs IH]; intros vs H; simpl in *.
  - by apply Forall2_nil_inv_l in H as ->.
  - apply Forall2_cons_inv_l in H as (v & vs' & Hv & H & ->). simpl. f_equal; auto.
Qed.

Lemma take_bytes_app l rest :
  take_bytes (Z.of_nat (length l)) (l ++ rest) = Some (l, rest).
Proof.
  unfold take_bytes. rewrite length_app, decide_True by lia.
  by rewrite Nat2Z.id, take_app_length, drop_app_length.
Qed.

Lemma dec_repeat_app s vs rest :
  Forall (fun v => forall rest, dec s (enc v ++ rest) = Some (v, rest)) vs ->
  dec_repeat (dec s) (length vs) (concat (map enc vs) ++ rest) = Some (vs, rest).
Proof.
  induction 1 as [|v vs Hv _ IH]; simpl; [done|].
  rewrite <- (assoc_L (++)), Hv. simpl. by rewrite IH.
Qed.

Definition dec_fields := fix go (fs : list (string * avro_schema)) acc l :=
  match fs with
  | [] => Some (VRecord (rev acc), l)
  | f :: fs => '(v, l) ← dec f.2 l; go fs (v :: acc) l
  end.

Lemma dec_fields_app fs vs acc rest :
  Forall2 (fun s v => forall rest, dec s (enc v ++ rest) = Some (v, rest)) (map snd fs) vs ->
  dec_fields fs acc (concat (map enc vs) ++ rest) = Some (VRecord (rev acc ++ vs), rest).
Proof.
  revert vs acc. induction fs as [|f fs IH]; intros vs acc H; simpl in *.
  - apply Forall2_nil_inv_l in H as ->. by rewrite app_nil_r.
  - apply Forall2_cons_inv_l in H as (v & vs' & Hv & H & ->). simpl.
    rewrite <- (assoc_L (++)), Hv. simpl. rewrite IH by done. simpl.
    by rewrite <- (assoc_L (++)).
Qed.

Definition dec_branch (bs0 : list avro_schema) (d : Z) (l : list Z) :=
  fix go (bs : list avro_schema) (n : nat) :=
  match bs, n with
  | b :: _, O => '(v, l) ← dec b l; Some (VUnion bs0 d v, l)
  | _ :: bs, S n => go bs n
  | [], _ => None
  end.

Lemma dec_branch_lookup bs0 d l bs n s :
  bs !! n = Some s ->
  dec_branch bs0 d l bs n = '(v, l) ← dec s l; Some (VUnion bs0 d v, l).
Proof. revert n. induction bs; intros [|n] H; simplify_eq/=; auto. Qed.

Lemma enc_long_nonempty z : (0 < length (enc_long z))%nat.
Proof. unfold enc_long, enc_varint. case_decide; simpl; lia. Qed.

Lemma dec_blocks_app s vs rest n :
  Forall (fun v => forall rest, dec s (enc v ++ rest) = Some (v, rest)) vs ->
  Z.of_nat (length vs) < 2 ^ 63 -> vs <> [] -> (0 < n)%nat ->
  dec_blocks (dec s) (S n)
    (enc_long (Z.of_nat (length vs)) ++ concat (map enc vs) ++ enc_long 0 ++ rest) =
  Some (vs, rest).
Proof.
  intros Hvs Hlen Hne Hn. destruct n as [|n]; [lia|].
  assert (length vs <> 0%nat) by (by destruct vs).
  cbn [dec_blocks]. rewrite dec_enc_long by int_lia. simpl mbind at 1.
  rewrite decide_False by lia. rewrite decide_False by lia. simpl mbind at 1.
  rewrite Z.abs_eq, Nat2Z.id, dec_repeat_app by (lia || done). simpl.
  by rewrite app_nil_r.
Qed.

(** Reading what was written gives the value back and leaves the rest. *)
Theorem dec_enc s v rest : has_schema s v -> dec s (enc v ++ rest) = Some (v, rest).
Proof.
  intros H. revert rest. induction H using has_schema_deep_ind; intros rest.
  - done.
  - by destruct b.
  - simpl. rewrite dec_enc_long by int_lia. done.
  - simpl. by rewrite dec_enc_long.
  - cbn [dec enc]. rewrite dec_enc_le; [done|]. unfold is_u32 in *. lia.
  - cbn [dec enc]. rewrite dec_enc_le; [done|]. unfold is_u64 in *. lia.
  - simpl. rewrite <- (assoc_L (++)), dec_enc_long by int_lia. simpl.
    by rewrite take_bytes_app.
  - simpl. rewrite <- (assoc_L (++)), dec_enc_long by int_lia. simpl.
    by rewrite take_bytes_app.
  - simpl. rewrite dec_enc_long by int_lia. done.
  - change (dec_fields fs [] (concat (map enc vs) ++ rest) = Some (VRecord vs, rest)).
    by rewrite dec_fields_app.
  - cbn [dec]. destruct vs as [|v vs]; [done|].
    cbn [enc]. rewrite <- !(assoc_L (++)). rewrite dec_blocks_app; [done|done|done|done|].
    rewrite length_app. pose proof (enc_long_nonempty (Z.of_nat (length (v :: vs)))). lia.
  - cbn [dec enc]. rewrite <- (assoc_L (++)), dec_enc_long by int_lia.
    simpl. rewrite decide_False by lia.
    change (dec_branch bs d (enc v ++ rest) bs (Z.to_nat d) = Some (VUnion bs d v, rest)).
    erewrite dec_branch_lookup by done. by rewrite IHhas_schema.
  - apply IHhas_schema.
Qed.

Lemma enc_bytes s v : has_schema s v -> Forall is_byte (enc v).
Proof.
  intros H. induction H using has_schema_deep_ind; cbn [enc];
    rewrite ?Forall_app; auto using enc_long_bytes, enc_le_bytes.
  - destruct b; repeat constructor; int_lia.
  - apply Forall_concat, Forall_map. induction H; by constructor.
  - destruct vs; [apply enc_long_bytes|]. rewrite !Forall_app.
    repeat split; auto using enc_long_bytes. by apply Forall_concat, Forall_map.
Qed.

(** A schema with the names of its records erased and its links followed: what a
    value knows of its schema. *)
Fixpoint shape (v : avro_value) : avro_schema :=
  match v with
  | VNull => SNull
  | VBoolean _ => SBoolean
  | VInt _ => SInt
  | VLong _ => SLong
  | VFloat _ => SFloat
  | VDouble _ => SDouble
  | VBytes _ => SBytes
  | VString _ => SString
  | VEnum _ => SEnum "" []
  | VRecord vs => SRecord "" "" (map (fun v => ("", shape v)) vs)
  | VArray s _ => SArray s
  | VUnion bs _ _ => SUnion bs
  end.

Section schema_ind.
Variable P : avro_schema -> Prop.
Hypotheses (Hnull : P SNull) (Hbool : P SBoolean) (Hint : P SInt) (Hlong : P SLong)
  (Hfloat : P SFloat) (Hdouble : P SDouble) (Hbytes : P SBytes) (Hstring : P SString)
  (Henum : forall n syms, P (SEnum n syms))
  (Hrecord : forall n ns fs, Forall (fun f => P f.2) fs -> P (SRecord n ns fs))
  (Harray : forall s, P s -> P (SArray s))
  (Hunion : forall bs, Forall P bs -> P (SUnion bs))
  (Hlink : forall s, P s -> P (SLink s)).

Fixpoint avro_schema_deep_ind s : P s.
Proof.
  destruct s; [by auto..| | | |].
  - apply Hrecord. induction fields; constructor; [apply avro_schema_deep_ind|assumption].
  - apply Harray, avro_schema_deep_ind.
  - apply Hunion. induction branches; constructor; [apply avro_schema_deep_ind|assumption].
  - apply Hlink, avro_schema_deep_ind.
Qed.

End schema_ind.

Lemma dec_shape_default s l : dec (shape (default_value s)) l = dec s l.
Proof.
  revert l. induction s using avro_schema_deep_ind; intros l; try done; simpl.
  change (dec_fields (map (fun v => ("", shape v)) (map (fun f => default_value f.2) fs)) [] l
          = dec_fields fs [] l).
  generalize (@nil avro_value). revert l.
  induction H as [|f fs Hf _ IH]; intros l acc; simpl; [done|].
  rewrite Hf. destruct (dec f.2 l) as [[v l']|]; simpl; auto.
Qed.

Lemma default_of_reset s : vreset (default_value s) = default_value s.
Proof.
  induction s using avro_schema_deep_ind; simpl; try done.
  f_equal. induction H; simpl; congruence.
Qed.

Lemma shape_vreset v : shape (vreset v) = shape v.
Proof.
  revert v. fix IH 1. intros [| | | | | | | | |vs| |]; simpl; try done.
  f_equal. induction vs as [|v vs IHvs]; simpl; [done|]. by rewrite IH, IHvs.
Qed.

(** ** A text form of schemas *)

Fixpoint schema_tree (s : avro_schema) : gen_tree string :=
  match s with
  | SNull => GenNode 0 []
  | SBoolean => GenNode 1 []
  | SInt => GenNode 2 []
  | SLong => GenNode 3 []
  | SFloat => GenNode 4 []
  | SDouble => GenNode 5 []
  | SBytes => GenNode 6 []
  | SString => GenNode 7 []
  | SEnum n syms => GenNode 8 (GenLeaf n :: map GenLeaf syms)
  | SRecord n ns fs =>
      GenNode 9 (GenLeaf n :: GenLeaf ns ::
        map (fun f => GenNode 0 [GenLeaf f.1; schema_tree f.2]) fs)
  | SArray s => GenNode 10 [schema_tree s]
  | SUnion bs => GenNode 11 (map schema_tree bs)
  | SLink s => GenNode 12 [schema_tree s]
  end.

Definition tree_name (t : gen_tree string) : string :=
  match t with GenLeaf n => n | _ => "" end.

Fixpoint tree_schema (t : gen_tree string) : avro_schema :=
  match t with
  | GenNode 0 _ => SNull
  | GenNode 1 _ => SBoolean
  | GenNode 2 _ => SInt
  | GenNode 3 _ => SLong
  | GenNode 4 _ => SFloat
  | GenNode 5 _ => SDouble
  | GenNode 6 _ => SBytes
  | GenNode 7 _ => SString
  | GenNode 8 (n :: syms) => SEnum (tree_name n) (map tree_name syms)
  | GenNode 9 (n :: ns :: fs) =>
      SRecord (tree_name n) (tree_name ns)
        (map (fun f => match f with
                       | GenNode _ [x; y] => (tree_name x, tree_schema y)
                       | _ => ("", SNull)
                       end) fs)
  | GenNode 10 [s] => SArray (tree_schema s)
  | GenNode 11 bs => SUnion (map tree_schema bs)
  | GenNode 12 [s] => SLink (tree_schema s)
  | _ => SNull
  end.

Lemma tree_schema_tree s : tree_schema (schema_tree s) = s.
Proof.
  induction s using avro_schema_deep_ind; simpl; try done.
  - f_equal. induction syms; f_equal/=; auto.
  - f_equal. induction H as [|f fs Hf _ IH]; [done|]. destruct f. f_equal/=; [|done].
    simpl in Hf. by rewrite Hf.
  - by rewrite IHs.
  - f_equal. induction H; f_equal/=; auto.
  - by rewrite IHs.
Qed.

Fixpoint pos_text (p : positive) : list Z :=
  match p with
  | xH => [49]
  | xO p => 48 :: pos_text p
  | xI p => 50 :: pos_text p
  end.
Fixpoint text_pos (l : list Z) : positive :=
  match l with
  | 48 :: l => xO (text_pos l)
  | 50 :: l => xI (text_pos l)
  | _ => xH
  end.

Lemma text_pos_text p : text_pos (pos_text p) = p.
Proof. induction p; simpl; by f_equal. Qed.

Lemma pos_text_bytes p : Forall (fun b => is_byte b /\ b <> 0) (pos_text p).
Proof. induction p; simpl; constructor; auto; int_lia. Qed.

Definition schema_text (s : avro_schema) : list Z := pos_text (countable.encode (schema_tree s)).
Definition text_schema (l : list Z) : outcome avro_schema :=
  match countable.decode (text_pos l) with
  | Some t => Ret (tree_schema t)
  | None => Err EINVAL
  end.

(** ** The library *)

Definition ref_write (bs : list Z) : M avro_writer unit := fun w =>
  if decide (writer_fits w bs) then (Ret tt, writer_push w bs) else (Err ENOSPC, w).

Definition ref_lib : avro_lib := {|
  avro_value_reset := ref_reset;
  avro_value_get_by_index := ref_get_by_index;
  avro_value_get_size := ref_get_size;
  avro_value_get_discriminant := ref_get_discriminant;
  avro_value_get_current_branch := ref_get_current_branch;
  avro_value_get_long := ref_get_long;
  avro_value_get_bytes := ref_get_bytes;
  avro_value_get_string := ref_get_string;
  avro_value_append := ref_append;
  avro_value_set_branch := ref_set_branch;
  avro_value_set_boolean := ref_set_boolean;
  avro_value_set_int := ref_set_int;
  avro_value_set_long := ref_set_long;
  avro_value_set_float := ref_set_float;
  avro_value_set_double := ref_set_double;
  avro_value_set_enum := ref_set_enum;
  avro_value_set_bytes := ref_set_bytes;
  avro_value_set_string_len := ref_set_string_len;
  avro_write := ref_write;
  avro_value_write := fun v => ref_write (enc v);
  avro_value_read := fun '(l, v) =>
    match dec (shape v) l with
    | Some (v', l') => (Ret tt, (l', v'))
    | None => (Err EINVAL, (l, v))
    end;
  avro_skip := fun n '(l, v) =>
    if decide (n <= Z.of_nat (length l)) then (Ret tt, (drop (Z.to_nat n) l, v))
    else (Err ENOSPC, (l, v));
  avro_schema_to_json := fun s => ref_write (schema_text s);
  avro_schema_from_json_length := fun l n => text_schema (take (Z.to_nat n) l);
  avro_value_to_json := fun v => Ret (enc v);
  Avro.encode := enc;
  schema_json := schema_text;
|}.

Lemma ref_write_writes bs : writes (ref_write bs) bs.
Proof.
  split; intros w Hw; unfold ref_write; [by rewrite decide_True|].
  rewrite decide_False by done. eauto.
Qed.

#[export] Instance ref_lib_conforms : AvroConforms ref_lib.
Proof.
  split; try (intros; reflexivity); try (intros; apply ref_write_writes).
  - intros s v. apply enc_bytes.
  - intros s v v0 rest Hv H0. simpl. rewrite <- shape_vreset, H0, dec_shape_default.
    by rewrite dec_enc.
  - intros v. simpl. eauto.
  - intros b l v. simpl. rewrite decide_True by lia. eauto.
  - intros s _. apply pos_text_bytes.
  - intros s rest _. simpl. rewrite Nat2Z.id, take_app_length.
    unfold text_schema, schema_text.
    by rewrite text_pos_text, decode_encode, tree_schema_tree.
Qed.
