(* ===== verification/IoUtil.v ===== *)
(** * Growing-buffer writes ([ext/io_util.c])

    [try_writing] runs a writing callback against a fixed-size buffer and retries
    with a buffer four times as large while the callback reports ENOSPC. *)

From S2P Require Import Prelude Avro AvroBinary.
Open Scope Z_scope.

Definition INIT_BUFFER_LENGTH : Z := 16384.
Definition MAX_BUFFER_LENGTH : Z := 1048576.

(** Size of the length word at the start of a Postgres [bytea]. *)
Definition VARHDRSZ : Z := 4.

(** A palloc'ed byte array: its VARSIZE, and the bytes behind the length word as
    far as they have been written. *)
Record bytea : Type := Bytea { VARSIZE : Z; VARDATA : list Z }.

(** The bytes a user of the array sees: VARSIZE minus the length word. *)
Definition payload (b : bytea) : list Z := take (Z.to_nat (VARSIZE b - VARHDRSZ)) (VARDATA b).

Section try_writing.
Context (L : avro_lib).

(** One round of the loop body: the new error code and the output array. *)
Definition try_once (cb : M avro_writer unit) (size : Z) : outcome (Z * bytea) :=
  match cb (avro_writer_memory (size - VARHDRSZ)) with
  | (Ret _, w) =>
      let varsize := avro_writer_tell w + VARHDRSZ in
      match avro_write L [0] w with
      | (Ret _, w) => Ret (0, Bytea varsize (w_data w))
      | (Err e, w) => Ret (e, Bytea varsize (w_data w))
      | (o, _) => cast_outcome o
      end
  | (Err e, w) => Ret (e, Bytea 0 (w_data w))
  | (o, _) => cast_outcome o
  end.

Fixpoint try_writing_loop (fuel : nat) (cb : M avro_writer unit) (size err : Z) (output : bytea)
  : outcome bytea :=
  if decide (err = ENOSPC /\ size <= MAX_BUFFER_LENGTH) then
    match fuel with
    | O => Blocked
    | S fuel =>
        match try_once cb size with
        | Ret (err, output) =>
            let size := if decide (err = ENOSPC) then s32 (size * 4) else size in
            try_writing_loop fuel cb size err output
        | o => cast_outcome o
        end
    end
  else if decide (err = 0) then Ret output else Err err.

(** The sizes 16 KiB, 64 KiB, 256 KiB and 1 MiB are tried: five rounds of fuel
    let the loop test fail after the fourth. *)
Definition try_writing (cb : M avro_writer unit) : outcome bytea :=
  try_writing_loop 5 cb INIT_BUFFER_LENGTH ENOSPC (Bytea 0 []).

(** ** Callbacks *)

Definition write_schema_json (context : avro_schema) : M avro_writer unit :=
  avro_schema_to_json L context.
Definition write_avro_binary (context : avro_value) : M avro_writer unit :=
  avro_value_write L context.

(** ** Properties *)

Context {HL : AvroConforms L}.

(** What one round does with a callback that writes [bs]. *)
Lemma try_once_fits cb bs size :
  writes cb bs -> Z.of_nat (length bs) + 1 <= size - VARHDRSZ ->
  try_once cb size = Ret (0, Bytea (Z.of_nat (length bs) + VARHDRSZ) (bs ++ [0])).
Proof.
  intros [Hok _] Hsz. unfold try_once. rewrite Hok by (unfold writer_fits, avro_writer_tell; simpl; lia).
  rewrite (proj1 (conf_write [0])); [done|]. unfold writer_fits, avro_writer_tell; simpl. lia.
Qed.

Lemma try_once_full cb bs size :
  writes cb bs -> size - VARHDRSZ < Z.of_nat (length bs) + 1 ->
  exists out, try_once cb size = Ret (ENOSPC, out).
Proof.
  intros [Hok Hno] Hsz. unfold try_once.
  destruct (decide (writer_fits (avro_writer_memory (size - VARHDRSZ)) bs)) as [Hf|Hf].
  - rewrite Hok by done. destruct (conf_write (L := L) [0]) as [_ H].
    edestruct H as [w' ->]; [|eauto]. unfold writer_fits, avro_writer_tell in *; simpl in *. lia.
  - destruct (Hno _ Hf) as [w' ->]. eauto.
Qed.

(** The loop, unfolded once. *)
Lemma try_writing_loop_S fuel cb size err output :
  try_writing_loop (S fuel) cb size err output =
  if decide (err = ENOSPC /\ size <= MAX_BUFFER_LENGTH) then
    match try_once cb size with
    | Ret (err, output) =>
        try_writing_loop fuel cb
          (if decide (err = ENOSPC) then s32 (size * 4) else size) err output
    | o => cast_outcome o
    end
  else if decide (err = 0) then Ret output else Err err.
Proof. done. Qed.

(** Largest payload that fits: the 1 MiB buffer less the length word and the NUL. *)
Definition max_payload : Z := MAX_BUFFER_LENGTH - VARHDRSZ - 1.

(** From the [k]-th size on, the loop ends with the array or with ENOSPC. *)
Lemma try_writing_loop_spec cb bs k out :
  writes cb bs -> (k <= 4)%nat ->
  try_writing_loop (S k) cb (INIT_BUFFER_LENGTH * 4 ^ (4 - Z.of_nat k)) ENOSPC out =
  if decide (Z.of_nat (length bs) <= max_payload) then
    (if decide (k = 0%nat) then Err ENOSPC
     else Ret (Bytea (Z.of_nat (length bs) + VARHDRSZ) (bs ++ [0])))
  else Err ENOSPC.
Proof.
  intros Hcb. unfold max_payload, MAX_BUFFER_LENGTH.
  revert out. induction k as [|k IH]; intros out Hk.
  - simpl. by case_decide.
  - rewrite try_writing_loop_S.
    assert (INIT_BUFFER_LENGTH * 4 ^ (4 - Z.of_nat (S k)) <= MAX_BUFFER_LENGTH /\
            INIT_BUFFER_LENGTH * 4 ^ (4 - Z.of_nat (S k)) * 4 =
            INIT_BUFFER_LENGTH * 4 ^ (4 - Z.of_nat k)) as [Hle Hnext].
    { destruct k as [|[|[|[|]]]]; try lia; by vm_compute. }
    rewrite decide_True by done.
    set (size := INIT_BUFFER_LENGTH * 4 ^ (4 - Z.of_nat (S k))) in *.
    destruct (decide (Z.of_nat (length bs) + 1 <= size - VARHDRSZ)) as [Hf|Hf].
    + rewrite (try_once_fits _ _ _ Hcb Hf). rewrite (decide_False (P := 0 = ENOSPC)) by done.
      rewrite (decide_True (P := Z.of_nat (length bs) <= _))
        by (unfold VARHDRSZ, MAX_BUFFER_LENGTH in *; lia).
      rewrite (decide_False (P := S k = 0%nat)) by lia.
      rewrite try_writing_loop_S, decide_False by (unfold ENOSPC; lia).
      by rewrite decide_True.
    + destruct (try_once_full cb bs size Hcb ltac:(lia)) as [out' ->].
      rewrite (decide_True (P := ENOSPC = ENOSPC)) by done.
      replace (s32 (size * 4)) with (INIT_BUFFER_LENGTH * 4 ^ (4 - Z.of_nat k)).
      2:{ rewrite <- Hnext. unfold MAX_BUFFER_LENGTH in *.
          assert (0 < size) by (destruct k as [|[|[|[|]]]]; try lia; by vm_compute).
          int_lia. }
      rewrite IH by lia. case_decide; [|done].
      destruct k; [|by rewrite !decide_False by lia].
      exfalso. apply Hf. unfold size, VARHDRSZ in *. simpl in *. unfold INIT_BUFFER_LENGTH. lia.
Qed.

(** The whole function, for a callback that writes [bs]. *)
Lemma try_writing_spec cb bs :
  writes cb bs ->
  try_writing cb =
  if decide (Z.of_nat (length bs) <= max_payload)
  then Ret (Bytea (Z.of_nat (length bs) + VARHDRSZ) (bs ++ [0]))
  else Err ENOSPC.
Proof. intros Hcb. exact (try_writing_loop_spec cb bs 4 _ Hcb (le_n 4)). Qed.

(** An error other than ENOSPC is not retried. *)
Lemma try_writing_error cb e w :
  e <> 0 -> e <> ENOSPC ->
  cb (avro_writer_memory (INIT_BUFFER_LENGTH - VARHDRSZ)) = (Err e, w) ->
  try_writing cb = Err e.
Proof.
  intros H0 Hn Hcb. unfold try_writing. rewrite try_writing_loop_S, decide_True by done.
  unfold try_once. rewrite Hcb. rewrite try_writing_loop_S, decide_False by (intros []; congruence).
  by rewrite decide_False.
Qed.

End try_writing.

Lemma payload_written bs extra :
  payload (Bytea (Z.of_nat (length bs) + VARHDRSZ) (bs ++ extra)) = bs.
Proof.
  unfold payload. simpl. replace (_ + VARHDRSZ - VARHDRSZ) with (Z.of_nat (length bs)) by lia.
  by rewrite Nat2Z.id, take_app_length.
Qed.

(** C22: for a callback that writes [bs], [try_writing] gives a byte array whose
    payload is exactly [bs] and whose next byte is the promised NUL when [bs] fits
    the 1 MiB limit, and ENOSPC when it does not; any other error of the callback is
    returned at once. *)
Theorem try_writing_correct (L : avro_lib) (HL : AvroConforms L) cb :
  (forall bs, writes cb bs -> Z.of_nat (length bs) <= max_payload ->
     exists out, try_writing L cb = Ret out /\ payload out = bs /\
       VARDATA out !! length bs = Some 0) /\
  (forall bs, writes cb bs -> max_payload < Z.of_nat (length bs) ->
     try_writing L cb = Err ENOSPC) /\
  (forall e w, e <> 0 -> e <> ENOSPC ->
     cb (avro_writer_memory (INIT_BUFFER_LENGTH - VARHDRSZ)) = (Err e, w) ->
     try_writing L cb = Err e).
Proof.
  split; [|split; eauto using try_writing_error]; intros bs Hcb Hlen.
  - rewrite (try_writing_spec L _ _ Hcb), decide_True by lia.
    eexists; split; [done|]. split; [apply payload_written|].
    simpl. by rewrite lookup_app_r, Nat.sub_diag.
  - rewrite (try_writing_spec L _ _ Hcb), decide_False by lia. done.
Qed.

(** 17 000 bytes do not fit the first buffer of 16 KiB; the retry succeeds. *)
Lemma try_writing_correct_witness :
  exists out, try_writing ref_lib (ref_write (replicate (Z.to_nat 17000) 7)) = Ret out /\
    payload out = replicate (Z.to_nat 17000) 7 /\
    VARDATA out !! length (replicate (Z.to_nat 17000) 7) = Some 0.
Proof.
  apply (proj1 (try_writing_correct ref_lib ref_lib_conforms (ref_write (replicate (Z.to_nat 17000) 7)))).
  - apply ref_write_writes.
  - rewrite length_replicate. unfold max_payload, MAX_BUFFER_LENGTH, VARHDRSZ. lia.
Defined.
