(* ===== verification/Protocol.v ===== *)
(** * The wire protocol ([ext/protocol.c], [ext/protocol.h])

    A frame is a record with one field, an array of messages; a message is a union
    of six records. This file has the schemas the sources build, and the protocol as
    data: the type [message], the Avro value of a message and of a frame. *)

From S2P Require Import Prelude Avro.
Open Scope Z_scope.

Definition PROTOCOL_SCHEMA_NAMESPACE : string := "com.martinkl.bottledwater.protocol".

Definition PROTOCOL_MSG_BEGIN_TXN : Z := 0.
Definition PROTOCOL_MSG_COMMIT_TXN : Z := 1.
Definition PROTOCOL_MSG_TABLE_SCHEMA : Z := 2.
Definition PROTOCOL_MSG_INSERT : Z := 3.
Definition PROTOCOL_MSG_UPDATE : Z := 4.
Definition PROTOCOL_MSG_DELETE : Z := 5.

(** ** Schemas *)

Definition nullable_schema (value_schema : avro_schema) : avro_schema :=
  let union_schema := SUnion [] in
  let union_schema := avro_schema_union_append union_schema SNull in
  avro_schema_union_append union_schema value_schema.

Definition schema_for_begin_txn : avro_schema :=
  let r := SRecord "BeginTxn" PROTOCOL_SCHEMA_NAMESPACE [] in
  avro_schema_record_field_append r "xid" SLong.

Definition schema_for_commit_txn : avro_schema :=
  let r := SRecord "CommitTxn" PROTOCOL_SCHEMA_NAMESPACE [] in
  let r := avro_schema_record_field_append r "xid" SLong in
  avro_schema_record_field_append r "lsn" SLong.

Definition schema_for_table_schema : avro_schema :=
  let r := SRecord "TableSchema" PROTOCOL_SCHEMA_NAMESPACE [] in
  let r := avro_schema_record_field_append r "relid" SLong in
  let r := avro_schema_record_field_append r "keySchema" (nullable_schema SString) in
  avro_schema_record_field_append r "rowSchema" SString.

Definition schema_for_insert : avro_schema :=
  let r := SRecord "Insert" PROTOCOL_SCHEMA_NAMESPACE [] in
  let r := avro_schema_record_field_append r "relid" SLong in
  let r := avro_schema_record_field_append r "key" (nullable_schema SBytes) in
  avro_schema_record_field_append r "newRow" SBytes.

Definition schema_for_update : avro_schema :=
  let r := SRecord "Update" PROTOCOL_SCHEMA_NAMESPACE [] in
  let r := avro_schema_record_field_append r "relid" SLong in
  let r := avro_schema_record_field_append r "key" (nullable_schema SBytes) in
  let r := avro_schema_record_field_append r "oldRow" (nullable_schema SBytes) in
  avro_schema_record_field_append r "newRow" SBytes.

Definition schema_for_delete : avro_schema :=
  let r := SRecord "Delete" PROTOCOL_SCHEMA_NAMESPACE [] in
  let r := avro_schema_record_field_append r "relid" SLong in
  let r := avro_schema_record_field_append r "key" (nullable_schema SBytes) in
  avro_schema_record_field_append r "oldRow" (nullable_schema SBytes).

(** [assert] stops the process when its condition is false. *)
Definition assert_then {A} (c : Prop) `{Decision c} (k : outcome A) : outcome A :=
  if decide c then k else Exit 134.

Definition schema_for_frame : outcome avro_schema :=
  let u := SUnion [] in
  assert_then (avro_schema_union_size u = PROTOCOL_MSG_BEGIN_TXN) (
  let u := avro_schema_union_append u schema_for_begin_txn in
  assert_then (avro_schema_union_size u = PROTOCOL_MSG_COMMIT_TXN) (
  let u := avro_schema_union_append u schema_for_commit_txn in
  assert_then (avro_schema_union_size u = PROTOCOL_MSG_TABLE_SCHEMA) (
  let u := avro_schema_union_append u schema_for_table_schema in
  assert_then (avro_schema_union_size u = PROTOCOL_MSG_INSERT) (
  let u := avro_schema_union_append u schema_for_insert in
  assert_then (avro_schema_union_size u = PROTOCOL_MSG_UPDATE) (
  let u := avro_schema_union_append u schema_for_update in
  assert_then (avro_schema_union_size u = PROTOCOL_MSG_DELETE) (
  let u := avro_schema_union_append u schema_for_delete in
  let a := SArray u in
  let r := SRecord "Frame" PROTOCOL_SCHEMA_NAMESPACE [] in
  Ret (avro_schema_record_field_append r "msg" a))))))).

(** The schema that [schema_for_frame] returns. *)
Definition message_schemas : list avro_schema :=
  [schema_for_begin_txn; schema_for_commit_txn; schema_for_table_schema;
   schema_for_insert; schema_for_update; schema_for_delete].
Definition frame_schema : avro_schema :=
  SRecord "Frame" PROTOCOL_SCHEMA_NAMESPACE [("msg", SArray (SUnion message_schemas))].

(** ** Messages as data *)

(** The events the protocol transports. Schemas travel as their JSON text, keys and
    rows as Avro-encoded bytes. *)
Inductive message : Type :=
| MBegin (xid : Z)
| MCommit (xid lsn : Z)
| MTableSchema (relid : Z) (key_schema : option (list Z)) (row_schema : list Z)
| MInsert (relid : Z) (key : option (list Z)) (new_row : list Z)
| MUpdate (relid : Z) (key old_row : option (list Z)) (new_row : list Z)
| MDelete (relid : Z) (key old_row : option (list Z)).

Definition discriminant (m : message) : Z :=
  match m with
  | MBegin _ => PROTOCOL_MSG_BEGIN_TXN
  | MCommit _ _ => PROTOCOL_MSG_COMMIT_TXN
  | MTableSchema _ _ _ => PROTOCOL_MSG_TABLE_SCHEMA
  | MInsert _ _ _ => PROTOCOL_MSG_INSERT
  | MUpdate _ _ _ _ => PROTOCOL_MSG_UPDATE
  | MDelete _ _ _ => PROTOCOL_MSG_DELETE
  end.

Definition nullable (s : avro_schema) (f : list Z -> avro_value) (o : option (list Z))
  : avro_value :=
  match o with
  | None => VUnion [SNull; s] 0 VNull
  | Some l => VUnion [SNull; s] 1 (f l)
  end.
Abbreviation nullable_bytes := (nullable SBytes VBytes).

Definition message_record (m : message) : avro_value :=
  match m with
  | MBegin xid => VRecord [VLong xid]
  | MCommit xid lsn => VRecord [VLong xid; VLong lsn]
  | MTableSchema relid k r => VRecord [VLong relid; nullable SString VString k; VString r]
  | MInsert relid k n => VRecord [VLong relid; nullable_bytes k; VBytes n]
  | MUpdate relid k o n => VRecord [VLong relid; nullable_bytes k; nullable_bytes o; VBytes n]
  | MDelete relid k o => VRecord [VLong relid; nullable_bytes k; nullable_bytes o]
  end.

Definition message_value (m : message) : avro_value :=
  VUnion message_schemas (discriminant m) (message_record m).

(** The value of a frame that holds the messages [ms]. *)
Definition frame_value (ms : list message) : avro_value :=
  VRecord [VArray (SUnion message_schemas) (map message_value ms)].

(** ** Well-formed messages *)

Definition ok_bytes (l : list Z) : Prop :=
  Forall is_byte l /\ Z.of_nat (length l) < 2 ^ 63.
Definition ok_opt (o : option (list Z)) : Prop :=
  match o with Some l => ok_bytes l | None => True end.

Definition wf_message (m : message) : Prop :=
  match m with
  | MBegin xid => is_s64 xid
  | MCommit xid lsn => is_s64 xid /\ is_s64 lsn
  | MTableSchema relid k r => is_s64 relid /\ ok_opt k /\ ok_bytes r
  | MInsert relid k n => is_s64 relid /\ ok_opt k /\ ok_bytes n
  | MUpdate relid k o n => is_s64 relid /\ ok_opt k /\ ok_opt o /\ ok_bytes n
  | MDelete relid k o => is_s64 relid /\ ok_opt k /\ ok_opt o
  end.

Lemma schema_for_frame_eq : schema_for_frame = Ret frame_schema.
Proof. reflexivity. Qed.

Lemma frame_value_default : default_value frame_schema = frame_value [].
Proof. reflexivity. Qed.

Lemma frame_value_reset ms : vreset (frame_value ms) = frame_value [].
Proof. reflexivity. Qed.

Lemma nullable_has_schema s f o :
  (forall l, ok_bytes l -> has_schema s (f l)) -> ok_opt o ->
  has_schema (SUnion [SNull; s]) (nullable s f o).
Proof.
  intros Hf Ho. destruct o; simpl; (econstructor; [lia|reflexivity|]); auto using HS_null.
Qed.

Lemma message_has_schema m :
  wf_message m -> has_schema (SUnion message_schemas) (message_value m).
Proof.
  assert (Hb : forall l, ok_bytes l -> has_schema SBytes (VBytes l)) by (by intros l []; constructor).
  assert (Hs : forall l, ok_bytes l -> has_schema SString (VString l)) by (by intros l []; constructor).
  intros Hm. unfold message_value.
  destruct m; (eapply HS_union; [done|reflexivity|]); simpl in *; destruct_and?;
    apply HS_record;
    repeat first [apply List.Forall2_nil | apply List.Forall2_cons]; simpl; auto using HS_long;
    apply nullable_has_schema; auto.
Qed.

Lemma frame_has_schema ms :
  Forall wf_message ms -> Z.of_nat (length ms) < 2 ^ 63 ->
  has_schema frame_schema (frame_value ms).
Proof.
  intros Hms Hlen. constructor. apply List.Forall2_cons; [|apply List.Forall2_nil].
  constructor; [|by rewrite length_map].
  apply Forall_map. eapply Forall_impl; [apply message_has_schema|exact Hms].
Qed.
