(* ===== verification/Oid2Avro.v ===== *)
(** * Postgres rows as Avro values ([ext/oid2avro.c])

    Which index keys a table, the Avro schema of a table's rows and of its key, and
    the translation of a heap tuple into a value of that schema. Postgres itself is
    a parameter: the catalog is a record of finite maps, the [DatumGet*] macros and
    the date/time routines are the functions of a record [pg_lib]. *)

From S2P Require Import Prelude Avro AvroBinary.
Open Scope Z_scope.

Definition GENERATED_SCHEMA_NAMESPACE : string := "com.martinkl.bottledwater.dbschema".
Definition PREDEFINED_SCHEMA_NAMESPACE : string := "com.martinkl.bottledwater.datatypes".

(** ** Postgres as the sources see it *)

(** Type OIDs ([catalog/pg_type.h]) that have a case of their own. *)
Definition BOOLOID := 16.
Definition BYTEAOID := 17.
Definition CHAROID := 18.
Definition NAMEOID := 19.
Definition INT8OID := 20.
Definition INT2OID := 21.
Definition INT4OID := 23.
Definition REGPROCOID := 24.
Definition TEXTOID := 25.
Definition OIDOID := 26.
Definition XIDOID := 28.
Definition CIDOID := 29.
Definition FLOAT4OID := 700.
Definition FLOAT8OID := 701.
Definition CASHOID := 790.
Definition BPCHAROID := 1042.
Definition VARCHAROID := 1043.
Definition DATEOID := 1082.
Definition TIMEOID := 1083.
Definition TIMESTAMPOID := 1114.
Definition TIMESTAMPTZOID := 1184.
Definition INTERVALOID := 1186.
Definition TIMETZOID := 1266.
Definition NUMERICOID := 1700.

Definition InvalidOid : Z := 0.

(** Replica identities ([catalog/pg_class.h]). *)
Inductive replident : Type :=
| REPLICA_IDENTITY_DEFAULT
| REPLICA_IDENTITY_NOTHING
| REPLICA_IDENTITY_FULL
| REPLICA_IDENTITY_INDEX.

#[export] Instance replident_eq_dec : EqDecision replident.
Proof. solve_decision. Defined.

(** A column of a tuple descriptor. *)
Record pg_attribute : Type := Attribute {
  attname : string;
  atttypid : Z;
  attisdropped : bool;
}.
#[export] Instance pg_attribute_eq_dec : EqDecision pg_attribute.
Proof. solve_decision. Defined.

Abbreviation tupdesc := (list pg_attribute).

Record pg_index : Type := PgIndex {
  indisvalid : bool;
  indisready : bool;
  indisprimary : bool;
  indkey : list Z;   (* attribute numbers, from 1 *)
}.

(** A relation: a table or an index. *)
Record relation : Type := Relation {
  rd_id : Z;                   (* RelationGetRelid *)
  rd_namespace : Z;            (* RelationGetNamespace *)
  rd_name : string;            (* RelationGetRelationName *)
  relreplident : replident;
  rd_att : tupdesc;            (* RelationGetDescr *)
  rd_index : pg_index;         (* of an index *)
  rd_replidindex : Z;          (* RelationGetReplicaIndex *)
  rd_indexlist : list Z;       (* RelationGetIndexList *)
}.

Record catalog : Type := Catalog {
  cat_relations : gmap Z relation;
  cat_namespaces : gmap Z string;
}.

Definition relation_open (cat : catalog) (oid : Z) : outcome relation :=
  match cat_relations cat !! oid with
  | Some r => Ret r
  | None => Elog "could not open relation"
  end.

(** A broken-down time, as [timestamp2tm] and [interval2tm] fill it in. *)
Record pg_tm : Type := PgTm {
  tm_sec : Z; tm_min : Z; tm_hour : Z; tm_mday : Z; tm_mon : Z; tm_year : Z
}.

Record pg_lib : Type := PgLib {
  Datum : Type;
  Interval : Type;
  DatumGetBool : Datum -> bool;
  DatumGetFloat4 : Datum -> Z;
  DatumGetFloat8 : Datum -> Z;
  DatumGetInt16 : Datum -> Z;
  DatumGetInt32 : Datum -> Z;
  DatumGetInt64 : Datum -> Z;
  DatumGetCash : Datum -> Z;
  DatumGetObjectId : Datum -> Z;
  DatumGetTransactionId : Datum -> Z;
  DatumGetCommandId : Datum -> Z;
  DatumGetDateADT : Datum -> Z;
  DatumGetTimeADT : Datum -> Z;
  DatumGetTimeTzADTP : Datum -> Z * Z;     (* time, zone *)
  DatumGetTimestamp : Datum -> Z;
  DatumGetTimestampTz : Datum -> Z;
  DatumGetIntervalP : Datum -> Interval;
  DatumGetByteaP : Datum -> list Z;
  DatumGetChar : Datum -> Z;
  DatumGetNameStr : Datum -> list Z;
  TextDatumGetCString : Datum -> list Z;
  OutputFunctionCall : Z -> Datum -> list Z; (* getTypeOutputInfo, OidOutputFunctionCall *)
  j2date : Z -> Z * Z * Z;                   (* year, month, day *)
  timestamp2tm : Z -> bool -> option (pg_tm * Z * Z);  (* tm, fsec, tz; None on error *)
  interval2tm : Interval -> pg_tm * Z;
  equalTupleDescs : tupdesc -> tupdesc -> bool;
}.

(** The ranges of the C types these functions return; [equalTupleDescs] tells whether
    two descriptors describe the same columns. *)
Class PgConforms (P : pg_lib) : Prop := {
  pg_float4 d : is_u32 (DatumGetFloat4 P d);
  pg_float8 d : is_u64 (DatumGetFloat8 P d);
  pg_int16 d : - 2 ^ 15 <= DatumGetInt16 P d < 2 ^ 15;
  pg_int32 d : is_s32 (DatumGetInt32 P d);
  pg_int64 d : is_s64 (DatumGetInt64 P d);
  pg_cash d : is_s64 (DatumGetCash P d);
  pg_oid d : is_u32 (DatumGetObjectId P d);
  pg_xid d : is_u32 (DatumGetTransactionId P d);
  pg_cid d : is_u32 (DatumGetCommandId P d);
  pg_time d : is_s64 (DatumGetTimeADT P d);
  pg_timetz d : is_s64 (fst (DatumGetTimeTzADTP P d)) /\
    - 2 ^ 31 < snd (DatumGetTimeTzADTP P d) < 2 ^ 31;
  pg_bytea d : Forall is_byte (DatumGetByteaP P d) /\
    Z.of_nat (length (DatumGetByteaP P d)) < 2 ^ 30;
  pg_char d : is_byte (DatumGetChar P d);
  pg_name d : Forall is_byte (DatumGetNameStr P d) /\
    Z.of_nat (length (DatumGetNameStr P d)) < 2 ^ 30;
  pg_text d : Forall is_byte (TextDatumGetCString P d) /\
    Z.of_nat (length (TextDatumGetCString P d)) < 2 ^ 30;
  pg_output t d : Forall is_byte (OutputFunctionCall P t d) /\
    Z.of_nat (length (OutputFunctionCall P t d)) < 2 ^ 30;
  pg_j2date j y m d : j2date P j = (y, m, d) -> is_s32 y /\ is_s32 m /\ is_s32 d;
  pg_timestamp t tz tm fs z : timestamp2tm P t tz = Some (tm, fs, z) ->
    is_s32 (tm_year tm) /\ is_s32 (tm_mon tm) /\ is_s32 (tm_mday tm) /\ is_s32 (tm_hour tm) /\
    is_s32 (tm_min tm) /\ is_s32 (tm_sec tm) /\ is_s32 fs /\ - 2 ^ 31 < z < 2 ^ 31;
  pg_interval i tm fs : interval2tm P i = (tm, fs) ->
    is_s32 (tm_year tm) /\ is_s32 (tm_mon tm) /\ is_s32 (tm_mday tm) /\ is_s32 (tm_hour tm) /\
    is_s32 (tm_min tm) /\ is_s32 (tm_sec tm) /\ is_s32 fs;
  pg_equal_descs d1 d2 : equalTupleDescs P d1 d2 = true <-> d1 = d2;
}.

(** ** The key of a table *)

(** The primary key index among the table's indexes, in list order. *)
Fixpoint find_primary (cat : catalog) (indexes : list Z) : outcome (option relation) :=
  match indexes with
  | [] => Ret None
  | oid :: indexes =>
      match relation_open cat oid with
      | Ret r =>
          let i := rd_index r in
          if indisvalid i && indisready i && indisprimary i then Ret (Some r)
          else find_primary cat indexes
      | o => cast_outcome o
      end
  end.

Definition table_key_index (cat : catalog) (rel : relation) : outcome (option relation) :=
  if decide (relreplident rel = REPLICA_IDENTITY_NOTHING) then Ret None
  else if decide (relreplident rel = REPLICA_IDENTITY_INDEX /\ rd_replidindex rel <> InvalidOid)
  then
    match relation_open cat (rd_replidindex rel) with
    | Ret r => Ret (Some r)
    | o => cast_outcome o
    end
  else find_primary cat (rd_indexlist rel).

(** ** Schemas *)

(** Named schemas already defined in the table's schema; later uses link to them. *)
Record predef_schema : Type := Predef {
  date_schema : option avro_schema;
  time_tz_schema : option avro_schema;
  datetime_schema : option avro_schema;
  datetime_tz_schema : option avro_schema;
  interval_schema : option avro_schema;
  special_time_schema : option avro_schema;
}.
Definition predef_empty : predef_schema := Predef None None None None None None.

Definition set_date_schema s p := let 'Predef _ b c d e f := p in Predef (Some s) b c d e f.
Definition set_time_tz_schema s p := let 'Predef a _ c d e f := p in Predef a (Some s) c d e f.
Definition set_datetime_schema s p := let 'Predef a b _ d e f := p in Predef a b (Some s) d e f.
Definition set_datetime_tz_schema s p := let 'Predef a b c _ e f := p in Predef a b c (Some s) e f.
Definition set_interval_schema s p := let 'Predef a b c d _ f := p in Predef a b c d (Some s) f.
Definition set_special_time_schema s p := let 'Predef a b c d e _ := p in Predef a b c d e (Some s).

Definition schema_for_numeric : avro_schema := SDouble.

Definition schema_for_special_times (record_schema : avro_schema) : M predef_schema avro_schema :=
  let union_schema := avro_schema_union_append (SUnion []) SNull in
  let union_schema := avro_schema_union_append union_schema record_schema in
  special ← gets special_time_schema;
  enum_schema ←
    (match special with
     | Some s => mret (SLink s)
     | None =>
         let e := SEnum "SpecialTime" [] in
         let e := avro_schema_enum_symbol_append e "POS_INFINITY" in
         let e := avro_schema_enum_symbol_append e "NEG_INFINITY" in
         _ ← modify (set_special_time_schema e);
         mret e
     end);
  mret (avro_schema_union_append union_schema enum_schema).

Definition schema_for_date_fields (r : avro_schema) : avro_schema :=
  let r := avro_schema_record_field_append r "year" SInt in
  let r := avro_schema_record_field_append r "month" SInt in
  avro_schema_record_field_append r "day" SInt.

Definition schema_for_time_fields (r : avro_schema) : avro_schema :=
  let r := avro_schema_record_field_append r "hour" SInt in
  let r := avro_schema_record_field_append r "minute" SInt in
  let r := avro_schema_record_field_append r "second" SInt in
  avro_schema_record_field_append r "micro" SInt.

Definition schema_for_date : M predef_schema avro_schema :=
  known ← gets date_schema;
  match known with
  | Some s => schema_for_special_times (SLink s)
  | None =>
      let s := schema_for_date_fields (SRecord "Date" PREDEFINED_SCHEMA_NAMESPACE []) in
      _ ← modify (set_date_schema s);
      schema_for_special_times s
  end.

Definition schema_for_time_tz : M predef_schema avro_schema :=
  known ← gets time_tz_schema;
  match known with
  | Some s => mret (SLink s)
  | None =>
      let s := SRecord "TimeTZ" PREDEFINED_SCHEMA_NAMESPACE [] in
      let s := avro_schema_record_field_append s "micro" SLong in
      let s := avro_schema_record_field_append s "zoneOffset" SInt in
      _ ← modify (set_time_tz_schema s);
      mret s
  end.

Definition schema_for_timestamp (with_tz : bool) : M predef_schema avro_schema :=
  known ← gets (if with_tz then datetime_tz_schema else datetime_schema);
  match known with
  | Some s => schema_for_special_times (SLink s)
  | None =>
      let s := SRecord (if with_tz then "DateTimeTZ" else "DateTime")
                 PREDEFINED_SCHEMA_NAMESPACE [] in
      let s := schema_for_date_fields s in
      let s := schema_for_time_fields s in
      if with_tz then
        let s := avro_schema_record_field_append s "zoneOffset" SInt in
        _ ← modify (set_datetime_tz_schema s);
        schema_for_special_times s
      else
        _ ← modify (set_datetime_schema s);
        schema_for_special_times s
  end.

Definition schema_for_interval : M predef_schema avro_schema :=
  known ← gets interval_schema;
  match known with
  | Some s => mret (SLink s)
  | None =>
      let s := SRecord "Interval" PREDEFINED_SCHEMA_NAMESPACE [] in
      let s := schema_for_date_fields s in
      let s := schema_for_time_fields s in
      _ ← modify (set_interval_schema s);
      mret s
  end.

(** The union of a value schema with null, null first. *)
Definition null_union (value_schema : avro_schema) : avro_schema :=
  avro_schema_union_append (avro_schema_union_append (SUnion []) SNull) value_schema.

Definition schema_for_oid (typid : Z) : M predef_schema avro_schema :=
  if typid =? BOOLOID then mret (null_union SBoolean)
  else if typid =? FLOAT4OID then mret (null_union SFloat)
  else if typid =? FLOAT8OID then mret (null_union SDouble)
  else if (typid =? INT2OID) || (typid =? INT4OID) then mret (null_union SInt)
  else if (typid =? INT8OID) || (typid =? CASHOID) || (typid =? OIDOID)
       || (typid =? REGPROCOID) || (typid =? XIDOID) || (typid =? CIDOID)
  then mret (null_union SLong)
  else if typid =? NUMERICOID then mret (null_union schema_for_numeric)
  else if typid =? DATEOID then schema_for_date
  else if typid =? TIMEOID then mret (null_union SLong)
  else if typid =? TIMETZOID then s ← schema_for_time_tz; mret (null_union s)
  else if typid =? TIMESTAMPOID then schema_for_timestamp false
  else if typid =? TIMESTAMPTZOID then schema_for_timestamp true
  else if typid =? INTERVALOID then s ← schema_for_interval; mret (null_union s)
  else if typid =? BYTEAOID then mret (null_union SBytes)
  else mret (null_union SString).

(** The loop over the columns of a descriptor; dropped columns are skipped. *)
Fixpoint columns_schema (attrs : tupdesc) (record_schema : avro_schema)
  : M predef_schema avro_schema :=
  match attrs with
  | [] => mret record_schema
  | attr :: attrs =>
      if attisdropped attr then columns_schema attrs record_schema else
      column_schema ← schema_for_oid (atttypid attr);
      columns_schema attrs
        (avro_schema_record_field_append record_schema (attname attr) column_schema)
  end.

Definition schema_for_table_row (cat : catalog) (rel : relation) : avro_schema :=
  let ns := GENERATED_SCHEMA_NAMESPACE +:+
            match cat_namespaces cat !! rd_namespace rel with
            | Some n => "." +:+ n
            | None => ""
            end in
  match columns_schema (rd_att rel) (SRecord (rd_name rel) ns []) predef_empty with
  | (Ret s, _) => s
  | _ => SNull
  end.

Definition schema_for_table_key (cat : catalog) (rel : relation) : outcome (option avro_schema) :=
  match table_key_index cat rel with
  | Ret (Some index_rel) => Ret (Some (schema_for_table_row cat index_rel))
  | Ret None => Ret None
  | o => cast_outcome o
  end.

(** ** Values *)

Definition POSTGRES_EPOCH_JDATE : Z := 2451545.
Definition DATEVAL_NOBEGIN : Z := - 2 ^ 31.
Definition DATEVAL_NOEND : Z := 2 ^ 31 - 1.
Definition DT_NOBEGIN : Z := - 2 ^ 63.
Definition DT_NOEND : Z := 2 ^ 63 - 1.

Section values.
Context (L : avro_lib) (P : pg_lib).

(** The seven assignments shared by timestamps and intervals, in source order. *)
Definition update_avro_with_tm (record_val : path) (tm : pg_tm) (fsec : Z) : M avro_value unit :=
  year_val ← avro_value_get_by_index L record_val 0;
  month_val ← avro_value_get_by_index L record_val 1;
  day_val ← avro_value_get_by_index L record_val 2;
  hour_val ← avro_value_get_by_index L record_val 3;
  minute_val ← avro_value_get_by_index L record_val 4;
  second_val ← avro_value_get_by_index L record_val 5;
  micro_val ← avro_value_get_by_index L record_val 6;
  _ ← avro_value_set_int L year_val (tm_year tm);
  _ ← avro_value_set_int L month_val (tm_mon tm);
  _ ← avro_value_set_int L day_val (tm_mday tm);
  _ ← avro_value_set_int L hour_val (tm_hour tm);
  _ ← avro_value_set_int L minute_val (tm_min tm);
  _ ← avro_value_set_int L second_val (tm_sec tm);
  avro_value_set_int L micro_val fsec.

Definition update_avro_with_date (union_val : path) (date : Z) : M avro_value unit :=
  if decide (date = DATEVAL_NOBEGIN \/ date = DATEVAL_NOEND) then
    enum_val ← avro_value_set_branch L union_val 2;
    (* the status of avro_value_set_enum is not checked here *)
    _ ← status (avro_value_set_enum L enum_val (if decide (date = DATEVAL_NOBEGIN) then 1 else 0));
    mret ()
  else
    let '(year, month, day) := j2date P (s32 (date + POSTGRES_EPOCH_JDATE)) in
    record_val ← avro_value_set_branch L union_val 1;
    year_val ← avro_value_get_by_index L record_val 0;
    month_val ← avro_value_get_by_index L record_val 1;
    day_val ← avro_value_get_by_index L record_val 2;
    _ ← avro_value_set_int L year_val year;
    _ ← avro_value_set_int L month_val month;
    avro_value_set_int L day_val day.

Definition update_avro_with_time_tz (record_val : path) (time : Z * Z) : M avro_value unit :=
  micro_val ← avro_value_get_by_index L record_val 0;
  zone_val ← avro_value_get_by_index L record_val 1;
  _ ← avro_value_set_long L micro_val (fst time);
  avro_value_set_int L zone_val (- snd time).

Definition update_avro_with_timestamp (union_val : path) (with_tz : bool) (timestamp : Z)
  : M avro_value unit :=
  if decide (timestamp = DT_NOBEGIN \/ timestamp = DT_NOEND) then
    enum_val ← avro_value_set_branch L union_val 2;
    avro_value_set_enum L enum_val (if decide (timestamp = DT_NOBEGIN) then 1 else 0)
  else
    match timestamp2tm P timestamp with_tz with
    | None => stop (Elog "timestamp out of range")
    | Some (decoded, fsec, tz_offset) =>
        record_val ← avro_value_set_branch L union_val 1;
        _ ← update_avro_with_tm record_val decoded fsec;
        if with_tz then
          zone_val ← avro_value_get_by_index L record_val 7;
          avro_value_set_int L zone_val (- tz_offset)
        else mret ()
    end.

Definition update_avro_with_interval (record_val : path) (interval : Interval P)
  : M avro_value unit :=
  let '(decoded, fsec) := interval2tm P interval in
  update_avro_with_tm record_val decoded fsec.

Definition update_avro_with_bytes (output_val : path) (bytes : list Z) : M avro_value unit :=
  avro_value_set_bytes L output_val bytes.

(** A two-byte C string of the character and a NUL: empty if the character is NUL. *)
Definition update_avro_with_char (output_val : path) (c : Z) : M avro_value unit :=
  avro_value_set_string L output_val (if decide (c = 0) then [] else [c]).

Definition update_avro_with_string (output_val : path) (typid : Z) (pg_datum : Datum P)
  : M avro_value unit :=
  avro_value_set_string L output_val (OutputFunctionCall P typid pg_datum).

Definition update_avro_with_datum (output_val : path) (typid : Z) (pg_datum : Datum P)
  : M avro_value unit :=
  branch_val ←
    (if (typid =? DATEOID) || (typid =? TIMESTAMPOID) || (typid =? TIMESTAMPTZOID)
     then mret output_val
     else avro_value_set_branch L output_val 1);
  if typid =? BOOLOID then avro_value_set_boolean L branch_val (DatumGetBool P pg_datum)
  else if typid =? FLOAT4OID then avro_value_set_float L branch_val (DatumGetFloat4 P pg_datum)
  else if typid =? FLOAT8OID then avro_value_set_double L branch_val (DatumGetFloat8 P pg_datum)
  else if typid =? INT2OID then avro_value_set_int L branch_val (DatumGetInt16 P pg_datum)
  else if typid =? INT4OID then avro_value_set_int L branch_val (DatumGetInt32 P pg_datum)
  else if typid =? INT8OID then avro_value_set_long L branch_val (DatumGetInt64 P pg_datum)
  else if typid =? CASHOID then avro_value_set_long L branch_val (DatumGetCash P pg_datum)
  else if (typid =? OIDOID) || (typid =? REGPROCOID)
  then avro_value_set_long L branch_val (DatumGetObjectId P pg_datum)
  else if typid =? XIDOID then avro_value_set_long L branch_val (DatumGetTransactionId P pg_datum)
  else if typid =? CIDOID then avro_value_set_long L branch_val (DatumGetCommandId P pg_datum)
  else if typid =? NUMERICOID then mret () (* the datum is fetched and not used *)
  else if typid =? DATEOID then update_avro_with_date output_val (DatumGetDateADT P pg_datum)
  else if typid =? TIMEOID then avro_value_set_long L branch_val (DatumGetTimeADT P pg_datum)
  else if typid =? TIMETZOID
  then update_avro_with_time_tz branch_val (DatumGetTimeTzADTP P pg_datum)
  else if typid =? TIMESTAMPOID
  then update_avro_with_timestamp output_val false (DatumGetTimestamp P pg_datum)
  else if typid =? TIMESTAMPTZOID
  then update_avro_with_timestamp output_val true (DatumGetTimestampTz P pg_datum)
  else if typid =? INTERVALOID
  then update_avro_with_interval branch_val (DatumGetIntervalP P pg_datum)
  else if typid =? BYTEAOID then update_avro_with_bytes branch_val (DatumGetByteaP P pg_datum)
  else if typid =? CHAROID then update_avro_with_char branch_val (DatumGetChar P pg_datum)
  else if typid =? NAMEOID then avro_value_set_string L branch_val (DatumGetNameStr P pg_datum)
  else if (typid =? TEXTOID) || (typid =? BPCHAROID) || (typid =? VARCHAROID)
  then avro_value_set_string L branch_val (TextDatumGetCString P pg_datum)
  else update_avro_with_string branch_val typid pg_datum.

(** ** Tuples *)

(** The attribute values of a heap tuple, [None] for null. *)
Abbreviation heap_tuple := (list (option (Datum P))).

(** [heap_getattr] of attribute number [i + 1]; attributes the tuple is too short
    for are null. *)
Definition heap_getattr (tuple : heap_tuple) (i : nat) : option (Datum P) :=
  default None (tuple !! i).

(** One column: null branch or the datum. *)
Definition set_column (field_val : path) (attr : pg_attribute) (datum : option (Datum P))
  : M avro_value unit :=
  match datum with
  | None => _ ← avro_value_set_branch L field_val 0; mret ()
  | Some d => update_avro_with_datum field_val (atttypid attr) d
  end.

Fixpoint row_loop (output_val : path) (attrs : tupdesc) (tuple : heap_tuple) (i field : nat)
  : M avro_value unit :=
  match attrs with
  | [] => mret ()
  | attr :: attrs =>
      if attisdropped attr then row_loop output_val attrs tuple (S i) field else
      field_val ← avro_value_get_by_index L output_val field;
      _ ← set_column field_val attr (heap_getattr tuple i);
      row_loop output_val attrs tuple (S i) (S field)
  end.

Definition tuple_to_avro_row (output_val : path) (desc : tupdesc) (tuple : heap_tuple)
  : M avro_value unit :=
  _ ← avro_value_reset L output_val;
  row_loop output_val desc tuple 0 0.

(** The position in [desc] of attribute [attnum] (from 0) of the table: the loop
    over the attributes before it. [None]: the loop reads past the end of [desc]. *)
Fixpoint tup_index (desc : tupdesc) (rel_attrs : tupdesc) (attnum : nat) (tup_i : nat)
  : option nat :=
  match attnum, rel_attrs with
  | O, _ => Some tup_i
  | S attnum, a :: rel_attrs =>
      if negb (attisdropped a) then tup_index desc rel_attrs attnum (S tup_i)
      else
        t ← desc !! tup_i;
        tup_index desc rel_attrs attnum (if attisdropped t then S tup_i else tup_i)
  | S _, [] => None
  end.

Fixpoint key_loop (output_val : path) (desc : tupdesc) (tuple : heap_tuple) (rel_desc : tupdesc)
  (indkey : list Z) (field : nat) : M avro_value unit :=
  match indkey with
  | [] => mret ()
  | k :: indkey =>
      let attnum := k - 1 in
      match tup_index desc rel_desc (Z.to_nat attnum) 0 with
      | None => stop Undef
      | Some tup_i =>
          match desc !! tup_i with
          | None => stop (Elog "index refers to non-existent attribute number")
          | Some attr =>
              if attisdropped attr
              then stop (Elog "index refers to non-existent attribute number")
              else
                field_val ← avro_value_get_by_index L output_val field;
                _ ← set_column field_val attr (heap_getattr tuple tup_i);
                key_loop output_val desc tuple rel_desc indkey (S field)
          end
      end
  end.

Definition tuple_to_avro_key (output_val : path) (desc : tupdesc) (tuple : heap_tuple)
  (rel : relation) (key_index : pg_index) : M avro_value unit :=
  _ ← avro_value_reset L output_val;
  key_loop output_val desc tuple (rd_att rel) (indkey key_index) 0.

End values.
