(* ===== verification/Oid2AvroFacts.v ===== *)
(** * Properties of the row translation

    Every column's schema admits null, the value written for a datum belongs to the
    column's schema, rows belong to the row schema of their table, and the key is
    taken from the indexed columns also when the descriptor omits dropped columns. *)

From S2P Require Import Prelude Avro AvroBinary Oid2Avro.
Open Scope Z_scope.

(** ** The schemas of columns *)

Definition date_record : avro_schema :=
  schema_for_date_fields (SRecord "Date" PREDEFINED_SCHEMA_NAMESPACE []).
Definition time_tz_record : avro_schema :=
  SRecord "TimeTZ" PREDEFINED_SCHEMA_NAMESPACE [("micro", SLong); ("zoneOffset", SInt)].
Definition datetime_record : avro_schema :=
  schema_for_time_fields (schema_for_date_fields
    (SRecord "DateTime" PREDEFINED_SCHEMA_NAMESPACE [])).
Definition datetime_tz_record : avro_schema :=
  avro_schema_record_field_append
    (schema_for_time_fields (schema_for_date_fields
      (SRecord "DateTimeTZ" PREDEFINED_SCHEMA_NAMESPACE []))) "zoneOffset" SInt.
Definition interval_record : avro_schema :=
  schema_for_time_fields (schema_for_date_fields
    (SRecord "Interval" PREDEFINED_SCHEMA_NAMESPACE [])).
Definition special_time_enum : avro_schema :=
  SEnum "SpecialTime" ["POS_INFINITY"; "NEG_INFINITY"].

(** A named schema is either defined in place or linked to. *)
Definition link_of (r s : avro_schema) : Prop := s = r \/ s = SLink r.

(** Types whose schema has a third branch for the infinities. *)
Definition has_infinity (typid : Z) : bool :=
  (typid =? DATEOID) || (typid =? TIMESTAMPOID) || (typid =? TIMESTAMPTZOID).

(** The schema of the non-null values of a type. *)
Definition base_schema (typid : Z) : avro_schema :=
  if typid =? BOOLOID then SBoolean
  else if typid =? FLOAT4OID then SFloat
  else if (typid =? FLOAT8OID) || (typid =? NUMERICOID) then SDouble
  else if (typid =? INT2OID) || (typid =? INT4OID) then SInt
  else if (typid =? INT8OID) || (typid =? CASHOID) || (typid =? OIDOID)
       || (typid =? REGPROCOID) || (typid =? XIDOID) || (typid =? CIDOID)
       || (typid =? TIMEOID)
  then SLong
  else if typid =? DATEOID then date_record
  else if typid =? TIMETZOID then time_tz_record
  else if typid =? TIMESTAMPOID then datetime_record
  else if typid =? TIMESTAMPTZOID then datetime_tz_record
  else if typid =? INTERVALOID then interval_record
  else if typid =? BYTEAOID then SBytes
  else SString.

Definition col_schema (typid : Z) (s : avro_schema) : Prop :=
  exists v, link_of (base_schema typid) v /\
    if has_infinity typid
    then exists e, link_of special_time_enum e /\ s = SUnion [SNull; v; e]
    else s = SUnion [SNull; v].

Definition opt_is (o : option avro_schema) (s : avro_schema) : Prop := o = None \/ o = Some s.

(** The predefined schemas remembered so far are the right ones. *)
Definition predef_ok (p : predef_schema) : Prop :=
  opt_is (date_schema p) date_record /\ opt_is (time_tz_schema p) time_tz_record /\
  opt_is (datetime_schema p) datetime_record /\
  opt_is (datetime_tz_schema p) datetime_tz_record /\
  opt_is (interval_schema p) interval_record /\
  opt_is (special_time_schema p) special_time_enum.

Lemma predef_empty_ok : predef_ok predef_empty.
Proof. unfold predef_ok, opt_is; simpl; naive_solver. Qed.

(** The type OIDs that [schema_for_oid] and [update_avro_with_datum] distinguish. *)
Definition known_types : list Z :=
  [BOOLOID; FLOAT4OID; FLOAT8OID; INT2OID; INT4OID; INT8OID; CASHOID; OIDOID; REGPROCOID;
   XIDOID; CIDOID; NUMERICOID; DATEOID; TIMEOID; TIMETZOID; TIMESTAMPOID; TIMESTAMPTZOID;
   INTERVALOID; BYTEAOID; CHAROID; NAMEOID; TEXTOID; BPCHAROID; VARCHAROID].

(** Case analysis on a type: each known OID, or one that no test matches. *)
Ltac case_type typid :=
  destruct (decide (typid ∈ known_types)) as [Htype|Htype];
  [ unfold known_types in Htype; repeat first
      [ apply elem_of_nil in Htype; destruct Htype
      | apply elem_of_cons in Htype; destruct Htype as [->|Htype] ]
  | unfold known_types in Htype; rewrite ?not_elem_of_cons in Htype; destruct_and? Htype;
    repeat match goal with H : typid <> ?t |- _ => apply Z.eqb_neq in H end ].

Ltac eqb_false := repeat match goal with H : (?x =? ?y) = false |- _ => rewrite H; clear H end.

Ltac opt_cases :=
  repeat match goal with H : opt_is ?o _ |- _ => destruct H as [H|H]; try rewrite H end.

Lemma schema_for_special_times_spec ps r v :
  predef_ok ps -> link_of r v ->
  exists e ps', schema_for_special_times v ps = (Ret (SUnion [SNull; v; e]), ps') /\
    link_of special_time_enum e /\ predef_ok ps'.
Proof.
  intros Hps Hv. destruct ps as [d t dt dtz i sp].
  unfold schema_for_special_times, mbind, M_bind, gets; simpl.
  destruct Hps as (?&?&?&?&?&[Hsp|Hsp]); simpl in *; subst sp; simpl.
  - eexists _, _. split; [done|]. split; [by left|]. unfold predef_ok; simpl.
    repeat split; auto. by right.
  - eexists _, _. split; [done|]. split; [by right|]. unfold predef_ok; simpl.
    repeat split; auto. by right.
Qed.

Lemma special_times_col typid v ps :
  has_infinity typid = true -> link_of (base_schema typid) v -> predef_ok ps ->
  exists s ps', schema_for_special_times v ps = (Ret s, ps') /\ col_schema typid s /\ predef_ok ps'.
Proof.
  intros Hi Hv Hps.
  destruct (schema_for_special_times_spec ps _ v Hps Hv) as (e & ps' & H & He & Hps').
  exists (SUnion [SNull; v; e]), ps'. split; [done|]. split; [|done].
  exists v. split; [done|]. rewrite Hi. eauto.
Qed.

Lemma null_union_col typid v (ps : predef_schema) :
  has_infinity typid = false -> link_of (base_schema typid) v -> predef_ok ps ->
  exists s ps', (Ret (null_union v), ps) = (Ret s, ps') /\ col_schema typid s /\ predef_ok ps'.
Proof.
  intros Hi Hv Hps. eexists _, _. split; [done|]. split; [|done]. exists v. by rewrite Hi.
Qed.

(** Solve [predef_ok] after one of the remembered schemas has been set. *)
Ltac predef_solve :=
  unfold predef_ok in *; simpl in *; destruct_and?; repeat split; auto; by right.

Lemma schema_for_oid_spec typid ps :
  predef_ok ps ->
  exists s ps', schema_for_oid typid ps = (Ret s, ps') /\ col_schema typid s /\ predef_ok ps'.
Proof.
  intros Hps. destruct ps as [d t dt dtz i sp].
  pose proof Hps as (Hd & Ht & Hdt & Hdtz & Hiv & _); simpl in *.
  case_type typid; try (apply null_union_col; [done|by left|done]).
  - destruct Hd as [->| ->]; 
      [apply (special_times_col DATEOID date_record (Predef (Some date_record) t dt dtz i sp))
      |apply (special_times_col DATEOID (SLink date_record) (Predef (Some date_record) t dt dtz i sp))];
      first [done|by left|by right|predef_solve].
  - destruct Ht as [->| ->]; 
      [apply (null_union_col TIMETZOID time_tz_record (Predef d (Some time_tz_record) dt dtz i sp))
      |apply (null_union_col TIMETZOID (SLink time_tz_record) (Predef d (Some time_tz_record) dt dtz i sp))];
      first [done|by left|by right|predef_solve].
  - destruct Hdt as [->| ->]; 
      [apply (special_times_col TIMESTAMPOID datetime_record (Predef d t (Some datetime_record) dtz i sp))
      |apply (special_times_col TIMESTAMPOID (SLink datetime_record) (Predef d t (Some datetime_record) dtz i sp))];
      first [done|by left|by right|predef_solve].
  - destruct Hdtz as [->| ->]; 
      [apply (special_times_col TIMESTAMPTZOID datetime_tz_record (Predef d t dt (Some datetime_tz_record) i sp))
      |apply (special_times_col TIMESTAMPTZOID (SLink datetime_tz_record) (Predef d t dt (Some datetime_tz_record) i sp))];
      first [done|by left|by right|predef_solve].
  - destruct Hiv as [->| ->]; 
      [apply (null_union_col INTERVALOID interval_record (Predef d t dt dtz (Some interval_record) sp))
      |apply (null_union_col INTERVALOID (SLink interval_record) (Predef d t dt dtz (Some interval_record) sp))];
      first [done|by left|by right|predef_solve].
  - assert (Hb : base_schema typid = SString) by (unfold base_schema; eqb_false; reflexivity).
    replace (schema_for_oid typid _) with
      (Ret (A := avro_schema) (null_union SString), Predef d t dt dtz i sp)
      by (unfold schema_for_oid; eqb_false; reflexivity).
    apply null_union_col; [unfold has_infinity; eqb_false; reflexivity|by left|done].
Qed.

(** ** Values of columns *)

Section datum.
Context (L : avro_lib) {HL : AvroConforms L} (P : pg_lib) {HP : PgConforms P}.

(** The datum can be translated: only a finite timestamp that [timestamp2tm] rejects
    cannot. *)
Definition decodes (typid : Z) (d : Datum P) : Prop :=
  (typid = TIMESTAMPOID ->
     DatumGetTimestamp P d <> DT_NOBEGIN -> DatumGetTimestamp P d <> DT_NOEND ->
     is_Some (timestamp2tm P (DatumGetTimestamp P d) false)) /\
  (typid = TIMESTAMPTZOID ->
     DatumGetTimestampTz P d <> DT_NOBEGIN -> DatumGetTimestampTz P d <> DT_NOEND ->
     is_Some (timestamp2tm P (DatumGetTimestampTz P d) true)).

(** *** The value of a datum

    The branch of the column's union and the value in it. *)

Definition tm_fields (tm : pg_tm) (fsec : Z) : list avro_value :=
  [VInt (tm_year tm); VInt (tm_mon tm); VInt (tm_mday tm); VInt (tm_hour tm);
   VInt (tm_min tm); VInt (tm_sec tm); VInt fsec].

(** Minus infinity is symbol 1 of the enumeration, plus infinity symbol 0. *)
Definition date_value (date : Z) : Z * avro_value :=
  if decide (date = DATEVAL_NOBEGIN) then (2, VEnum 1)
  else if decide (date = DATEVAL_NOEND) then (2, VEnum 0)
  else
    let '(year, month, day) := j2date P (s32 (date + POSTGRES_EPOCH_JDATE)) in
    (1, VRecord [VInt year; VInt month; VInt day]).

(** Zone offsets are seconds east, Postgres counts west. *)
Definition timestamp_value (with_tz : bool) (t : Z) : Z * avro_value :=
  if decide (t = DT_NOBEGIN) then (2, VEnum 1)
  else if decide (t = DT_NOEND) then (2, VEnum 0)
  else
    match timestamp2tm P t with_tz with
    | Some (tm, fsec, tz) =>
        (1, VRecord (tm_fields tm fsec ++ if with_tz then [VInt (- tz)] else []))
    | None => (0, VNull)
    end.

Definition interval_value (i : Interval P) : avro_value :=
  let '(tm, fsec) := interval2tm P i in VRecord (tm_fields tm fsec).

Definition datum_value (typid : Z) (d : Datum P) : Z * avro_value :=
  if typid =? DATEOID then date_value (DatumGetDateADT P d)
  else if typid =? TIMESTAMPOID then timestamp_value false (DatumGetTimestamp P d)
  else if typid =? TIMESTAMPTZOID then timestamp_value true (DatumGetTimestampTz P d)
  else (1,
    if typid =? BOOLOID then VBoolean (DatumGetBool P d)
    else if typid =? FLOAT4OID then VFloat (DatumGetFloat4 P d)
    else if typid =? FLOAT8OID then VDouble (DatumGetFloat8 P d)
    else if typid =? INT2OID then VInt (DatumGetInt16 P d)
    else if typid =? INT4OID then VInt (DatumGetInt32 P d)
    else if typid =? INT8OID then VLong (DatumGetInt64 P d)
    else if typid =? CASHOID then VLong (DatumGetCash P d)
    else if (typid =? OIDOID) || (typid =? REGPROCOID) then VLong (DatumGetObjectId P d)
    else if typid =? XIDOID then VLong (DatumGetTransactionId P d)
    else if typid =? CIDOID then VLong (DatumGetCommandId P d)
    else if typid =? NUMERICOID then VDouble 0 (* whatever the datum is *)
    else if typid =? TIMEOID then VLong (DatumGetTimeADT P d)
    else if typid =? TIMETZOID then
      let '(micro, zone) := DatumGetTimeTzADTP P d in VRecord [VLong micro; VInt (- zone)]
    else if typid =? INTERVALOID then interval_value (DatumGetIntervalP P d)
    else if typid =? BYTEAOID then VBytes (DatumGetByteaP P d)
    else VString (
      if typid =? CHAROID then
        (if decide (DatumGetChar P d = 0) then [] else [DatumGetChar P d])
      else if typid =? NAMEOID then DatumGetNameStr P d
      else if (typid =? TEXTOID) || (typid =? BPCHAROID) || (typid =? VARCHAROID)
      then TextDatumGetCString P d
      else OutputFunctionCall P typid d)).

Definition union_branches (s : avro_schema) : list avro_schema :=
  match s with SUnion bs => bs | _ => [] end.

(** A column of schema [s]: SQL null is branch 0. *)
Definition column_value (s : avro_schema) (typid : Z) (datum : option (Datum P)) : avro_value :=
  let bs := union_branches s in
  match datum with
  | None => VUnion bs 0 VNull
  | Some d => let '(branch, v) := datum_value typid d in VUnion bs branch v
  end.

Context {p : path} {C : avro_value -> avro_value} (HC : is_ctx p C).

Lemma set_string_spec q x x' str :
  vupd (fun w => match w with VString _ => Some (VString str) | _ => None end) x q = Some x' ->
  avro_value_set_string L (p ++ q) str (C x) = (Ret tt, C x').
Proof.
  intros Hx. unfold avro_value_set_string. eapply lib_last; [conf|].
  unfold ref_set_string_len. eapply (ctx_ref_set HC); [done|]. rewrite <- Hx.
  apply vupd_ext. intros w. destruct w; try done. rewrite decide_True.
  - replace (Z.to_nat _) with (length str) by lia. by rewrite take_app_length.
  - rewrite length_app; simpl. split; [lia|].
    replace (Z.to_nat _) with (length str) by lia. by rewrite lookup_app_r, Nat.sub_diag.
Qed.

Lemma has_schema_link r s v : link_of r s -> has_schema r v -> has_schema s v.
Proof. intros [->| ->] ?; by repeat constructor. Qed.

Lemma has_schema_branch bs n s v :
  (n < 4)%nat -> bs !! n = Some s -> has_schema s v ->
  has_schema (SUnion bs) (VUnion bs (Z.of_nat n) v).
Proof. intros Hn Hs Hv. econstructor; [lia|by rewrite Nat2Z.id|done]. Qed.

End datum.

Section datum_cases.
Context (L : avro_lib) {HL : AvroConforms L} (P : pg_lib) {HP : PgConforms P}.

(** [m], run at any place that holds the default value of [s], leaves there the value
    [v], a complete value of [s]. *)
Definition fills (m : path -> M avro_value unit) (s : avro_schema) (v : avro_value) : Prop :=
  has_schema s v /\ forall p C, is_ctx p C -> m p (C (default_value s)) = (Ret tt, C v).

Lemma fills_link m r s v : link_of r s -> fills m r v -> fills m s v.
Proof.
  intros Hs [Hr Hm]. split; [by eapply has_schema_link|]. by destruct Hs as [->| ->].
Qed.

(** Filling the branch [n] of a union after selecting it. *)
Lemma fills_branch m bs n s v :
  (n < 4)%nat -> bs !! n = Some s -> fills m s v ->
  fills (fun p => r ← avro_value_set_branch L p (Z.of_nat n); m r) (SUnion bs)
    (VUnion bs (Z.of_nat n) v).
Proof.
  intros Hn Hs [Hok Hm]. split; [by eapply has_schema_branch|]. intros p C HC.
  etrans; [|exact (Hm _ _ (is_ctx_branch p C bs (Z.of_nat n) ltac:(lia) HC))]. eapply lib_bind; [conf|].
  eapply (ctx_ref_set_branch HC); [path_eq|]. simpl. rewrite decide_True by lia.
  by rewrite Nat2Z.id, Hs.
Qed.

Lemma fills_boolean b : fills (fun p => avro_value_set_boolean L p b) SBoolean (VBoolean b).
Proof. split; [constructor|]. intros p C HC. ctx_last HC. Qed.
Lemma fills_int z : is_s32 z -> fills (fun p => avro_value_set_int L p z) SInt (VInt z).
Proof. split; [by constructor|]. intros p C HC. ctx_last HC. Qed.
Lemma fills_long z : is_s64 z -> fills (fun p => avro_value_set_long L p z) SLong (VLong z).
Proof. split; [by constructor|]. intros p C HC. ctx_last HC. Qed.
Lemma fills_float z : is_u32 z -> fills (fun p => avro_value_set_float L p z) SFloat (VFloat z).
Proof. split; [by constructor|]. intros p C HC. ctx_last HC. Qed.
Lemma fills_double z : is_u64 z -> fills (fun p => avro_value_set_double L p z) SDouble (VDouble z).
Proof. split; [by constructor|]. intros p C HC. ctx_last HC. Qed.
Lemma fills_nothing : fills (fun _ => mret tt) SDouble (VDouble 0).
Proof. split; [constructor; int_lia|done]. Qed.
Lemma fills_bytes l :
  Forall is_byte l /\ Z.of_nat (length l) < 2 ^ 30 ->
  fills (fun p => avro_value_set_bytes L p l) SBytes (VBytes l).
Proof. intros [Hl Hn]. split; [constructor; [done|lia]|]. intros p C HC. ctx_last HC. Qed.
Lemma fills_string l :
  Forall is_byte l /\ Z.of_nat (length l) < 2 ^ 30 ->
  fills (fun p => avro_value_set_string L p l) SString (VString l).
Proof.
  intros [Hl Hn]. split; [constructor; [done|lia]|]. intros p C HC.
  rewrite <- (app_nil_r p). by apply (set_string_spec L HC).
Qed.
Lemma fills_enum z :
  z = 0 \/ z = 1 -> fills (fun p => avro_value_set_enum L p z) special_time_enum (VEnum z).
Proof.
  intros Hz. split; [constructor; [simpl; lia|int_lia]|]. intros p C HC. ctx_last HC.
Qed.

(** The fields of a record, one by one. *)
Ltac each_field := repeat first [apply List.Forall2_nil | apply List.Forall2_cons].

Lemma fills_time_tz t :
  is_s64 (fst t) -> - 2 ^ 31 < snd t < 2 ^ 31 ->
  fills (fun p => update_avro_with_time_tz L p t) time_tz_record
    (VRecord [VLong (fst t); VInt (- snd t)]).
Proof.
  intros H1 H2. split.
  - apply HS_record. each_field; constructor; [done|int_lia].
  - intros p C HC. unfold update_avro_with_time_tz. do 3 ctx_step HC. ctx_last HC.
Qed.

(** The fields of a broken-down time are C ints. *)
Definition tm_ok (tm : pg_tm) (fsec : Z) : Prop :=
  is_s32 (tm_year tm) /\ is_s32 (tm_mon tm) /\ is_s32 (tm_mday tm) /\ is_s32 (tm_hour tm) /\
  is_s32 (tm_min tm) /\ is_s32 (tm_sec tm) /\ is_s32 fsec.

Lemma update_avro_with_tm_spec p C tm fsec rest :
  is_ctx p C ->
  update_avro_with_tm L p tm fsec (C (VRecord (replicate 7 (VInt 0) ++ rest))) =
  (Ret tt, C (VRecord (tm_fields tm fsec ++ rest))).
Proof. intros HC. unfold update_avro_with_tm. do 13 ctx_step HC. ctx_last HC. Qed.

Lemma tm_fields_has_schema tm fsec :
  tm_ok tm fsec -> Forall2 has_schema (replicate 7 SInt) (tm_fields tm fsec).
Proof. intros (?&?&?&?&?&?&?). each_field; by apply HS_int. Qed.

Lemma fills_tm tm fsec n ns :
  tm_ok tm fsec ->
  fills (fun p => update_avro_with_tm L p tm fsec)
    (schema_for_time_fields (schema_for_date_fields (SRecord n ns []))) (VRecord (tm_fields tm fsec)).
Proof.
  intros Htm. split; [by constructor; apply tm_fields_has_schema|]. intros p C HC.
  pose proof (update_avro_with_tm_spec p C tm fsec [] HC) as H. by rewrite app_nil_r in H.
Qed.

Lemma fills_tm_tz tm fsec z :
  tm_ok tm fsec -> - 2 ^ 31 < z < 2 ^ 31 ->
  fills (fun p =>
    _ ← update_avro_with_tm L p tm fsec;
    zone_val ← avro_value_get_by_index L p 7;
    avro_value_set_int L zone_val (- z)) datetime_tz_record
    (VRecord (tm_fields tm fsec ++ [VInt (- z)])).
Proof.
  intros Htm Hz. split.
  - apply HS_record.
    change (Forall2 has_schema (replicate 7 SInt ++ [SInt]) (tm_fields tm fsec ++ [VInt (- z)])).
    apply Forall2_app; [by apply tm_fields_has_schema|].
    each_field. apply HS_int. int_lia.
  - intros p C HC. etrans; [apply bind_Ret, (update_avro_with_tm_spec p C tm fsec [VInt 0] HC)|].
    ctx_step HC. ctx_last HC.
Qed.

Lemma fills_date_fields year month day :
  is_s32 year -> is_s32 month -> is_s32 day ->
  fills (fun p =>
    year_val ← avro_value_get_by_index L p 0;
    month_val ← avro_value_get_by_index L p 1;
    day_val ← avro_value_get_by_index L p 2;
    _ ← avro_value_set_int L year_val year;
    _ ← avro_value_set_int L month_val month;
    avro_value_set_int L day_val day) date_record (VRecord [VInt year; VInt month; VInt day]).
Proof.
  intros Hy Hm Hd. split.
  - apply HS_record. each_field; by apply HS_int.
  - intros p C HC. do 5 ctx_step HC. ctx_last HC.
Qed.

(** *** The translation of a datum, by type *)

(** [m] fills the union of schema [s] with the given branch and value. *)
Abbreviation fills_union m s bv :=
  (fills m s (VUnion (union_branches s) (fst bv) (snd bv))).

(** The enumeration symbol of an infinite time; its status is not always checked. *)
Lemma fills_special v e z (checked : bool) :
  link_of special_time_enum e -> z = 0 \/ z = 1 ->
  fills_union (fun p => r ← avro_value_set_branch L p 2;
      if checked then avro_value_set_enum L r z
      else _ ← status (avro_value_set_enum L r z); mret ())
    (SUnion [SNull; v; e]) (2, VEnum z).
Proof.
  intros He Hz.
  apply (fills_branch (fun r => if checked then avro_value_set_enum L r z
      else _ ← status (avro_value_set_enum L r z); mret ()) [SNull; v; e] 2 e); [lia|done|].
  eapply fills_link; [done|]. destruct (fills_enum z Hz) as [Hs Hrun].
  destruct checked; split; try done. intros p C HC.
  by erewrite bind_Ret by (by apply status_Ret, Hrun).
Qed.

Lemma fills_date v e date :
  link_of date_record v -> link_of special_time_enum e ->
  fills_union (fun p => update_avro_with_date L P p date) (SUnion [SNull; v; e]) (date_value P date).
Proof.
  intros Hv He. unfold update_avro_with_date, date_value.
  destruct (decide (date = DATEVAL_NOBEGIN)) as [->|Hb].
  { destruct (decide _) as [_|Hn]; [|by destruct Hn; auto].
    apply (fills_special v e 1 false He). by right. }
  destruct (decide (date = DATEVAL_NOEND)) as [->|He'].
  { destruct (decide _) as [_|Hn]; [|by destruct Hn; auto].
    apply (fills_special v e 0 false He). by left. }
  destruct (decide _) as [Hn|_]; [by destruct Hn|].
  destruct (j2date P (s32 (date + POSTGRES_EPOCH_JDATE))) as [[year month] day] eqn:Hj.
  apply pg_j2date in Hj as (?&?&?).
  apply (fills_branch _ [SNull; v; e] 1 v); [lia|done|].
  eapply fills_link; [done|]. by apply fills_date_fields.
Qed.

Lemma fills_timestamp v e (with_tz : bool) t :
  link_of (if with_tz then datetime_tz_record else datetime_record) v ->
  link_of special_time_enum e ->
  (t <> DT_NOBEGIN -> t <> DT_NOEND -> is_Some (timestamp2tm P t with_tz)) ->
  fills_union (fun p => update_avro_with_timestamp L P p with_tz t) (SUnion [SNull; v; e])
    (timestamp_value P with_tz t).
Proof.
  intros Hv He Ht. unfold update_avro_with_timestamp, timestamp_value.
  destruct (decide (t = DT_NOBEGIN)) as [->|Hb].
  { destruct (decide _) as [_|Hn]; [|by destruct Hn; auto].
    apply (fills_special v e 1 true He). by right. }
  destruct (decide (t = DT_NOEND)) as [->|He'].
  { destruct (decide _) as [_|Hn]; [|by destruct Hn; auto].
    apply (fills_special v e 0 true He). by left. }
  destruct (decide _) as [Hn|_]; [by destruct Hn|]. destruct Ht as [[[tm fsec] z] Htm]; [done..|]. rewrite Htm.
  apply pg_timestamp in Htm as (?&?&?&?&?&?&?&?).
  apply (fills_branch _ [SNull; v; e] 1 v); [lia|done|]. eapply fills_link; [done|].
  destruct with_tz; [by apply fills_tm_tz|]. rewrite app_nil_r.
  destruct (fills_tm tm fsec "DateTime" PREDEFINED_SCHEMA_NAMESPACE) as [Hs Hrun]; [done|].
  split; [done|]. intros p C HC. by erewrite bind_Ret by (by apply Hrun).
Qed.

Lemma fills_interval i :
  fills (fun p => update_avro_with_interval L P p i) interval_record (interval_value P i).
Proof.
  unfold update_avro_with_interval, interval_value. destruct (interval2tm P i) as [tm fsec] eqn:Hi.
  apply fills_tm. by eapply pg_interval.
Qed.

(** A two-branch column: branch 1 is selected, then filled. *)
Lemma fills_plain m typid s v :
  col_schema typid s -> has_infinity typid = false -> fills m (base_schema typid) v ->
  fills_union (fun p => r ← avro_value_set_branch L p 1; m r) s (1, v).
Proof.
  intros (u & Hu & Hs) Hi Hm. rewrite Hi in Hs. subst s.
  apply (fills_branch m [SNull; u] 1 u); [lia|done|]. by eapply fills_link.
Qed.

Lemma update_avro_with_datum_fills typid s d :
  col_schema typid s -> decodes P typid d ->
  fills_union (fun p => update_avro_with_datum L P p typid d) s (datum_value P typid d).
Proof.
  intros Hs [Hts Htz].
  case_type typid.
  - exact (fills_plain _ _ s _ Hs eq_refl (fills_boolean _)).
  - exact (fills_plain _ _ s _ Hs eq_refl (fills_float _ (pg_float4 d))).
  - exact (fills_plain _ _ s _ Hs eq_refl (fills_double _ (pg_float8 d))).
  - refine (fills_plain _ _ s _ Hs eq_refl (fills_int _ _)). pose proof (pg_int16 d). int_lia.
  - exact (fills_plain _ _ s _ Hs eq_refl (fills_int _ (pg_int32 d))).
  - exact (fills_plain _ _ s _ Hs eq_refl (fills_long _ (pg_int64 d))).
  - exact (fills_plain _ _ s _ Hs eq_refl (fills_long _ (pg_cash d))).
  - refine (fills_plain _ _ s _ Hs eq_refl (fills_long _ _)). pose proof (pg_oid d). int_lia.
  - refine (fills_plain _ _ s _ Hs eq_refl (fills_long _ _)). pose proof (pg_oid d). int_lia.
  - refine (fills_plain _ _ s _ Hs eq_refl (fills_long _ _)). pose proof (pg_xid d). int_lia.
  - refine (fills_plain _ _ s _ Hs eq_refl (fills_long _ _)). pose proof (pg_cid d). int_lia.
  - exact (fills_plain _ _ s _ Hs eq_refl fills_nothing).
  - destruct Hs as (v & Hv & e & He & ->). exact (fills_date v e _ Hv He).
  - exact (fills_plain _ _ s _ Hs eq_refl (fills_long _ (pg_time d))).
  - destruct (pg_timetz d) as [? ?]. unfold datum_value. simpl.
    rewrite (surjective_pairing (DatumGetTimeTzADTP P d)).
    by refine (fills_plain _ _ s _ Hs eq_refl (fills_time_tz _ _ _)).
  - destruct Hs as (v & Hv & e & He & ->). exact (fills_timestamp v e false _ Hv He (Hts eq_refl)).
  - destruct Hs as (v & Hv & e & He & ->). exact (fills_timestamp v e true _ Hv He (Htz eq_refl)).
  - exact (fills_plain _ _ s _ Hs eq_refl (fills_interval _)).
  - exact (fills_plain _ _ s _ Hs eq_refl (fills_bytes _ (pg_bytea d))).
  - refine (fills_plain _ _ s _ Hs eq_refl (fills_string _ _)).
    pose proof (pg_char d). case_decide; split; simpl; try lia; auto.
  - exact (fills_plain _ _ s _ Hs eq_refl (fills_string _ (pg_name d))).
  - exact (fills_plain _ _ s _ Hs eq_refl (fills_string _ (pg_text d))).
  - exact (fills_plain _ _ s _ Hs eq_refl (fills_string _ (pg_text d))).
  - exact (fills_plain _ _ s _ Hs eq_refl (fills_string _ (pg_text d))).
  - assert (Hi : has_infinity typid = false) by (unfold has_infinity; eqb_false; reflexivity).
    assert (Hb : base_schema typid = SString) by (unfold base_schema; eqb_false; reflexivity).
    unfold update_avro_with_datum, datum_value. eqb_false. simpl.
    refine (fills_plain _ _ s _ Hs Hi _). rewrite Hb. apply fills_string, pg_output.
Qed.

(** ** Rows *)

(** The columns of a descriptor that have not been dropped. *)
Definition live (attrs : tupdesc) : tupdesc := filter (fun a => attisdropped a = false) attrs.

Lemma live_cons a attrs :
  live (a :: attrs) = if attisdropped a then live attrs else a :: live attrs.
Proof.
  unfold live. rewrite filter_cons. destruct (attisdropped a); [by rewrite decide_False|].
  by rewrite decide_True.
Qed.

Lemma live_app l1 l2 : live (l1 ++ l2) = live l1 ++ live l2.
Proof.
  induction l1 as [|a l1 IH]; [done|]. simpl. rewrite !live_cons, IH.
  by destruct (attisdropped a).
Qed.

(** The field of a record schema for a column. *)
Definition column_field (a : pg_attribute) (f : string * avro_schema) : Prop :=
  f.1 = attname a /\ col_schema (atttypid a) f.2.

Lemma columns_schema_spec attrs n ns fs ps :
  predef_ok ps ->
  exists cols ps', columns_schema attrs (SRecord n ns fs) ps = (Ret (SRecord n ns (fs ++ cols)), ps')
    /\ predef_ok ps' /\ Forall2 column_field (live attrs) cols.
Proof.
  revert fs ps. induction attrs as [|a attrs IH]; intros fs ps Hps; simpl.
  - exists [], ps. rewrite app_nil_r. split; [done|]. split; [done|]. apply List.Forall2_nil.
  - rewrite live_cons. destruct (attisdropped a) eqn:Ha; [by apply IH|].
    destruct (schema_for_oid_spec (atttypid a) ps Hps) as (s & ps1 & Hs & Hcol & Hps1).
    erewrite bind_Ret by exact Hs. simpl.
    destruct (IH (fs ++ [(attname a, s)]) ps1 Hps1) as (cols & ps2 & Hc & Hps2 & Hf).
    exists ((attname a, s) :: cols), ps2. rewrite Hc, <- (assoc_L (++)).
    split; [done|]. split; [done|]. by apply List.Forall2_cons.
Qed.

Definition row_namespace (cat : catalog) (rel : relation) : string :=
  GENERATED_SCHEMA_NAMESPACE +:+
  match cat_namespaces cat !! rd_namespace rel with Some n => "." +:+ n | None => "" end.

(** The row schema has the table's name and one field per live column, in order. *)
Lemma schema_for_table_row_spec cat rel :
  exists cols, schema_for_table_row cat rel = SRecord (rd_name rel) (row_namespace cat rel) cols /\
    Forall2 column_field (live (rd_att rel)) cols.
Proof.
  unfold schema_for_table_row, row_namespace.
  edestruct (columns_schema_spec (rd_att rel)) as (cols & ps' & H & _ & Hc);
    [apply predef_empty_ok|].
  rewrite H. by exists cols.
Qed.

Lemma set_column_fills a s datum :
  col_schema (atttypid a) s -> (forall d, datum = Some d -> decodes P (atttypid a) d) ->
  fills (fun p => set_column L P p a datum) s (column_value P s (atttypid a) datum).
Proof.
  intros Hs Hd. unfold column_value. destruct datum as [d|]; simpl.
  - rewrite (surjective_pairing (datum_value P (atttypid a) d)).
    apply update_avro_with_datum_fills; auto.
  - destruct Hs as (v & _ & Hs).
    assert (exists bs, s = SUnion (SNull :: bs)) as [bs ->].
    { destruct (has_infinity _); [destruct Hs as (e & _ & ->)|subst s]; eauto. }
    apply (fills_branch (fun _ => mret tt) (SNull :: bs) 0 SNull); [lia|done|].
    split; [constructor|done].
Qed.

(** Every timestamp in the live columns of the tuple can be broken down. *)
Definition tuple_decodes (attrs : tupdesc) (tuple : list (option (Datum P))) (i : nat) : Prop :=
  forall j a d, attrs !! j = Some a -> attisdropped a = false ->
    heap_getattr P tuple (i + j) = Some d -> decodes P (atttypid a) d.

Lemma tuple_decodes_tail a attrs tuple i :
  tuple_decodes (a :: attrs) tuple i -> tuple_decodes attrs tuple (S i).
Proof.
  intros H j b d Hb Hl Hd. apply (H (S j) b d); [done|done|].
  by replace (i + S j)%nat with (S i + j)%nat by lia.
Qed.

(** The fields of a row: one per live column, from attribute number [i + 1] on. *)
Fixpoint row_fields (attrs : tupdesc) (tuple : list (option (Datum P))) (i : nat)
  (cols : list (string * avro_schema)) : list avro_value :=
  match attrs with
  | [] => []
  | a :: attrs =>
      if attisdropped a then row_fields attrs tuple (S i) cols else
      match cols with
      | [] => []
      | c :: cols =>
          column_value P c.2 (atttypid a) (heap_getattr P tuple i) :: row_fields attrs tuple (S i) cols
      end
  end.

(** One field of the record, while those before it are done. *)
Lemma column_step {A} done rest a s datum (k : path -> M avro_value A) :
  col_schema (atttypid a) s -> (forall d, datum = Some d -> decodes P (atttypid a) d) ->
  let v := column_value P s (atttypid a) datum in
  has_schema s v /\
  (field_val ← avro_value_get_by_index L [] (length done);
   _ ← set_column L P field_val a datum;
   k field_val) (VRecord (done ++ default_value s :: rest)) =
  k [length done] (VRecord (done ++ v :: rest)).
Proof.
  intros Hs Hd v. destruct (set_column_fills a s datum Hs Hd) as [Hok Hrun]. split; [done|].
  etrans; [eapply lib_bind; [conf|]|].
  { unfold ref_get_by_index, ref_get. simpl. by rewrite decide_True by (rewrite length_app; simpl; lia). }
  simpl app. by etrans; [apply bind_Ret, (Hrun _ _ (is_ctx_middle done rest))|].
Qed.

(** The loop invariant of [tuple_to_avro_row]: the fields before [field] hold their
    final values, the others the default of their column. *)
Lemma row_loop_spec attrs tuple i cols done :
  Forall2 column_field (live attrs) cols -> tuple_decodes attrs tuple i ->
  let vs := row_fields attrs tuple i cols in
  row_loop L P [] attrs tuple i (length done)
    (VRecord (done ++ map (fun f => default_value f.2) cols)) = (Ret tt, VRecord (done ++ vs)) /\
  Forall2 has_schema (map snd cols) vs.
Proof.
  revert i cols done. induction attrs as [|a attrs IH]; intros i cols done Hc Hd; simpl.
  { apply Forall2_nil_inv_l in Hc as ->. split; [done|]. apply List.Forall2_nil. }
  rewrite live_cons in Hc. destruct (attisdropped a) eqn:Ha.
  { apply IH; [done|]. by eapply tuple_decodes_tail. }
  apply Forall2_cons_inv_l in Hc as ([nm s] & cols' & [_ Hs] & Hc & ->). simpl.
  destruct (column_step done (map (fun f => default_value f.2) cols') a s (heap_getattr P tuple i)
    (fun _ => row_loop L P [] attrs tuple (S i) (S (length done))) Hs) as [Hok Hrun].
  { intros d Hd'. apply (Hd 0%nat a d); [done|done|]. by rewrite Nat.add_0_r. }
  simpl in Hrun. rewrite Hrun. set (v := column_value P s _ _) in *.
  destruct (IH (S i) cols' (done ++ [v]) Hc) as [Hrun' Hvs]; [by eapply tuple_decodes_tail|].
  split; [|by apply List.Forall2_cons].
  rewrite length_app, <- !(assoc_L (++)) in Hrun'. simpl in Hrun'.
  by rewrite Nat.add_1_r in Hrun'.
Qed.

(** The descriptors that come with tuples of a table: the table's own (stream
    replication), or that of a result set, without the dropped columns (snapshot). *)
Definition tuple_desc (rel : relation) (desc : tupdesc) : Prop :=
  desc = rd_att rel \/ desc = live (rd_att rel).

Lemma live_idemp attrs : live (live attrs) = live attrs.
Proof.
  induction attrs as [|a attrs IH]; [done|]. rewrite live_cons.
  destruct (attisdropped a) eqn:Ha; [done|]. rewrite live_cons, Ha. by f_equal.
Qed.

Lemma tuple_desc_live rel desc : tuple_desc rel desc -> live desc = live (rd_att rel).
Proof. intros [->| ->]; [done|]. apply live_idemp. Qed.

(** [v0] is some value of schema [s]: resetting it gives the default. *)
Definition of_schema (s : avro_schema) (v0 : avro_value) : Prop := vreset v0 = default_value s.

(** The row of a tuple as an Avro value. *)
Definition row_value (cat : catalog) (rel : relation) (desc : tupdesc)
  (tuple : list (option (Datum P))) : avro_value :=
  VRecord (row_fields desc tuple 0 (avro_schema_fields (schema_for_table_row cat rel))).

Lemma tuple_to_avro_row_spec cat rel desc tuple v0 :
  tuple_desc rel desc -> tuple_decodes desc tuple 0 ->
  of_schema (schema_for_table_row cat rel) v0 ->
  tuple_to_avro_row L P [] desc tuple v0 = (Ret tt, row_value cat rel desc tuple) /\
  has_schema (schema_for_table_row cat rel) (row_value cat rel desc tuple).
Proof.
  intros Hdesc Hd Hv0. destruct (schema_for_table_row_spec cat rel) as (cols & Hs & Hc).
  unfold of_schema in Hv0. unfold row_value. rewrite Hs in *.
  rewrite <- (tuple_desc_live _ _ Hdesc) in Hc.
  destruct (row_loop_spec desc tuple 0 cols [] Hc Hd) as [Hrun Hvs].
  split; [|by apply HS_record].
  unfold tuple_to_avro_row. etrans; [eapply lib_bind; [conf|reflexivity]|].
  simpl. rewrite Hv0. exact Hrun.
Qed.

(** ** Keys *)

(** In the table's own descriptor, attribute [n] is at position [n]. *)
Lemma tup_index_same pre attrs n :
  (n <= length attrs)%nat ->
  tup_index (pre ++ attrs) attrs n (length pre) = Some (length pre + n)%nat.
Proof.
  revert pre n. induction attrs as [|a attrs IH]; intros pre n Hn; simpl in *.
  { replace n with 0%nat by lia. simpl. f_equal. lia. }
  destruct n as [|n]; [f_equal; lia|].
  assert (Hgo : tup_index (pre ++ a :: attrs) attrs n (S (length pre)) = Some (length pre + S n)%nat).
  { specialize (IH (pre ++ [a]) n). rewrite length_app, <- (assoc_L (++)) in IH. simpl in IH.
    rewrite Nat.add_1_r in IH. rewrite IH by lia. f_equal. lia. }
  destruct (attisdropped a) eqn:Ha; simpl; [|done].
  rewrite list_lookup_middle by done. simpl. by rewrite Ha.
Qed.

(** In a descriptor without the dropped columns, it is behind the live ones. *)
Lemma tup_index_live pre attrs n b :
  attrs !! n = Some b -> attisdropped b = false ->
  tup_index (pre ++ live attrs) attrs n (length pre) =
  Some (length pre + length (live (take n attrs)))%nat.
Proof.
  revert pre n. induction attrs as [|a attrs IH]; intros pre n Hn Hb; [done|].
  destruct n as [|n]; simpl in *; [f_equal; unfold live; simpl; lia|].
  rewrite !live_cons. destruct (attisdropped a) eqn:Ha; simpl.
  - assert (Hlive : b ∈ live attrs) by (apply list_elem_of_filter; split; [done|by eapply list_elem_of_lookup_2]).
    destruct (live attrs) as [|t ts] eqn:El; [by apply elem_of_nil in Hlive|].
    rewrite list_lookup_middle by done. simpl.
    assert (Ht : attisdropped t = false).
    { assert (Hin : t ∈ live attrs) by (rewrite El; left). by apply list_elem_of_filter in Hin as []. }
    rewrite Ht. by apply IH.
  - specialize (IH (pre ++ [a]) n Hn Hb).
    rewrite length_app, <- (assoc_L (++)) in IH. simpl in IH. rewrite Nat.add_1_r in IH.
    rewrite IH. simpl. f_equal. lia.
Qed.

Lemma live_lookup attrs n b :
  attrs !! n = Some b -> attisdropped b = false -> live attrs !! length (live (take n attrs)) = Some b.
Proof.
  intros Hn Hb. pose proof (live_app (take n attrs) (b :: drop (S n) attrs)) as E.
  rewrite take_drop_middle, live_cons, Hb in E by done. rewrite E. by rewrite list_lookup_middle.
Qed.

(** Where attribute [n] of the table is in [desc]. *)
Definition attr_position (desc rel_attrs : tupdesc) (n : nat) : nat :=
  if decide (desc = rel_attrs) then n else length (live (take n rel_attrs)).

(** The position found holds the indexed attribute, and is never past the end. *)
Lemma tup_index_correct rel desc n b :
  tuple_desc rel desc -> rd_att rel !! n = Some b -> attisdropped b = false ->
  tup_index desc (rd_att rel) n 0 = Some (attr_position desc (rd_att rel) n) /\
  desc !! attr_position desc (rd_att rel) n = Some b.
Proof.
  intros Hdesc Hn Hb. unfold attr_position. case_decide as He.
  - subst desc. split; [|done]. apply (tup_index_same []). apply lookup_lt_Some in Hn. lia.
  - destruct Hdesc as [->| ->]; [done|].
    split; [by apply (tup_index_live [] _ _ b)|]. by apply live_lookup.
Qed.

(** An index column [a] of key number [k] has the type of the live table column it
    refers to. *)
Definition index_column (rel : relation) (k : Z) (a : pg_attribute) : Prop :=
  1 <= k /\ attisdropped a = false /\
  exists b, rd_att rel !! Z.to_nat (k - 1) = Some b /\ attisdropped b = false /\
    atttypid b = atttypid a.

(** The index is over columns of the table. *)
Definition index_of (rel index_rel : relation) : Prop :=
  Forall2 (index_column rel) (indkey (rd_index index_rel)) (rd_att index_rel).

Lemma index_of_live rel ks attrs : Forall2 (index_column rel) ks attrs -> live attrs = attrs.
Proof.
  induction 1 as [|k a ks attrs (_ & Ha & _) _ IH]; [done|].
  rewrite live_cons, Ha. by f_equal.
Qed.

(** The fields of a key: the table's attributes with the numbers [ks]. *)
Fixpoint key_fields (desc : tupdesc) (tuple : list (option (Datum P))) (rel_attrs : tupdesc)
  (ks : list Z) (attrs : tupdesc) (cols : list (string * avro_schema)) : list avro_value :=
  match ks, attrs, cols with
  | k :: ks, a :: attrs, c :: cols =>
      column_value P c.2 (atttypid a)
        (heap_getattr P tuple (attr_position desc rel_attrs (Z.to_nat (k - 1))))
      :: key_fields desc tuple rel_attrs ks attrs cols
  | _, _, _ => []
  end.

Lemma key_loop_spec rel desc tuple ks attrs cols done :
  tuple_desc rel desc -> tuple_decodes desc tuple 0 ->
  Forall2 (index_column rel) ks attrs -> Forall2 column_field attrs cols ->
  let vs := key_fields desc tuple (rd_att rel) ks attrs cols in
  key_loop L P [] desc tuple (rd_att rel) ks (length done)
    (VRecord (done ++ map (fun f => default_value f.2) cols)) = (Ret tt, VRecord (done ++ vs)) /\
  Forall2 has_schema (map snd cols) vs.
Proof.
  intros Hdesc Hd Hks. revert cols done.
  induction Hks as [|k a ks attrs (Hk & Ha & b & Hb & Hlb & Ht) _ IH]; intros cols done Hc.
  { apply Forall2_nil_inv_l in Hc as ->. split; [done|]. apply List.Forall2_nil. }
  apply Forall2_cons_inv_l in Hc as ([nm s] & cols' & [_ Hs] & Hc & ->). simpl.
  destruct (tup_index_correct rel desc _ b Hdesc Hb Hlb) as [-> Hi]. rewrite Hi, Hlb.
  set (i := attr_position _ _ _) in *. simpl in Hs. rewrite <- Ht in Hs.
  destruct (column_step done (map (fun f => default_value f.2) cols') b s (heap_getattr P tuple i)
    (fun _ => key_loop L P [] desc tuple (rd_att rel) ks (S (length done))) Hs) as [Hok Hrun].
  { intros d Hd'. by apply (Hd i b d). }
  rewrite <- Ht. simpl in Hrun. rewrite Hrun. set (v := column_value P s _ _) in *.
  destruct (IH cols' (done ++ [v]) Hc) as [Hrun' Hvs].
  split; [|by apply List.Forall2_cons].
  rewrite length_app, <- !(assoc_L (++)) in Hrun'. simpl in Hrun'.
  by rewrite Nat.add_1_r in Hrun'.
Qed.

(** The key of a tuple as an Avro value. *)
Definition key_value (cat : catalog) (rel index_rel : relation) (desc : tupdesc)
  (tuple : list (option (Datum P))) : avro_value :=
  VRecord (key_fields desc tuple (rd_att rel) (indkey (rd_index index_rel)) (rd_att index_rel)
    (avro_schema_fields (schema_for_table_row cat index_rel))).

Lemma tuple_to_avro_key_spec cat rel index_rel desc tuple v0 :
  tuple_desc rel desc -> tuple_decodes desc tuple 0 -> index_of rel index_rel ->
  of_schema (schema_for_table_row cat index_rel) v0 ->
  tuple_to_avro_key L P [] desc tuple rel (rd_index index_rel) v0 =
    (Ret tt, key_value cat rel index_rel desc tuple) /\
  has_schema (schema_for_table_row cat index_rel) (key_value cat rel index_rel desc tuple).
Proof.
  intros Hdesc Hd Hix Hv0. destruct (schema_for_table_row_spec cat index_rel) as (cols & Hs & Hc).
  unfold of_schema in Hv0. unfold key_value. rewrite Hs in *.
  rewrite (index_of_live _ _ _ Hix) in Hc.
  destruct (key_loop_spec rel desc tuple _ _ cols [] Hdesc Hd Hix Hc) as [Hrun Hvs].
  split; [|by apply HS_record].
  unfold tuple_to_avro_key. etrans; [eapply lib_bind; [conf|reflexivity]|].
  simpl. rewrite Hv0. exact Hrun.
Qed.

End datum_cases.
