(* ===== verification/Sample.v ===== *)
(** * A sample database

    A concrete Postgres and a table with a primary key, on which the hypotheses of the
    theorems are evaluated. *)

From S2P Require Import Prelude Avro AvroBinary Oid2Avro Oid2AvroFacts.
Open Scope Z_scope.

(** Datums are numbers; every timestamp breaks down to the same date. *)
Definition sample_tm (year : Z) : pg_tm := PgTm 0 0 0 1 1 year.

Definition sample_pg : pg_lib := {|
  Datum := Z;
  Interval := Z;
  DatumGetBool := fun d => negb (d =? 0);
  DatumGetFloat4 := u32;
  DatumGetFloat8 := u64;
  DatumGetInt16 := swrap 16;
  DatumGetInt32 := s32;
  DatumGetInt64 := s64;
  DatumGetCash := s64;
  DatumGetObjectId := u32;
  DatumGetTransactionId := u32;
  DatumGetCommandId := u32;
  DatumGetDateADT := s32;
  DatumGetTimeADT := s64;
  DatumGetTimeTzADTP := fun d => (s64 d, 3600);
  DatumGetTimestamp := s64;
  DatumGetTimestampTz := s64;
  DatumGetIntervalP := fun d => d;
  DatumGetByteaP := fun d => [uwrap 8 d];
  DatumGetChar := uwrap 8;
  DatumGetNameStr := fun d => [97 + d mod 26];
  TextDatumGetCString := fun d => [97 + d mod 26];
  OutputFunctionCall := fun _ d => [97 + d mod 26];
  j2date := fun j => (s32 j, 1, 1);
  timestamp2tm := fun t tz => Some (sample_tm 2000, 7, if tz then -3600 else 0);
  interval2tm := fun i => (sample_tm (s32 i), 0);
  equalTupleDescs := fun d1 d2 => bool_decide (d1 = d2);
|}.

Lemma letter_ok d : Forall is_byte [97 + d mod 26] /\ Z.of_nat (length [97 + d mod 26]) < 2 ^ 30.
Proof.
  split; [|done]. constructor; [|constructor]. unfold is_byte.
  pose proof (Z.mod_pos_bound d 26 ltac:(lia)). lia.
Qed.

#[export] Instance sample_pg_conforms : PgConforms sample_pg.
Proof.
  split; simpl; intros; simplify_eq/=; try apply letter_ok; try int_lia;
    try (split; [|done]; constructor; [|constructor]; int_lia).
  - destruct tz; split_and!; int_lia.
  - apply bool_decide_eq_true.
Qed.

(** [CREATE TABLE test (id integer PRIMARY KEY, name text, at timestamp)] with a column
    dropped between them. *)
Definition sample_att : tupdesc :=
  [Attribute "id" INT4OID false; Attribute "old" INT4OID true;
   Attribute "name" TEXTOID false; Attribute "at" TIMESTAMPOID false].
Definition sample_index : relation :=
  Relation 16390 2200 "test_pkey" REPLICA_IDENTITY_DEFAULT [Attribute "id" INT4OID false]
    (PgIndex true true true [1]) 0 [].
Definition sample_table : relation :=
  Relation 16384 2200 "test" REPLICA_IDENTITY_DEFAULT sample_att (PgIndex false false false [])
    16390 [16390].
Definition sample_catalog : catalog :=
  Catalog {[ 16384 := sample_table; 16390 := sample_index ]} {[ 2200 := "public" ]}.

Definition sample_tuple (id name : Z) : list (option (Datum sample_pg)) :=
  [Some id; None; Some name; None].

Lemma sample_index_of : index_of sample_table sample_index.
Proof.
  apply List.Forall2_cons; [|constructor]. split; [lia|]. split; [done|]. by eexists.
Qed.

Lemma sample_decodes desc tuple i : tuple_decodes sample_pg desc tuple i.
Proof. intros j a d _ _ _. split; intros _ _ _; by eexists. Qed.
