(* ===== verification/Rows.v ===== *)
(** * Rows and keys: what the translation of tuples guarantees

    The theorems on [ext/oid2avro.c]: the Avro value of a tuple has the table's schema and
    holds the tuple's columns; the snapshot and the stream translate a row alike. *)

From S2P Require Import Prelude Avro AvroBinary Oid2Avro Oid2AvroFacts Sample.
Open Scope Z_scope.

Section translation.
Context (L : avro_lib) {HL : AvroConforms L} (P : pg_lib) {HP : PgConforms P}.
Abbreviation tuple := (list (option (Datum P))).

(** The tuple of a result set: the values of the live columns only. *)
Fixpoint live_tuple (attrs : tupdesc) (t : tuple) : tuple :=
  match attrs with
  | [] => []
  | a :: attrs =>
      if attisdropped a then live_tuple attrs (tail t)
      else default None (head t) :: live_tuple attrs (tail t)
  end.

Lemma heap_getattr_tail (t : tuple) i : heap_getattr P (tail t) i = heap_getattr P t (S i).
Proof. destruct t; [|done]. by unfold heap_getattr; rewrite !lookup_nil. Qed.
Lemma heap_getattr_head (t : tuple) : heap_getattr P t 0 = default None (head t).
Proof. by destruct t. Qed.

Lemma row_fields_tail attrs (t : tuple) i cols :
  row_fields P attrs (tail t) i cols = row_fields P attrs t (S i) cols.
Proof.
  revert i cols. induction attrs as [|a attrs IH]; intros i cols; [done|]. simpl.
  rewrite IH. destruct (attisdropped a); [done|]. destruct cols; [done|].
  by rewrite heap_getattr_tail, IH.
Qed.

Lemma row_fields_live attrs (t : tuple) cols :
  row_fields P (live attrs) (live_tuple attrs t) 0 cols = row_fields P attrs t 0 cols.
Proof.
  revert t cols. induction attrs as [|a attrs IH]; intros t cols; [done|]. simpl.
  rewrite live_cons. destruct (attisdropped a) eqn:Ha; [by rewrite IH, row_fields_tail|]. simpl.
  rewrite Ha. destruct cols as [|c cols]; [done|].
  rewrite !heap_getattr_head. f_equal.
  etrans; [symmetry; exact (row_fields_tail _ (default None (head t) :: live_tuple attrs (tail t)) 0 cols)|].
  rewrite <- (row_fields_tail _ t). apply IH.
Qed.

Lemma heap_getattr_live attrs (t : tuple) n b :
  attrs !! n = Some b -> attisdropped b = false ->
  heap_getattr P (live_tuple attrs t) (length (live (take n attrs))) = heap_getattr P t n.
Proof.
  revert t n. induction attrs as [|a attrs IH]; intros t n Hn Hb; [done|].
  destruct n as [|n]; simpl in *.
  - injection Hn as ->. rewrite Hb. unfold live. simpl. by rewrite !heap_getattr_head.
  - rewrite live_cons, <- heap_getattr_tail, <- (IH (tail t) n Hn Hb).
    destruct (attisdropped a); [done|]. done.
Qed.

Lemma live_all attrs : (forall a, a ∈ attrs -> attisdropped a = false) -> live attrs = attrs.
Proof.
  induction attrs as [|a attrs IH]; intros Ha; [done|]. rewrite live_cons, Ha by left.
  f_equal. apply IH. intros b Hb. apply Ha. by right.
Qed.

(** Two descriptors of a table with equal contents at its live attributes. *)
Lemma key_fields_live rel ks attrs cols t :
  Forall2 (index_column rel) ks attrs ->
  key_fields P (live (rd_att rel)) (live_tuple (rd_att rel) t) (rd_att rel) ks attrs cols =
  key_fields P (rd_att rel) t (rd_att rel) ks attrs cols.
Proof.
  intros Hks. revert cols. induction Hks as [|k a ks attrs (_ & _ & b & Hb & Hlb & _) _ IH];
    intros cols; [done|]. simpl. destruct cols as [|c cols]; [done|]. rewrite IH. do 2 f_equal.
  unfold attr_position. rewrite (decide_True (P := rd_att rel = rd_att rel)) by done.
  case_decide as He; [|by eapply heap_getattr_live].
  assert (Hn : length (live (take (Z.to_nat (k - 1)) (rd_att rel))) = Z.to_nat (k - 1)).
  { rewrite live_all.
    - rewrite length_take. apply lookup_lt_Some in Hb. lia.
    - intros x Hx. apply elem_of_take in Hx as (i & Hi & _). rewrite <- He in Hi.
      apply list_elem_of_lookup_2 in Hi as Hx.
      by apply list_elem_of_filter in Hx as []. }
  rewrite <- Hn at 1. by eapply heap_getattr_live.
Qed.

(** *** Properties *)



(** C20: The snapshot and the stream give a row the same key and the same row value: the
    descriptor and tuple of a query result, which lack the dropped columns, translate to
    the values that the stored tuple with the table's own descriptor translates to. *)
Theorem snapshot_stream_agree cat rel index_rel (t : tuple) v0 k0 :
  tuple_decodes P (rd_att rel) t 0 ->
  tuple_decodes P (live (rd_att rel)) (live_tuple (rd_att rel) t) 0 ->
  index_of rel index_rel ->
  of_schema (schema_for_table_row cat rel) v0 -> of_schema (schema_for_table_row cat index_rel) k0 ->
  tuple_to_avro_row L P [] (live (rd_att rel)) (live_tuple (rd_att rel) t) v0 =
    tuple_to_avro_row L P [] (rd_att rel) t v0 /\
  tuple_to_avro_key L P [] (live (rd_att rel)) (live_tuple (rd_att rel) t) rel (rd_index index_rel) k0 =
    tuple_to_avro_key L P [] (rd_att rel) t rel (rd_index index_rel) k0.
Proof.
  intros Hd Hl Hix Hv Hk. split.
  - destruct (tuple_to_avro_row_spec L P cat rel (rd_att rel) t v0) as [-> _]; [by left|done|done|].
    destruct (tuple_to_avro_row_spec L P cat rel _ _ v0 (or_intror eq_refl) Hl Hv) as [-> _].
    unfold row_value. by rewrite row_fields_live.
  - destruct (tuple_to_avro_key_spec L P cat rel index_rel (rd_att rel) t k0) as [-> _];
      [by left|done|done|done|].
    destruct (tuple_to_avro_key_spec L P cat rel index_rel _ _ k0 (or_intror eq_refl) Hl Hix Hk) as [-> _].
    unfold key_value. by rewrite key_fields_live.
Qed.

End translation.


(** C39: A NUMERIC column always becomes the double 0.0: the datum is ignored, so rows that
    differ only in it have the same Avro value. *)
Theorem numeric_is_lost (L : avro_lib) (P : pg_lib) (HL : AvroConforms L) (d : Datum P) :
  update_avro_with_datum L P [] NUMERICOID d (default_value (null_union schema_for_numeric)) =
  (Ret tt, VUnion [SNull; SDouble] 1 (VDouble 0)).
Proof.
  unfold update_avro_with_datum. simpl.
  etrans; [eapply lib_bind; [conf|]|]; [|reflexivity]. reflexivity.
Qed.

Lemma numeric_is_lost_witness :
  update_avro_with_datum ref_lib sample_pg [] NUMERICOID 31415 (unset_union [SNull; SDouble]) =
  (Ret tt, VUnion [SNull; SDouble] 1 (VDouble 0)).
Proof. apply (numeric_is_lost ref_lib sample_pg ref_lib_conforms 31415). Defined.

(** *** On the sample table *)



Lemma snapshot_stream_agree_witness :
  tuple_to_avro_row ref_lib sample_pg [] (live sample_att) [Some 7; Some 3; None]
    (default_value (schema_for_table_row sample_catalog sample_table)) =
  tuple_to_avro_row ref_lib sample_pg [] sample_att (sample_tuple 7 3)
    (default_value (schema_for_table_row sample_catalog sample_table)).
Proof.
  apply (snapshot_stream_agree ref_lib sample_pg sample_catalog sample_table sample_index
    (sample_tuple 7 3) _ (default_value (schema_for_table_row sample_catalog sample_index))).
  - apply sample_decodes.
  - apply sample_decodes.
  - apply sample_index_of.
  - apply default_of_reset.
  - apply default_of_reset.
Defined.
