(* ===== verification/SchemaCache.v ===== *)
(** * The server-side schema cache ([ext/schema_cache.c], [ext/schema_cache.h])

    One entry per table seen so far: a copy of the catalog information the Avro
    schemas were made from, the schemas, and one reusable value for the key and one
    for the row. *)

From S2P Require Import Prelude Avro AvroBinary Oid2Avro Oid2AvroFacts Sample.
Open Scope Z_scope.

Record schema_cache_entry : Type := Entry {
  e_relid : Z;
  e_relname : string;
  e_ns_id : Z;
  e_ns_name : string;
  e_key_id : Z;
  e_key_name : string;
  e_keyns_id : Z;
  e_keyns_name : string;
  e_key_tupdesc : option tupdesc;
  e_row_tupdesc : tupdesc;
  e_key_schema : option avro_schema;
  e_row_schema : avro_schema;
  e_key_value : avro_value;
  e_row_value : avro_value;
}.

Definition set_key_value (v : avro_value) (e : schema_cache_entry) : schema_cache_entry :=
  let 'Entry a b c d f g h i j k l m _ o := e in Entry a b c d f g h i j k l m v o.
Definition set_row_value (v : avro_value) (e : schema_cache_entry) : schema_cache_entry :=
  let 'Entry a b c d f g h i j k l m n _ := e in Entry a b c d f g h i j k l m n v.

(** The hash table from relation OID to entry. *)
Abbreviation schema_cache := (gmap Z schema_cache_entry).

Definition schema_cache_new : schema_cache := ∅.

(** [strcpy] and [strcmp] of a namespace name: [get_namespace_name] gives a null
    pointer for an unknown namespace. *)
Definition get_namespace_name (cat : catalog) (ns : Z) : outcome string :=
  match cat_namespaces cat !! ns with
  | Some n => Ret n
  | None => Undef
  end.

Section cache.
Context (P : pg_lib) (cat : catalog).

(** The entry for a relation. The cached values start as the defaults of their
    schemas ([avro_generic_value_new]). *)
Definition schema_cache_entry_update (rel : relation) : outcome schema_cache_entry :=
  match get_namespace_name cat (rd_namespace rel) with
  | Ret ns_name =>
      match table_key_index cat rel with
      | Ret index_rel =>
          match (match index_rel with
                 | Some ix => get_namespace_name cat (rd_namespace ix)
                 | None => Ret ""
                 end) with
          | Ret keyns_name =>
              let key_schema := schema_for_table_row cat <$> index_rel in
              let row_schema := schema_for_table_row cat rel in
              Ret {| e_relid := rd_id rel;
                     e_relname := rd_name rel;
                     e_ns_id := rd_namespace rel;
                     e_ns_name := ns_name;
                     e_key_id := from_option rd_id InvalidOid index_rel;
                     e_key_name := from_option rd_name "" index_rel;
                     e_keyns_id := from_option rd_namespace InvalidOid index_rel;
                     e_keyns_name := keyns_name;
                     e_key_tupdesc := rd_att <$> index_rel;
                     e_row_tupdesc := rd_att rel;
                     e_key_schema := key_schema;
                     e_row_schema := row_schema;
                     e_key_value := from_option default_value VNull key_schema;
                     e_row_value := default_value row_schema |}
          | o => cast_outcome o
          end
      | o => cast_outcome o
      end
  | o => cast_outcome o
  end.

(** The comparison of a keyed entry with the index found now. *)
Definition key_changed (e : schema_cache_entry) (index_rel : relation) : outcome bool :=
  match get_namespace_name cat (e_keyns_id e) with
  | Ret ns =>
      Ret (negb (e_key_id e =? rd_id index_rel)
        || negb (e_keyns_id e =? rd_namespace index_rel)
        || negb (String.eqb (e_key_name e) (rd_name index_rel))
        || negb (String.eqb (e_keyns_name e) ns)
        || negb (match e_key_tupdesc e with
                 | Some d => equalTupleDescs P d (rd_att index_rel)
                 | None => false
                 end))
  | o => cast_outcome o
  end.

Definition schema_cache_entry_changed (e : schema_cache_entry) (rel : relation) : outcome bool :=
  if negb (e_relid e =? rd_id rel) then Ret true
  else if negb (e_ns_id e =? rd_namespace rel) then Ret true
  else if negb (String.eqb (e_relname e) (rd_name rel)) then Ret true
  else
    match get_namespace_name cat (e_ns_id e) with
    | Ret ns =>
        if negb (String.eqb (e_ns_name e) ns) then Ret true
        else
          match table_key_index cat rel with
          | Ret index_rel =>
              match (match index_rel with
                     | Some ix =>
                         if negb (e_key_id e =? InvalidOid) then key_changed e ix else Ret true
                     | None => Ret (negb (e_key_id e =? InvalidOid))
                     end) with
              | Ret true => Ret true
              | Ret false => Ret (negb (equalTupleDescs P (e_row_tupdesc e) (rd_att rel)))
              | o => o
              end
          | o => cast_outcome o
          end
    | o => cast_outcome o
    end.

(** Releasing an entry zeroes it, the relation id that is its key in the hash table
    included: a later search for the relation does not find it. *)
Definition schema_cache_entry_decrefs (relid : Z) (cache : schema_cache) : schema_cache :=
  delete relid cache.

(** Gives 0 if the cached entry is current, 1 if it was replaced because the schema
    changed, 2 if the relation had no entry. If the update fails, the C code leaves a blank
    entry in the table, the model none: a failed lookup raises an error of Postgres, which
    ends the session and its cache. *)
Definition schema_cache_lookup (rel : relation) : M schema_cache Z := fun cache =>
  match cache !! rd_id rel with
  | Some entry =>
      match schema_cache_entry_changed entry rel with
      | Ret false => (Ret 0, cache)
      | Ret true =>
          let cache := schema_cache_entry_decrefs (rd_id rel) cache in
          match schema_cache_entry_update rel with
          | Ret e => (Ret 1, <[rd_id rel := e]> cache)
          | o => (cast_outcome o, cache)
          end
      | o => (cast_outcome o, cache)
      end
  | None =>
      match schema_cache_entry_update rel with
      | Ret e => (Ret 2, <[rd_id rel := e]> cache)
      | o => (cast_outcome o, cache)
      end
  end.

(** Every entry is released, then the table. *)
Definition schema_cache_free : M schema_cache unit :=
  modify (fun cache => foldr schema_cache_entry_decrefs cache (map fst (map_to_list cache))).

End cache.

Lemma schema_cache_free_empty cache : schema_cache_free cache = (Ret tt, ∅).
Proof.
  unfold schema_cache_free, modify. f_equal. apply map_empty. intros i.
  assert (H : forall l : list Z, i ∈ l \/ cache !! i = None ->
    foldr schema_cache_entry_decrefs cache l !! i = None).
  { induction l as [|j l IH]; intros [Hi|Hi]; [by apply elem_of_nil in Hi|done| |]; simpl;
      unfold schema_cache_entry_decrefs; rewrite lookup_delete; case_decide; try done; apply IH; auto.
    apply elem_of_cons in Hi as [->|]; [done|by left]. }
  apply H. destruct (cache !! i) as [e|] eqn:E; [left|by right].
  apply list_elem_of_fmap. exists (i, e). split; [done|]. by apply elem_of_map_to_list.
Qed.

(** ** Coherence *)

(** What the row schema of a relation depends on. *)
Definition table_schema (name : string) (ns : option string) (att : tupdesc) : avro_schema :=
  match columns_schema att (SRecord name (GENERATED_SCHEMA_NAMESPACE +:+
          match ns with Some n => "." +:+ n | None => "" end) []) predef_empty with
  | (Ret s, _) => s
  | _ => SNull
  end.

Lemma schema_for_table_row_eq cat rel :
  schema_for_table_row cat rel =
  table_schema (rd_name rel) (cat_namespaces cat !! rd_namespace rel) (rd_att rel).
Proof. done. Qed.

(** A relation the server may be asked to export: its namespace exists, and its key
    index, if it has one, is an index over its columns in the same namespace, as
    Postgres guarantees. *)
Definition rel_ok (cat : catalog) (rel : relation) : Prop :=
  is_Some (cat_namespaces cat !! rd_namespace rel) /\ is_u32 (rd_id rel) /\
  exists ix, table_key_index cat rel = Ret ix /\
    match ix with
    | Some i => index_of rel i /\ rd_id i <> InvalidOid /\ rd_namespace i = rd_namespace rel
    | None => True
    end.

(** The schemas of an entry are those of the information stored beside them. *)
Definition entry_ok (e : schema_cache_entry) : Prop :=
  e_row_schema e = table_schema (e_relname e) (Some (e_ns_name e)) (e_row_tupdesc e) /\
  e_key_schema e =
    table_schema (e_key_name e) (Some (e_keyns_name e)) <$> e_key_tupdesc e /\
  (e_key_id e = InvalidOid <-> e_key_tupdesc e = None) /\
  (e_key_id e <> InvalidOid -> e_keyns_id e = e_ns_id e) /\
  of_schema (e_row_schema e) (e_row_value e) /\
  (forall s, e_key_schema e = Some s -> of_schema s (e_key_value e)).

Definition cache_ok (cache : schema_cache) : Prop :=
  forall relid e, cache !! relid = Some e -> e_relid e = relid /\ entry_ok e.

(** The entry holds the schemas that the relation has now. *)
Definition entry_current (cat : catalog) (rel : relation) (e : schema_cache_entry) : Prop :=
  e_relid e = rd_id rel /\ e_row_schema e = schema_for_table_row cat rel /\
  schema_for_table_key cat rel = Ret (e_key_schema e).

Lemma default_of_schema s : of_schema s (default_value s).
Proof. apply default_of_reset. Qed.

Section coherence.
Context (P : pg_lib) {HP : PgConforms P} (cat : catalog) (rel : relation).
Context (Hrel : rel_ok cat rel).

Lemma entry_update_ok :
  exists e, schema_cache_entry_update cat rel = Ret e /\ entry_ok e /\ entry_current cat rel e.
Proof.
  destruct Hrel as ([ns Hns] & _ & ix & Hix & Hixok).
  unfold schema_cache_entry_update, get_namespace_name. rewrite Hns, Hix.
  destruct ix as [i|]; simpl.
  - destruct Hixok as (_ & Hid & Hsame). rewrite Hsame, Hns.
    eexists. split; [done|]. split.
    + unfold entry_ok; simpl. rewrite !schema_for_table_row_eq, Hsame, Hns.
      split; [done|]. split; [done|]. split; [by split|]. split; [done|].
      split; [apply default_of_schema|]. intros s [= <-]. apply default_of_schema.
    + unfold entry_current, schema_for_table_key. by rewrite Hix.
  - eexists. split; [done|]. split.
    + unfold entry_ok; simpl. rewrite schema_for_table_row_eq, Hns.
      split; [done|]. split; [done|]. split; [done|]. split; [done|].
      split; [apply default_of_schema|done].
    + unfold entry_current, schema_for_table_key. by rewrite Hix.
Qed.

(** An entry found unchanged holds the current schemas: the change test looks at
    everything the schemas depend on. *)
Lemma entry_unchanged_current e :
  entry_ok e -> schema_cache_entry_changed P cat e rel = Ret false -> entry_current cat rel e.
Proof.
  intros (Hrow & Hkey & Hid & _) Hch.
  destruct Hrel as ([ns Hns] & _ & ix & Hix & Hixok).
  unfold schema_cache_entry_changed, get_namespace_name in Hch.
  destruct (Z.eqb_spec (e_relid e) (rd_id rel)) as [E1|]; [|done].
  destruct (Z.eqb_spec (e_ns_id e) (rd_namespace rel)) as [E2|]; [|done].
  destruct (String.eqb_spec (e_relname e) (rd_name rel)) as [E3|]; [|done].
  simpl in Hch. rewrite E2, Hns in Hch.
  destruct (String.eqb_spec (e_ns_name e) ns) as [E4|]; [|done]. simpl in Hch.
  rewrite Hix in Hch.
  assert (Hrow' : equalTupleDescs P (e_row_tupdesc e) (rd_att rel) = true ->
    e_row_schema e = schema_for_table_row cat rel).
  { intros Hd. apply pg_equal_descs in Hd. rewrite schema_for_table_row_eq, Hns, Hrow. congruence. }
  unfold entry_current, schema_for_table_key. rewrite Hix.
  destruct ix as [i|]; simpl in Hch.
  - destruct (Z.eqb_spec (e_key_id e) InvalidOid) as [|Hvalid]; [done|]. simpl in Hch.
    unfold key_changed, get_namespace_name in Hch.
    destruct (cat_namespaces cat !! e_keyns_id e) as [kns'|] eqn:Hk'; [|done].
    destruct (Z.eqb_spec (e_key_id e) (rd_id i)); [|done].
    destruct (Z.eqb_spec (e_keyns_id e) (rd_namespace i)) as [E6|]; [|done].
    destruct (String.eqb_spec (e_key_name e) (rd_name i)) as [E7|]; [|done].
    destruct (String.eqb_spec (e_keyns_name e) kns') as [E8|]; [|done]. simpl in Hch.
    destruct (e_key_tupdesc e) as [d|]; [|done].
    destruct (equalTupleDescs P d (rd_att i)) eqn:Hd; [|done]. simpl in Hch.
    split; [done|]. split; [apply Hrow'; by destruct (equalTupleDescs P _ (rd_att rel))|].
    rewrite Hkey; simpl. apply pg_equal_descs in Hd.
    rewrite schema_for_table_row_eq, <- E6, Hk'. congruence.
  - destruct (Z.eqb_spec (e_key_id e) InvalidOid) as [Hinv|]; [|done]. simpl in Hch.
    split; [done|]. split; [apply Hrow'; by destruct (equalTupleDescs P _ (rd_att rel))|].
    rewrite Hkey. apply Hid in Hinv. by rewrite Hinv.
Qed.

Lemma schema_cache_entry_changed_total e :
  entry_ok e -> exists b, schema_cache_entry_changed P cat e rel = Ret b.
Proof.
  intros (_ & _ & _ & Hk & _). destruct Hrel as ([ns Hns] & _ & ix & Hix & _).
  unfold schema_cache_entry_changed.
  destruct (e_relid e =? rd_id rel); simpl; [|eauto].
  destruct (Z.eqb_spec (e_ns_id e) (rd_namespace rel)) as [E|]; simpl; [|eauto].
  destruct (String.eqb _ _); simpl; [|eauto].
  unfold key_changed, get_namespace_name. rewrite E, Hns, Hix.
  destruct (String.eqb _ _); simpl; [|eauto].
  destruct ix as [i|]; destruct (Z.eqb_spec (e_key_id e) InvalidOid) as [|Hne]; simpl; eauto.
  rewrite (Hk Hne), E, Hns. destruct (_ || _); eauto.
Qed.

(** The entry that a successful lookup leaves behind. *)
Lemma schema_cache_lookup_spec cache code cache' :
  cache_ok cache -> schema_cache_lookup P cat rel cache = (Ret code, cache') ->
  cache_ok cache' /\
  (exists e, cache' !! rd_id rel = Some e /\ entry_ok e /\ entry_current cat rel e) /\
  (forall r, r <> rd_id rel -> cache' !! r = cache !! r) /\
  (code = 0 -> cache' = cache) /\
  (code = 0 \/ code = 1 \/ code = 2) /\ (code = 2 <-> cache !! rd_id rel = None).
Proof.
  intros Hc Hlk. unfold schema_cache_lookup in Hlk.
  destruct entry_update_ok as (e' & Hup & Hok' & Hcur').
  assert (Hins : forall n, n <> 0 -> (n = 0 \/ n = 1 \/ n = 2) ->
    (n = 2 <-> cache !! rd_id rel = None) -> code = n -> cache' = <[rd_id rel := e']> cache ->
    cache_ok cache' /\
    (exists e, cache' !! rd_id rel = Some e /\ entry_ok e /\ entry_current cat rel e) /\
    (forall r, r <> rd_id rel -> cache' !! r = cache !! r) /\ (code = 0 -> cache' = cache) /\
    (code = 0 \/ code = 1 \/ code = 2) /\ (code = 2 <-> cache !! rd_id rel = None)).
  { intros n Hn0 Hn Hn2 -> ->. split.
    - intros r e. rewrite lookup_insert. case_decide; [|apply Hc].
      intros [= <-]. subst r. split; [apply Hcur'|done].
    - split; [exists e'; by rewrite lookup_insert_eq|].
      split; [intros r Hr; by rewrite lookup_insert_ne|done]. }
  destruct (cache !! rd_id rel) as [e|] eqn:He.
  - destruct (schema_cache_entry_changed P cat e rel) as [[]| | | | |] eqn:Hch; simplify_eq/=.
    + rewrite Hup in Hlk. simplify_eq/=. apply (Hins 1); [lia|lia|by split; [lia|]|done|].
      unfold schema_cache_entry_decrefs. by rewrite insert_delete_eq.
    + destruct (Hc _ _ He) as [Hrelid Hok]. split; [done|].
      split; [exists e; eauto using entry_unchanged_current|].
      split; [done|]. split; [done|]. split; [auto|]. split; [lia|done].
  - rewrite Hup in Hlk. simplify_eq/=. apply (Hins 2); [lia|lia|done|done|done].
Qed.

(** A lookup never fails on the relations Postgres hands to the plugin. *)
Lemma schema_cache_lookup_total cache :
  cache_ok cache -> exists code cache', schema_cache_lookup P cat rel cache = (Ret code, cache').
Proof.
  intros Hc. unfold schema_cache_lookup. destruct entry_update_ok as (e' & Hup & _). rewrite Hup.
  destruct (cache !! rd_id rel) as [e|] eqn:He; [|eauto].
  destruct (schema_cache_entry_changed_total e) as [b Hb]; [by apply (Hc _ _ He)|].
  rewrite Hb. destruct b; eauto.
Qed.

(** The cache has an entry for the relation, and the catalog has not changed since. *)
Definition up_to_date (cache : schema_cache) : Prop :=
  exists e, cache !! rd_id rel = Some e /\ schema_cache_entry_changed P cat e rel = Ret false.

Lemma lookup_up_to_date cache code cache' :
  schema_cache_lookup P cat rel cache = (Ret code, cache') -> code = 0 <-> up_to_date cache.
Proof.
  unfold schema_cache_lookup, up_to_date. destruct entry_update_ok as (e' & Hup & _). rewrite Hup.
  destruct (cache !! rd_id rel) as [e|]; [|intros [= <- _]; split; [done|by intros (e & ? & _)]].
  destruct (schema_cache_entry_changed P cat e rel) as [[]| | | | |] eqn:E; intros [= <- _].
  - split; [done|]. intros (e0 & [= <-] & H0). congruence.
  - split; [|done]. intros _. by exists e.
Qed.

(** The entry made from the relation is not found changed. *)
Lemma entry_update_unchanged e :
  schema_cache_entry_update cat rel = Ret e -> schema_cache_entry_changed P cat e rel = Ret false.
Proof.
  destruct Hrel as ([ns Hns] & _ & ix & Hix & Hixok).
  assert (Heq : forall d, equalTupleDescs P d d = true) by (intros; by apply pg_equal_descs).
  unfold schema_cache_entry_update, schema_cache_entry_changed, key_changed, get_namespace_name.
  rewrite Hns, Hix. destruct ix as [i|].
  - destruct Hixok as (_ & Hid & Hsame). rewrite Hsame, Hns. intros [= <-]. simpl.
    rewrite !Z.eqb_refl, !String.eqb_refl, Hns. simpl.
    destruct (Z.eqb_spec (rd_id i) InvalidOid); [done|]. simpl. rewrite Hsame, Hns. simpl.
    by rewrite !Z.eqb_refl, !String.eqb_refl, !Heq.
  - intros [= <-]. simpl. rewrite !Z.eqb_refl, !String.eqb_refl, Hns. simpl.
    by rewrite !String.eqb_refl, Heq.
Qed.


(** While a table's definition does not change its schema is announced once: after a
    lookup that reported a new or changed schema, the next lookup reports 0 and leaves
    the cache alone. *)
Theorem schema_announced_once cache code cache' :
  code <> 0 -> schema_cache_lookup P cat rel cache = (Ret code, cache') ->
  schema_cache_lookup P cat rel cache' = (Ret 0, cache').
Proof.
  destruct entry_update_ok as (e & Hup & _). pose proof (entry_update_unchanged e Hup) as Hsame.
  intros Hcode. unfold schema_cache_lookup. rewrite Hup.
  destruct (cache !! rd_id rel) as [e0|] eqn:He;
    [destruct (schema_cache_entry_changed P cat e0 rel) as [[]| | | | |]|];
    intros [= <- <-]; [|done|]; by rewrite lookup_insert_eq, Hsame.
Qed.

End coherence.

(** ** On the sample table *)

Lemma sample_rel_ok : rel_ok sample_catalog sample_table.
Proof.
  split; [by eexists|]. split; [done|]. exists (Some sample_index). split; [done|].
  split; [apply sample_index_of|done].
Qed.


Lemma schema_announced_once_witness :
  exists cache', schema_cache_lookup sample_pg sample_catalog sample_table cache' = (Ret 0, cache').
Proof.
  eexists. eapply (schema_announced_once sample_pg sample_catalog sample_table sample_rel_ok
    schema_cache_new 2); [lia|reflexivity].
Defined.
