(* ===== verification/ProtocolServer.v ===== *)
(** * Server side of the wire protocol ([ext/protocol_server.c])

    The plugin keeps one reusable frame value and the schema cache. Each operation
    appends messages to the frame: one for a transaction boundary, a table schema if
    the cache says the client has not seen it, and one (or two, when an update
    changes the key) for a row event. *)

From S2P Require Import Prelude Avro AvroBinary IoUtil Protocol Oid2Avro Oid2AvroFacts Sample.
From S2P Require Import SchemaCache.
Open Scope Z_scope.

(** What the operations update: the frame and the cache. *)
Abbreviation server := (avro_value * schema_cache)%type.

Section server.
Context (L : avro_lib) (P : pg_lib).

(** ** Messages into the frame *)

Definition update_frame_with_begin_txn (xid : Z) : M avro_value unit :=
  msg_val ← avro_value_get_by_index L [] 0;
  union_val ← avro_value_append L msg_val;
  record_val ← avro_value_set_branch L union_val PROTOCOL_MSG_BEGIN_TXN;
  xid_val ← avro_value_get_by_index L record_val 0;
  avro_value_set_long L xid_val xid.

(** The LSN is unsigned in Postgres and stored as a signed Avro long. *)
Definition update_frame_with_commit_txn (xid commit_lsn : Z) : M avro_value unit :=
  msg_val ← avro_value_get_by_index L [] 0;
  union_val ← avro_value_append L msg_val;
  record_val ← avro_value_set_branch L union_val PROTOCOL_MSG_COMMIT_TXN;
  xid_val ← avro_value_get_by_index L record_val 0;
  lsn_val ← avro_value_get_by_index L record_val 1;
  _ ← avro_value_set_long L xid_val xid;
  avro_value_set_long L lsn_val (s64 commit_lsn).

(** Bytes or null, as the sources set a nullable field. *)
Definition set_nullable_bytes (val : path) (bin : option bytea) : M avro_value unit :=
  match bin with
  | Some b =>
      branch_val ← avro_value_set_branch L val 1;
      avro_value_set_bytes L branch_val (payload b)
  | None => _ ← avro_value_set_branch L val 0; mret ()
  end.

Definition update_frame_with_insert_raw (relid : Z) (key_bin : option bytea) (new_bin : bytea)
  : M avro_value unit :=
  msg_val ← avro_value_get_by_index L [] 0;
  union_val ← avro_value_append L msg_val;
  record_val ← avro_value_set_branch L union_val PROTOCOL_MSG_INSERT;
  relid_val ← avro_value_get_by_index L record_val 0;
  key_val ← avro_value_get_by_index L record_val 1;
  newrow_val ← avro_value_get_by_index L record_val 2;
  _ ← avro_value_set_long L relid_val relid;
  _ ← avro_value_set_bytes L newrow_val (payload new_bin);
  set_nullable_bytes key_val key_bin.

Definition update_frame_with_update_raw (relid : Z) (key_bin old_bin : option bytea)
  (new_bin : bytea) : M avro_value unit :=
  msg_val ← avro_value_get_by_index L [] 0;
  union_val ← avro_value_append L msg_val;
  record_val ← avro_value_set_branch L union_val PROTOCOL_MSG_UPDATE;
  relid_val ← avro_value_get_by_index L record_val 0;
  key_val ← avro_value_get_by_index L record_val 1;
  oldrow_val ← avro_value_get_by_index L record_val 2;
  newrow_val ← avro_value_get_by_index L record_val 3;
  _ ← avro_value_set_long L relid_val relid;
  _ ← avro_value_set_bytes L newrow_val (payload new_bin);
  _ ← set_nullable_bytes key_val key_bin;
  set_nullable_bytes oldrow_val old_bin.

Definition update_frame_with_delete_raw (relid : Z) (key_bin old_bin : option bytea)
  : M avro_value unit :=
  msg_val ← avro_value_get_by_index L [] 0;
  union_val ← avro_value_append L msg_val;
  record_val ← avro_value_set_branch L union_val PROTOCOL_MSG_DELETE;
  relid_val ← avro_value_get_by_index L record_val 0;
  key_val ← avro_value_get_by_index L record_val 1;
  oldrow_val ← avro_value_get_by_index L record_val 2;
  _ ← avro_value_set_long L relid_val relid;
  _ ← set_nullable_bytes key_val key_bin;
  set_nullable_bytes oldrow_val old_bin.

(** The text of a schema goes out with the NUL that [try_writing] put after it. *)
Definition set_schema_json (val : path) (schema : avro_schema) : M avro_value unit :=
  json ← stop (try_writing L (write_schema_json L schema));
  avro_value_set_string_len L val (VARDATA json) (VARSIZE json - VARHDRSZ + 1).

Definition update_frame_with_table_schema (entry : schema_cache_entry) : M avro_value unit :=
  msg_val ← avro_value_get_by_index L [] 0;
  union_val ← avro_value_append L msg_val;
  record_val ← avro_value_set_branch L union_val PROTOCOL_MSG_TABLE_SCHEMA;
  relid_val ← avro_value_get_by_index L record_val 0;
  key_schema_val ← avro_value_get_by_index L record_val 1;
  row_schema_val ← avro_value_get_by_index L record_val 2;
  _ ← avro_value_set_long L relid_val (e_relid entry);
  _ ← (match e_key_schema entry with
       | Some key_schema =>
           json ← stop (try_writing L (write_schema_json L key_schema));
           branch_val ← avro_value_set_branch L key_schema_val 1;
           avro_value_set_string_len L branch_val (VARDATA json) (VARSIZE json - VARHDRSZ + 1)
       | None => _ ← avro_value_set_branch L key_schema_val 0; mret ()
       end);
  set_schema_json row_schema_val (e_row_schema entry).

(** ** Row events *)

(** Work on the reusable key or row value of an entry, in place. *)
Definition with_key_value {A} (relid : Z) (m : M avro_value A) : M schema_cache A := fun cache =>
  match cache !! relid with
  | Some e => let '(o, v) := m (e_key_value e) in (o, <[relid := set_key_value v e]> cache)
  | None => (Undef, cache)
  end.
Definition with_row_value {A} (relid : Z) (m : M avro_value A) : M schema_cache A := fun cache =>
  match cache !! relid with
  | Some e => let '(o, v) := m (e_row_value e) in (o, <[relid := set_row_value v e]> cache)
  | None => (Undef, cache)
  end.

Definition write_value : M avro_value bytea := fun v => (try_writing L (write_avro_binary L v), v).

Definition entry_of (relid : Z) : M schema_cache schema_cache_entry := fun cache =>
  match cache !! relid with
  | Some e => (Ret e, cache)
  | None => (Undef, cache)
  end.

(** [index_rel] is used without a test: undefined if the table lost its key. *)
Definition extract_tuple_key (cat : catalog) (rel : relation) (desc : tupdesc)
  (tuple : list (option (Datum P))) : M schema_cache (option bytea) :=
  entry ← entry_of (rd_id rel);
  match e_key_schema entry with
  | Some _ =>
      _ ← with_key_value (rd_id rel) (avro_value_reset L []);
      index_rel ← stop (table_key_index cat rel);
      match index_rel with
      | Some ix =>
          _ ← with_key_value (rd_id rel) (tuple_to_avro_key L P [] desc tuple rel (rd_index ix));
          key ← with_key_value (rd_id rel) write_value;
          mret (Some key)
      | None => stop Undef
      end
  | None => mret None
  end.

(** The three calls that encode a row. *)
Definition encode_row (rel : relation) (desc : tupdesc) (tuple : list (option (Datum P)))
  : M schema_cache bytea :=
  _ ← with_row_value (rd_id rel) (avro_value_reset L []);
  _ ← with_row_value (rd_id rel) (tuple_to_avro_row L P [] desc tuple);
  with_row_value (rd_id rel) write_value.

(** The lookup at the start of every row event. *)
Definition announce_schema (cat : catalog) (rel : relation) : M server unit :=
  changed ← zoom (schema_cache_lookup P cat rel);
  when (negb (changed =? 0)) (
    entry ← zoom (entry_of (rd_id rel));
    zoom (update_frame_with_table_schema entry)).

Definition update_frame_with_insert (cat : catalog) (rel : relation) (desc : tupdesc)
  (newtuple : list (option (Datum P))) : M server unit :=
  _ ← announce_schema cat rel;
  key_bin ← zoom (extract_tuple_key cat rel desc newtuple);
  new_bin ← zoom (encode_row rel desc newtuple);
  zoom (update_frame_with_insert_raw (rd_id rel) key_bin new_bin).

(** Key and row of the old tuple, if there is one. *)
Definition encode_old (cat : catalog) (rel : relation)
  (oldtuple : option (list (option (Datum P)))) : M server (option bytea * option bytea) :=
  match oldtuple with
  | Some t =>
      old_key_bin ← zoom (extract_tuple_key cat rel (rd_att rel) t);
      old_bin ← zoom (encode_row rel (rd_att rel) t);
      mret (old_key_bin, Some old_bin)
  | None => mret (None, None)
  end.

(** The test whether the key changed: sizes, then [memcmp] of the contents. *)
Definition key_differs (old_key new_key : bytea) : bool :=
  negb (VARSIZE old_key =? VARSIZE new_key) ||
  negb (bool_decide (take (Z.to_nat (VARSIZE new_key - VARHDRSZ)) (VARDATA old_key) =
                     take (Z.to_nat (VARSIZE new_key - VARHDRSZ)) (VARDATA new_key))).

(** If the key changed, an update becomes a delete and an insert. *)
Definition update_or_replace (relid : Z) (old_key_bin old_bin new_key_bin : option bytea)
  (new_bin : bytea) : M avro_value unit :=
  match old_key_bin, new_key_bin with
  | Some _, None => stop Undef
  | Some old_key, Some new_key =>
      if key_differs old_key new_key then
        _ ← update_frame_with_delete_raw relid old_key_bin old_bin;
        update_frame_with_insert_raw relid new_key_bin new_bin
      else update_frame_with_update_raw relid new_key_bin old_bin new_bin
  | None, _ => update_frame_with_update_raw relid new_key_bin old_bin new_bin
  end.

Definition update_frame_with_update (cat : catalog) (rel : relation)
  (oldtuple : option (list (option (Datum P)))) (newtuple : list (option (Datum P)))
  : M server unit :=
  _ ← announce_schema cat rel;
  old ← encode_old cat rel oldtuple;
  new_key_bin ← zoom (extract_tuple_key cat rel (rd_att rel) newtuple);
  new_bin ← zoom (encode_row rel (rd_att rel) newtuple);
  zoom (update_or_replace (rd_id rel) (fst old) (snd old) new_key_bin new_bin).

Definition update_frame_with_delete (cat : catalog) (rel : relation)
  (oldtuple : option (list (option (Datum P)))) : M server unit :=
  _ ← announce_schema cat rel;
  old ← encode_old cat rel oldtuple;
  zoom (update_frame_with_delete_raw (rd_id rel) (fst old) (snd old)).

End server.

(** ** Each raw operation appends its message *)

(** The place of the last element of the message array. *)
Lemma is_ctx_last_message l :
  is_ctx [0%nat; length l]
    (fun x => VRecord [VArray (SUnion message_schemas) (l ++ [x])]).
Proof.
  split; [intros x q|intros f x q]; simpl; rewrite list_lookup_middle by reflexivity; simpl; [done|].
  destruct (vupd f x q); simpl; [|done].
  by rewrite insert_app_r_alt, Nat.sub_diag by reflexivity.
Qed.

(** The record schema of a message. *)
Definition record_schema_of (m : message) : avro_schema :=
  match m with
  | MBegin _ => schema_for_begin_txn
  | MCommit _ _ => schema_for_commit_txn
  | MTableSchema _ _ _ => schema_for_table_schema
  | MInsert _ _ _ => schema_for_insert
  | MUpdate _ _ _ _ => schema_for_update
  | MDelete _ _ _ => schema_for_delete
  end.

Section raw_specs.
Context (L : avro_lib) {HL : AvroConforms L}.

(** [k] turns the default record of [m]'s kind into the record of [m]. *)
Definition fills_message (k : path -> M avro_value unit) (m : message) : Prop :=
  forall p C, is_ctx p C ->
    k p (C (default_value (record_schema_of m))) = (Ret tt, C (message_record m)).

Lemma append_message k m ms :
  fills_message k m ->
  (msg_val ← avro_value_get_by_index L [] 0;
   union_val ← avro_value_append L msg_val;
   record_val ← avro_value_set_branch L union_val (discriminant m);
   k record_val) (frame_value ms) = (Ret tt, frame_value (ms ++ [m])).
Proof.
  intros Hk. unfold frame_value. rewrite map_app. set (l := map message_value ms).
  etrans; [eapply lib_bind; [conf|reflexivity]|].
  etrans; [eapply lib_bind; [conf|reflexivity]|]. simpl app.
  pose proof (is_ctx_last_message l) as HC.
  etrans; [eapply lib_bind; [conf|]|].
  { eapply (ctx_ref_set_branch HC) with (q := []); [by rewrite app_nil_r|].
    instantiate (1 := VUnion message_schemas (discriminant m) (default_value (record_schema_of m))).
    by destruct m. }
  assert (Hd : 0 <= discriminant m) by (by destruct m).
  exact (Hk _ _ (is_ctx_branch _ _ message_schemas _ Hd HC)).
Qed.

(** The bytes of an optional array. *)
Lemma set_nullable_bytes_spec p C bin :
  is_ctx p C ->
  set_nullable_bytes L p bin (C (unset_union [SNull; SBytes])) =
  (Ret tt, C (nullable_bytes (payload <$> bin))).
Proof.
  intros HC. destruct bin as [b|]; simpl.
  - ctx_step HC. ctx_last HC.
  - ctx_step HC. done.
Qed.

(** The same for field [n] of a record in a context. *)
Lemma set_nullable_field p C n pre post bin r :
  is_ctx p C -> n = length pre -> r = p ++ [n] ->
  set_nullable_bytes L r bin (C (VRecord (pre ++ unset_union [SNull; SBytes] :: post))) =
  (Ret tt, C (VRecord (pre ++ nullable_bytes (payload <$> bin) :: post))).
Proof.
  intros HC -> ->. apply (set_nullable_bytes_spec _ (fun x => C (VRecord (pre ++ x :: post)))).
  apply is_ctx_comp; [done|apply is_ctx_middle].
Qed.

Lemma begin_txn_appends xid ms :
  update_frame_with_begin_txn L xid (frame_value ms) = (Ret tt, frame_value (ms ++ [MBegin xid])).
Proof.
  apply (append_message (fun r => x ← avro_value_get_by_index L r 0; avro_value_set_long L x xid)
           (MBegin xid)).
  intros p C HC. ctx_step HC. ctx_last HC.
Qed.

Lemma commit_txn_appends xid lsn ms :
  update_frame_with_commit_txn L xid lsn (frame_value ms) =
  (Ret tt, frame_value (ms ++ [MCommit xid (s64 lsn)])).
Proof.
  apply (append_message (fun r => _) (MCommit xid (s64 lsn))).
  intros p C HC. do 3 ctx_step HC. ctx_last HC.
Qed.

Lemma insert_raw_appends relid key new ms :
  update_frame_with_insert_raw L relid key new (frame_value ms) =
  (Ret tt, frame_value (ms ++ [MInsert relid (payload <$> key) (payload new)])).
Proof.
  apply (append_message (fun r => _) (MInsert relid (payload <$> key) (payload new))).
  intros p C HC. do 5 ctx_step HC.
  by apply (set_nullable_field p C 1 [VLong relid] [VBytes (payload new)]).
Qed.

Lemma update_raw_appends relid key old new ms :
  update_frame_with_update_raw L relid key old new (frame_value ms) =
  (Ret tt, frame_value (ms ++ [MUpdate relid (payload <$> key) (payload <$> old) (payload new)])).
Proof.
  apply (append_message (fun r => _) (MUpdate relid (payload <$> key) (payload <$> old) (payload new))).
  intros p C HC. do 6 ctx_step HC.
  etrans; [apply bind_Ret; by apply (set_nullable_field p C 1 [VLong relid] [_; _])|].
  by apply (set_nullable_field p C 2 [VLong relid; _] [_]).
Qed.

Lemma delete_raw_appends relid key old ms :
  update_frame_with_delete_raw L relid key old (frame_value ms) =
  (Ret tt, frame_value (ms ++ [MDelete relid (payload <$> key) (payload <$> old)])).
Proof.
  apply (append_message (fun r => _) (MDelete relid (payload <$> key) (payload <$> old))).
  intros p C HC. do 4 ctx_step HC.
  etrans; [apply bind_Ret; by apply (set_nullable_field p C 1 [VLong relid] [_])|].
  by apply (set_nullable_field p C 2 [VLong relid; _] []).
Qed.

End raw_specs.

(** ** Table schemas *)

(** The schema text goes over the wire: it is valid Avro and fits a buffer. *)
Definition sendable (L : avro_lib) (s : avro_schema) : Prop :=
  valid_schema s = true /\ Z.of_nat (length (schema_json L s)) <= max_payload.

(** The key and row schemas of the tables that the client has been told. *)
Abbreviation known_schemas := (gmap Z (option avro_schema * avro_schema)).

Definition entry_schemas (e : schema_cache_entry) : option avro_schema * avro_schema :=
  (e_key_schema e, e_row_schema e).
Definition known (cache : schema_cache) : known_schemas := entry_schemas <$> cache.

Definition announcement (L : avro_lib) (relid : Z) (s : option avro_schema * avro_schema) : message :=
  MTableSchema relid (schema_json L <$> fst s) (schema_json L (snd s)).

(** At most one announcement, which makes known what it announces. *)
Inductive announces (L : avro_lib) (relid : Z) (k : known_schemas) : list message -> known_schemas -> Prop :=
| announces_nothing : announces L relid k [] k
| announces_schema s : announces L relid k [announcement L relid s] (<[relid := s]> k).

Section schema_specs.
Context (L : avro_lib) {HL : AvroConforms L}.

Lemma schema_json_written s :
  sendable L s ->
  try_writing L (write_schema_json L s) =
  Ret (Bytea (Z.of_nat (length (schema_json L s)) + VARHDRSZ) (schema_json L s ++ [0])).
Proof.
  intros [Hv Hlen]. rewrite (try_writing_spec L _ _ (conf_schema_to_json _ Hv)).
  by rewrite decide_True.
Qed.

Lemma set_json_string p C v x json :
  is_ctx p C -> x = VString v ->
  avro_value_set_string_len L p (json ++ [0]) (Z.of_nat (length json) + VARHDRSZ - VARHDRSZ + 1) (C x) =
  (Ret tt, C (VString json)).
Proof.
  intros HC ->. eapply lib_last; [conf|]. eapply (ctx_ref_set HC) with (q := []); [by rewrite app_nil_r|].
  simpl. rewrite decide_True.
  - do 2 f_equal. replace (Z.to_nat _) with (length json) by lia. by rewrite take_app_length.
  - rewrite length_app. simpl. split; [lia|].
    replace (Z.to_nat _) with (length json) by lia. by rewrite lookup_app_r, Nat.sub_diag.
Qed.

Definition schema_message (e : schema_cache_entry) : message :=
  announcement L (e_relid e) (entry_schemas e).

Definition entry_sendable (e : schema_cache_entry) : Prop :=
  sendable L (e_row_schema e) /\ (forall s, e_key_schema e = Some s -> sendable L s).

Lemma table_schema_appends e ms :
  entry_sendable e ->
  update_frame_with_table_schema L e (frame_value ms) =
  (Ret tt, frame_value (ms ++ [schema_message e])).
Proof.
  intros [Hrow Hkey]. apply (append_message L (fun r => _) (schema_message e)).
  intros p C HC. do 4 ctx_step HC. unfold set_schema_json.
  set (json := schema_json L (e_row_schema e)).
  assert (Hlast : forall x, (b ← stop (try_writing L (write_schema_json L (e_row_schema e)));
     avro_value_set_string_len L (p ++ [2%nat]) (VARDATA b) (VARSIZE b - VARHDRSZ + 1))
     (C (VRecord [VLong (e_relid e); x; VString []])) =
     (Ret tt, C (VRecord [VLong (e_relid e); x; VString json]))).
  { intros x. etrans; [apply bind_Ret; unfold stop; by rewrite schema_json_written|].
    apply (set_json_string _ (fun y => C (VRecord ([VLong (e_relid e); x] ++ y :: []))) []); [|done].
    apply is_ctx_comp; [done|]. apply (is_ctx_middle [VLong (e_relid e); x]). }
  destruct (e_key_schema e) as [ks|] eqn:Hks.
  - etrans; [apply bind_Ret|].
    { etrans; [apply bind_Ret; unfold stop; by rewrite schema_json_written by auto|].
      ctx_step HC. rewrite <- app_assoc.
      apply (set_json_string _ (fun y => C (VRecord ([VLong (e_relid e)] ++
        VUnion [SNull; SString] 1 y :: [VString []]))) []); [|done].
      apply is_ctx_comp; [done|].
      apply (is_ctx_comp [1%nat] [0%nat] (fun z => VRecord ([VLong (e_relid e)] ++ z :: [VString []]))
        (fun y => VUnion [SNull; SString] 1 y)).
      - apply (is_ctx_middle [VLong (e_relid e)]).
      - apply (is_ctx_branch [] (fun x => x)); [lia|apply is_ctx_id]. }
    etrans; [apply Hlast|]. simpl. by rewrite Hks.
  - etrans; [apply bind_Ret; ctx_step HC; done|].
    etrans; [apply Hlast|]. simpl. by rewrite Hks.
Qed.

End schema_specs.

(** ** Row events *)

Lemma has_schema_of_schema s v : has_schema s v -> of_schema s v.
Proof. apply has_schema_vreset. Qed.

(** Setting a value of an entry keeps its catalog data and schemas. *)
Lemma entry_ok_set_key e v :
  entry_ok e -> (forall s, e_key_schema e = Some s -> of_schema s v) -> entry_ok (set_key_value v e).
Proof. destruct e. unfold entry_ok; simpl. intros (?&?&?&?&?&?) ?. split_and!; auto. Qed.
Lemma entry_ok_set_row e v :
  entry_ok e -> of_schema (e_row_schema e) v -> entry_ok (set_row_value v e).
Proof. destruct e. unfold entry_ok; simpl. intros (?&?&?&?&?&?) ?. split_and!; auto. Qed.

Section row_events.
Context (L : avro_lib) {HL : AvroConforms L} (P : pg_lib) {HP : PgConforms P}.
Context (cat : catalog) (rel : relation) (Hrel : rel_ok cat rel).
Abbreviation relid := (rd_id rel).
Abbreviation row_schema := (schema_for_table_row cat rel).

(** The cache holds a current entry for the relation. *)
Definition ready (cache : schema_cache) : Prop :=
  cache_ok cache /\ exists e, cache !! relid = Some e /\ entry_current cat rel e.

(** [cache'] differs from [cache] in reusable values only. *)
Definition same_schemas (cache cache' : schema_cache) : Prop :=
  ready cache' /\ known cache' = known cache.

Lemma ready_insert cache e e' :
  ready cache -> cache !! relid = Some e -> entry_ok e' ->
  e_relid e' = e_relid e -> e_key_schema e' = e_key_schema e ->
  e_row_schema e' = e_row_schema e -> same_schemas cache (<[relid := e']> cache).
Proof.
  intros [Hc (e0 & He0 & Hcur)] He Hok' Hid Hk Hr.
  assert (e0 = e) as -> by congruence. split; [split|].
  - intros r x. rewrite lookup_insert. case_decide as Hcase; [|apply Hc].
    intros [= <-]. subst r. destruct (Hc _ _ He). by rewrite Hid.
  - exists e'. rewrite lookup_insert_eq. split; [done|].
    destruct Hcur as (? & ? & ?). unfold entry_current. by rewrite Hid, Hk, Hr.
  - unfold known. apply map_eq. intros r. rewrite !lookup_fmap, lookup_insert.
    case_decide as Hcase; [|done]. subst r. rewrite He. simpl. unfold entry_schemas. by rewrite Hk, Hr.
Qed.

Lemma with_row_value_spec {A} (m : M avro_value A) cache e o v :
  ready cache -> cache !! relid = Some e -> m (e_row_value e) = (o, v) ->
  of_schema row_schema v ->
  exists cache', with_row_value relid m cache = (o, cache') /\ same_schemas cache cache' /\
    cache' !! relid = Some (set_row_value v e).
Proof.
  intros Hr He Hm Hv. unfold with_row_value. rewrite He, Hm. eexists. split; [done|].
  split; [|by rewrite lookup_insert_eq].
  pose proof Hr as [Hc (e0 & He0 & _ & Hrow & _)]. assert (e0 = e) as -> by congruence.
  apply (ready_insert _ e); [done|done| |by destruct e..].
  apply entry_ok_set_row; [by apply (Hc _ _ He)|by rewrite Hrow].
Qed.

Lemma with_key_value_spec {A} (m : M avro_value A) cache e s o v :
  ready cache -> cache !! relid = Some e -> e_key_schema e = Some s ->
  m (e_key_value e) = (o, v) -> of_schema s v ->
  exists cache', with_key_value relid m cache = (o, cache') /\ same_schemas cache cache' /\
    cache' !! relid = Some (set_key_value v e).
Proof.
  intros Hr He Hs Hm Hv. unfold with_key_value. rewrite He, Hm. eexists. split; [done|].
  split; [|by rewrite lookup_insert_eq].
  pose proof Hr as [Hc _].
  apply (ready_insert _ e); [done|done| |by destruct e..].
  apply entry_ok_set_key; [by apply (Hc _ _ He)|]. intros s' Hs'. by simplify_eq.
Qed.

Lemma same_schemas_trans c1 c2 c3 :
  same_schemas c1 c2 -> same_schemas c2 c3 -> same_schemas c1 c3.
Proof. intros [_ E1] [H2 E2]. split; [done|congruence]. Qed.

(** The encoding of a tuple's row, and of its key if the table has one. *)
Definition is_row (desc : tupdesc) (tuple : list (option (Datum P))) (bs : list Z) : Prop :=
  let v := row_value P cat rel desc tuple in has_schema row_schema v /\ bs = encode L v.

Definition is_key (desc : tupdesc) (tuple : list (option (Datum P))) (key : option (list Z)) : Prop :=
  exists ix, table_key_index cat rel = Ret ix /\
  match ix with
  | None => key = None
  | Some i =>
      let v := key_value P cat rel i desc tuple in
      has_schema (schema_for_table_row cat i) v /\ key = Some (encode L v)
  end.

Definition fits (bs : list Z) : Prop := Z.of_nat (length bs) <= max_payload.
Definition fits_opt (o : option (list Z)) : Prop := match o with Some bs => fits bs | None => True end.

#[local] Instance fits_dec bs : Decision (fits bs).
Proof. unfold fits. apply _. Defined.
#[local] Instance fits_opt_dec o : Decision (fits_opt o).
Proof. destruct o; simpl; apply _. Defined.

Definition written (bs : list Z) : bytea := Bytea (Z.of_nat (length bs) + VARHDRSZ) (bs ++ [0]).

Lemma payload_of_written bs : payload (written bs) = bs.
Proof. apply payload_written. Qed.

Lemma write_value_spec s v :
  has_schema s v ->
  write_value L v = (if decide (fits (encode L v)) then Ret (written (encode L v)) else Err ENOSPC, v).
Proof.
  intros Hv. unfold write_value. f_equal.
  exact (try_writing_spec L _ _ (conf_value_write _ _ Hv)).
Qed.

(** A value is reset before it is filled: what it held does not matter. *)
Lemma tuple_to_avro_row_reset desc tuple v0 s :
  of_schema s v0 -> tuple_to_avro_row L P [] desc tuple v0 =
  tuple_to_avro_row L P [] desc tuple (default_value s).
Proof.
  intros Hv. unfold tuple_to_avro_row.
  etrans; [eapply lib_bind; [conf|reflexivity]|].
  symmetry. etrans; [eapply lib_bind; [conf|reflexivity]|]. simpl.
  by rewrite Hv, (default_of_schema s).
Qed.
Lemma tuple_to_avro_key_reset desc tuple ix v0 s :
  of_schema s v0 -> tuple_to_avro_key L P [] desc tuple rel ix v0 =
  tuple_to_avro_key L P [] desc tuple rel ix (default_value s).
Proof.
  intros Hv. unfold tuple_to_avro_key.
  etrans; [eapply lib_bind; [conf|reflexivity]|].
  symmetry. etrans; [eapply lib_bind; [conf|reflexivity]|]. simpl.
  by rewrite Hv, (default_of_schema s).
Qed.

(** Resetting the reusable value leaves the default of its schema. *)
Lemma reset_run s v : of_schema s v -> avro_value_reset L [] v = (Ret tt, default_value s).
Proof.
  intros Hv. eapply lib_last; [conf|]. unfold ref_reset, ref_set. simpl. by rewrite Hv.
Qed.

Context (desc : tupdesc) (Hdesc : tuple_desc rel desc).

Lemma encode_row_spec tuple cache :
  ready cache -> tuple_decodes P desc tuple 0 ->
  exists bs cache', is_row desc tuple bs /\ same_schemas cache cache' /\
    encode_row L P rel desc tuple cache =
      (if decide (fits bs) then Ret (written bs) else Err ENOSPC, cache').
Proof.
  intros Hr Hd. pose proof Hr as [Hc (e & He & Hcur)].
  assert (Hrow : of_schema row_schema (e_row_value e)).
  { destruct Hcur as (_ & <- & _). apply (Hc _ _ He). }
  destruct (with_row_value_spec (avro_value_reset L []) cache e _ _ Hr He (reset_run _ _ Hrow)
              (default_of_schema _)) as (c1 & H1 & S1 & He1).
  destruct (tuple_to_avro_row_spec L P cat rel desc tuple _ Hdesc Hd (default_of_schema _))
    as [Hv Hhas].
  set (v := row_value P cat rel desc tuple) in *.
  destruct (with_row_value_spec (tuple_to_avro_row L P [] desc tuple) c1 _ (Ret tt) v
              (proj1 S1) He1) as (c2 & H2 & S2 & He2).
  { by destruct e. }
  { by apply has_schema_of_schema. }
  destruct (with_row_value_spec (write_value L) c2 _
    (if decide (fits (encode L v)) then Ret (written (encode L v)) else Err ENOSPC) v (proj1 S2) He2)
    as (c3 & H3 & S3 & _).
  { destruct e. by apply (write_value_spec row_schema). }
  { by apply has_schema_of_schema. }
  exists (encode L v), c3. split; [done|]. split; [eauto using same_schemas_trans|].
  unfold encode_row. etrans; [apply bind_Ret, H1|]. etrans; [apply bind_Ret, H2|]. exact H3.
Qed.

Lemma extract_tuple_key_spec tuple cache :
  ready cache -> tuple_decodes P desc tuple 0 ->
  exists key cache', is_key desc tuple key /\ same_schemas cache cache' /\
    extract_tuple_key L P cat rel desc tuple cache =
      (if decide (fits_opt key) then Ret (written <$> key) else Err ENOSPC, cache').
Proof.
  intros Hr Hd. pose proof Hr as [Hc (e & He & _ & _ & Hkey)].
  destruct Hrel as (_ & _ & ix & Hix & Hixok).
  unfold schema_for_table_key in Hkey. rewrite Hix in Hkey.
  assert (Hent : entry_of relid cache = (Ret e, cache)) by (unfold entry_of; by rewrite He).
  unfold extract_tuple_key. destruct ix as [i|].
  2:{ exists None, cache. split; [by exists None|]. split; [by split|].
      etrans; [apply bind_Ret, Hent|]. by injection Hkey as <-. }
  destruct Hixok as (Hof & _ & _). injection Hkey as Hkey. symmetry in Hkey.
  set (ks := schema_for_table_row cat i) in *.
  assert (Hval : of_schema ks (e_key_value e)) by (by apply (Hc _ _ He)).
  destruct (with_key_value_spec (avro_value_reset L []) cache e _ _ _ Hr He Hkey
              (reset_run _ _ Hval) (default_of_schema _)) as (c1 & H1 & S1 & He1).
  destruct (tuple_to_avro_key_spec L P cat rel i desc tuple _ Hdesc Hd Hof (default_of_schema _))
    as [Hv Hhas]. fold ks in Hv, Hhas. set (v := key_value P cat rel i desc tuple) in *.
  destruct (with_key_value_spec (tuple_to_avro_key L P [] desc tuple rel (rd_index i)) c1 _ ks (Ret tt) v
              (proj1 S1) He1) as (c2 & H2 & S2 & He2).
  { by destruct e. }
  { by destruct e. }
  { by apply has_schema_of_schema. }
  destruct (with_key_value_spec (write_value L) c2 _ ks
    (if decide (fits (encode L v)) then Ret (written (encode L v)) else Err ENOSPC) v (proj1 S2) He2)
    as (c3 & H3 & S3 & _).
  { by destruct e. }
  { destruct e. by apply (write_value_spec ks). }
  { by apply has_schema_of_schema. }
  exists (Some (encode L v)), c3. split; [by exists (Some i); eauto|].
  split; [eauto using same_schemas_trans|].
  etrans; [apply bind_Ret, Hent|]. rewrite Hkey.
  etrans; [apply bind_Ret, H1|]. etrans; [apply bind_Ret; unfold stop; by rewrite Hix|].
  etrans; [apply bind_Ret, H2|]. simpl. unfold mbind, M_bind. rewrite H3.
  unfold fits_opt. case_decide; done.
Qed.

(** ** Whole events *)

Lemma zoom_frame {A} (m : M avro_value A) f (c : schema_cache) o f' :
  m f = (o, f') -> zoom m (f, c) = (o, (f', c)).
Proof. intros Hm. unfold zoom. simpl. by rewrite Hm. Qed.
Lemma zoom_cache {A} (m : M schema_cache A) (f : avro_value) c o c' :
  m c = (o, c') -> zoom m (f, c) = (o, (f, c')).
Proof. intros Hm. unfold zoom. simpl. by rewrite Hm. Qed.

(** The schemas of the relation can be announced. *)
Definition rel_sendable : Prop :=
  sendable L row_schema /\
  (forall ks, schema_for_table_key cat rel = Ret (Some ks) -> sendable L ks).

(** [run], started with messages [ms] in the frame, appends the events [evs], preceded
    by the table's schema exactly if the cache has no current entry for it, and leaves a
    cache that holds what the client then knows, with the current schemas of the relation. *)
Definition emits (run : M server unit) (ms : list message) (cache : schema_cache)
  (evs : list message) : Prop :=
  exists ann cache', run (frame_value ms, cache) = (Ret tt, (frame_value (ms ++ ann ++ evs), cache')) /\
    ready cache' /\ announces L relid (known cache) ann (known cache') /\
    (ann = [] <-> up_to_date P cat rel cache).

Lemma announce_schema_spec ms cache :
  cache_ok cache -> rel_sendable -> emits (announce_schema L P cat rel) ms cache [].
Proof.
  intros Hc [Hrow Hkey].
  destruct (schema_cache_lookup_total P cat rel Hrel cache Hc) as (code & cache' & Hlk).
  destruct (schema_cache_lookup_spec P cat rel Hrel _ _ _ Hc Hlk)
    as (Hc' & (e & He & Hok & Hcur) & Hother & Hzero & _ & _).
  assert (Hready : ready cache') by (split; eauto).
  pose proof (lookup_up_to_date P cat rel Hrel _ _ _ Hlk) as Hup.
  unfold emits, announce_schema.
  assert (Hzoom : zoom (schema_cache_lookup P cat rel) (frame_value ms, cache) =
                  (Ret code, (frame_value ms, cache'))) by (by apply zoom_cache).
  destruct (Z.eqb_spec code 0) as [->|Hcode].
  - exists [], cache'. split; [|split; [done|]].
    + etrans; [apply bind_Ret, Hzoom|]. by rewrite !app_nil_r.
    + rewrite Hzero by done. split; [constructor|]. by rewrite <- Hup.
  - destruct Hcur as (Hid & Hrow' & Hkey').
    assert (Hsend : entry_sendable L e).
    { split; [by rewrite Hrow'|]. intros s Hs. apply Hkey. by rewrite Hkey', Hs. }
    exists [schema_message L e], cache'. split; [|split; [done|]].
    + etrans; [apply bind_Ret, Hzoom|]. destruct (Z.eqb_spec code 0); [done|]. simpl.
      etrans; [apply bind_Ret; apply zoom_cache; unfold entry_of; by rewrite He|].
      by apply zoom_frame, table_schema_appends.
    + split; [|by rewrite <- Hup]. replace (known cache') with (<[relid := entry_schemas e]> (known cache)).
      { unfold schema_message. rewrite Hid. constructor. }
      apply map_eq. intros r. unfold known. rewrite lookup_insert, !lookup_fmap.
      case_decide as Hr; [subst r; by rewrite He|]. by rewrite Hother.
Qed.

(** A run of cache operations and frame updates after the announcement. *)
Lemma emits_bind (k : unit -> M server unit) ms cache evs :
  cache_ok cache -> rel_sendable ->
  (forall ms1 c1, ready c1 -> exists c2, same_schemas c1 c2 /\
     k tt (frame_value ms1, c1) = (Ret tt, (frame_value (ms1 ++ evs), c2))) ->
  emits (announce_schema L P cat rel ≫= k) ms cache evs.
Proof.
  intros Hc Hs Hk. destruct (announce_schema_spec ms cache Hc Hs) as (ann & c1 & Hrun & Hr & Ha).
  rewrite app_nil_r in Hrun. destruct (Hk (ms ++ ann) c1 Hr) as (c2 & [Hr2 Hk2] & Hrun2).
  exists ann, c2. split; [|by rewrite Hk2].
  etrans; [apply bind_Ret, Hrun|]. rewrite Hrun2. by rewrite <- (assoc_L (++)).
Qed.

(** When the part after the announcement runs out of buffer. *)
Lemma announce_fails (k : unit -> M server unit) ms cache :
  cache_ok cache -> rel_sendable ->
  (forall ms1 c1, ready c1 -> exists st, k tt (frame_value ms1, c1) = (Err ENOSPC, st)) ->
  exists st, (announce_schema L P cat rel ≫= k) (frame_value ms, cache) = (Err ENOSPC, st).
Proof.
  intros Hc Hs Hk. destruct (announce_schema_spec ms cache Hc Hs) as (ann & c1 & Hrun & Hr & _).
  rewrite app_nil_r in Hrun. destruct (Hk (ms ++ ann) c1 Hr) as (st & Hst).
  exists st. etrans; [apply bind_Ret, Hrun|done].
Qed.

(** The encodings are functions of the tuple. *)
Lemma is_row_det tuple b1 b2 : is_row desc tuple b1 -> is_row desc tuple b2 -> b1 = b2.
Proof. by intros [_ ->] [_ ->]. Qed.
Lemma is_key_det tuple k1 k2 : is_key desc tuple k1 -> is_key desc tuple k2 -> k1 = k2.
Proof.
  intros (i1 & H1 & Hk1) (i2 & H2 & Hk2). assert (i1 = i2) as <- by congruence.
  destruct i1; [|congruence].
  by destruct Hk1 as [_ ->], Hk2 as [_ ->].
Qed.

Lemma is_row_exists tuple : tuple_decodes P desc tuple 0 -> exists bs, is_row desc tuple bs.
Proof.
  intros Hd. destruct (tuple_to_avro_row_spec L P cat rel desc tuple _ Hdesc Hd (default_of_schema _))
    as [_ Hhas]. by eexists.
Qed.
Lemma is_key_exists tuple : tuple_decodes P desc tuple 0 -> exists key, is_key desc tuple key.
Proof.
  intros Hd. destruct Hrel as (_ & _ & ix & Hix & Hixok). destruct ix as [i|].
  - destruct (tuple_to_avro_key_spec L P cat rel i desc tuple _ Hdesc Hd (proj1 Hixok)
      (default_of_schema _)) as [_ Hhas].
    eexists (Some _), (Some i). by split.
  - exists None, None. done.
Qed.

Lemma encode_row_run tuple cache bs :
  ready cache -> tuple_decodes P desc tuple 0 -> is_row desc tuple bs ->
  exists cache', same_schemas cache cache' /\
    encode_row L P rel desc tuple cache =
      (if decide (fits bs) then Ret (written bs) else Err ENOSPC, cache').
Proof.
  intros Hr Hd Hb. destruct (encode_row_spec tuple cache Hr Hd) as (bs' & c & Hb' & Hs & Hrun).
  rewrite (is_row_det _ _ _ Hb Hb'). eauto.
Qed.
Lemma extract_tuple_key_run tuple cache key :
  ready cache -> tuple_decodes P desc tuple 0 -> is_key desc tuple key ->
  exists cache', same_schemas cache cache' /\
    extract_tuple_key L P cat rel desc tuple cache =
      (if decide (fits_opt key) then Ret (written <$> key) else Err ENOSPC, cache').
Proof.
  intros Hr Hd Hb. destruct (extract_tuple_key_spec tuple cache Hr Hd) as (k' & c & Hb' & Hs & Hrun).
  rewrite (is_key_det _ _ _ Hb Hb'). eauto.
Qed.

(** Key and row one after the other, as every event encodes a tuple. *)
Lemma encode_tuple_run {A} (k : option bytea -> bytea -> M server A) tuple ms cache key row :
  ready cache -> tuple_decodes P desc tuple 0 -> is_key desc tuple key -> is_row desc tuple row ->
  exists cache', same_schemas cache cache' /\
    (key_bin ← zoom (extract_tuple_key L P cat rel desc tuple);
     bin ← zoom (encode_row L P rel desc tuple);
     k key_bin bin) (frame_value ms, cache) =
    (if decide (fits_opt key /\ fits row) then k (written <$> key) (written row)
     else stop (Err ENOSPC)) (frame_value ms, cache').
Proof.
  intros Hr Hd Hk Hb.
  destruct (extract_tuple_key_run tuple cache key Hr Hd Hk) as (c1 & S1 & H1).
  destruct (decide (fits_opt key)) as [Hf|Hf].
  2:{ exists c1. split; [done|]. rewrite decide_False by tauto.
      etrans; [by apply bind_Err, zoom_cache|]. done. }
  destruct (encode_row_run tuple c1 row (proj1 S1) Hd Hb) as (c2 & S2 & H2).
  exists c2. split; [eauto using same_schemas_trans|].
  etrans; [by apply bind_Ret, zoom_cache|].
  destruct (decide (fits row)) as [Hg|Hg].
  - rewrite decide_True by done. by etrans; [by apply bind_Ret, zoom_cache|].
  - rewrite decide_False by tauto. by etrans; [by apply bind_Err, zoom_cache|].
Qed.

Lemma payload_written_opt (o : option (list Z)) : payload <$> (written <$> o) = o.
Proof. destruct o; simpl; [|done]. by rewrite payload_of_written. Qed.

Lemma insert_spec tuple ms cache key row :
  cache_ok cache -> rel_sendable -> tuple_decodes P desc tuple 0 ->
  is_key desc tuple key -> is_row desc tuple row ->
  let run := update_frame_with_insert L P cat rel desc tuple in
  if decide (fits_opt key /\ fits row) then emits run ms cache [MInsert relid key row]
  else exists st, run (frame_value ms, cache) = (Err ENOSPC, st).
Proof.
  intros Hc Hs Hd Hk Hr run. unfold run, update_frame_with_insert.
  case_decide as Hf; [apply emits_bind|apply announce_fails]; auto; intros ms1 c1 Hr1;
    edestruct (encode_tuple_run (fun k b => zoom (update_frame_with_insert_raw L relid k b))
      tuple ms1 c1 key row) as (c2 & S2 & Hrun); eauto.
  - exists c2. split; [done|]. etrans; [exact Hrun|]. rewrite decide_True by done.
    etrans; [apply zoom_frame, insert_raw_appends; apply HL|].
    by rewrite payload_written_opt, payload_of_written.
  - rewrite decide_False in Hrun by done. eexists. exact Hrun.
Qed.

End row_events.

(** ** Updates and deletes: tuples of stream replication, with the table's descriptor *)

Lemma key_differs_written k1 k2 : key_differs (written k1) (written k2) = negb (bool_decide (k1 = k2)).
Proof.
  unfold key_differs, written; simpl.
  destruct (Z.eqb_spec (Z.of_nat (length k1) + VARHDRSZ) (Z.of_nat (length k2) + VARHDRSZ)) as [E|E].
  - replace (Z.to_nat _) with (length k2) by lia. rewrite (take_app_length k2).
    assert (length k1 = length k2) as <- by lia. by rewrite take_app_length.
  - simpl. rewrite bool_decide_eq_false_2; [done|]. intros ->. lia.
Qed.

(** What an update sends: one message, or a deletion and an insertion when the key
    of the old tuple is known and differs. *)
Definition update_messages (relid : Z) (old_key old_row new_key : option (list Z)) (new_row : list Z)
  : list message :=
  match old_key with
  | Some _ =>
      if decide (old_key = new_key) then [MUpdate relid new_key old_row new_row]
      else [MDelete relid old_key old_row; MInsert relid new_key new_row]
  | None => [MUpdate relid new_key old_row new_row]
  end.

Section stream_events.
Context (L : avro_lib) {HL : AvroConforms L} (P : pg_lib) {HP : PgConforms P}.
Context (cat : catalog) (rel : relation) (Hrel : rel_ok cat rel).
Abbreviation relid := (rd_id rel).
Abbreviation tuple := (list (option (Datum P))).
#[local] Existing Instance fits_dec.
#[local] Existing Instance fits_opt_dec.
#[local] Hint Constructors or : core.

Lemma own_desc : tuple_desc rel (rd_att rel).
Proof. by left. Qed.

Definition old_decodes (t : option tuple) : Prop :=
  match t with Some t => tuple_decodes P (rd_att rel) t 0 | None => True end.

(** The encodings of the old tuple, if there is one. *)
Definition is_old (t : option tuple) (key row : option (list Z)) : Prop :=
  match t with
  | Some t => is_key L P cat rel (rd_att rel) t key /\
      exists r, is_row L P cat rel (rd_att rel) t r /\ row = Some r
  | None => key = None /\ row = None
  end.

Lemma is_old_exists t : old_decodes t -> exists key row, is_old t key row.
Proof.
  destruct t as [t|]; simpl; [intros Hd|by eauto].
  destruct (is_key_exists L P cat rel Hrel _ own_desc t Hd) as [k Hk].
  destruct (is_row_exists L P cat rel _ own_desc t Hd) as [r Hr]. eauto 10.
Qed.

Lemma encode_old_run t ms cache key row :
  ready cat rel cache -> old_decodes t -> is_old t key row ->
  exists cache', same_schemas cat rel cache cache' /\
    encode_old L P cat rel t (frame_value ms, cache) =
    (if decide (fits_opt key /\ fits_opt row) then Ret (written <$> key, written <$> row)
     else Err ENOSPC, (frame_value ms, cache')).
Proof.
  intros Hr Hd Hold. destruct t as [t|]; simpl in *.
  - destruct Hold as (Hk & r & Hrow & ->).
    destruct (encode_tuple_run L P cat rel Hrel _ own_desc
      (fun k b => mret (k, Some b)) t ms cache key r Hr Hd Hk Hrow) as (c & S & Hrun).
    exists c. split; [done|]. etrans; [exact Hrun|]. simpl. by case_decide.
  - destruct Hold as [-> ->]. exists cache. split; [by split|]. by rewrite decide_True.
Qed.

Lemma delete_spec t ms cache key row :
  cache_ok cache -> rel_sendable L cat rel -> old_decodes t -> is_old t key row ->
  let run := update_frame_with_delete L P cat rel t in
  if decide (fits_opt key /\ fits_opt row) then emits L P cat rel run ms cache [MDelete relid key row]
  else exists st, run (frame_value ms, cache) = (Err ENOSPC, st).
Proof.
  intros Hc Hs Hd Ho run. unfold run, update_frame_with_delete.
  case_decide as Hf; [apply emits_bind|apply announce_fails]; auto; intros ms1 c1 Hr1;
    destruct (encode_old_run t ms1 c1 key row Hr1 Hd Ho) as (c2 & S2 & Hrun).
  - exists c2. split; [done|]. rewrite decide_True in Hrun by done.
    etrans; [apply bind_Ret, Hrun|]. simpl.
    etrans; [apply zoom_frame, delete_raw_appends; apply HL|]. by rewrite !payload_written_opt.
  - rewrite decide_False in Hrun by done. eexists. by apply bind_Err.
Qed.

(** The frame updates at the end of an update. *)
Lemma update_or_replace_appends ms (old_key old_row new_key : option (list Z)) new_row :
  (old_key <> None -> new_key <> None) ->
  update_or_replace L relid (written <$> old_key) (written <$> old_row) (written <$> new_key)
    (written new_row) (frame_value ms) =
  (Ret tt, frame_value (ms ++ update_messages relid old_key old_row new_key new_row)).
Proof.
  intros Hkeys.
  assert (Hup : update_frame_with_update_raw L relid (written <$> new_key) (written <$> old_row)
    (written new_row) (frame_value ms) =
    (Ret tt, frame_value (ms ++ [MUpdate relid new_key old_row new_row]))).
  { etrans; [apply update_raw_appends; apply HL|].
    by rewrite !payload_written_opt, payload_of_written. }
  destruct old_key as [ok|]; [|exact Hup].
  destruct new_key as [nk|]; [|by destruct Hkeys]. unfold update_messages, update_or_replace.
  cbn [fmap option_fmap option_map] in *. rewrite key_differs_written.
  destruct (decide (Some ok = Some nk)) as [E|E].
  - injection E as ->. rewrite bool_decide_eq_true_2 by done. exact Hup.
  - rewrite bool_decide_eq_false_2 by congruence. cbn [negb].
    etrans; [apply bind_Ret, delete_raw_appends; apply HL|].
    etrans; [apply insert_raw_appends; apply HL|].
    rewrite payload_written_opt, <- (assoc_L (++)). simpl. by rewrite !payload_of_written.
Qed.

(** A table that has a key has it for both tuples. *)
Lemma keys_together t1 t2 k1 k2 :
  is_old t1 k1 t2 -> forall t, is_key L P cat rel (rd_att rel) t k2 -> k1 <> None -> k2 <> None.
Proof.
  intros Ho t (i2 & Hi2 & Hk2) Hk. destruct t1 as [t1|]; [|by destruct Ho].
  destruct Ho as [(i1 & Hi1 & Hk1) _]. assert (i1 = i2) as -> by congruence.
  destruct i2; [|done]. by destruct Hk2 as [_ ->].
Qed.

Lemma update_spec old new ms cache old_key old_row new_key new_row :
  cache_ok cache -> rel_sendable L cat rel -> old_decodes old ->
  tuple_decodes P (rd_att rel) new 0 -> is_old old old_key old_row ->
  is_key L P cat rel (rd_att rel) new new_key -> is_row L P cat rel (rd_att rel) new new_row ->
  let run := update_frame_with_update L P cat rel old new in
  if decide ((fits_opt old_key /\ fits_opt old_row) /\ fits_opt new_key /\ fits new_row)
  then emits L P cat rel run ms cache (update_messages relid old_key old_row new_key new_row)
  else exists st, run (frame_value ms, cache) = (Err ENOSPC, st).
Proof.
  intros Hc Hs Hdo Hdn Ho Hk Hr run. unfold run, update_frame_with_update.
  pose proof (keys_together _ _ _ _ Ho _ Hk) as Hkeys.
  case_decide as Hf; [apply emits_bind|apply announce_fails]; auto; intros ms1 c1 Hr1;
    destruct (encode_old_run old ms1 c1 old_key old_row Hr1 Hdo Ho) as (c2 & S2 & Hrun2);
    destruct (encode_tuple_run L P cat rel Hrel _ own_desc
      (fun k b => zoom (update_or_replace L relid (written <$> old_key) (written <$> old_row) k b))
      new ms1 c2 new_key new_row (proj1 S2) Hdn Hk Hr) as (c3 & S3 & Hrun3).
  - destruct Hf as [Hf1 Hf2]. rewrite decide_True in Hrun2 by done.
    rewrite decide_True in Hrun3 by done.
    exists c3. split; [eauto using same_schemas_trans|].
    etrans; [apply bind_Ret, Hrun2|].
    etrans; [exact Hrun3|]. by apply zoom_frame, update_or_replace_appends.
  - destruct (decide (fits_opt old_key /\ fits_opt old_row)) as [Hf1|Hf1].
    + rewrite decide_False in Hrun3 by tauto. eexists.
      etrans; [apply bind_Ret, Hrun2|]. exact Hrun3.
    + eexists. apply bind_Err, Hrun2.
Qed.

End stream_events.

(** ** Properties *)

#[export] Existing Instance fits_dec.
#[export] Existing Instance fits_opt_dec.

Section properties.
Context (L : avro_lib) {HL : AvroConforms L} (P : pg_lib) {HP : PgConforms P}.
Context (cat : catalog) (rel : relation) (Hrel : rel_ok cat rel) (Hsend : rel_sendable L cat rel).
Context (cache : schema_cache) (Hcache : cache_ok cache) (ms : list message).
Abbreviation relid := (rd_id rel).

(** C15: An insert event appends to the frame the table's schemas, exactly if they are not the ones
    that the cache, and so the client, holds already, then one insert message with the encodings of the new row and of
    its key; afterwards the cache holds exactly what the client has been told. It fails,
    with ENOSPC, only if an encoding does not fit the largest buffer. Tuples come with the
    table's descriptor or with that of a query result. *)
Theorem insert_event desc tuple key row :
  tuple_desc rel desc -> tuple_decodes P desc tuple 0 ->
  is_key L P cat rel desc tuple key -> is_row L P cat rel desc tuple row ->
  let run := update_frame_with_insert L P cat rel desc tuple in
  if decide (fits_opt key /\ fits row) then emits L P cat rel run ms cache [MInsert relid key row]
  else exists st, run (frame_value ms, cache) = (Err ENOSPC, st).
Proof. intros. by apply insert_spec. Qed.

(** C14: An update event appends the schemas exactly if the cache has no current entry, then one update message with the new
    key, the old row if Postgres logged it, and the new row; but if the old tuple's key is
    known and its encoding differs from the new key's, a delete message for the old key
    and an insert message for the new one. It fails only for lack of buffer space. *)
Theorem update_event old new old_key old_row new_key new_row :
  old_decodes P rel old -> tuple_decodes P (rd_att rel) new 0 ->
  is_old L P cat rel old old_key old_row ->
  is_key L P cat rel (rd_att rel) new new_key -> is_row L P cat rel (rd_att rel) new new_row ->
  let run := update_frame_with_update L P cat rel old new in
  if decide ((fits_opt old_key /\ fits_opt old_row) /\ fits_opt new_key /\ fits new_row)
  then emits L P cat rel run ms cache (update_messages relid old_key old_row new_key new_row)
  else exists st, run (frame_value ms, cache) = (Err ENOSPC, st).
Proof. intros. by apply update_spec. Qed.

(** C16: A delete event appends the schemas exactly if the cache has no current entry, then one delete message with the old
    tuple's key and row, both null if Postgres logged no old tuple. It fails only for lack
    of buffer space. *)
Theorem delete_event old key row :
  old_decodes P rel old -> is_old L P cat rel old key row ->
  let run := update_frame_with_delete L P cat rel old in
  if decide (fits_opt key /\ fits_opt row) then emits L P cat rel run ms cache [MDelete relid key row]
  else exists st, run (frame_value ms, cache) = (Err ENOSPC, st).
Proof. intros. by apply delete_spec. Qed.

End properties.

(** ** On the sample table *)

Lemma sample_sendable : rel_sendable ref_lib sample_catalog sample_table.
Proof.
  split; [split; [done|by vm_compute]|]. intros ks Hks. vm_compute in Hks.
  injection Hks as <-. split; [done|by vm_compute].
Qed.

Lemma empty_cache_ok : cache_ok schema_cache_new.
Proof. intros r e He. unfold schema_cache_new in He. by rewrite lookup_empty in He. Qed.

Definition sample_row (id name : Z) : list Z :=
  enc (row_value sample_pg sample_catalog sample_table sample_att (sample_tuple id name)).
Definition sample_key (id name : Z) : list Z :=
  enc (key_value sample_pg sample_catalog sample_table sample_index sample_att (sample_tuple id name)).

Lemma sample_is_row id name :
  is_row ref_lib sample_pg sample_catalog sample_table sample_att (sample_tuple id name)
    (sample_row id name).
Proof.
  split; [|done]. exact (proj2 (tuple_to_avro_row_spec ref_lib sample_pg sample_catalog sample_table
    sample_att (sample_tuple id name) _ (or_introl eq_refl) (sample_decodes _ _ _) (default_of_schema _))).
Qed.
Lemma sample_is_key id name :
  is_key ref_lib sample_pg sample_catalog sample_table sample_att (sample_tuple id name)
    (Some (sample_key id name)).
Proof.
  exists (Some sample_index). split; [done|]. split; [|done].
  exact (proj2 (tuple_to_avro_key_spec ref_lib sample_pg sample_catalog sample_table sample_index
    sample_att (sample_tuple id name) _ (or_introl eq_refl) (sample_decodes _ _ _) sample_index_of
    (default_of_schema _))).
Qed.

Lemma insert_event_witness :
  emits ref_lib sample_pg sample_catalog sample_table
    (update_frame_with_insert ref_lib sample_pg sample_catalog sample_table sample_att (sample_tuple 7 3))
    [] schema_cache_new [MInsert 16384 (Some (sample_key 7 3)) (sample_row 7 3)].
Proof.
  apply (insert_event ref_lib sample_pg sample_catalog sample_table sample_rel_ok sample_sendable
    schema_cache_new empty_cache_ok [] sample_att (sample_tuple 7 3) (Some (sample_key 7 3)) (sample_row 7 3)).
  - by left.
  - apply sample_decodes.
  - apply sample_is_key.
  - apply sample_is_row.
Defined.

(** The update changes the key: a deletion and an insertion. *)
Lemma update_event_witness :
  emits ref_lib sample_pg sample_catalog sample_table
    (update_frame_with_update ref_lib sample_pg sample_catalog sample_table
      (Some (sample_tuple 7 3)) (sample_tuple 8 3))
    [] schema_cache_new
    [MDelete 16384 (Some (sample_key 7 3)) (Some (sample_row 7 3));
     MInsert 16384 (Some (sample_key 8 3)) (sample_row 8 3)].
Proof.
  apply (update_event ref_lib sample_pg sample_catalog sample_table sample_rel_ok sample_sendable
    schema_cache_new empty_cache_ok [] (Some (sample_tuple 7 3)) (sample_tuple 8 3)
    (Some (sample_key 7 3)) (Some (sample_row 7 3)) (Some (sample_key 8 3)) (sample_row 8 3)).
  - apply sample_decodes.
  - apply sample_decodes.
  - split; [apply sample_is_key|]. eexists. split; [apply sample_is_row|done].
  - apply sample_is_key.
  - apply sample_is_row.
Defined.

Lemma delete_event_witness :
  emits ref_lib sample_pg sample_catalog sample_table
    (update_frame_with_delete ref_lib sample_pg sample_catalog sample_table (Some (sample_tuple 7 3)))
    [] schema_cache_new [MDelete 16384 (Some (sample_key 7 3)) (Some (sample_row 7 3))].
Proof.
  apply (delete_event ref_lib sample_pg sample_catalog sample_table sample_rel_ok sample_sendable
    schema_cache_new empty_cache_ok [] (Some (sample_tuple 7 3)) (Some (sample_key 7 3)) (Some (sample_row 7 3))).
  - apply sample_decodes.
  - split; [apply sample_is_key|]. eexists. split; [apply sample_is_row|done].
Defined.
