(* ===== verification/LogDecoder.v ===== *)
(** * The logical decoding output plugin ([ext/logdecoder.c])

    Postgres calls the plugin for the beginning and the end of every transaction and for
    every row change; each call writes one frame. Errors become [elog(ERROR)], which ends
    the decoding session. *)

From S2P Require Import Prelude Avro AvroBinary IoUtil Protocol Oid2Avro Oid2AvroFacts.
From S2P Require Import SchemaCache ProtocolServer.
Open Scope Z_scope.

(** The plugin's state: frame and cache, and the frames handed to Postgres so far. *)
Abbreviation plugin := (server * list (list Z))%type.

(** [if (call) elog(ERROR, msg)]. *)
Definition or_elog {S A} (msg : string) (m : M S A) : M S A := fun s =>
  match m s with
  | (Err _, s) => (Elog msg, s)
  | r => r
  end.

Definition output_avro_startup : outcome plugin :=
  match schema_for_frame with
  | Ret s => Ret (default_value s, schema_cache_new, [])
  | o => cast_outcome o
  end.

Section plugin.
Context (L : avro_lib) (P : pg_lib).

Definition on_frame {A} (m : M avro_value A) : M plugin A := zoom (zoom (X := server) m).

Definition reset_frame : M plugin unit :=
  or_elog "Avro value reset failed" (on_frame (avro_value_reset L [])).

(** [OutputPluginWrite] of the encoded frame. *)
Definition write_frame : M plugin unit :=
  output ← on_frame (write_value L);
  modify (fun s => (fst s, snd s ++ [payload output])).

Definition output_avro_begin_txn (xid : Z) : M plugin unit :=
  _ ← reset_frame;
  _ ← or_elog "output_avro_begin_txn: Avro conversion failed"
        (on_frame (update_frame_with_begin_txn L xid));
  or_elog "output_avro_begin_txn: writing Avro binary failed" write_frame.

Definition output_avro_commit_txn (xid commit_lsn : Z) : M plugin unit :=
  _ ← reset_frame;
  _ ← or_elog "output_avro_commit_txn: Avro conversion failed"
        (on_frame (update_frame_with_commit_txn L xid commit_lsn));
  or_elog "output_avro_commit_txn: writing Avro binary failed" write_frame.

(** A change of the reorder buffer, with the tuples it carries. *)
Abbreviation tuple := (list (option (Datum P))).
Inductive change : Type :=
| REORDER_BUFFER_CHANGE_INSERT (newtuple : option tuple)
| REORDER_BUFFER_CHANGE_UPDATE (oldtuple newtuple : option tuple)
| REORDER_BUFFER_CHANGE_DELETE (oldtuple : option tuple)
| REORDER_BUFFER_CHANGE_OTHER (action : Z).

Definition output_avro_change (cat : catalog) (rel : relation) (c : change) : M plugin unit :=
  _ ← reset_frame;
  _ ← or_elog "output_avro_change: row conversion failed"
        (match c with
         | REORDER_BUFFER_CHANGE_INSERT None =>
             stop (Elog "output_avro_change: insert action without a tuple")
         | REORDER_BUFFER_CHANGE_INSERT (Some newtuple) =>
             zoom (update_frame_with_insert L P cat rel (rd_att rel) newtuple)
         | REORDER_BUFFER_CHANGE_UPDATE _ None =>
             stop (Elog "output_avro_change: update action without a tuple")
         | REORDER_BUFFER_CHANGE_UPDATE oldtuple (Some newtuple) =>
             zoom (update_frame_with_update L P cat rel oldtuple newtuple)
         | REORDER_BUFFER_CHANGE_DELETE oldtuple =>
             zoom (update_frame_with_delete L P cat rel oldtuple)
         | REORDER_BUFFER_CHANGE_OTHER _ =>
             stop (Elog "output_avro_change: unknown change action")
         end);
  or_elog "output_avro_change: writing Avro binary failed" write_frame.

(** The cache is released; the value and its schema go with the session. *)
Definition output_avro_shutdown : M plugin unit := zoom (zoom (X := server) schema_cache_free).

(** What Postgres is told to call. *)
Record output_plugin_callbacks : Type := OutputPluginCallbacks {
  startup_cb : outcome plugin;
  begin_cb : Z -> M plugin unit;
  change_cb : catalog -> relation -> change -> M plugin unit;
  commit_cb : Z -> Z -> M plugin unit;
  shutdown_cb : M plugin unit;
}.
Definition PG_output_plugin_init : output_plugin_callbacks :=
  OutputPluginCallbacks output_avro_startup output_avro_begin_txn output_avro_change output_avro_commit_txn
    output_avro_shutdown.

(** ** Properties *)

Lemma on_frame_plugin {A} (m : M avro_value A) f (cache : schema_cache) (out : list (list Z)) o f' :
  m f = (o, f') -> on_frame m (f, cache, out) = (o, (f', cache, out)).
Proof. intros Hm. unfold on_frame, zoom. simpl. by rewrite Hm. Qed.

Lemma on_server_plugin {A} (m : M server A) sv (out : list (list Z)) o sv' :
  m sv = (o, sv') -> zoom m (sv, out) = (o, (sv', out)).
Proof. intros Hm. unfold zoom. simpl. by rewrite Hm. Qed.

(** ** One frame per call, or none *)

(** [m] does not write; [m] writes exactly one frame if it returns, otherwise none. *)
Definition silent {A} (m : M plugin A) : Prop := forall s, snd (snd (m s)) = snd s.
Definition writes_one {A} (m : M plugin A) : Prop := forall s,
  match m s with
  | (Ret _, s') => exists bs, snd s' = snd s ++ [bs]
  | (_, s') => snd s' = snd s
  end.

Lemma silent_zoom {A} (m : M server A) : silent (zoom m).
Proof. intros [sv out]. unfold zoom. simpl. by destruct (m sv). Qed.
Lemma silent_stop {A} (o : outcome A) : silent (stop o).
Proof. done. Qed.
Lemma silent_or_elog {A} msg (m : M plugin A) : silent m -> silent (or_elog msg m).
Proof. intros Hm s. specialize (Hm s). unfold or_elog. by destruct (m s) as [[] s']. Qed.
Lemma writes_one_or_elog {A} msg (m : M plugin A) : writes_one m -> writes_one (or_elog msg m).
Proof. intros Hm s. specialize (Hm s). unfold or_elog. by destruct (m s) as [[] s']. Qed.
Lemma writes_one_bind {A B} (m : M plugin A) (k : A -> M plugin B) :
  silent m -> (forall a, writes_one (k a)) -> writes_one (m ≫= k).
Proof.
  intros Hm Hk s. specialize (Hm s). unfold mbind, M_bind.
  destruct (m s) as [[a| | | | |] s']; simpl in *; try done. specialize (Hk a s').
  by rewrite Hm in Hk.
Qed.
Lemma silent_reset_frame : silent reset_frame.
Proof. apply silent_or_elog, silent_zoom. Qed.
Lemma write_frame_one : writes_one write_frame.
Proof.
  apply writes_one_bind; [apply silent_zoom|]. intros b s. unfold modify. by eexists.
Qed.
#[local] Hint Resolve silent_zoom silent_stop silent_or_elog writes_one_or_elog silent_reset_frame
  write_frame_one : core.

Lemma begin_txn_one xid : writes_one (output_avro_begin_txn xid).
Proof. repeat (apply writes_one_bind; [|intros _]); unfold on_frame; auto. Qed.
Lemma commit_txn_one xid lsn : writes_one (output_avro_commit_txn xid lsn).
Proof. repeat (apply writes_one_bind; [|intros _]); unfold on_frame; auto. Qed.
Lemma change_one cat rel c : writes_one (output_avro_change cat rel c).
Proof.
  repeat (apply writes_one_bind; [|intros _]); auto. apply silent_or_elog.
  destruct c as [[t|]|o [t|]|o|a]; auto.
Qed.

(** C23: Every call of the plugin is all or nothing: if the callback for a transaction's
    begin or commit or for a row change returns, it has written exactly one frame; if it
    raises an error, whatever the reason, it has written nothing. *)
Theorem one_frame_per_call xid lsn cat rel c :
  writes_one (output_avro_begin_txn xid) /\ writes_one (output_avro_commit_txn xid lsn) /\
  writes_one (output_avro_change cat rel c).
Proof. split; [apply begin_txn_one|]. split; [apply commit_txn_one|apply change_one]. Qed.

(** ** What the frames hold *)

Context {HL : AvroConforms L} {HP : PgConforms P}.
#[local] Existing Instance fits_dec.
#[local] Existing Instance fits_opt_dec.

Lemma reset_frame_run f cache out :
  vreset f = frame_value [] -> reset_frame (f, cache, out) = (Ret tt, (frame_value [], cache, out)).
Proof.
  intros Hf. assert (E : avro_value_reset L [] f = (Ret tt, frame_value [])).
  { eapply lib_last; [conf|]. unfold ref_reset, ref_set. simpl. by rewrite Hf. }
  unfold reset_frame, or_elog. by rewrite (on_frame_plugin _ _ _ _ _ _ E).
Qed.

(** The frame of the messages [ms] as bytes. *)
Definition frame_bytes (ms : list message) : list Z := encode L (frame_value ms).

Lemma write_frame_run ms cache out :
  Forall wf_message ms -> Z.of_nat (length ms) < 2 ^ 63 ->
  write_frame (frame_value ms, cache, out) =
  if decide (fits (frame_bytes ms))
  then (Ret tt, (frame_value ms, cache, out ++ [frame_bytes ms]))
  else (Err ENOSPC, (frame_value ms, cache, out)).
Proof.
  intros Hms Hlen. pose proof (write_value_spec L frame_schema _ (frame_has_schema ms Hms Hlen)) as E.
  unfold write_frame, mbind, M_bind. rewrite (on_frame_plugin _ _ _ _ _ _ E).
  unfold frame_bytes. case_decide; [|done]. unfold modify. simpl. by rewrite payload_of_written.
Qed.

(** The whole callback: the frame holds [ms] after the update, and is written if it fits. *)
Lemma callback_run (m : M plugin unit) msg1 msg2 f cache out ms cache' :
  vreset f = frame_value [] ->
  m (frame_value [], cache, out) = (Ret tt, (frame_value ms, cache', out)) ->
  Forall wf_message ms -> Z.of_nat (length ms) < 2 ^ 63 ->
  (_ ← reset_frame; _ ← or_elog msg1 m; or_elog msg2 write_frame) (f, cache, out) =
  if decide (fits (frame_bytes ms))
  then (Ret tt, (frame_value ms, cache', out ++ [frame_bytes ms]))
  else (Elog msg2, (frame_value ms, cache', out)).
Proof.
  intros Hf Hm Hwf Hlen. etrans; [by apply bind_Ret, reset_frame_run|].
  etrans; [apply bind_Ret; unfold or_elog; by rewrite Hm|].
  unfold or_elog. rewrite (write_frame_run ms cache' out Hwf Hlen). by case_decide.
Qed.

Lemma begin_txn_run xid f cache out :
  is_u32 xid -> vreset f = frame_value [] ->
  output_avro_begin_txn xid (f, cache, out) =
  let ms := [MBegin xid] in
  if decide (fits (frame_bytes ms))
  then (Ret tt, (frame_value ms, cache, out ++ [frame_bytes ms]))
  else (Elog "output_avro_begin_txn: writing Avro binary failed", (frame_value ms, cache, out)).
Proof.
  intros Hx Hf. apply callback_run; [done| | |done].
  - apply on_frame_plugin. apply (begin_txn_appends L xid []).
  - repeat constructor; unfold is_u32 in Hx; lia.
Qed.

Lemma commit_txn_run xid lsn f cache out :
  is_u32 xid -> vreset f = frame_value [] ->
  output_avro_commit_txn xid lsn (f, cache, out) =
  let ms := [MCommit xid (s64 lsn)] in
  if decide (fits (frame_bytes ms))
  then (Ret tt, (frame_value ms, cache, out ++ [frame_bytes ms]))
  else (Elog "output_avro_commit_txn: writing Avro binary failed", (frame_value ms, cache, out)).
Proof.
  intros Hx Hf. apply callback_run; [done| | |done].
  - apply on_frame_plugin. apply (commit_txn_appends L xid lsn []).
  - repeat constructor; [unfold is_u32 in Hx; lia..|apply s64_range|apply s64_range].
Qed.

(** *** Row changes *)

Section changes.
Context (cat : catalog) (rel : relation) (Hrel : rel_ok cat rel) (Hsend : rel_sendable L cat rel).
Abbreviation relid := (rd_id rel).
Abbreviation key_of := (is_key L P cat rel (rd_att rel)).
Abbreviation row_of := (is_row L P cat rel (rd_att rel)).

(** The row events of a change whose parts can be encoded. *)
Inductive change_sends : change -> list message -> Prop :=
| sends_insert t key row :
    tuple_decodes P (rd_att rel) t 0 -> key_of t key -> row_of t row -> fits_opt key -> fits row ->
    change_sends (REORDER_BUFFER_CHANGE_INSERT (Some t)) [MInsert relid key row]
| sends_update old new old_key old_row key row :
    old_decodes P rel old -> tuple_decodes P (rd_att rel) new 0 ->
    is_old L P cat rel old old_key old_row -> key_of new key -> row_of new row ->
    fits_opt old_key -> fits_opt old_row -> fits_opt key -> fits row ->
    change_sends (REORDER_BUFFER_CHANGE_UPDATE old (Some new))
      (update_messages relid old_key old_row key row)
| sends_delete old key row :
    old_decodes P rel old -> is_old L P cat rel old key row -> fits_opt key -> fits_opt row ->
    change_sends (REORDER_BUFFER_CHANGE_DELETE old) [MDelete relid key row].

Lemma encode_ok s v : has_schema s v -> fits (encode L v) -> ok_bytes (encode L v).
Proof.
  intros Hv Hf. split; [by eapply conf_encode_bytes|]. revert Hf. unfold fits, max_payload,
    MAX_BUFFER_LENGTH, VARHDRSZ. lia.
Qed.
Lemma row_ok t row : row_of t row -> fits row -> ok_bytes row.
Proof. intros [Hv ->]. by apply (encode_ok (schema_for_table_row cat rel)). Qed.
Lemma key_ok t key : key_of t key -> fits_opt key -> ok_opt key.
Proof.
  intros ([ix|] & _ & Hk); [|by subst]. destruct Hk as [Hv ->].
  by apply (encode_ok (schema_for_table_row cat ix)).
Qed.
Lemma old_ok t key row :
  is_old L P cat rel t key row -> fits_opt key -> fits_opt row -> ok_opt key /\ ok_opt row.
Proof.
  destruct t as [t|]; simpl; [|by intros [-> ->]]. intros (Hk & r & Hr & ->) Hfk Hfr.
  split; [by eapply key_ok|by eapply row_ok].
Qed.
Lemma relid_s64 : is_s64 relid.
Proof. destruct Hrel as (_ & Hid & _). revert Hid. unfold is_u32, is_s64. lia. Qed.

Lemma sends_wf c evs : change_sends c evs -> Forall wf_message evs /\ (length evs <= 2)%nat.
Proof.
  pose proof relid_s64. destruct 1 as [t key row ? Hk Hr|old new ok orow key row ? ? Ho Hk Hr|old key row ? Ho].
  - split; [|simpl; lia]. repeat apply List.Forall_cons; simpl; eauto using key_ok, row_ok.
  - destruct (old_ok _ _ _ Ho) as [? ?]; [done..|]. pose proof (key_ok _ _ Hk) as ?.
    pose proof (row_ok _ _ Hr). unfold update_messages. destruct ok; [case_decide|];
      (split; [|simpl; lia]); repeat apply List.Forall_cons; simpl; auto.
  - destruct (old_ok _ _ _ Ho) as [? ?]; [done..|]. split; [|simpl; lia].
    repeat apply List.Forall_cons; simpl; auto.
Qed.

Lemma sendable_ok s : sendable L s -> ok_bytes (schema_json L s).
Proof.
  intros [Hv Hlen]. split.
  - eapply Forall_impl; [|exact (conf_json_bytes (L := L) s Hv)]. by intros b [? _].
  - revert Hlen. unfold max_payload, MAX_BUFFER_LENGTH, VARHDRSZ. lia.
Qed.

(** The schemas announced are those the relation has now. *)
Lemma announced_schemas cache ann cache' :
  ready cat rel cache' -> announces L relid (known cache) ann (known cache') ->
  ann = [] \/ exists ks, schema_for_table_key cat rel = Ret ks /\
    ann = [announcement L relid (ks, schema_for_table_row cat rel)].
Proof.
  intros [_ (e & He & _ & Hrow & Hkey)] Hann. inversion Hann as [|s Hs Heq]; [by left|]. right.
  assert (Hk : known cache' !! relid = Some s) by (by rewrite <- Heq, lookup_insert_eq).
  unfold known in Hk. rewrite lookup_fmap, He in Hk. injection Hk as <-.
  exists (e_key_schema e). unfold entry_schemas. by rewrite Hkey, Hrow.
Qed.

Lemma announces_wf cache ann cache' :
  ready cat rel cache' -> announces L relid (known cache) ann (known cache') ->
  Forall wf_message ann /\ (length ann <= 1)%nat.
Proof.
  intros Hr Hann. destruct (announced_schemas _ _ _ Hr Hann) as [->|(ks & Hks & ->)];
    [split; [constructor|simpl; lia]|].
  destruct Hsend as [Hrow Hkey]. split; [|simpl; lia].
  repeat apply List.Forall_cons; [|constructor]. split; [apply relid_s64|]. simpl.
  split; [|by apply sendable_ok]. destruct ks; simpl; [|done]. by apply sendable_ok, Hkey.
Qed.

(** Every complete change: one frame with at most one announcement and the row events,
    unless the frame itself is too large for a buffer. *)
Lemma change_run c evs f cache out :
  vreset f = frame_value [] -> cache_ok cache -> change_sends c evs ->
  exists ann cache', ready cat rel cache' /\ announces L relid (known cache) ann (known cache') /\
    output_avro_change cat rel c (f, cache, out) =
    let ms := ann ++ evs in
    if decide (fits (frame_bytes ms))
    then (Ret tt, (frame_value ms, cache', out ++ [frame_bytes ms]))
    else (Elog "output_avro_change: writing Avro binary failed", (frame_value ms, cache', out)).
Proof.
  intros Hf Hc Hs. destruct (sends_wf c evs Hs) as [Hwf Hlen].
  assert (Hrun : exists run, emits L P cat rel run [] cache evs /\
    output_avro_change cat rel c = (_ ← reset_frame;
      _ ← or_elog "output_avro_change: row conversion failed" (zoom run);
      or_elog "output_avro_change: writing Avro binary failed" write_frame)).
  { destruct Hs as [t key row|old new ok orow key row|old key row].
    - exists (update_frame_with_insert L P cat rel (rd_att rel) t). split; [|done].
      pose proof (insert_spec L P cat rel Hrel (rd_att rel) (own_desc rel) t [] cache key row) as Hi.
      rewrite decide_True in Hi by done. auto.
    - exists (update_frame_with_update L P cat rel old new). split; [|done].
      pose proof (update_spec L P cat rel Hrel old new [] cache ok orow key row) as Hi.
      rewrite decide_True in Hi by done. auto.
    - exists (update_frame_with_delete L P cat rel old). split; [|done].
      pose proof (delete_spec L P cat rel Hrel old [] cache key row) as Hi.
      rewrite decide_True in Hi by done. auto. }
  destruct Hrun as (run & (ann & cache' & Hrun & Hr & Hann & _) & ->).
  destruct (announces_wf _ _ _ Hr Hann) as [Hwa Hla].
  exists ann, cache'. split; [done|]. split; [done|]. apply callback_run; [done| | |].
  - by apply on_server_plugin.
  - by apply list.Forall_app.
  - rewrite length_app. lia.
Qed.

End changes.
End plugin.
