(* ===== verification/ProtocolClient.v ===== *)
(** * Client side of the wire protocol ([client/protocol_client.c])

    The frame reader parses a frame of Avro bytes, keeps the schemas announced for
    each relation, decodes keys and rows with them, and invokes the application's
    callbacks in message order. *)

From S2P Require Import Prelude Avro AvroBinary Protocol.
Open Scope Z_scope.

(** ** State *)

(** The key schema pointer of an entry. It dangles after the entry was cleared for a
    new schema and the new key schema could not be parsed. *)
Inductive key_slot : Type :=
| KeyNone
| KeySchema (s : avro_schema)
| KeyDangling.

Record schema_list_entry : Type := ListEntry {
  c_relid : Z;
  c_key_schema : key_slot;
  c_row_schema : avro_schema;
  c_key_value : avro_value;
  c_row_value : avro_value;
  c_old_value : avro_value;
}.

(** The array of entries has [fr_capacity] slots, the first [length fr_schemas] used. *)
Record frame_reader : Type := FrameReader {
  fr_capacity : Z;
  fr_schemas : list schema_list_entry;
  fr_frame_value : avro_value;
}.

Definition set_capacity (n : Z) (r : frame_reader) : frame_reader :=
  FrameReader n (fr_schemas r) (fr_frame_value r).
Definition set_schemas (l : list schema_list_entry) (r : frame_reader) : frame_reader :=
  FrameReader (fr_capacity r) l (fr_frame_value r).
Definition set_frame_value (v : avro_value) (r : frame_reader) : frame_reader :=
  FrameReader (fr_capacity r) (fr_schemas r) v.

(** A schema as the callbacks get it: its JSON text and the parsed schema; a row or
    key: its bytes and the decoded value. *)
Abbreviation schema_arg := (list Z * avro_schema)%type.
Abbreviation value_arg := (list Z * avro_value)%type.

(** The callbacks an application registers; each takes the WAL position first. *)
Record callbacks (X : Type) : Type := Callbacks {
  on_begin_txn : option (Z -> Z -> M X unit);
  on_commit_txn : option (Z -> Z -> M X unit);
  on_table_schema : option (Z -> Z -> option schema_arg -> schema_arg -> M X unit);
  on_insert_row : option (Z -> Z -> option value_arg -> value_arg -> M X unit);
  on_update_row : option (Z -> Z -> option value_arg -> option value_arg -> value_arg -> M X unit);
  on_delete_row : option (Z -> Z -> option value_arg -> option value_arg -> M X unit);
}.
Arguments on_begin_txn {_} _.
Arguments on_commit_txn {_} _.
Arguments on_table_schema {_} _.
Arguments on_insert_row {_} _.
Arguments on_update_row {_} _.
Arguments on_delete_row {_} _.

Definition frame_reader_new : outcome frame_reader :=
  match schema_for_frame with
  | Ret s => Ret (FrameReader 16 [] (default_value s))
  | o => cast_outcome o
  end.

(** ** The schema list *)

(** The index of the first entry for a relation. The comparison is between a 32-bit
    Oid and a 64-bit integer. *)
Fixpoint schema_list_find (l : list schema_list_entry) (relid : Z) (i : nat) : option nat :=
  match l with
  | [] => None
  | e :: l => if c_relid e =? relid then Some i else schema_list_find l relid (S i)
  end.
Definition schema_list_lookup (relid : Z) : M frame_reader (option nat) :=
  gets (fun r => schema_list_find (fr_schemas r) relid 0).

(** The entry that memset leaves. *)
Definition blank_entry : schema_list_entry :=
  ListEntry 0 KeyNone SNull VNull VNull VNull.

(** Grow the array if it is full, then use the next slot; writing past the end of the
    array is undefined. *)
Definition schema_list_entry_new : M frame_reader nat :=
  full ← gets (fun r => Z.of_nat (length (fr_schemas r)) =? fr_capacity r);
  _ ← when full (modify (fun r => set_capacity (s32 (fr_capacity r * 4)) r));
  r ← gets (fun r => r);
  if decide (Z.of_nat (length (fr_schemas r)) < fr_capacity r) then
    _ ← modify (fun r => set_schemas (fr_schemas r ++ [blank_entry]) r);
    mret (length (fr_schemas r))
  else stop Undef.

(** Clearing releases the key schema, if the entry has one, but keeps the pointer. *)
Definition schema_list_entry_decrefs (e : schema_list_entry) : outcome schema_list_entry :=
  match c_key_schema e with
  | KeyNone => Ret e
  | KeySchema _ =>
      Ret (ListEntry (c_relid e) KeyDangling (c_row_schema e) (c_key_value e) (c_row_value e)
             (c_old_value e))
  | KeyDangling => Undef
  end.

(** Releasing the reader clears every entry; one that was cleared before and not filled
    again is released a second time. *)
Fixpoint free_entries (l : list schema_list_entry) : outcome (list schema_list_entry) :=
  match l with
  | [] => Ret []
  | e :: l =>
      match schema_list_entry_decrefs e with
      | Ret e =>
          match free_entries l with
          | Ret l => Ret (e :: l)
          | o => o
          end
      | o => cast_outcome o
      end
  end.
(** What is left of the reader: pointers to what was released. *)
Definition frame_reader_free (r : frame_reader) : outcome frame_reader :=
  match free_entries (fr_schemas r) with
  | Ret l => Ret (set_schemas l r)
  | o => cast_outcome o
  end.

Definition update_entry (i : nat) (f : schema_list_entry -> schema_list_entry)
  : M frame_reader unit :=
  modify (fun r => set_schemas (alter f i (fr_schemas r)) r).

Definition entry_at (i : nat) : M frame_reader schema_list_entry := fun r =>
  match fr_schemas r !! i with
  | Some e => (Ret e, r)
  | None => (Undef, r)
  end.

Definition schema_list_replace (relid : Z) : M frame_reader nat :=
  found ← schema_list_lookup relid;
  match found with
  | Some i =>
      entry ← entry_at i;
      entry' ← stop (schema_list_entry_decrefs entry);
      _ ← update_entry i (fun _ => entry');
      mret i
  | None => schema_list_entry_new
  end.

Section client.
Context (L : avro_lib).

(** ** Reading a buffer *)

(** Parse a value from a buffer that must hold nothing else. *)
Definition read_entirely (buf : list Z) : M avro_value unit := fun v =>
  match avro_value_read L (buf, v) with
  | (Ret _, (rest, v)) =>
      match avro_skip L 1 (rest, v) with
      | (Err e, _) => if decide (e = ENOSPC) then (Ret tt, v) else (Err EINVAL, v)
      | (Ret _, _) => (Err EINVAL, v)
      | (o, _) => (cast_outcome o, v)
      end
  | (o, (_, v)) => (cast_outcome o, v)
  end.

(** Read from the frame value of the reader. *)
Definition on_frame {A} (m : M avro_value A) : M frame_reader A := fun r =>
  let '(o, v) := m (fr_frame_value r) in (o, set_frame_value v r).

(** Decode a buffer into one of the values of entry [i]. A key value that was released
    or never made must not be used. *)
Definition read_key (i : nat) (buf : list Z) : M frame_reader avro_value := fun r =>
  match fr_schemas r !! i with
  | Some (ListEntry relid (KeySchema s) rs kv rv ov) =>
      let '(o, kv) := read_entirely buf kv in
      let r := set_schemas (<[i := ListEntry relid (KeySchema s) rs kv rv ov]> (fr_schemas r)) r in
      match o with Ret _ => (Ret kv, r) | _ => (cast_outcome o, r) end
  | _ => (Undef, r)
  end.
Definition read_row (i : nat) (buf : list Z) : M frame_reader avro_value := fun r =>
  match fr_schemas r !! i with
  | Some (ListEntry relid k rs kv rv ov) =>
      let '(o, rv) := read_entirely buf rv in
      let r := set_schemas (<[i := ListEntry relid k rs kv rv ov]> (fr_schemas r)) r in
      match o with Ret _ => (Ret rv, r) | _ => (cast_outcome o, r) end
  | None => (Undef, r)
  end.
Definition read_old (i : nat) (buf : list Z) : M frame_reader avro_value := fun r =>
  match fr_schemas r !! i with
  | Some (ListEntry relid k rs kv rv ov) =>
      let '(o, ov) := read_entirely buf ov in
      let r := set_schemas (<[i := ListEntry relid k rs kv rv ov]> (fr_schemas r)) r in
      match o with Ret _ => (Ret ov, r) | _ => (cast_outcome o, r) end
  | None => (Undef, r)
  end.

(** The bytes behind a nullable field, decoded with [read]. *)
Definition read_nullable (present : Z) (val : path) (read : list Z -> M frame_reader avro_value)
  : M frame_reader (option value_arg) :=
  if decide (present = 0) then mret None else
  branch_val ← on_frame (avro_value_get_current_branch L val);
  bin ← on_frame (avro_value_get_bytes L branch_val);
  value ← read bin;
  mret (Some (bin, value)).

(** ** Messages *)

Context {X : Type} (cbs : callbacks X).
Abbreviation MC := (M (frame_reader * X)).

(** A registered callback, or nothing. *)
Definition call {A} (cb : option A) (k : A -> M X unit) : MC unit :=
  match cb with
  | Some f => zoom (k f)
  | None => mret ()
  end.

Definition process_frame_begin_txn (record_val : path) (wal_pos : Z) : MC unit :=
  xid ← zoom (xid_val ← on_frame (avro_value_get_by_index L record_val 0);
              on_frame (avro_value_get_long L xid_val));
  call (on_begin_txn cbs) (fun f => f wal_pos (u32 xid)).

Definition process_frame_commit_txn (record_val : path) (wal_pos : Z) : MC unit :=
  xid ← zoom (xid_val ← on_frame (avro_value_get_by_index L record_val 0);
              on_frame (avro_value_get_long L xid_val));
  call (on_commit_txn cbs) (fun f => f wal_pos (u32 xid)).

(** Parse the schemas of a message and store them; gives the callback's arguments. *)
Definition read_table_schema (record_val : path)
  : M frame_reader (Z * option schema_arg * schema_arg) :=
  relid_val ← on_frame (avro_value_get_by_index L record_val 0);
  key_schema_val ← on_frame (avro_value_get_by_index L record_val 1);
  row_schema_val ← on_frame (avro_value_get_by_index L record_val 2);
  relid ← on_frame (avro_value_get_long L relid_val);
  key_schema_present ← on_frame (avro_value_get_discriminant L key_schema_val);
  row ← on_frame (avro_value_get_string L row_schema_val);
  let '(row_schema_json, row_schema_len) := row in
  row_schema ← stop (avro_schema_from_json_length L row_schema_json (row_schema_len - 1));
  i ← schema_list_replace relid;
  _ ← update_entry i (fun e => ListEntry (u32 relid) (c_key_schema e) row_schema (c_key_value e)
                                 (default_value row_schema) (default_value row_schema));
  key ←
    (if decide (key_schema_present = 0) then
       _ ← update_entry i (fun e => ListEntry (c_relid e) KeyNone (c_row_schema e) (c_key_value e)
                                      (c_row_value e) (c_old_value e));
       mret None
     else
       branch_val ← on_frame (avro_value_get_current_branch L key_schema_val);
       key ← on_frame (avro_value_get_string L branch_val);
       let '(key_schema_json, key_schema_len) := key in
       key_schema ← stop (avro_schema_from_json_length L key_schema_json (key_schema_len - 1));
       _ ← update_entry i (fun e => ListEntry (c_relid e) (KeySchema key_schema) (c_row_schema e)
                                      (default_value key_schema) (c_row_value e) (c_old_value e));
       mret (Some (take (Z.to_nat (key_schema_len - 1)) key_schema_json, key_schema)));
  mret (u32 relid, key, (take (Z.to_nat (row_schema_len - 1)) row_schema_json, row_schema)).

Definition process_frame_table_schema (record_val : path) (wal_pos : Z) : MC unit :=
  args ← zoom (read_table_schema record_val);
  let '(relid, key, row) := args in
  call (on_table_schema cbs) (fun f => f wal_pos relid key row).

(** The entry of a relation that must be known. *)
Definition known_entry (relid : Z) : M frame_reader nat :=
  found ← schema_list_lookup relid;
  match found with
  | Some i => mret i
  | None => fail EINVAL
  end.

Definition process_frame_insert (record_val : path) (wal_pos : Z) : MC unit :=
  args ← zoom (
    relid_val ← on_frame (avro_value_get_by_index L record_val 0);
    key_val ← on_frame (avro_value_get_by_index L record_val 1);
    new_val ← on_frame (avro_value_get_by_index L record_val 2);
    relid ← on_frame (avro_value_get_long L relid_val);
    key_present ← on_frame (avro_value_get_discriminant L key_val);
    new_bin ← on_frame (avro_value_get_bytes L new_val);
    i ← known_entry relid;
    key ← read_nullable key_present key_val (read_key i);
    row ← read_row i new_bin;
    mret (u32 relid, key, (new_bin, row)));
  let '(relid, key, row) := args in
  call (on_insert_row cbs) (fun f => f wal_pos relid key row).

Definition process_frame_update (record_val : path) (wal_pos : Z) : MC unit :=
  args ← zoom (
    relid_val ← on_frame (avro_value_get_by_index L record_val 0);
    key_val ← on_frame (avro_value_get_by_index L record_val 1);
    old_val ← on_frame (avro_value_get_by_index L record_val 2);
    new_val ← on_frame (avro_value_get_by_index L record_val 3);
    relid ← on_frame (avro_value_get_long L relid_val);
    key_present ← on_frame (avro_value_get_discriminant L key_val);
    old_present ← on_frame (avro_value_get_discriminant L old_val);
    new_bin ← on_frame (avro_value_get_bytes L new_val);
    i ← known_entry relid;
    key ← read_nullable key_present key_val (read_key i);
    old ← read_nullable old_present old_val (read_old i);
    row ← read_row i new_bin;
    mret (u32 relid, key, old, (new_bin, row)));
  let '(relid, key, old, row) := args in
  call (on_update_row cbs) (fun f => f wal_pos relid key old row).

Definition process_frame_delete (record_val : path) (wal_pos : Z) : MC unit :=
  args ← zoom (
    relid_val ← on_frame (avro_value_get_by_index L record_val 0);
    key_val ← on_frame (avro_value_get_by_index L record_val 1);
    old_val ← on_frame (avro_value_get_by_index L record_val 2);
    relid ← on_frame (avro_value_get_long L relid_val);
    key_present ← on_frame (avro_value_get_discriminant L key_val);
    old_present ← on_frame (avro_value_get_discriminant L old_val);
    i ← known_entry relid;
    key ← read_nullable key_present key_val (read_key i);
    old ← read_nullable old_present old_val (read_old i);
    mret (u32 relid, key, old));
  let '(relid, key, old) := args in
  call (on_delete_row cbs) (fun f => f wal_pos relid key old).

(** ** Frames *)

(** The body of the loop over the messages. *)
Definition process_message (msg_val : path) (i : nat) (wal_pos : Z) : MC unit :=
  union_val ← zoom (on_frame (avro_value_get_by_index L msg_val i));
  msg_type ← zoom (on_frame (avro_value_get_discriminant L union_val));
  record_val ← zoom (on_frame (avro_value_get_current_branch L union_val));
  if msg_type =? PROTOCOL_MSG_BEGIN_TXN then process_frame_begin_txn record_val wal_pos
  else if msg_type =? PROTOCOL_MSG_COMMIT_TXN then process_frame_commit_txn record_val wal_pos
  else if msg_type =? PROTOCOL_MSG_TABLE_SCHEMA then process_frame_table_schema record_val wal_pos
  else if msg_type =? PROTOCOL_MSG_INSERT then process_frame_insert record_val wal_pos
  else if msg_type =? PROTOCOL_MSG_UPDATE then process_frame_update record_val wal_pos
  else if msg_type =? PROTOCOL_MSG_DELETE then process_frame_delete record_val wal_pos
  else fail EINVAL.

Fixpoint process_loop (msg_val : path) (i remaining : nat) (wal_pos : Z) : MC unit :=
  match remaining with
  | O => mret ()
  | S remaining =>
      _ ← process_message msg_val i wal_pos;
      process_loop msg_val (S i) remaining wal_pos
  end.

Definition process_frame (wal_pos : Z) : MC unit :=
  msg_val ← zoom (on_frame (avro_value_get_by_index L [] 0));
  num_messages ← zoom (on_frame (avro_value_get_size L msg_val));
  process_loop msg_val 0 num_messages wal_pos.

Definition parse_frame (wal_pos : Z) (buf : list Z) : MC unit :=
  _ ← zoom (on_frame (read_entirely buf));
  process_frame wal_pos.

End client.

(** ** What the reader knows *)

(** The schemas known per relation: of the key, if there is one, and of the row. *)
Abbreviation knowledge := (gmap Z (option avro_schema * avro_schema)).

Definition key_of_slot (k : key_slot) : option avro_schema :=
  match k with KeySchema s => Some s | _ => None end.

(** The values of an entry are values of its schemas; no pointer dangles. *)
Definition entry_good (e : schema_list_entry) : Prop :=
  is_u32 (c_relid e) /\ c_key_schema e <> KeyDangling /\
  vreset (c_row_value e) = default_value (c_row_schema e) /\
  vreset (c_old_value e) = default_value (c_row_schema e) /\
  (forall s, c_key_schema e = KeySchema s -> vreset (c_key_value e) = default_value s).

Definition entry_view (e : schema_list_entry) : option avro_schema * avro_schema :=
  (key_of_slot (c_key_schema e), c_row_schema e).

(** The used part of the array fits in it, and entries are unique per relation. *)
Definition reader_ok (r : frame_reader) : Prop :=
  16 <= fr_capacity r < 2 ^ 31 /\ Z.of_nat (length (fr_schemas r)) <= fr_capacity r /\
  vreset (fr_frame_value r) = frame_value [] /\
  NoDup (map c_relid (fr_schemas r)) /\ Forall entry_good (fr_schemas r).

Definition knows (r : frame_reader) (k : knowledge) : Prop :=
  reader_ok r /\
  forall relid v, k !! relid = Some v <->
    exists e, e ∈ fr_schemas r /\ c_relid e = relid /\ entry_view e = v.

(** The reader with every key schema released. *)
Definition entry_released (e : schema_list_entry) : schema_list_entry :=
  match c_key_schema e with
  | KeyNone => e
  | _ => ListEntry (c_relid e) KeyDangling (c_row_schema e) (c_key_value e) (c_row_value e) (c_old_value e)
  end.
Definition reader_released (r : frame_reader) : frame_reader :=
  set_schemas (entry_released <$> fr_schemas r) r.

(** A reader none of whose key schemas was released before releases each of them once. *)
Lemma frame_reader_free_run r :
  Forall (fun e => c_key_schema e <> KeyDangling) (fr_schemas r) -> frame_reader_free r = Ret (reader_released r).
Proof.
  intros Hall. unfold frame_reader_free, reader_released.
  assert (E : free_entries (fr_schemas r) = Ret (entry_released <$> fr_schemas r)); [|by rewrite E].
  induction Hall as [|e l Hk _ IH]; [done|]. simpl. unfold schema_list_entry_decrefs, entry_released.
  rewrite IH. by destruct (c_key_schema e).
Qed.
Lemma frame_reader_free_ok r : reader_ok r -> frame_reader_free r = Ret (reader_released r).
Proof.
  intros (_ & _ & _ & _ & Hall). apply frame_reader_free_run. eapply List.Forall_impl; [|exact Hall].
  intros e (_ & Hk & _) E. by rewrite E in Hk.
Qed.

(** An entry that was cleared and not filled again is released twice. *)
Lemma free_entries_dangling l i e :
  l !! i = Some e -> c_key_schema e = KeyDangling -> free_entries l = Undef.
Proof.
  intros Hi He. revert i Hi. induction l as [|e' l IH]; intros i Hi; [done|]. simpl.
  destruct i as [|i]; [injection Hi as ->; unfold schema_list_entry_decrefs; by rewrite He|].
  specialize (IH i Hi). unfold schema_list_entry_decrefs. rewrite IH. by destruct (c_key_schema e').
Qed.
Lemma frame_reader_free_dangling r e :
  e ∈ fr_schemas r -> c_key_schema e = KeyDangling -> frame_reader_free r = Undef.
Proof.
  intros [i Hi]%list_elem_of_lookup He. unfold frame_reader_free. by rewrite (free_entries_dangling _ i e).
Qed.

(** [r'] has the frame and the number of entries of [r]. *)
Definition same_frame (r r' : frame_reader) : Prop :=
  fr_frame_value r' = fr_frame_value r /\ length (fr_schemas r') = length (fr_schemas r).

Lemma schema_list_find_Some l relid i j :
  schema_list_find l relid i = Some j ->
  exists e, l !! (j - i)%nat = Some e /\ (i <= j)%nat /\ c_relid e = relid.
Proof.
  revert i. induction l as [|e l IH]; intros i H; simpl in *; [done|].
  destruct (Z.eqb_spec (c_relid e) relid).
  - simplify_eq. exists e. by rewrite Nat.sub_diag.
  - destruct (IH _ H) as (e' & He & Hle & Hr). exists e'. split; [|split; [lia|done]].
    replace (j - i)%nat with (S (j - S i)) by lia. done.
Qed.

Lemma schema_list_find_None l relid i :
  schema_list_find l relid i = None -> forall e, e ∈ l -> c_relid e <> relid.
Proof.
  revert i. induction l as [|e l IH]; intros i H x Hx; simpl in *; [by apply elem_of_nil in Hx|].
  destruct (Z.eqb_spec (c_relid e) relid); [done|].
  apply elem_of_cons in Hx as [->|Hx]; [done|eauto].
Qed.

(** Entry [i] is the one of [relid], with these schemas. *)
Definition at_entry (r : frame_reader) (k : knowledge) (i : nat) (relid : Z)
  (ks : option avro_schema) (rs : avro_schema) : Prop :=
  knows r k /\ exists e, fr_schemas r !! i = Some e /\ c_relid e = relid /\ entry_view e = (ks, rs).

Lemma relid_unique r k i j e e' :
  knows r k -> fr_schemas r !! i = Some e -> fr_schemas r !! j = Some e' ->
  c_relid e = c_relid e' -> i = j.
Proof.
  intros [(_ & _ & _ & Hnd & _) _] Hi Hj E. eapply NoDup_lookup; [exact Hnd| |].
  - rewrite list_lookup_fmap, Hi. done.
  - rewrite list_lookup_fmap, Hj. simpl. by rewrite E.
Qed.

Lemma known_entry_spec r k relid ks rs :
  knows r k -> k !! relid = Some (ks, rs) ->
  exists i, known_entry relid r = (Ret i, r) /\ at_entry r k i relid ks rs.
Proof.
  intros Hk Hrel. pose proof Hk as [_ Hview].
  apply Hview in Hrel as (e & He & Hid & Hv).
  unfold known_entry, schema_list_lookup.
  destruct (schema_list_find (fr_schemas r) relid 0) as [i|] eqn:Hfind.
  - exists i. split; [by unfold mbind, M_bind, gets; rewrite Hfind|]. split; [done|].
    apply schema_list_find_Some in Hfind as (e' & He' & _ & Hid'). rewrite Nat.sub_0_r in He'.
    exists e'. split; [done|]. split; [done|].
    apply list_elem_of_lookup in He as [j Hj].
    assert (i = j) as -> by (eapply relid_unique; eauto; congruence). congruence.
  - by destruct (schema_list_find_None _ _ _ Hfind _ He).
Qed.

Lemma unknown_entry_spec r k relid :
  knows r k -> k !! relid = None -> known_entry relid r = (Err EINVAL, r).
Proof.
  intros Hk Hrel. unfold known_entry, schema_list_lookup.
  destruct (schema_list_find (fr_schemas r) relid 0) as [i|] eqn:Hfind.
  - apply schema_list_find_Some in Hfind as (e & He & _ & Hid). destruct Hk as [_ Hview].
    apply list_elem_of_lookup_2 in He.
    assert (k !! relid = Some (entry_view e)) by (apply Hview; eauto). congruence.
  - unfold mbind, M_bind, gets. by rewrite Hfind.
Qed.

(** Replacing an entry by a good one with the same relation. *)
Lemma knows_insert r k i e e' :
  knows r k -> fr_schemas r !! i = Some e -> entry_good e' -> c_relid e' = c_relid e ->
  knows (set_schemas (<[i := e']> (fr_schemas r)) r) (<[c_relid e := entry_view e']> k).
Proof.
  intros Hk Hi Hgood Hid. pose proof Hk as [(Hcap & Hlen & Hfr & Hnd & Hall) Hview].
  pose proof (lookup_lt_Some _ _ _ Hi) as Hlt.
  split; [unfold reader_ok; cbn [set_schemas fr_schemas fr_capacity fr_frame_value];
    split; [done|split; [|split; [done|split]]]|].
  - by rewrite length_insert.
  - replace (map c_relid (<[i:=e']> (fr_schemas r))) with (map c_relid (fr_schemas r)); [done|].
    symmetry. etrans; [apply list_fmap_insert|]. rewrite Hid. apply list_insert_id.
    by rewrite list_lookup_fmap, Hi.
  - by apply Forall_insert.
  - cbn [set_schemas fr_schemas]. intros relid v. rewrite lookup_insert. case_decide as E.
    + subst relid. split.
      * intros [= <-]. exists e'. split; [|done]. apply list_elem_of_lookup. exists i.
        by rewrite list_lookup_insert_eq.
      * intros (x & Hx & Hxid & <-). apply list_elem_of_lookup in Hx as [j Hj].
        destruct (decide (j = i)) as [->|Hne].
        -- rewrite list_lookup_insert_eq in Hj by done. congruence.
        -- rewrite list_lookup_insert_ne in Hj by done.
           destruct Hne. symmetry. eapply relid_unique; eauto.
    + rewrite Hview. split; intros (x & Hx & Hxid & <-); exists x; (split; [|done]).
      * apply list_elem_of_lookup in Hx as [j Hj]. apply list_elem_of_lookup. exists j.
        rewrite list_lookup_insert_ne; [done|]. intros ->. congruence.
      * apply list_elem_of_lookup in Hx as [j Hj]. apply list_elem_of_lookup. exists j.
        destruct (decide (j = i)) as [->|Hne].
        -- rewrite list_lookup_insert_eq in Hj by done. congruence.
        -- by rewrite list_lookup_insert_ne in Hj by done.
Qed.

(** ** Decoding with the known schemas *)

Section decoding.
Context (L : avro_lib) {HL : AvroConforms L}.

Lemma read_entirely_spec s v v0 :
  has_schema s v -> vreset v0 = default_value s -> read_entirely L (encode L v) v0 = (Ret tt, v).
Proof.
  intros Hv H0. unfold read_entirely.
  pose proof (conf_value_read (L := L) s v v0 [] Hv H0) as Hr. rewrite app_nil_r in Hr. rewrite Hr.
  destruct (conf_skip_end (L := L) v) as [st ->]. done.
Qed.

(** Bytes after the value are an error. *)
Lemma read_entirely_trailing s v v0 b rest :
  has_schema s v -> vreset v0 = default_value s ->
  read_entirely L (encode L v ++ b :: rest) v0 = (Err EINVAL, v).
Proof.
  intros Hv H0. unfold read_entirely. rewrite (conf_value_read (L := L) s v v0 _ Hv H0).
  destruct (conf_skip_more (L := L) b rest v) as [st ->]. done.
Qed.

(** Changing the reusable values of an entry to others of the same schemas. *)
Lemma at_entry_update r k i relid ks rs e e' :
  at_entry r k i relid ks rs -> fr_schemas r !! i = Some e ->
  entry_good e' -> c_relid e' = c_relid e -> entry_view e' = entry_view e ->
  at_entry (set_schemas (<[i := e']> (fr_schemas r)) r) k i relid ks rs.
Proof.
  intros [Hk (e0 & He0 & Hid & Hv)] Hi Hg Hid' Hv'. assert (e0 = e) as -> by congruence. split.
  - pose proof (knows_insert r k i e e' Hk Hi Hg Hid') as H.
    rewrite insert_id in H; [done|]. destruct Hk as [_ Hview]. apply Hview. exists e.
    split; [by eapply list_elem_of_lookup_2|done].
  - exists e'. cbn [set_schemas fr_schemas].
    rewrite list_lookup_insert_eq by (by eapply lookup_lt_Some). split; [done|].
    split; [congruence|]. congruence.
Qed.

Lemma set_schemas_same_frame r i e :
  same_frame r (set_schemas (<[i := e]> (fr_schemas r)) r).
Proof. split; [done|]. cbn [set_schemas fr_schemas]. by rewrite length_insert. Qed.

Lemma at_entry_good r k i relid ks rs e :
  at_entry r k i relid ks rs -> fr_schemas r !! i = Some e -> entry_good e.
Proof.
  intros [[(_ & _ & _ & _ & Hall) _] _] Hi. by eapply Forall_lookup_1 in Hall.
Qed.

(** [read] decodes encodings of values of schema [s] and keeps the reader's knowledge. *)
Definition reads (read : list Z -> M frame_reader avro_value) (k : knowledge) (i : nat)
  (relid : Z) (ks : option avro_schema) (rs s : avro_schema) : Prop :=
  forall r v, at_entry r k i relid ks rs -> has_schema s v ->
  exists r', read (encode L v) r = (Ret v, r') /\ at_entry r' k i relid ks rs /\ same_frame r r'.

Lemma read_row_reads k i relid ks rs : reads (read_row L i) k i relid ks rs rs.
Proof.
  intros r v Hat Hv. pose proof Hat as [_ (e & He & Hid & Hview)].
  pose proof (at_entry_good _ _ _ _ _ _ _ Hat He) as Hg.
  unfold read_row. rewrite He. destruct e as [rid kslot rs' kv rv ov].
  unfold entry_view in Hview. simpl in *. simplify_eq. destruct Hg as (? & ? & Hrv & ? & ?). simpl in *.
  rewrite (read_entirely_spec rs v rv Hv Hrv). eexists. split; [done|].
  split; [|apply set_schemas_same_frame].
  eapply at_entry_update; [done|done| |done|done]. split_and!; simpl; try done.
  by apply has_schema_vreset.
Qed.

Lemma read_old_reads k i relid ks rs : reads (read_old L i) k i relid ks rs rs.
Proof.
  intros r v Hat Hv. pose proof Hat as [_ (e & He & Hid & Hview)].
  pose proof (at_entry_good _ _ _ _ _ _ _ Hat He) as Hg.
  unfold read_old. rewrite He. destruct e as [rid kslot rs' kv rv ov].
  unfold entry_view in Hview. simpl in *. simplify_eq. destruct Hg as (? & ? & ? & Hov & ?). simpl in *.
  rewrite (read_entirely_spec rs v ov Hv Hov). eexists. split; [done|].
  split; [|apply set_schemas_same_frame].
  eapply at_entry_update; [done|done| |done|done]. split_and!; simpl; try done.
  by apply has_schema_vreset.
Qed.

Lemma read_key_reads k i relid s rs : reads (read_key L i) k i relid (Some s) rs s.
Proof.
  intros r v Hat Hv. pose proof Hat as [_ (e & He & Hid & Hview)].
  pose proof (at_entry_good _ _ _ _ _ _ _ Hat He) as Hg.
  unfold read_key. rewrite He. destruct e as [rid kslot rs' kv rv ov].
  unfold entry_view in Hview. destruct kslot; simpl in *; simplify_eq.
  destruct Hg as (? & ? & ? & ? & Hkv). simpl in *.
  rewrite (read_entirely_spec s v kv Hv) by auto. eexists. split; [done|].
  split; [|apply set_schemas_same_frame].
  eapply at_entry_update; [done|done| |done|done]. split_and!; simpl; try done.
  intros ? [= <-]. by apply has_schema_vreset.
Qed.

(** ** Reading fields of the current message *)

Lemma on_frame_run {A} (ref m : M avro_value A) r v a :
  ref ⊑ m -> fr_frame_value r = v -> ref v = (Ret a, v) -> on_frame m r = (Ret a, r).
Proof.
  intros Href Hv Hrun. unfold on_frame. rewrite Hv, (Href _ _ _ Hrun). subst v. by destruct r.
Qed.

Definition present (o : option (list Z)) : Z := match o with Some _ => 1 | None => 0 end.

Lemma read_nullable_spec p C q x o read r res r' :
  is_ctx p C -> fr_frame_value r = C x -> vget x q = Some (nullable_bytes o) ->
  (match o with
   | Some b => exists v, read b r = (Ret v, r') /\ res = Some (b, v)
   | None => r' = r /\ res = None
   end) ->
  read_nullable L (present o) (p ++ q) read r = (Ret res, r').
Proof.
  intros HC Hfr Hq Hread. unfold read_nullable. destruct o as [b|]; simpl in *.
  - destruct Hread as (v & Hrun & ->).
    etrans; [apply bind_Ret; eapply on_frame_run; [conf|exact Hfr|]|].
    { eapply (ctx_ref_get HC); [done|exact Hq|reflexivity]. }
    etrans; [apply bind_Ret; eapply on_frame_run; [conf|exact Hfr|]|].
    { eapply (ctx_ref_get HC); [by rewrite <- app_assoc|by rewrite (vget_app _ _ _ _ Hq)|reflexivity]. }
    etrans; [apply bind_Ret, Hrun|]. done.
  - by destruct Hread as [-> ->].
Qed.

End decoding.

(** Read one field of the current message through the context [HC]. *)
Ltac fr_step HC Hfr :=
  etrans; [apply bind_Ret; eapply on_frame_run; [conf|exact Hfr|ctx_run HC]|].

(** ** Messages as events *)

(** What the application is told. *)
Inductive event : Type :=
| EBegin (xid : Z)
| ECommit (xid : Z)
| ESchema (relid : Z) (key : option schema_arg) (row : schema_arg)
| EInsert (relid : Z) (key : option value_arg) (row : value_arg)
| EUpdate (relid : Z) (key old : option value_arg) (row : value_arg)
| EDelete (relid : Z) (key old : option value_arg).

Definition run_callback {X A} (cb : option A) (k : A -> M X unit) : M X unit :=
  match cb with Some f => k f | None => mret () end.

(** The callback invocation for an event. *)
Definition notify {X} (cbs : callbacks X) (wal_pos : Z) (e : event) : M X unit :=
  match e with
  | EBegin xid => run_callback (on_begin_txn cbs) (fun f => f wal_pos xid)
  | ECommit xid => run_callback (on_commit_txn cbs) (fun f => f wal_pos xid)
  | ESchema relid k r => run_callback (on_table_schema cbs) (fun f => f wal_pos relid k r)
  | EInsert relid k r => run_callback (on_insert_row cbs) (fun f => f wal_pos relid k r)
  | EUpdate relid k o r => run_callback (on_update_row cbs) (fun f => f wal_pos relid k o r)
  | EDelete relid k o => run_callback (on_delete_row cbs) (fun f => f wal_pos relid k o)
  end.

Fixpoint notify_all {X} (cbs : callbacks X) (wal_pos : Z) (es : list event) : M X unit :=
  match es with
  | [] => mret ()
  | e :: es => _ ← notify cbs wal_pos e; notify_all cbs wal_pos es
  end.

Section events.
Context (L : avro_lib) {HL : AvroConforms L}.

Definition schema_arg_of (s : avro_schema) : schema_arg := (schema_json L s, s).
Definition value_arg_of (v : avro_value) : value_arg := (encode L v, v).

(** An optional value belongs to an optional schema. *)
Definition opt_has_schema (s : option avro_schema) (v : option avro_value) : Prop :=
  match v with
  | None => True
  | Some v => exists s', s = Some s' /\ has_schema s' v
  end.

(** The event a message stands for, given the schemas known before it, and the schemas
    known after it: rows and keys are encodings of values of the announced schemas. *)
Inductive msg_event (k : knowledge) : message -> event -> knowledge -> Prop :=
| ME_begin xid : msg_event k (MBegin xid) (EBegin (u32 xid)) k
| ME_commit xid lsn : msg_event k (MCommit xid lsn) (ECommit (u32 xid)) k
| ME_schema relid ks rs :
    is_u32 relid -> (forall s, ks = Some s -> valid_schema s = true) -> valid_schema rs = true ->
    msg_event k (MTableSchema relid (schema_json L <$> ks) (schema_json L rs))
      (ESchema relid (schema_arg_of <$> ks) (schema_arg_of rs)) (<[relid := (ks, rs)]> k)
| ME_insert relid ks rs kv rv :
    k !! relid = Some (ks, rs) -> opt_has_schema ks kv -> has_schema rs rv ->
    msg_event k (MInsert relid (encode L <$> kv) (encode L rv))
      (EInsert relid (value_arg_of <$> kv) (value_arg_of rv)) k
| ME_update relid ks rs kv ov rv :
    k !! relid = Some (ks, rs) -> opt_has_schema ks kv -> opt_has_schema (Some rs) ov ->
    has_schema rs rv ->
    msg_event k (MUpdate relid (encode L <$> kv) (encode L <$> ov) (encode L rv))
      (EUpdate relid (value_arg_of <$> kv) (value_arg_of <$> ov) (value_arg_of rv)) k
| ME_delete relid ks rs kv ov :
    k !! relid = Some (ks, rs) -> opt_has_schema ks kv -> opt_has_schema (Some rs) ov ->
    msg_event k (MDelete relid (encode L <$> kv) (encode L <$> ov))
      (EDelete relid (value_arg_of <$> kv) (value_arg_of <$> ov)) k.

Inductive msg_events : knowledge -> list message -> list event -> knowledge -> Prop :=
| MEs_nil k : msg_events k [] [] k
| MEs_cons k m e k1 ms es k2 :
    msg_event k m e k1 -> msg_events k1 ms es k2 -> msg_events k (m :: ms) (e :: es) k2.

Lemma msg_events_app k1 ms1 es1 k2 ms2 es2 k3 :
  msg_events k1 ms1 es1 k2 -> msg_events k2 ms2 es2 k3 ->
  msg_events k1 (ms1 ++ ms2) (es1 ++ es2) k3.
Proof. induction 1; simpl; eauto using MEs_cons. Qed.

Lemma msg_events_length k ms es k' : msg_events k ms es k' -> length es = length ms.
Proof. induction 1; simpl; congruence. Qed.

(** More knowledge does no harm. *)
Lemma msg_events_mono k ms es k1 K :
  msg_events k ms es k1 -> k ⊆ K -> exists K1, k1 ⊆ K1 /\ msg_events K ms es K1.
Proof.
  intros Hes. revert K. induction Hes as [k|k m e k1 ms es k2 He _ IH]; intros K HK.
  { exists K. split; [done|constructor]. }
  assert (Hl : forall relid v, k !! relid = Some v -> K !! relid = Some v)
    by (intros relid v Hv; by eapply lookup_weaken).
  assert (exists K1, k1 ⊆ K1 /\ msg_event K m e K1) as (K1 & HK1 & He').
  { destruct He.
    - exists K. split; [done|constructor].
    - exists K. split; [done|constructor].
    - exists (<[relid := (ks, rs)]> K). split; [by apply insert_mono|by constructor].
    - exists K. split; [done|]. eapply ME_insert; eauto.
    - exists K. split; [done|]. eapply ME_update; eauto.
    - exists K. split; [done|]. eapply ME_delete; eauto. }
  destruct (IH K1 HK1) as (K2 & HK2 & Hes'). exists K2. split; [done|]. by econstructor.
Qed.

Lemma knows_relid_u32 r k relid v : knows r k -> k !! relid = Some v -> is_u32 relid.
Proof.
  intros [(_ & _ & _ & _ & Hall) Hview] Hr. apply Hview in Hr as (e & He & <- & _).
  rewrite list.Forall_forall in Hall. by apply Hall in He as [? _].
Qed.

(** A nullable field of the message, decoded. *)
Lemma read_nullable_value p C q x kv read r k i relid ks rs ds :
  is_ctx p C -> fr_frame_value r = C x -> vget x q = Some (nullable_bytes (encode L <$> kv)) ->
  at_entry r k i relid ks rs -> opt_has_schema ds kv ->
  (forall s, ds = Some s -> reads L read k i relid ks rs s) ->
  exists r', read_nullable L (present (encode L <$> kv)) (p ++ q) read r =
      (Ret (value_arg_of <$> kv), r') /\
    at_entry r' k i relid ks rs /\ same_frame r r'.
Proof.
  intros HC Hfr Hq Hat Hkv Hread. destruct kv as [v|].
  - destruct Hkv as (s & -> & Hv). destruct (Hread s eq_refl r v Hat Hv) as (r' & Hrun & Hat' & Hsame).
    exists r'. split; [|done].
    eapply read_nullable_spec; [exact HL|exact HC|exact Hfr|exact Hq|]. by exists v.
  - exists r. split; [|done].
    by eapply read_nullable_spec; [exact HL|exact HC|exact Hfr|exact Hq|].
Qed.

End events.

(** ** Storing a schema *)

Lemma update_entry_run i f r e :
  fr_schemas r !! i = Some e ->
  update_entry i f r = (Ret tt, set_schemas (<[i := f e]> (fr_schemas r)) r).
Proof.
  intros He. unfold update_entry, modify. do 2 f_equal.
  apply list_eq. intros j. destruct (decide (j = i)) as [->|Hne].
  - rewrite list_lookup_alter_eq, He, list_lookup_insert_eq by (by eapply lookup_lt_Some). done.
  - by rewrite list_lookup_alter_ne, list_lookup_insert_ne.
Qed.

Lemma set_schemas_twice l1 l2 r : set_schemas l1 (set_schemas l2 r) = set_schemas l1 r.
Proof. done. Qed.

Lemma knows_append r k relid n e :
  knows r k -> (forall x, x ∈ fr_schemas r -> c_relid x <> relid) ->
  16 <= n < 2 ^ 31 -> Z.of_nat (length (fr_schemas r)) < n -> entry_good e -> c_relid e = relid ->
  knows (set_schemas (fr_schemas r ++ [e]) (set_capacity n r)) (<[relid := entry_view e]> k).
Proof.
  intros [(_ & _ & Hfr & Hnd & Hall) Hview] Hnew Hn Hlen Hg Hid.
  split; [unfold reader_ok; cbn [set_schemas set_capacity fr_schemas fr_capacity fr_frame_value];
    split; [done|split; [|split; [done|split]]]|].
  - rewrite length_app. simpl. lia.
  - rewrite map_app. apply list.NoDup_app. split; [done|]. split; [|apply NoDup_singleton].
    intros x Hx Hin. apply list_elem_of_singleton in Hin. apply list_elem_of_fmap in Hx as (y & -> & Hy).
    apply (Hnew y Hy). congruence.
  - apply list.Forall_app. split; [done|]. by apply Forall_singleton.
  - cbn [set_schemas set_capacity fr_schemas]. intros rid v. rewrite lookup_insert. case_decide as E.
    + subst rid. split.
      * intros [= <-]. exists e. split; [|done]. apply elem_of_app. right. by apply list_elem_of_singleton.
      * intros (x & Hx & Hxid & <-). apply elem_of_app in Hx as [Hx|Hx]; [by destruct (Hnew _ Hx)|].
        apply list_elem_of_singleton in Hx as ->. done.
    + rewrite Hview. split; intros (x & Hx & Hxid & <-); exists x; (split; [|done]).
      * apply elem_of_app. by left.
      * apply elem_of_app in Hx as [Hx|Hx]; [done|]. apply list_elem_of_singleton in Hx as ->. congruence.
Qed.

(** The slot that [schema_list_replace] gives, cleared or fresh, becomes the entry of the
    relation when it is filled; it is always inside the array. *)
(** The next slot, in an array that is large enough after growing. *)
Lemma schema_list_entry_new_run r k :
  knows r k -> Z.of_nat (length (fr_schemas r)) < 2 ^ 29 ->
  exists n, 16 <= n < 2 ^ 31 /\ Z.of_nat (length (fr_schemas r)) < n /\
    schema_list_entry_new r =
      (Ret (length (fr_schemas r)), set_schemas (fr_schemas r ++ [blank_entry]) (set_capacity n r)).
Proof.
  intros [(Hcap & Hle & _) _] Hlen. unfold schema_list_entry_new.
  unfold mbind, M_bind, gets, when, modify, mret, M_ret, stop.
  destruct (Z.eqb_spec (Z.of_nat (length (fr_schemas r))) (fr_capacity r)) as [E|E].
  - assert (Hs : s32 (fr_capacity r * 4) = fr_capacity r * 4) by (apply s32_small; lia).
    exists (fr_capacity r * 4). split; [lia|]. split; [lia|]. rewrite Hs.
    rewrite (decide_True (P := Z.of_nat (length (fr_schemas (set_capacity _ r))) < _)) by (simpl; lia). done.
  - exists (fr_capacity r). split; [lia|]. split; [lia|]. rewrite decide_True by lia. by destruct r.
Qed.

Lemma schema_list_replace_spec r k relid :
  knows r k -> Z.of_nat (length (fr_schemas r)) < 2 ^ 29 ->
  exists i r1 e1, schema_list_replace relid r = (Ret i, r1) /\ fr_schemas r1 !! i = Some e1 /\
    fr_frame_value r1 = fr_frame_value r /\
    (length (fr_schemas r1) <= S (length (fr_schemas r)))%nat /\
    (forall s rs, k !! relid = Some (Some s, rs) -> c_key_schema e1 = KeyDangling) /\
    forall e, entry_good e -> c_relid e = relid ->
      knows (set_schemas (<[i := e]> (fr_schemas r1)) r1) (<[relid := entry_view e]> k).
Proof.
  intros Hk Hlen. unfold schema_list_replace, schema_list_lookup.
  destruct (schema_list_find (fr_schemas r) relid 0) as [i|] eqn:Hfind.
  - apply schema_list_find_Some in Hfind as Hf. destruct Hf as (e & He & _ & Hid).
    rewrite Nat.sub_0_r in He.
    assert (Hg : entry_good e).
    { destruct Hk as [(_ & _ & _ & _ & Hall) _]. by eapply Forall_lookup_1 in Hall. }
    assert (exists e', schema_list_entry_decrefs e = Ret e') as [e' Hdec].
    { unfold schema_list_entry_decrefs. destruct Hg as (_ & Hg & _). destruct (c_key_schema e); eauto; done. }
    exists i, (set_schemas (<[i := e']> (fr_schemas r)) r), e'.
    pose proof (lookup_lt_Some _ _ _ He) as Hlt. split; [|split; [|split; [done|split; [|split]]]].
    + unfold mbind at 1, M_bind, gets. rewrite Hfind.
      etrans; [apply bind_Ret; unfold entry_at; by rewrite He|].
      etrans; [apply bind_Ret; unfold stop; by rewrite Hdec|].
      etrans; [apply bind_Ret, update_entry_run, He|]. done.
    + cbn [set_schemas fr_schemas]. by rewrite list_lookup_insert_eq.
    + cbn [set_schemas fr_schemas]. rewrite length_insert. lia.
    + intros s rs Hkn. assert (Hv : k !! relid = Some (entry_view e))
        by (apply Hk; exists e; split; [by eapply list_elem_of_lookup_2|done]).
      rewrite Hkn in Hv. injection Hv as Hv _. unfold schema_list_entry_decrefs in Hdec.
      destruct (c_key_schema e); simplify_eq; done.
    + intros x Hx Hxid. rewrite set_schemas_twice. cbn [set_schemas fr_schemas].
      rewrite list_insert_insert_eq, <- Hid. apply knows_insert; [done..|congruence].
  - pose proof (schema_list_find_None _ _ _ Hfind) as Hnew.
    destruct (schema_list_entry_new_run r k Hk Hlen) as (n & Hn1 & Hn2 & Hrun).
    exists (length (fr_schemas r)), (set_schemas (fr_schemas r ++ [blank_entry]) (set_capacity n r)), blank_entry.
    split; [|split; [|split; [done|split; [|split]]]].
    + unfold mbind at 1, M_bind, gets. by rewrite Hfind.
    + cbn [set_schemas fr_schemas]. by rewrite list_lookup_middle.
    + cbn [set_schemas fr_schemas]. rewrite length_app. simpl. lia.
    + intros s rs Hkn. destruct Hk as [_ Hview]. apply Hview in Hkn as (e & He & Hid & _).
      by destruct (Hnew e He).
    + intros x Hx Hxid. rewrite set_schemas_twice. cbn [set_schemas fr_schemas].
      rewrite insert_app_r_alt, Nat.sub_diag by done.
      by apply knows_append.
Qed.

(** ** Processing messages *)

Section processing.
Context (L : avro_lib) {HL : AvroConforms L} {X : Type} (cbs : callbacks X) (wal_pos : Z).

Lemma zoom_reader {A} (m : M frame_reader A) r (x : X) o r' :
  m r = (o, r') -> zoom m (r, x) = (o, (r', x)).
Proof. intros Hm. unfold zoom. simpl. by rewrite Hm. Qed.

(** The callback's outcome is the outcome of the message. *)
Definition after (r : frame_reader) (ox : outcome unit * X) : outcome unit * (frame_reader * X) :=
  (fst ox, (r, snd ox)).

Lemma call_run {A} (cb : option A) k r x :
  call cb k (r, x) = after r (run_callback cb k x).
Proof. destruct cb; simpl; [|done]. unfold zoom, after. simpl. by destruct (k a x). Qed.

(** [m] processes a message: the reader learns, the application is notified. *)
Definition handles (m : M (frame_reader * X) unit) (r : frame_reader) (e : event) (k' : knowledge)
  : Prop :=
  exists r', (forall x, m (r, x) = after r' (notify cbs wal_pos e x)) /\ knows r' k' /\
    fr_frame_value r' = fr_frame_value r /\
    (length (fr_schemas r') <= S (length (fr_schemas r)))%nat.

Context {p : path} {C : avro_value -> avro_value} (HC : is_ctx p C).
Context (r : frame_reader) (k : knowledge) (Hk : knows r k).
Context (Hsmall : Z.of_nat (length (fr_schemas r)) < 2 ^ 29).

Lemma handles_txn (b : bool) xid rest :
  fr_frame_value r = C (VRecord (VLong xid :: rest)) ->
  handles (if b then process_frame_begin_txn L cbs p wal_pos
           else process_frame_commit_txn L cbs p wal_pos) r
    (if b then EBegin (u32 xid) else ECommit (u32 xid)) k.
Proof.
  intros Hfr. exists r. split; [|split; [done|split; [done|lia]]]. intros x.
  destruct b; (etrans; [apply bind_Ret, zoom_reader|]);
    [fr_step HC Hfr; eapply on_frame_run; [conf|exact Hfr|ctx_run HC]|apply call_run|
     fr_step HC Hfr; eapply on_frame_run; [conf|exact Hfr|ctx_run HC]|apply call_run].
Qed.

Lemma handles_insert relid ks rs kv rv :
  fr_frame_value r = C (message_record (MInsert relid (encode L <$> kv) (encode L rv))) ->
  k !! relid = Some (ks, rs) -> opt_has_schema ks kv -> has_schema rs rv ->
  handles (process_frame_insert L cbs p wal_pos) r
    (EInsert relid (value_arg_of L <$> kv) (value_arg_of L rv)) k.
Proof.
  intros Hfr Hrel Hkv Hrv.
  destruct (known_entry_spec r k relid ks rs Hk Hrel) as (i & Hent & Hat).
  destruct (read_nullable_value L p C [1%nat] _ kv (read_key L i) r k i relid ks rs ks
              HC Hfr eq_refl Hat Hkv) as (r1 & H1 & Hat1 & [S1 L1]).
  { intros s ->. apply read_key_reads; done. }
  destruct (read_row_reads L k i relid ks rs r1 rv Hat1 Hrv) as (r2 & H2 & Hat2 & [S2 L2]).
  exists r2. split; [|split; [apply Hat2|split; [congruence|lia]]].
  intros x. etrans; [apply bind_Ret, zoom_reader|].
  { do 4 fr_step HC Hfr. etrans; [apply bind_Ret|].
    { eapply on_frame_run; [conf|exact Hfr|]. eapply (ctx_ref_get HC); [path_eq|reflexivity|].
      instantiate (1 := present (encode L <$> kv)). by destruct kv. }
    fr_step HC Hfr. etrans; [apply bind_Ret, Hent|].
    etrans; [apply bind_Ret, H1|]. etrans; [apply bind_Ret, H2|]. reflexivity. }
  rewrite (uwrap_id 32 relid) by (eapply knows_relid_u32; eauto). apply call_run.
Qed.

(** The discriminant of a nullable field. *)
Lemma read_present q x (o : option avro_value) :
  fr_frame_value r = C x -> vget x q = Some (nullable_bytes (encode L <$> o)) ->
  on_frame (avro_value_get_discriminant L (p ++ q)) r = (Ret (present (encode L <$> o)), r).
Proof.
  intros Hfr Hq. eapply on_frame_run; [conf|exact Hfr|].
  eapply (ctx_ref_get HC); [done|exact Hq|]. by destruct o.
Qed.

Lemma handles_update relid ks rs kv ov rv :
  fr_frame_value r =
    C (message_record (MUpdate relid (encode L <$> kv) (encode L <$> ov) (encode L rv))) ->
  k !! relid = Some (ks, rs) -> opt_has_schema ks kv -> opt_has_schema (Some rs) ov ->
  has_schema rs rv ->
  handles (process_frame_update L cbs p wal_pos) r
    (EUpdate relid (value_arg_of L <$> kv) (value_arg_of L <$> ov) (value_arg_of L rv)) k.
Proof.
  intros Hfr Hrel Hkv Hov Hrv.
  destruct (known_entry_spec r k relid ks rs Hk Hrel) as (i & Hent & Hat).
  destruct (read_nullable_value L p C [1%nat] _ kv (read_key L i) r k i relid ks rs ks
              HC Hfr eq_refl Hat Hkv) as (r1 & H1 & Hat1 & [S1 L1]).
  { intros s ->. apply read_key_reads; done. }
  destruct (read_nullable_value L p C [2%nat] _ ov (read_old L i) r1 k i relid ks rs (Some rs)
              HC (eq_trans S1 Hfr) eq_refl Hat1 Hov) as (r2 & H2 & Hat2 & [S2 L2]).
  { intros s [= <-]. apply read_old_reads; done. }
  destruct (read_row_reads L k i relid ks rs r2 rv Hat2 Hrv) as (r3 & H3 & Hat3 & [S3 L3]).
  exists r3. split; [|split; [apply Hat3|split; [congruence|lia]]].
  intros x. etrans; [apply bind_Ret, zoom_reader|].
  { do 5 fr_step HC Hfr. etrans; [apply bind_Ret, (read_present [1%nat] _ kv Hfr eq_refl)|].
    etrans; [apply bind_Ret, (read_present [2%nat] _ ov Hfr eq_refl)|].
    fr_step HC Hfr. etrans; [apply bind_Ret, Hent|].
    etrans; [apply bind_Ret, H1|]. etrans; [apply bind_Ret, H2|].
    etrans; [apply bind_Ret, H3|]. reflexivity. }
  rewrite (uwrap_id 32 relid) by (eapply knows_relid_u32; eauto). apply call_run.
Qed.

Lemma handles_delete relid ks rs kv ov :
  fr_frame_value r = C (message_record (MDelete relid (encode L <$> kv) (encode L <$> ov))) ->
  k !! relid = Some (ks, rs) -> opt_has_schema ks kv -> opt_has_schema (Some rs) ov ->
  handles (process_frame_delete L cbs p wal_pos) r
    (EDelete relid (value_arg_of L <$> kv) (value_arg_of L <$> ov)) k.
Proof.
  intros Hfr Hrel Hkv Hov.
  destruct (known_entry_spec r k relid ks rs Hk Hrel) as (i & Hent & Hat).
  destruct (read_nullable_value L p C [1%nat] _ kv (read_key L i) r k i relid ks rs ks
              HC Hfr eq_refl Hat Hkv) as (r1 & H1 & Hat1 & [S1 L1]).
  { intros s ->. apply read_key_reads; done. }
  destruct (read_nullable_value L p C [2%nat] _ ov (read_old L i) r1 k i relid ks rs (Some rs)
              HC (eq_trans S1 Hfr) eq_refl Hat1 Hov) as (r2 & H2 & Hat2 & [S2 L2]).
  { intros s [= <-]. apply read_old_reads; done. }
  exists r2. split; [|split; [apply Hat2|split; [congruence|lia]]].
  intros x. etrans; [apply bind_Ret, zoom_reader|].
  { do 4 fr_step HC Hfr. etrans; [apply bind_Ret, (read_present [1%nat] _ kv Hfr eq_refl)|].
    etrans; [apply bind_Ret, (read_present [2%nat] _ ov Hfr eq_refl)|].
    etrans; [apply bind_Ret, Hent|].
    etrans; [apply bind_Ret, H1|]. etrans; [apply bind_Ret, H2|]. reflexivity. }
  rewrite (uwrap_id 32 relid) by (eapply knows_relid_u32; eauto). apply call_run.
Qed.

(** Parsing the text of a schema as the reader gets it from a string value. *)
Lemma parse_schema_text {S} s (st : S) :
  valid_schema s = true ->
  stop (avro_schema_from_json_length L (schema_json L s ++ [0])
    (Z.of_nat (length (schema_json L s)) + 1 - 1)) st = (Ret s, st).
Proof.
  intros Hs. unfold stop. f_equal. rewrite Z.add_simpl_r. by apply conf_schema_from_json.
Qed.

Lemma text_of_string (l : list Z) : take (Z.to_nat (Z.of_nat (length l) + 1 - 1)) (l ++ [0]) = l.
Proof. rewrite Z.add_simpl_r, Nat2Z.id. apply take_app_length. Qed.

(** Entry [i] of [r1], filled with [e]. *)
Lemma slot_filled r1 i (e : schema_list_entry) e1 :
  fr_schemas r1 !! i = Some e1 -> 
  fr_schemas (set_schemas (<[i := e]> (fr_schemas r1)) r1) !! i = Some e.
Proof. intros H. cbn [set_schemas fr_schemas]. by rewrite list_lookup_insert_eq by (by eapply lookup_lt_Some). Qed.

Lemma slot_again r1 i (e e' : schema_list_entry) :
  set_schemas (<[i := e']> (fr_schemas (set_schemas (<[i := e]> (fr_schemas r1)) r1)))
    (set_schemas (<[i := e]> (fr_schemas r1)) r1) =
  set_schemas (<[i := e']> (fr_schemas r1)) r1.
Proof. rewrite set_schemas_twice. cbn [set_schemas fr_schemas]. by rewrite list_insert_insert_eq. Qed.

Lemma handles_schema relid ks rs :
  fr_frame_value r =
    C (message_record (MTableSchema relid (schema_json L <$> ks) (schema_json L rs))) ->
  is_u32 relid -> (forall s, ks = Some s -> valid_schema s = true) -> valid_schema rs = true ->
  handles (process_frame_table_schema L cbs p wal_pos) r
    (ESchema relid (schema_arg_of L <$> ks) (schema_arg_of L rs)) (<[relid := (ks, rs)]> k).
Proof.
  intros Hfr Hu Hks Hrs.
  destruct (schema_list_replace_spec r k relid Hk Hsmall) as (i & r1 & e1 & Hrep & He1 & Hfr1 & Hlen1 & _ & Hfill).
  set (e2 := ListEntry relid (c_key_schema e1) rs (c_key_value e1) (default_value rs) (default_value rs)).
  set (e3 := match ks with
             | Some s => ListEntry relid (KeySchema s) rs (default_value s) (default_value rs) (default_value rs)
             | None => ListEntry relid KeyNone rs (c_key_value e1) (default_value rs) (default_value rs)
             end).
  exists (set_schemas (<[i := e3]> (fr_schemas r1)) r1).
  split; [|split; [|split; [done|cbn [set_schemas fr_schemas]; by rewrite length_insert]]].
  2:{ replace (ks, rs) with (entry_view e3) by (by destruct ks). apply Hfill; [|by destruct ks].
      destruct ks; (split; [exact Hu|split; [done|]]); simpl; rewrite !default_of_reset;
        split_and!; try done. by intros ? [= <-]. }
  intros x. etrans; [apply bind_Ret, zoom_reader|].
  { unfold read_table_schema. do 4 fr_step HC Hfr.
    etrans; [apply bind_Ret|].
    { eapply on_frame_run; [conf|exact Hfr|]. eapply (ctx_ref_get HC); [path_eq|reflexivity|].
      instantiate (1 := present (schema_json L <$> ks)). by destruct ks. }
    fr_step HC Hfr. cbv beta iota.
    etrans; [apply bind_Ret, parse_schema_text, Hrs|].
    etrans; [apply bind_Ret, Hrep|].
    etrans; [apply bind_Ret, update_entry_run, He1|].
    rewrite (uwrap_id 32 relid) by done. fold e2.
    pose proof (slot_filled r1 i e2 e1 He1) as He2.
    set (r2 := set_schemas (<[i := e2]> (fr_schemas r1)) r1) in *.
    assert (Hfr2 : fr_frame_value r2 = C (message_record
      (MTableSchema relid (schema_json L <$> ks) (schema_json L rs)))) by (etrans; [exact Hfr1|exact Hfr]).
    etrans; [apply bind_Ret|].
    { instantiate (2 := schema_arg_of L <$> ks).
      instantiate (1 := set_schemas (<[i := e3]> (fr_schemas r1)) r1).
      destruct ks as [s|]; simpl present.
      - rewrite decide_False by done. fr_step HC Hfr2.
        fr_step HC Hfr2. cbv beta iota.
        etrans; [apply bind_Ret, parse_schema_text; auto|].
        etrans; [apply bind_Ret, update_entry_run, He2|].
        rewrite text_of_string. unfold r2. rewrite slot_again. done.
      - rewrite decide_True by done. etrans; [apply bind_Ret, update_entry_run, He2|].
        unfold r2. rewrite slot_again. done. }
    rewrite text_of_string. reflexivity. }
  apply call_run.
Qed.

(** A key schema that cannot be parsed, for a relation that had one: its entry was cleared
    and stays so. *)
Lemma rejects_key_schema relid key_text rs s0 rs0 e x :
  fr_frame_value r = C (message_record (MTableSchema relid (Some key_text) (schema_json L rs))) ->
  valid_schema rs = true -> k !! relid = Some (Some s0, rs0) ->
  avro_schema_from_json_length L (key_text ++ [0]) (Z.of_nat (length key_text)) = Err e ->
  exists r', process_frame_table_schema L cbs p wal_pos (r, x) = (Err e, (r', x)) /\
    frame_reader_free r' = Undef.
Proof.
  intros Hfr Hrs Hkn Hbad. pose proof (knows_relid_u32 _ _ _ _ Hk Hkn) as Hu.
  destruct (schema_list_replace_spec r k relid Hk Hsmall) as (i & r1 & e1 & Hrep & He1 & Hfr1 & _ & Hdang & _).
  set (e2 := ListEntry relid (c_key_schema e1) rs (c_key_value e1) (default_value rs) (default_value rs)).
  pose proof (slot_filled r1 i e2 e1 He1) as He2.
  set (r2 := set_schemas (<[i := e2]> (fr_schemas r1)) r1) in *. exists r2.
  split; [|eapply frame_reader_free_dangling; [by eapply list_elem_of_lookup_2|by eapply Hdang]].
  assert (Hfr2 : fr_frame_value r2 = C (message_record (MTableSchema relid (Some key_text) (schema_json L rs))))
    by (etrans; [exact Hfr1|exact Hfr]).
  apply bind_Err, zoom_reader. unfold read_table_schema. do 4 fr_step HC Hfr.
  etrans; [apply bind_Ret|].
  { eapply on_frame_run; [conf|exact Hfr|]. eapply (ctx_ref_get HC); [path_eq|reflexivity|].
    instantiate (1 := 1). done. }
  fr_step HC Hfr. cbv beta iota. etrans; [apply bind_Ret, parse_schema_text, Hrs|].
  etrans; [apply bind_Ret, Hrep|]. etrans; [apply bind_Ret, update_entry_run, He1|].
  rewrite (uwrap_id 32 relid) by done. fold e2. change (set_schemas _ r1) with r2.
  apply bind_Err. rewrite decide_False by done. do 2 fr_step HC Hfr2. cbv beta iota.
  apply bind_Err. unfold stop. by rewrite Z.add_simpl_r, Hbad.
Qed.

End processing.

(** ** Frames *)

Section frames.
Context (L : avro_lib) {HL : AvroConforms L} {X : Type} (cbs : callbacks X) (wal_pos : Z).

(** The place of message [i] in a frame. *)
Lemma is_ctx_message l i :
  (i < length l)%nat ->
  is_ctx [0%nat; i] (fun x => VRecord [VArray (SUnion message_schemas) (<[i := x]> l)]).
Proof.
  intros Hi. split; [intros x q|intros f x q]; simpl; rewrite list_lookup_insert_eq by done; simpl; [done|].
  destruct (vupd f x q); simpl; [|done]. by rewrite list_insert_insert_eq.
Qed.

Lemma frame_value_at ms i m :
  ms !! i = Some m ->
  frame_value ms =
  VRecord [VArray (SUnion message_schemas) (<[i := message_value m]> (map message_value ms))].
Proof.
  intros Hm. unfold frame_value. rewrite list_insert_id; [done|].
  by rewrite list_lookup_fmap, Hm.
Qed.

(** The handler of a message. *)
Definition handler (m : message) (record_val : path) : M (frame_reader * X) unit :=
  match m with
  | MBegin _ => process_frame_begin_txn L cbs record_val wal_pos
  | MCommit _ _ => process_frame_commit_txn L cbs record_val wal_pos
  | MTableSchema _ _ _ => process_frame_table_schema L cbs record_val wal_pos
  | MInsert _ _ _ => process_frame_insert L cbs record_val wal_pos
  | MUpdate _ _ _ _ => process_frame_update L cbs record_val wal_pos
  | MDelete _ _ _ => process_frame_delete L cbs record_val wal_pos
  end.

(** Message [i] of the frame: its place, and the handler that runs on it. *)
Lemma process_message_dispatch ms i m r :
  ms !! i = Some m -> fr_frame_value r = frame_value ms ->
  exists C, is_ctx [0%nat; i; 0%nat] C /\ fr_frame_value r = C (message_record m) /\
    forall x, process_message L cbs [0%nat] i wal_pos (r, x) = handler m [0%nat; i; 0%nat] (r, x).
Proof.
  intros Hm Hfr.
  assert (Hi : (i < length (map message_value ms))%nat).
  { rewrite length_map. by eapply lookup_lt_Some. }
  pose proof (is_ctx_message _ _ Hi) as HC.
  rewrite (frame_value_at _ _ _ Hm) in Hfr. set (C := fun x => _) in HC.
  change (fr_frame_value r = C (message_value m)) in Hfr.
  assert (Hd : 0 <= discriminant m) by (by destruct m).
  eexists. split; [exact (is_ctx_branch _ _ message_schemas _ Hd HC)|]. split; [exact Hfr|].
  intros x. unfold process_message.
  etrans; [apply bind_Ret, zoom_reader; eapply on_frame_run; [conf|exact Hfr|]|].
  { instantiate (1 := [0%nat; i]). unfold ref_get_by_index, ref_get. simpl.
    by rewrite decide_True by (by rewrite length_insert). }
  etrans; [apply bind_Ret, zoom_reader; eapply on_frame_run; [conf|exact Hfr|]|].
  { eapply (ctx_ref_get HC) with (q := []); [done|reflexivity|].
    instantiate (1 := discriminant m). by destruct m. }
  etrans; [apply bind_Ret, zoom_reader; eapply on_frame_run; [conf|exact Hfr|]|].
  { eapply (ctx_ref_get HC) with (q := []); [done|reflexivity|].
    instantiate (1 := [0%nat; i; 0%nat]). by destruct m. }
  by destruct m.
Qed.

Lemma process_message_spec ms i m e k k' r :
  ms !! i = Some m -> fr_frame_value r = frame_value ms -> knows r k ->
  Z.of_nat (length (fr_schemas r)) < 2 ^ 29 -> msg_event L k m e k' ->
  handles cbs wal_pos (process_message L cbs [0%nat] i wal_pos) r e k'.
Proof.
  intros Hm Hfr Hk Hsmall He.
  destruct (process_message_dispatch ms i m r Hm Hfr) as (C & HB & HfrC & Hrun).
  assert (handles cbs wal_pos (handler m [0%nat; i; 0%nat]) r e k') as (r' & Hr' & Hrest).
  { destruct He.
    - by apply (handles_txn L cbs wal_pos HB r k Hk true xid []).
    - by apply (handles_txn L cbs wal_pos HB r k Hk false xid [VLong lsn]).
    - by apply (handles_schema L cbs wal_pos HB r k Hk).
    - by apply (handles_insert L cbs wal_pos HB r k Hk) with (ks := ks) (rs := rs).
    - by apply (handles_update L cbs wal_pos HB r k Hk) with (ks := ks) (rs := rs).
    - by apply (handles_delete L cbs wal_pos HB r k Hk) with (ks := ks) (rs := rs). }
  exists r'. split; [|done]. intros x. rewrite Hrun. apply Hr'.
Qed.

(** The relation of a row message. *)
Definition row_relid (m : message) : option Z :=
  match m with
  | MInsert relid _ _ | MUpdate relid _ _ _ | MDelete relid _ _ => Some relid
  | _ => None
  end.

Lemma handler_unknown p C m relid k r x :
  is_ctx p C -> fr_frame_value r = C (message_record m) -> knows r k ->
  row_relid m = Some relid -> k !! relid = None -> handler m p (r, x) = (Err EINVAL, (r, x)).
Proof.
  intros HC Hfr Hk Hid Hrel. pose proof (unknown_entry_spec r k relid Hk Hrel) as Hunk.
  assert (Hp : forall q o, vget (message_record m) q = Some (nullable_bytes o) ->
    on_frame (avro_value_get_discriminant L (p ++ q)) r = (Ret (present o), r)).
  { intros q o Hq. eapply on_frame_run; [conf|exact Hfr|].
    eapply (ctx_ref_get HC); [done|exact Hq|]. by destruct o. }
  destruct m; simplify_eq/=; apply bind_Err, zoom_reader.
  - do 4 fr_step HC Hfr. etrans; [apply bind_Ret, (Hp [1%nat]); reflexivity|].
    fr_step HC Hfr. by apply bind_Err.
  - do 5 fr_step HC Hfr. etrans; [apply bind_Ret, (Hp [1%nat]); reflexivity|].
    etrans; [apply bind_Ret, (Hp [2%nat]); reflexivity|]. fr_step HC Hfr. by apply bind_Err.
  - do 4 fr_step HC Hfr. etrans; [apply bind_Ret, (Hp [1%nat]); reflexivity|].
    etrans; [apply bind_Ret, (Hp [2%nat]); reflexivity|]. by apply bind_Err.
Qed.

(** The loop: the callbacks of all messages in order, up to the first that fails. *)
Lemma process_loop_spec rest done es k k' r x :
  fr_frame_value r = frame_value (done ++ rest) -> knows r k ->
  Z.of_nat (length (fr_schemas r)) + Z.of_nat (length rest) < 2 ^ 29 ->
  msg_events L k rest es k' ->
  exists r', process_loop L cbs [0%nat] (length done) (length rest) wal_pos (r, x) =
      after r' (notify_all cbs wal_pos es x) /\
    ((notify_all cbs wal_pos es x).1 = Ret tt -> knows r' k' /\
      (length (fr_schemas r') <= length (fr_schemas r) + length rest)%nat).
Proof.
  revert done es k r x. induction rest as [|m rest IH]; intros done es k r x Hfr Hk Hsmall Hes.
  - inversion Hes; subst. exists r. split; [reflexivity|]. intros _. split; [assumption|lia].
  - inversion Hes as [|? ? e k1 ? es' ? He Hes']; subst. simpl length in *.
    destruct (process_message_spec (done ++ m :: rest) (length done) m e k k1 r) as (r1 & Hrun & Hk1 & Hfr1 & Hlen1);
      [by rewrite list_lookup_middle|assumption|assumption|lia|assumption|].
    simpl. unfold mbind, M_bind. rewrite Hrun. unfold after.
    destruct (notify cbs wal_pos e x) as [o x1] eqn:Hn. simpl.
    destruct o as [[]| | | | |]; try (exists r1; by split).
    destruct (IH (done ++ [m]) es' k1 r1 x1) as (r2 & Hrun2 & Hend).
    { rewrite Hfr1, Hfr. by rewrite <- (assoc_L (++)). }
    { assumption. }
    { lia. }
    { assumption. }
    rewrite length_app in Hrun2. simpl in Hrun2. rewrite Nat.add_1_r in Hrun2.
    exists r2. split; [exact Hrun2|]. intros Hok. destruct (Hend Hok). split; [assumption|lia].
Qed.

Lemma process_frame_spec ms es k k' r x :
  fr_frame_value r = frame_value ms -> knows r k ->
  Z.of_nat (length (fr_schemas r)) + Z.of_nat (length ms) < 2 ^ 29 ->
  msg_events L k ms es k' ->
  exists r', process_frame L cbs wal_pos (r, x) = after r' (notify_all cbs wal_pos es x) /\
    ((notify_all cbs wal_pos es x).1 = Ret tt -> knows r' k' /\
      (length (fr_schemas r') <= length (fr_schemas r) + length ms)%nat).
Proof.
  intros Hfr Hk Hsmall Hes.
  destruct (process_loop_spec ms [] es k k' r x Hfr Hk Hsmall Hes) as (r' & Hrun & Hend).
  exists r'. split; [|done]. unfold process_frame.
  etrans; [apply bind_Ret, zoom_reader; eapply on_frame_run; [conf|exact Hfr|reflexivity]|].
  etrans; [apply bind_Ret, zoom_reader; eapply on_frame_run; [conf|exact Hfr|]|].
  { instantiate (1 := length ms). unfold ref_get_size, ref_get. simpl. by rewrite length_map. }
  exact Hrun.
Qed.

Lemma knows_frame r k v :
  knows r k -> vreset v = frame_value [] -> knows (set_frame_value v r) k.
Proof. intros [(?&?&?&?&?) ?] Hv. by split. Qed.

Lemma parse_frame_spec ms es k k' r x :
  Forall wf_message ms -> knows r k ->
  Z.of_nat (length (fr_schemas r)) + Z.of_nat (length ms) < 2 ^ 29 ->
  msg_events L k ms es k' ->
  exists r', parse_frame L cbs wal_pos (encode L (frame_value ms)) (r, x) =
      after r' (notify_all cbs wal_pos es x) /\
    ((notify_all cbs wal_pos es x).1 = Ret tt -> knows r' k' /\
      (length (fr_schemas r') <= length (fr_schemas r) + length ms)%nat).
Proof.
  intros Hwf Hk Hsmall Hes. set (r1 := set_frame_value (frame_value ms) r).
  assert (Hs : has_schema frame_schema (frame_value ms)).
  { apply frame_has_schema; [done|]. lia. }
  assert (Hk1 : knows r1 k) by (by apply knows_frame).
  destruct (process_frame_spec ms es k k' r1 x eq_refl Hk1 Hsmall Hes) as (r' & Hrun & Hend).
  exists r'. split; [|done]. etrans; [apply bind_Ret, zoom_reader|exact Hrun].
  unfold on_frame. rewrite (read_entirely_spec L frame_schema _ _ Hs); [done|].
  rewrite frame_value_default. apply Hk.
Qed.

Lemma frame_reader_new_knows : exists r, frame_reader_new = Ret r /\ knows r ∅ /\ fr_schemas r = [].
Proof.
  exists (FrameReader 16 [] (frame_value [])). split; [done|]. split; [|done].
  split; [split_and!; simpl; try done; try lia; constructor|].
  intros relid v. rewrite lookup_empty. split; [done|]. intros (e & He & _). by apply elem_of_nil in He.
Qed.

(** ** Properties *)

(** C13: A frame is processed as a whole and in order. Given what the client knows about the
    tables, parsing the bytes of a frame runs the callback of every message in order, with
    keys and rows decoded by the schemas announced before them, up to the first callback
    that fails, and the outcome is that callback's; if none fails the client afterwards
    knows the schemas announced in the frame. *)
Theorem frame_in_order ms es k k' r x :
  Forall wf_message ms -> knows r k ->
  Z.of_nat (length (fr_schemas r)) + Z.of_nat (length ms) < 2 ^ 29 ->
  msg_events L k ms es k' ->
  exists r', parse_frame L cbs wal_pos (encode L (frame_value ms)) (r, x) =
      after r' (notify_all cbs wal_pos es x) /\
    ((notify_all cbs wal_pos es x).1 = Ret tt -> knows r' k').
Proof.
  intros Hwf Hk Hsmall Hes.
  destruct (parse_frame_spec ms es k k' r x Hwf Hk Hsmall Hes) as (r' & Hrun & Hend).
  exists r'. split; [done|]. intros Hok. by destruct (Hend Hok).
Qed.

(** A frame whose first message is rejected, before any callback. *)
Lemma first_message_error ms m k r x e (Q : frame_reader -> Prop) :
  Forall wf_message (m :: ms) -> Z.of_nat (length (m :: ms)) < 2 ^ 29 -> knows r k ->
  (forall C r1, is_ctx [0%nat; 0%nat; 0%nat] C -> fr_frame_value r1 = C (message_record m) -> knows r1 k ->
    length (fr_schemas r1) = length (fr_schemas r) ->
    exists r', handler m [0%nat; 0%nat; 0%nat] (r1, x) = (Err e, (r', x)) /\ Q r') ->
  exists r', parse_frame L cbs wal_pos (encode L (frame_value (m :: ms))) (r, x) = (Err e, (r', x)) /\ Q r'.
Proof.
  intros Hwf Hlen Hk Hm. set (r1 := set_frame_value (frame_value (m :: ms)) r).
  assert (Hs : has_schema frame_schema (frame_value (m :: ms))) by (apply frame_has_schema; [done|lia]).
  assert (Hk1 : knows r1 k) by (by apply knows_frame).
  destruct (process_message_dispatch (m :: ms) 0 m r1 eq_refl eq_refl) as (C & HC & Hfr & Hrun).
  destruct (Hm C r1 HC Hfr Hk1 eq_refl) as (r' & Hr' & HQ). exists r'. split; [|done].
  etrans; [apply bind_Ret, zoom_reader|].
  { unfold on_frame. rewrite (read_entirely_spec L frame_schema _ _ Hs); [done|].
    rewrite frame_value_default. apply Hk. }
  unfold process_frame.
  etrans; [apply bind_Ret, zoom_reader; eapply on_frame_run; [conf|exact (eq_refl (frame_value _))|reflexivity]|].
  etrans; [apply bind_Ret, zoom_reader; eapply on_frame_run; [conf|exact (eq_refl (frame_value _))|]|].
  { instantiate (1 := length (m :: ms)). unfold ref_get_size, ref_get. simpl. by rewrite length_map. }
  apply bind_Err. fold r1. by rewrite Hrun.
Qed.

(** C24: A row of a table whose schema has not been announced is rejected: parsing a frame
    that starts with such an insert, update or delete message fails with EINVAL before any
    callback runs, and the reader keeps what it knows. *)
Theorem row_needs_schema ms m relid k r x :
  Forall wf_message (m :: ms) -> Z.of_nat (length (m :: ms)) < 2 ^ 29 ->
  knows r k -> row_relid m = Some relid -> k !! relid = None ->
  exists r', parse_frame L cbs wal_pos (encode L (frame_value (m :: ms))) (r, x) =
    (Err EINVAL, (r', x)) /\ knows r' k.
Proof.
  intros Hwf Hlen Hk Hid Hrel. apply (first_message_error ms m k); [done..|].
  intros C r1 HC Hfr Hk1 _. exists r1. split; [by eapply handler_unknown|done].
Qed.

(** C26: A rejected key schema leaves a released schema behind. If a message announces a key
    schema that cannot be parsed for a relation whose previous key schema the client holds,
    the error is reported and no callback runs, but the entry still points to the schema
    that was released: when the program then releases the frame reader on its way out, the
    schema is released again. *)
Theorem rejected_key_schema_dangles ms relid key_text rs s0 rs0 e k r x :
  Forall wf_message (MTableSchema relid (Some key_text) (schema_json L rs) :: ms) ->
  Z.of_nat (S (length ms)) < 2 ^ 29 -> knows r k -> Z.of_nat (length (fr_schemas r)) < 2 ^ 29 ->
  valid_schema rs = true -> k !! relid = Some (Some s0, rs0) ->
  avro_schema_from_json_length L (key_text ++ [0]) (Z.of_nat (length key_text)) = Err e ->
  exists r',
    parse_frame L cbs wal_pos
      (encode L (frame_value (MTableSchema relid (Some key_text) (schema_json L rs) :: ms))) (r, x) =
      (Err e, (r', x)) /\ frame_reader_free r' = Undef.
Proof.
  intros Hwf Hlen Hk Hsmall Hrs Hkn Hbad. apply (first_message_error ms _ k); [done..|].
  intros C r1 HC Hfr Hk1 Hl. eapply rejects_key_schema; eauto. lia.
Qed.

(** C25: A buffer that holds more than one frame value is rejected with EINVAL, and no callback
    runs. *)
Theorem trailing_bytes_rejected ms b rest r k x :
  Forall wf_message ms -> Z.of_nat (length ms) < 2 ^ 29 -> knows r k ->
  exists r', parse_frame L cbs wal_pos (encode L (frame_value ms) ++ b :: rest) (r, x) =
    (Err EINVAL, (r', x)).
Proof.
  intros Hwf Hlen Hk. eexists. apply bind_Err, zoom_reader. unfold on_frame.
  rewrite (read_entirely_trailing L frame_schema); [done| |].
  - apply frame_has_schema; [done|lia].
  - rewrite frame_value_default. apply Hk.
Qed.

End frames.

(** ** Only the callbacks touch the application

    A compositional property that holds of every work on the reader alone and of every
    callback holds of parsing a frame, whatever its bytes are. *)

Section application.
Context (L : avro_lib) {X : Type} (cbs : callbacks X) (wal_pos : Z).
Context (P : forall A, M (frame_reader * X) A -> Prop) {HP : Compositional P}.
Context (Hreader : forall A (m : M frame_reader A), P A (zoom m)).
Context (Hcbs : forall e, P unit (zoom (notify cbs wal_pos e))).

Lemma call_notify {A} (cb : option A) (k : A -> M X unit) :
  P unit (zoom (run_callback cb k)) -> P unit (call cb k).
Proof. destruct cb; [done|]. intros _. apply comp_ret. Qed.

Lemma process_message_comp msg_val i : P unit (process_message L cbs msg_val i wal_pos).
Proof.
  unfold process_message, process_frame_begin_txn, process_frame_commit_txn,
    process_frame_table_schema, process_frame_insert, process_frame_update, process_frame_delete.
  do 3 (apply comp_bind; [apply Hreader|intros ?]).
  repeat case_match; try apply comp_stop;
    (apply comp_bind; [apply Hreader|intros arg]).
  - apply call_notify, (Hcbs (EBegin (u32 arg))).
  - apply call_notify, (Hcbs (ECommit (u32 arg))).
  - destruct arg as [[relid k] row]. apply call_notify, (Hcbs (ESchema relid k row)).
  - destruct arg as [[relid k] row]. apply call_notify, (Hcbs (EInsert relid k row)).
  - destruct arg as [[[relid k] o] row]. apply call_notify, (Hcbs (EUpdate relid k o row)).
  - destruct arg as [[relid k] o]. apply call_notify, (Hcbs (EDelete relid k o)).
Qed.

Lemma parse_frame_comp buf : P unit (parse_frame L cbs wal_pos buf).
Proof.
  unfold parse_frame, process_frame. do 3 (apply comp_bind; [apply Hreader|intros ?]).
  generalize 0%nat. induction a1 as [|n IH]; intros i; [apply comp_ret|]. simpl.
  apply comp_bind; [apply process_message_comp|]. intros _. apply IH.
Qed.

End application.

(** C27: The client's list of table schemas stays inside its array: whichever relation is
    announced, the slot chosen for it exists, is the old slot of the relation if there is
    one (so relations never repeat), the array is enlarged before it would overflow, and
    storing a schema in the slot makes it, and only it, newly known. *)
Theorem schema_slot_in_bounds r k relid :
  knows r k -> is_u32 relid -> Z.of_nat (length (fr_schemas r)) < 2 ^ 29 ->
  exists i r1, schema_list_replace relid r = (Ret i, r1) /\
    (i < length (fr_schemas r1))%nat /\ Z.of_nat (length (fr_schemas r1)) <= fr_capacity r1 /\
    forall e, entry_good e -> c_relid e = relid ->
      knows (set_schemas (<[i := e]> (fr_schemas r1)) r1) (<[relid := entry_view e]> k).
Proof.
  intros Hk Hu Hsmall.
  destruct (schema_list_replace_spec r k relid Hk Hsmall) as (i & r1 & e1 & Hrun & Hi & _ & _ & _ & Hfill).
  exists i, r1. split; [done|]. split; [by eapply lookup_lt_Some|]. split; [|done].
  destruct (Hfill (ListEntry relid KeyNone SNull VNull VNull VNull)) as [(_ & Hcap & _) _].
  - by split_and!.
  - done.
  - cbn [set_schemas fr_schemas fr_capacity] in Hcap. by rewrite length_insert in Hcap.
Qed.

(** ** Examples *)

(** An application that adds up the transaction ids, and one without callbacks. *)
Definition sum_begins : callbacks Z :=
  Callbacks Z (Some (fun _ xid => modify (Z.add xid))) None None None None None.
Definition no_callbacks {X : Type} : callbacks X := Callbacks X None None None None None None.

(** A fresh reader. *)
Definition sample_reader : frame_reader := FrameReader 16 [] (frame_value []).

Lemma sample_reader_knows : knows sample_reader ∅.
Proof.
  destruct frame_reader_new_knows as (r & Hr & Hk & _). by injection Hr as <-.
Qed.

Lemma txn_messages_wf xid lsn : is_u32 xid -> is_s64 lsn -> Forall wf_message [MBegin xid; MCommit xid lsn].
Proof.
  intros Hx Hl. repeat apply List.Forall_cons; [| |constructor]; unfold wf_message, is_u32, is_s64 in *; lia.
Qed.

Lemma frame_in_order_witness :
  exists r', parse_frame ref_lib sum_begins 5 (enc (frame_value [MBegin 700; MCommit 700 90])) (sample_reader, 0) =
    (Ret tt, (r', 700)).
Proof.
  destruct (frame_in_order ref_lib sum_begins 5 [MBegin 700; MCommit 700 90] [EBegin 700; ECommit 700] ∅ ∅
    sample_reader 0) as (r' & Hrun & _).
  - apply txn_messages_wf; done.
  - apply sample_reader_knows.
  - simpl. lia.
  - repeat econstructor.
  - by exists r'.
Defined.

Lemma row_needs_schema_witness :
  exists r', parse_frame ref_lib no_callbacks 5 (enc (frame_value [MInsert 16384 None [1]])) (sample_reader, 0) =
    (Err EINVAL, (r', 0)).
Proof.
  destruct (row_needs_schema ref_lib no_callbacks 5 [] (MInsert 16384 None [1]) 16384 ∅ sample_reader 0)
    as (r' & Hrun & _).
  - apply Forall_singleton. split; [done|]. split; [done|]. split; [|simpl; lia].
    by apply Forall_singleton.
  - simpl. lia.
  - apply sample_reader_knows.
  - reflexivity.
  - reflexivity.
  - by exists r'.
Defined.

Lemma trailing_bytes_rejected_witness :
  exists r', parse_frame ref_lib no_callbacks 5 (enc (frame_value [MBegin 700; MCommit 700 90]) ++ [0]) (sample_reader, 0) =
    (Err EINVAL, (r', 0)).
Proof.
  apply (trailing_bytes_rejected ref_lib no_callbacks 5 [MBegin 700; MCommit 700 90] 0 [] sample_reader ∅ 0).
  - apply txn_messages_wf; done.
  - simpl. lia.
  - apply sample_reader_knows.
Defined.

Lemma schema_slot_in_bounds_witness :
  exists i r1, schema_list_replace 16384 sample_reader = (Ret i, r1) /\ (i < length (fr_schemas r1))%nat.
Proof.
  destruct (schema_slot_in_bounds sample_reader ∅ 16384) as (i & r1 & Hrun & Hi & _).
  - apply sample_reader_knows.
  - done.
  - simpl. lia.
  - by exists i, r1.
Defined.

(** The client holds a key schema, and then is sent the key schema [[1]], which is none. *)
Definition keyed_entry : schema_list_entry :=
  ListEntry 16384 (KeySchema SInt) SInt (VInt 0) (VInt 0) (VInt 0).
Definition keyed_reader : frame_reader := FrameReader 16 [keyed_entry] (frame_value []).

Lemma keyed_reader_knows : knows keyed_reader (<[16384 := (Some SInt, SInt)]> ∅).
Proof.
  apply (knows_append sample_reader ∅ 16384 16 keyed_entry sample_reader_knows); [|done|done| |done].
  - intros x Hx. by apply elem_of_nil in Hx.
  - repeat split; try done. by intros s [= <-].
Qed.

Lemma rejected_key_schema_dangles_witness :
  exists r', parse_frame ref_lib no_callbacks 5
      (enc (frame_value [MTableSchema 16384 (Some [1]) (schema_text SInt)])) (keyed_reader, 0) =
    (Err EINVAL, (r', 0)) /\ frame_reader_free r' = Undef.
Proof.
  apply (rejected_key_schema_dangles ref_lib no_callbacks 5 [] 16384 [1] SInt SInt SInt EINVAL
    (<[16384 := (Some SInt, SInt)]> ∅) keyed_reader 0).
  - apply Forall_singleton. vm_compute. repeat split; try done; repeat constructor; done.
  - simpl. lia.
  - apply keyed_reader_knows.
  - simpl. lia.
  - done.
  - done.
  - done.
Defined.
