(* ===== verification/EndToEnd.v ===== *)
(** * From the output plugin to the client's callbacks

    The plugin ([ext/logdecoder.c]) writes one frame per call; the client
    ([client/protocol_client.c]) parses the frames in order. The theorem of this file is
    that the application's callbacks see exactly the events of the calls: the announced
    schemas and the decoded keys and rows, in order. *)

From S2P Require Import Prelude Avro AvroBinary IoUtil Protocol Oid2Avro Oid2AvroFacts Sample.
From S2P Require Import SchemaCache ProtocolServer LogDecoder ProtocolClient.
Open Scope Z_scope.

Section end_to_end.
Context (L : avro_lib) (P : pg_lib).
Abbreviation tuple := (list (option (Datum P))).

(** A call Postgres makes of the plugin; the catalog is the one visible at that time. *)
Inductive pg_call : Type :=
| PBegin (xid : Z)
| PCommit (xid lsn : Z)
| PChange (cat : catalog) (rel : relation) (c : change P).

Definition plugin_call (x : pg_call) : M plugin unit :=
  let cb := PG_output_plugin_init L P in
  match x with
  | PBegin xid => begin_cb P cb xid
  | PCommit xid lsn => commit_cb P cb xid lsn
  | PChange cat rel c => change_cb P cb cat rel c
  end.

Fixpoint plugin_calls (l : list pg_call) : M plugin unit :=
  match l with
  | [] => mret ()
  | x :: l => _ ← plugin_call x; plugin_calls l
  end.

(** The client's side: the frames with the WAL positions they arrive at. *)
Fixpoint parse_frames {X} (cbs : callbacks X) (fs : list (Z * list Z)) : M (frame_reader * X) unit :=
  match fs with
  | [] => mret ()
  | (wal_pos, buf) :: fs => _ ← parse_frame L cbs wal_pos buf; parse_frames cbs fs
  end.

Fixpoint notify_frames {X} (cbs : callbacks X) (es : list (Z * list event)) : M X unit :=
  match es with
  | [] => mret ()
  | (wal_pos, es1) :: es => _ ← notify_all cbs wal_pos es1; notify_frames cbs es
  end.

(** ** What the application should see *)

Section relation.
Context (cat : catalog) (rel : relation).
Abbreviation relid := (rd_id rel).

(** The Avro row of a tuple, and its Avro key if the table has a key. *)
Definition row_of (t : tuple) : avro_value := row_value P cat rel (rd_att rel) t.
Definition key_of (t : tuple) : option avro_value :=
  match table_key_index cat rel with
  | Ret (Some i) => Some (key_value P cat rel i (rd_att rel) t)
  | _ => None
  end.

Abbreviation arg := (value_arg_of L).

(** The events of a row change; an update that changes the key is a deletion of the old
    key and an insertion. *)
Definition row_events (c : change P) : list event :=
  match c with
  | REORDER_BUFFER_CHANGE_INSERT _ (Some t) => [EInsert relid (arg <$> key_of t) (arg (row_of t))]
  | REORDER_BUFFER_CHANGE_UPDATE _ old (Some t) =>
      let old_key := old ≫= key_of in
      let old_row := row_of <$> old in
      if decide (old_key <> None /\ encode L <$> old_key <> encode L <$> key_of t)
      then [EDelete relid (arg <$> old_key) (arg <$> old_row);
            EInsert relid (arg <$> key_of t) (arg (row_of t))]
      else [EUpdate relid (arg <$> key_of t) (arg <$> old_row) (arg (row_of t))]
  | REORDER_BUFFER_CHANGE_DELETE _ old =>
      [EDelete relid (arg <$> (old ≫= key_of)) (arg <$> (row_of <$> old))]
  | _ => []
  end.

(** The table's schemas, told if they are new to the client or have changed. *)
Definition schema_events (k k' : knowledge) (es : list event) : Prop :=
  exists ks, schema_for_table_key cat rel = Ret ks /\
  let rs := schema_for_table_row cat rel in
  k' = <[relid := (ks, rs)]> k /\
  (es = [] /\ k !! relid = Some (ks, rs) \/
   es = [ESchema relid (schema_arg_of L <$> ks) (schema_arg_of L rs)]).

End relation.

Inductive call_events (k : knowledge) : pg_call -> list event -> knowledge -> Prop :=
| call_begin xid : call_events k (PBegin xid) [EBegin xid] k
| call_commit xid lsn : call_events k (PCommit xid lsn) [ECommit xid] k
| call_change cat rel c es k' :
    schema_events cat rel k k' es ->
    call_events k (PChange cat rel c) (es ++ row_events cat rel c) k'.

Inductive calls_events : knowledge -> list pg_call -> list (list event) -> knowledge -> Prop :=
| calls_nil k : calls_events k [] [] k
| calls_cons k x es k1 l ess k2 :
    call_events k x es k1 -> calls_events k1 l ess k2 -> calls_events k (x :: l) (es :: ess) k2.

(** The calls Postgres makes: transaction ids are 32 bits; the relation's schemas can be
    sent; the tuples decode and their parts fit a buffer. *)
Definition call_ok (x : pg_call) : Prop :=
  match x with
  | PBegin xid | PCommit xid _ => is_u32 xid
  | PChange cat rel c =>
      rel_ok cat rel /\ rel_sendable L cat rel /\ exists evs, change_sends L P cat rel c evs
  end.

(** ** The proof *)

Context {HL : AvroConforms L} {HP : PgConforms P}.

Section changes.
Context (cat : catalog) (rel : relation) (Hrel : rel_ok cat rel) (Hsend : rel_sendable L cat rel).

(** The encodings are those of the values, which have the schemas the client is told. *)
Lemma is_row_of t row :
  is_row L P cat rel (rd_att rel) t row ->
  row = encode L (row_of cat rel t) /\ has_schema (schema_for_table_row cat rel) (row_of cat rel t).
Proof. by intros [Hs ->]. Qed.
Lemma is_key_of t key ks :
  is_key L P cat rel (rd_att rel) t key -> schema_for_table_key cat rel = Ret ks ->
  key = encode L <$> key_of cat rel t /\ opt_has_schema ks (key_of cat rel t).
Proof.
  unfold schema_for_table_key, key_of. intros ([i|] & -> & Hk) Hks; [|by subst].
  destruct Hk as [Hs ->]. injection Hks as <-. split; [done|]. by eexists.
Qed.
Lemma is_old_of t key row ks :
  is_old L P cat rel t key row -> schema_for_table_key cat rel = Ret ks ->
  (key = encode L <$> (t ≫= key_of cat rel) /\ opt_has_schema ks (t ≫= key_of cat rel)) /\
  row = encode L <$> (row_of cat rel <$> t) /\
  opt_has_schema (Some (schema_for_table_row cat rel)) (row_of cat rel <$> t).
Proof.
  destruct t as [t|]; simpl; [|by intros [-> ->]]. intros (Hk & r & Hr & ->) Hks.
  split; [by apply is_key_of|]. apply is_row_of in Hr as [-> Hr]. split; [done|]. by eexists.
Qed.

Lemma change_msg_events c evs ks k :
  change_sends L P cat rel c evs -> schema_for_table_key cat rel = Ret ks ->
  k !! rd_id rel = Some (ks, schema_for_table_row cat rel) ->
  msg_events L k evs (row_events cat rel c) k.
Proof.
  intros Hs Hks Hk.
  assert (Hone : forall m e, msg_event L k m e k -> msg_events L k [m] [e] k)
    by (intros; econstructor; [done|constructor]).
  destruct Hs as [t key row _ Hkey Hrow|old new ok orow key row _ _ Ho Hkey Hrow|old key row _ Ho]; cbn [row_events].
  - destruct (is_key_of _ _ _ Hkey Hks) as [-> ?], (is_row_of _ _ Hrow) as [-> ?].
    apply Hone. by eapply ME_insert.
  - destruct (is_key_of _ _ _ Hkey Hks) as [-> ?], (is_row_of _ _ Hrow) as [-> ?].
    destruct (is_old_of _ _ _ _ Ho Hks) as ([-> ?] & -> & ?).
    unfold update_messages. destruct (old ≫= key_of cat rel) as [k0|]; cbn [fmap option_fmap option_map].
    + destruct (decide (Some (encode L k0) = encode L <$> key_of cat rel new)) as [Heq|Heq].
      * rewrite decide_False by tauto. apply Hone. by eapply ME_update.
      * rewrite decide_True by done. econstructor; [by eapply ME_delete with (kv := Some k0)|].
        apply Hone. by eapply ME_insert.
    + rewrite decide_False by (by intros [? _]). apply Hone. by eapply ME_update.
  - destruct (is_old_of _ _ _ _ Ho Hks) as ([-> ?] & -> & ?). apply Hone. by eapply ME_delete.
Qed.

Lemma announce_events cache ann cache' :
  ready cat rel cache' -> announces L (rd_id rel) (known cache) ann (known cache') ->
  exists es, schema_events cat rel (known cache) (known cache') es /\
    msg_events L (known cache) ann es (known cache') /\
    exists ks, schema_for_table_key cat rel = Ret ks /\
      known cache' !! rd_id rel = Some (ks, schema_for_table_row cat rel).
Proof.
  intros Hr Hann. pose proof Hr as [_ (e & He & _ & Hrow & Hkey)].
  assert (Hk : known cache' !! rd_id rel = Some (e_key_schema e, schema_for_table_row cat rel)).
  { unfold known. rewrite lookup_fmap, He. simpl. unfold entry_schemas. by rewrite Hrow. }
  destruct (announced_schemas L cat rel _ _ _ Hr Hann) as [->|(ks & Hks & ->)].
  - assert (Heq : known cache = known cache') by (by inversion Hann).
    exists []. split; [|split; [rewrite Heq; apply MEs_nil|by exists (e_key_schema e)]].
    exists (e_key_schema e). split; [done|]. rewrite Heq. split; [by rewrite insert_id|]. by left.
  - assert (ks = e_key_schema e) as -> by congruence.
    set (s := (e_key_schema e, schema_for_table_row cat rel)) in *.
    assert (Heq : known cache' = <[rd_id rel := s]> (known cache)).
    { inversion Hann as [|s' Hs' Heq]. assert (s' = s) as ->; [|done].
      rewrite <- Heq, lookup_insert_eq in Hk. congruence. }
    eexists [_]. split; [|split; [|by exists (e_key_schema e)]].
    + exists (e_key_schema e). split; [done|]. split; [done|]. by right.
    + econstructor; [|constructor]. rewrite Heq. destruct Hsend as [[Hrv _] Hkv].
      apply ME_schema; [apply Hrel| |done]. intros s' Hs'. apply (Hkv s'). by rewrite Hkey, Hs'.
Qed.

End changes.

#[local] Existing Instance fits_dec.

(** One call: the frame it writes stands for its events, if the frame fits a buffer. *)
Lemma call_frame x f cache out :
  call_ok x -> vreset f = frame_value [] -> cache_ok cache ->
  exists ms es cache' msg,
    call_events (known cache) x es (known cache') /\
    msg_events L (known cache) ms es (known cache') /\
    Forall wf_message ms /\ (length ms <= 3)%nat /\ cache_ok cache' /\
    plugin_call x (f, cache, out) =
      if decide (fits (frame_bytes L ms))
      then (Ret tt, (frame_value ms, cache', out ++ [frame_bytes L ms]))
      else (Elog msg, (frame_value ms, cache', out)).
Proof.
  intros Hok Hf Hc. destruct x as [xid|xid lsn|cat rel c]; simpl in Hok.
  - exists [MBegin xid], [EBegin xid], cache. eexists. split; [constructor|].
    split; [|split; [|split; [simpl; lia|split; [done|by apply begin_txn_run]]]].
    + rewrite <- (uwrap_id 32 xid) at 2 by done. econstructor; constructor.
    + apply List.Forall_cons; [|constructor]. revert Hok. unfold wf_message, is_u32, is_s64. lia.
  - exists [MCommit xid (s64 lsn)], [ECommit xid], cache. eexists. split; [constructor|].
    split; [|split; [|split; [simpl; lia|split; [done|by apply commit_txn_run]]]].
    + rewrite <- (uwrap_id 32 xid) at 2 by done. econstructor; constructor.
    + apply List.Forall_cons; [|constructor]. split; [|apply s64_range].
      revert Hok. unfold is_u32, is_s64. lia.
  - destruct Hok as (Hrel & Hsend & evs & Hs).
    destruct (change_run L P cat rel Hrel Hsend c evs f cache out Hf Hc Hs)
      as (ann & cache' & Hr & Hann & Hrun).
    destruct (announce_events cat rel Hrel Hsend cache ann cache' Hr Hann)
      as (es1 & Hse & Hme1 & ks & Hks & Hk).
    pose proof (change_msg_events cat rel c evs ks _ Hs Hks Hk) as Hme2.
    destruct (announces_wf L cat rel Hrel Hsend _ _ _ Hr Hann) as [Hw1 Hl1].
    destruct (sends_wf L P cat rel Hrel c evs Hs) as [Hw2 Hl2].
    exists (ann ++ evs), (es1 ++ row_events cat rel c), cache'. eexists.
    split; [by econstructor|]. split; [by eapply msg_events_app|].
    split; [by apply list.Forall_app|]. split; [rewrite length_app; lia|].
    split; [apply Hr|]. exact Hrun.
Qed.

(** The frames of a run, with the messages they encode. *)
Inductive frames_events : knowledge -> list (list Z) -> list (list event) -> knowledge -> Prop :=
| frames_nil k : frames_events k [] [] k
| frames_cons k ms es k1 fs ess k2 :
    msg_events L k ms es k1 -> Forall wf_message ms -> (length ms <= 3)%nat ->
    frames_events k1 fs ess k2 ->
    frames_events k (frame_bytes L ms :: fs) (es :: ess) k2.

Lemma frames_events_mono k fs ess k1 K :
  frames_events k fs ess k1 -> k ⊆ K -> exists K1, k1 ⊆ K1 /\ frames_events K fs ess K1.
Proof.
  intros Hf. revert K. induction Hf as [k|k ms es k1 fs ess k2 Hme Hwf Hlen _ IH]; intros K HK.
  { exists K. split; [done|constructor]. }
  destruct (msg_events_mono L _ _ _ _ _ Hme HK) as (K1 & HK1 & Hme').
  destruct (IH K1 HK1) as (K2 & HK2 & Hf'). exists K2. split; [done|]. by econstructor.
Qed.

Lemma frames_events_app_inv k fs1 fs2 ess k' :
  frames_events k (fs1 ++ fs2) ess k' ->
  exists ess1 ess2 k1, ess = ess1 ++ ess2 /\ frames_events k fs1 ess1 k1 /\ frames_events k1 fs2 ess2 k'.
Proof.
  revert k ess. induction fs1 as [|f fs1 IH]; intros k ess Hf.
  { exists [], ess, k. split; [done|]. split; [constructor|done]. }
  inversion Hf as [|? ms es k1 ? ess' ? Hme Hwf Hlen Hf' Eq]; subst.
  destruct (IH _ _ Hf') as (ess1 & ess2 & k2 & -> & H1 & H2).
  exists (es :: ess1), ess2, k2. split; [done|]. split; [by econstructor|done].
Qed.

(** A run of calls, up to the first frame that is too large. *)
Lemma plugin_calls_spec l f cache out :
  Forall call_ok l -> vreset f = frame_value [] -> cache_ok cache ->
  exists o s' ran fs ess k',
    plugin_calls l (f, cache, out) = (o, s') /\ snd s' = out ++ fs /\
    (o = Ret tt /\ ran = l \/ exists msg x rest, o = Elog msg /\ l = ran ++ x :: rest) /\
    calls_events (known cache) ran ess k' /\ frames_events (known cache) fs ess k'.
Proof.
  revert f cache out. induction l as [|x l IH]; intros f cache out Hl Hf Hc.
  - exists (Ret tt), (f, cache, out), [], [], [], (known cache). split; [done|].
    rewrite app_nil_r. split; [done|]. split; [by left|]. split; constructor.
  - apply list.Forall_cons in Hl as [Hx Hl].
    destruct (call_frame x f cache out Hx Hf Hc) as (ms & es & c1 & msg & Hce & Hme & Hwf & Hlen & Hc1 & Hrun).
    simpl. unfold mbind, M_bind. rewrite Hrun. case_decide as Hfit.
    + destruct (IH (frame_value ms) c1 (out ++ [frame_bytes L ms]) Hl (frame_value_reset ms) Hc1)
        as (o & s' & ran & fs & ess & k' & Hrun' & Hout & Hend & Hces & Hfes).
      exists o, s', (x :: ran), (frame_bytes L ms :: fs), (es :: ess), k'.
      split; [done|]. split; [rewrite Hout; by rewrite <- (assoc_L (++))|].
      split; [|split; [by econstructor|by eapply frames_cons]].
      destruct Hend as [[-> ->]|(msg' & y & rest & -> & ->)]; [by left|]. right. by eexists _, _, _.
    + exists (Elog msg), (frame_value ms, c1, out), [], [], [], (known cache). split; [done|].
      rewrite app_nil_r. split; [done|]. split; [right; by eexists _, _, _|]. split; constructor.
Qed.

(** The client on the frames of a run. *)
Lemma parse_frames_spec {X} (cbs : callbacks X) fs ess k k' wals r x :
  frames_events k fs ess k' -> knows r k -> length wals = length fs ->
  Z.of_nat (length (fr_schemas r)) + 3 * Z.of_nat (length fs) < 2 ^ 29 ->
  exists r', parse_frames cbs (zip wals fs) (r, x) = after r' (notify_frames cbs (zip wals ess) x).
Proof.
  intros Hf. revert wals r x. induction Hf as [k|k ms es k1 fs ess k2 Hme Hwf Hlen Hf IH];
    intros wals r x Hk Hw Hsmall.
  - exists r. by destruct wals.
  - destruct wals as [|w wals]; [done|]. simpl in Hw, Hsmall.
    destruct (parse_frame_spec L cbs w ms es k k1 r x Hwf Hk ltac:(lia) Hme) as (r1 & Hrun & Hend).
    simpl. unfold mbind, M_bind. unfold frame_bytes. rewrite Hrun. unfold after in *. simpl.
    destruct (notify_all cbs w es x) as [o x1] eqn:Hn. simpl in Hend |- *.
    destruct o as [[]| | | | |]; try (by exists r1).
    destruct (Hend eq_refl) as [Hk1 Hl1]. apply IH; [done|lia|lia].
Qed.

(** C6: What Postgres replays is what the application sees. From a fresh plugin and a fresh
    client, run any sequence of plugin calls with schemas changing along the way. The
    frames written are those of the calls made before the first frame too large for a
    buffer (all of them, if every call returned). Fed to the client in order, at whatever
    WAL positions, they make it run exactly the callbacks of the events: begin and commit
    with the transaction's id, a table's schemas before its first row and again when they
    have changed, and the decoded key and row values of every change, in order, stopping
    only where a callback itself fails. *)
Theorem replication_end_to_end (l : list pg_call) {X} (cbs : callbacks X) (x : X) :
  Forall call_ok l -> 3 * Z.of_nat (length l) < 2 ^ 29 ->
  exists s0 r0 o s' ran ess k',
    output_avro_startup = Ret s0 /\ frame_reader_new = Ret r0 /\
    plugin_calls l s0 = (o, s') /\
    (o = Ret tt /\ ran = l \/ exists msg c rest, o = Elog msg /\ l = ran ++ c :: rest) /\
    calls_events ∅ ran ess k' /\ length (snd s') = length ran /\
    forall wals, length wals = length ran ->
    exists r', parse_frames cbs (zip wals (snd s')) (r0, x) =
      after r' (notify_frames cbs (zip wals ess) x).
Proof.
  intros Hl Hlen. destruct frame_reader_new_knows as (r0 & Hr0 & Hk & Hnil).
  destruct (plugin_calls_spec l (frame_value []) schema_cache_new [] Hl (frame_value_reset [])
    empty_cache_ok) as (o & s' & ran & fs & ess & k' & Hrun & Hout & Hend & Hce & Hfe).
  unfold known, schema_cache_new in Hce, Hfe. rewrite fmap_empty in Hce, Hfe. simpl in Hout.
  exists (frame_value [], schema_cache_new, []), r0, o, s', ran, ess, k'.
  assert (Hlens : length fs = length ran).
  { transitivity (length ess); [clear -Hfe; induction Hfe; simpl; lia|].
    symmetry. clear -Hce. induction Hce; simpl; lia. }
  assert (Hran : (length ran <= length l)%nat).
  { destruct Hend as [[_ ->]|(?&?&?&_& ->)]; [lia|rewrite length_app; lia]. }
  split; [done|]. split; [done|]. split; [done|]. split; [done|]. split; [done|].
  split; [by rewrite Hout|]. intros wals Hw. rewrite Hout.
  apply (parse_frames_spec cbs fs ess ∅ k'); [done|done|congruence|].
  rewrite Hnil. simpl. lia.
Qed.

End end_to_end.

(** ** On the sample table *)

Definition sample_change (c : change sample_pg) : pg_call sample_pg :=
  PChange sample_pg sample_catalog sample_table c.
Definition sample_calls : list (pg_call sample_pg) :=
  [PBegin _ 700;
   sample_change (REORDER_BUFFER_CHANGE_INSERT _ (Some (sample_tuple 7 3)));
   sample_change (REORDER_BUFFER_CHANGE_UPDATE _ (Some (sample_tuple 7 3)) (Some (sample_tuple 8 3)));
   sample_change (REORDER_BUFFER_CHANGE_DELETE _ (Some (sample_tuple 8 3)));
   PCommit _ 700 23000].

Lemma sample_calls_ok : Forall (call_ok ref_lib sample_pg) sample_calls.
Proof.
  assert (Hf : forall id name, is_old ref_lib sample_pg sample_catalog sample_table
    (Some (sample_tuple id name)) (Some (sample_key id name)) (Some (sample_row id name))).
  { intros. split; [apply sample_is_key|]. eexists. split; [apply sample_is_row|done]. }
  repeat apply List.Forall_cons; [done| | | |done|constructor];
    (split; [apply sample_rel_ok|]; split; [apply sample_sendable|]).
  - eexists. eapply sends_insert; [apply sample_decodes|apply sample_is_key|apply sample_is_row|..];
      by vm_compute.
  - eexists. eapply sends_update; [apply sample_decodes|apply sample_decodes|apply Hf|
      apply sample_is_key|apply sample_is_row|..]; by vm_compute.
  - eexists. eapply sends_delete; [apply sample_decodes|apply Hf|..]; by vm_compute.
Qed.

(** An application that records the kinds of the events it is told. *)
Definition recorder : callbacks (list Z) :=
  {| on_begin_txn := Some (fun _ xid => modify (cons xid));
     on_commit_txn := Some (fun _ xid => modify (cons xid));
     on_table_schema := Some (fun _ relid _ _ => modify (cons relid));
     on_insert_row := Some (fun _ relid _ _ => modify (cons relid));
     on_update_row := Some (fun _ relid _ _ _ => modify (cons relid));
     on_delete_row := Some (fun _ relid _ _ => modify (cons relid)) |}.

Lemma replication_end_to_end_witness :
  exists s0 o s' ran ess k', output_avro_startup = Ret s0 /\
    plugin_calls ref_lib sample_pg sample_calls s0 = (o, s') /\
    calls_events ref_lib sample_pg ∅ ran ess k'.
Proof.
  destruct (replication_end_to_end ref_lib sample_pg sample_calls recorder [] sample_calls_ok)
    as (s0 & r0 & o & s' & ran & ess & k' & H1 & _ & H2 & _ & H3 & _);
    [by vm_compute|]. by exists s0, o, s', ran, ess, k'.
Defined.
