(* ===== verification/Snapshot.v ===== *)
(** * The consistent snapshot ([ext/snapshot.c])

    [bottledwater_export] is a set-returning function: Postgres calls it until it reports
    that it is done, and each call returns one frame. The results of the queries it makes
    through SPI are parameters: the rows of the catalog query, and for each table query the
    descriptor and the rows of its cursor. *)

From S2P Require Import Prelude Avro AvroBinary IoUtil Protocol Oid2Avro Oid2AvroFacts Sample.
From S2P Require Import SchemaCache ProtocolServer LogDecoder ProtocolClient EndToEnd.
Open Scope Z_scope.

Record export_table : Type := ExportTable {
  t_relid : Z;
  t_rel : relation;
  t_namespace : string;
  t_rel_name : string;
  t_repl_ident : Z;
  t_index_name : option string;
}.

(** A row of the catalog query; [None] is SQL null. *)
Record catalog_row : Type := CatalogRow {
  c_oid : option Z;
  c_nspname : option string;
  c_relname : option string;
  c_relreplident : option Z;
  c_indname : option string;
}.

Definition REPLICA_IDENTITY_NOTHING_CHAR : Z := 110. (* 'n' *)

Section snapshot.
Context (L : avro_lib) (P : pg_lib) (cat : catalog).
Abbreviation tuple := (list (option (Datum P))).

(** A cursor: the descriptor of the result and the rows not fetched yet. *)
Abbreviation cursor := (tupdesc * list tuple)%type.

(** SPI: the result of the catalog query, or its failure code; [SPI_prepare_cursor] and
    [SPI_cursor_open] of a query, [None] if preparing fails; the quoting function. *)
Record spi : Type := Spi {
  spi_table_list : Z + list catalog_row;
  spi_cursor : string -> option cursor;
  quote_qualified_identifier : string -> string -> string;
}.
Context (Q : spi).

(** The locks ([AccessShareLock]) are the relations opened and not closed. *)
Record export_state : Type := ExportState {
  tables : list export_table;
  current_table : nat;
  x_server : server;
  x_cursor : cursor;
  locks : list Z;
}.
Definition set_tables ts (s : export_state) := ExportState ts (current_table s) (x_server s) (x_cursor s) (locks s).
Definition set_current n (s : export_state) := ExportState (tables s) n (x_server s) (x_cursor s) (locks s).
Definition set_server v (s : export_state) := ExportState (tables s) (current_table s) v (x_cursor s) (locks s).
Definition set_cursor c (s : export_state) := ExportState (tables s) (current_table s) (x_server s) c (locks s).
Definition set_locks l (s : export_state) := ExportState (tables s) (current_table s) (x_server s) (x_cursor s) l.

#[local] Instance Has_server : Has server export_state.
Proof. by refine {| prj := x_server; upd := set_server |}; intros; destruct x. Defined.

(** ** The tables *)

(** The loop over the catalog rows: [done] are the tables already filled in, [errors] the
    tables without a key. *)
Fixpoint table_list_loop (rows : list catalog_row) (done : list export_table)
  (errors : list string) : M export_state (list export_table * list string) :=
  match rows with
  | [] => mret (done, errors)
  | row :: rows =>
      match c_oid row, c_nspname row, c_relname row, c_relreplident row with
      | Some oid, Some nsp, Some name, Some ident =>
          rel ← stop (relation_open cat oid);
          _ ← modify (fun s => set_locks (locks s ++ [oid]) s);
          let table := ExportTable oid rel nsp name ident (c_indname row) in
          let qname := quote_qualified_identifier Q nsp name in
          let errors :=
            match c_indname row with
            | Some _ => errors
            | None =>
                errors ++ [if ident =? REPLICA_IDENTITY_NOTHING_CHAR
                           then qname +:+ " is using REPLICA IDENTITY NOTHING."
                           else qname +:+ " does not have a primary key."]
            end in
          if existsb (fun t => t_relid t =? oid) done
          then stop (Elog "get_table_list: table has ambiguous primary key")
          else table_list_loop rows (done ++ [table]) errors
      | _, _, _, _ => stop (Elog "get_table_list: unexpected null value")
      end
  end.

Definition get_table_list (allow_unkeyed : bool) : M export_state unit :=
  match spi_table_list Q with
  | inl _ => stop (Elog "Could not fetch table list")
  | inr rows =>
      '(ts, errors) ← table_list_loop rows [] [];
      _ ← modify (set_tables ts);
      match errors with
      | [] => mret ()
      | _ :: _ =>
          if allow_unkeyed then mret ()
          else stop (Elog "bottledwater_export: tables do not have a replica identity key")
      end
  end.

Definition table_query (t : export_table) : string :=
  "SELECT * FROM " +:+ quote_qualified_identifier Q (t_namespace t) (t_rel_name t).

Definition the_table : M export_state export_table := fun s =>
  match tables s !! current_table s with
  | Some t => (Ret t, s)
  | None => (Undef, s)
  end.

Definition open_next_table : M export_state unit :=
  table ← the_table;
  match spi_cursor Q (table_query table) with
  | None => stop (Elog "bottledwater_export: SPI_prepare_cursor failed")
  | Some c => modify (set_cursor c)
  end.

(** [relation_close] releases the lock, the cursor is closed. *)
Definition close_current_table : M export_state unit :=
  table ← the_table;
  _ ← modify (fun s => set_locks (filter (fun r => r <> t_relid table) (locks s)) s);
  modify (set_cursor ([], [])).

(** ** Rows *)

(** [SPI_cursor_fetch(cursor, true, 1)]: [SPI_processed] and the row. *)
Definition SPI_cursor_fetch : M export_state (option tuple) := fun s =>
  match snd (x_cursor s) with
  | [] => (Ret None, s)
  | t :: rest => (Ret (Some t), set_cursor (fst (x_cursor s), rest) s)
  end.

Definition on_export {A} (msg : string) (m : M server A) : M export_state A := or_elog msg (zoom m).

Definition format_snapshot_row (vals0 : tuple) : M export_state bytea :=
  table ← the_table;
  tupdesc ← gets (fun s => fst (x_cursor s));
  _ ← on_export "Avro value reset failed" (zoom (avro_value_reset L []));
  _ ← on_export "bottledwater_export: Avro conversion failed"
        (update_frame_with_insert L P cat (t_rel table) tupdesc vals0);
  on_export "bottledwater_export: writing Avro binary failed" (zoom (write_value L)).

(** ** The set-returning function *)

(** The first call. *)
Definition export_first_call (allow_unkeyed : bool) : M export_state unit :=
  _ ← get_table_list allow_unkeyed;
  ts ← gets tables;
  when (negb (Nat.eqb (length ts) 0)) open_next_table.

Definition new_export_state : outcome export_state :=
  match schema_for_frame with
  | Ret s => Ret (ExportState [] 0 (default_value s, schema_cache_new) ([], []) [])
  | o => cast_outcome o
  end.

(** The loop of one call, over the tables that are left: the frame of the next row, or
    [None] when all tables are done. *)
Fixpoint export_loop (remaining : nat) : M export_state (option bytea) :=
  match remaining with
  | O => _ ← zoom (zoom (X := server) schema_cache_free); mret None
  | S remaining =>
      row ← SPI_cursor_fetch;
      match row with
      | None =>
          _ ← close_current_table;
          _ ← modify (fun s => set_current (S (current_table s)) s);
          more ← gets (fun s => Nat.ltb (current_table s) (length (tables s)));
          _ ← when more open_next_table;
          export_loop remaining
      | Some t =>
          result ← format_snapshot_row t;
          mret (Some result)
      end
  end.

Definition export_call : M export_state (option bytea) :=
  remaining ← gets (fun s => length (tables s) - current_table s)%nat;
  export_loop remaining.

(** Postgres calls the function until it is done. *)
Fixpoint export_all (calls : nat) (frames : list (list Z)) : M export_state (list (list Z)) :=
  match calls with
  | O => stop Blocked
  | S calls =>
      r ← export_call;
      match r with
      | Some b => export_all calls (frames ++ [payload b])
      | None => mret frames
      end
  end.

(** ** The table list *)

(** The table that a catalog row describes. *)
Definition row_table (row : catalog_row) (t : export_table) : Prop :=
  c_oid row = Some (t_relid t) /\ c_nspname row = Some (t_namespace t) /\
  c_relname row = Some (t_rel_name t) /\ c_relreplident row = Some (t_repl_ident t) /\
  c_indname row = t_index_name t /\ relation_open cat (t_relid t) = Ret (t_rel t).
Definition keyed (t : export_table) : Prop := is_Some (t_index_name t).

Lemma existsb_relid (ts : list export_table) oid :
  existsb (fun t => t_relid t =? oid) ts = bool_decide (oid ∈ map t_relid ts).
Proof.
  induction ts as [|t ts IH]; [done|]. cbn [existsb map].
  rewrite IH. destruct (Z.eqb_spec (t_relid t) oid) as [E|E]; cbn [orb].
  - symmetry. apply bool_decide_eq_true. subst. by left.
  - apply bool_decide_ext. rewrite elem_of_cons. split; [by right|]. by intros [->|Hin].
Qed.

Lemma table_list_loop_spec rows ts ran errors s :
  Forall2 row_table rows ts -> NoDup (map t_relid ran) ->
  (NoDup (map t_relid (ran ++ ts)) -> exists errs,
     table_list_loop rows ran errors s =
       (Ret (ran ++ ts, errors ++ errs), set_locks (locks s ++ map t_relid ts) s) /\
     (errs = [] <-> Forall keyed ts)) /\
  (~ NoDup (map t_relid (ran ++ ts)) -> exists msg s', table_list_loop rows ran errors s = (Elog msg, s')).
Proof.
  intros Hrows. revert ran errors s. induction Hrows as [|row t rows ts Hrow _ IH]; intros ran errors s Hnd.
  - rewrite !app_nil_r. split; [|done]. intros _. exists []. simpl. rewrite !app_nil_r.
    split; [by destruct s|]. by split.
  - destruct Hrow as (H1 & H2 & H3 & H4 & H5 & H6). simpl. rewrite H1, H2, H3, H4, H6.
    set (errors' := match c_indname row with Some _ => errors | None => _ end).
    set (s1 := set_locks (locks s ++ [t_relid t]) s).
    assert (Ht : ExportTable (t_relid t) (t_rel t) (t_namespace t) (t_rel_name t) (t_repl_ident t)
                   (c_indname row) = t) by (rewrite H5; by destruct t).
    match goal with |- (_ -> exists errs, ?run s = _ /\ _) /\ _ => assert (Hrun : run s =
      (if existsb (fun t0 => t_relid t0 =? t_relid t) ran
       then stop (Elog "get_table_list: table has ambiguous primary key")
       else table_list_loop rows (ran ++ [t]) errors') s1) by (unfold s1; rewrite <- Ht; reflexivity) end.
    rewrite Hrun. rewrite existsb_relid. rewrite map_app. simpl.
    destruct (decide (t_relid t ∈ map t_relid ran)) as [Hin|Hin].
    + rewrite bool_decide_eq_true_2 by done. split; [|by eexists _, _].
      intros Hnd'. apply list.NoDup_app in Hnd' as (_ & Hdis & _). destruct (Hdis _ Hin). by left.
    + rewrite bool_decide_eq_false_2 by done.
      assert (Hnd1 : NoDup (map t_relid (ran ++ [t]))).
      { rewrite map_app. apply list.NoDup_app. split; [done|]. split; [|apply NoDup_singleton].
        intros x Hx Hx'. apply list_elem_of_singleton in Hx' as ->. done. }
      destruct (IH (ran ++ [t]) errors' s1 Hnd1) as [IH1 IH2].
      rewrite <- (assoc_L (++)), map_app in IH1, IH2. simpl in IH1, IH2. split; [|exact IH2].
      intros Hnd'. destruct (IH1 Hnd') as (errs & -> & Hk).
      assert (Herr : exists e1, errors' = errors ++ e1 /\ (e1 = [] <-> keyed t)).
      { unfold errors', keyed. rewrite H5. destruct (t_index_name t) as [n|].
        - exists []. rewrite app_nil_r. split; [done|]. split; [by eexists|done].
        - eexists. split; [done|]. split; [done|]. intros [? ?]. done. }
      destruct Herr as (e1 & -> & He1). exists (e1 ++ errs). split.
      * unfold s1. simpl. by rewrite <- !(assoc_L (++)).
      * rewrite app_nil, list.Forall_cons, He1, Hk. done.
Qed.

(** ** Exported rows *)

(** The row can be exported: it decodes, and its parts and the frame fit a buffer, with
    or without the announcement of the schemas. *)
Definition row_exportable (rel : relation) (desc : tupdesc) (t : tuple) : Prop :=
  tuple_decodes P desc t 0 /\
  exists key row ks, is_key L P cat rel desc t key /\ is_row L P cat rel desc t row /\
    fits_opt key /\ fits row /\ schema_for_table_key cat rel = Ret ks /\
    let m := MInsert (rd_id rel) key row in
    fits (frame_bytes L [m]) /\
    fits (frame_bytes L [announcement L (rd_id rel) (ks, schema_for_table_row cat rel); m]).

(** The table can be exported: its query gives the table's columns and these rows. *)
Definition rows_exportable (t : export_table) (desc : tupdesc) (rows : list tuple) : Prop :=
  rel_ok cat (t_rel t) /\ rel_sendable L cat (t_rel t) /\ tuple_desc (t_rel t) desc /\
  Forall (row_exportable (t_rel t) desc) rows.
Definition table_exportable (tc : export_table * cursor) : Prop :=
  let '(t, (desc, rows)) := tc in
  spi_cursor Q (table_query t) = Some (desc, rows) /\ rows_exportable t desc rows.

(** What the application should see of a table: an insertion per row, the schemas before
    the first. *)
Definition snapshot_row_event (rel : relation) (desc : tupdesc) (t : tuple) : event :=
  EInsert (rd_id rel)
    (value_arg_of L <$> match table_key_index cat rel with
                        | Ret (Some i) => Some (key_value P cat rel i desc t)
                        | _ => None
                        end)
    (value_arg_of L (row_value P cat rel desc t)).

Inductive rows_events (rel : relation) (desc : tupdesc)
  : knowledge -> list tuple -> list (list event) -> knowledge -> Prop :=
| rows_nil k : rows_events rel desc k [] [] k
| rows_cons k es k1 t rows ess k2 :
    schema_events L cat rel k k1 es -> rows_events rel desc k1 rows ess k2 ->
    rows_events rel desc k (t :: rows) ((es ++ [snapshot_row_event rel desc t]) :: ess) k2.

Inductive tables_events : knowledge -> list (export_table * cursor) -> list (list event) -> knowledge -> Prop :=
| tables_nil k : tables_events k [] [] k
| tables_cons k t desc rows ess1 k1 plan ess2 k2 :
    rows_events (t_rel t) desc k rows ess1 k1 -> tables_events k1 plan ess2 k2 ->
    tables_events k ((t, (desc, rows)) :: plan) (ess1 ++ ess2) k2.

Context {HL : AvroConforms L} {HP : PgConforms P}.

Lemma on_export_run {A} msg (m : M server A) s o sv :
  m (x_server s) = (Ret o, sv) -> on_export msg m s = (Ret o, set_server sv s).
Proof. intros Hm. unfold on_export, or_elog, zoom. simpl. by rewrite Hm. Qed.

Lemma format_snapshot_row_run s t vals f cache :
  tables s !! current_table s = Some t -> x_server s = (f, cache) ->
  vreset f = frame_value [] -> cache_ok cache ->
  rel_ok cat (t_rel t) -> rel_sendable L cat (t_rel t) -> tuple_desc (t_rel t) (fst (x_cursor s)) ->
  row_exportable (t_rel t) (fst (x_cursor s)) vals ->
  exists ms es cache',
    msg_events L (known cache) ms (es ++ [snapshot_row_event (t_rel t) (fst (x_cursor s)) vals]) (known cache') /\
    schema_events L cat (t_rel t) (known cache) (known cache') es /\
    Forall wf_message ms /\ (length ms <= 3)%nat /\ cache_ok cache' /\
    format_snapshot_row vals s =
      (Ret (written (frame_bytes L ms)), set_server (frame_value ms, cache') s).
Proof.
  intros Ht Hsv Hf Hc Hrel Hsend Hdesc (Hd & key & row & ks & Hk & Hr & Hfk & Hfr & Hks & Hfit0 & Hfit1).
  set (desc := fst (x_cursor s)) in *. set (rel := t_rel t) in *.
  pose proof (insert_spec L P cat rel Hrel desc Hdesc vals [] cache key row Hc Hsend Hd Hk Hr) as Hi.
  rewrite decide_True in Hi by done. destruct Hi as (ann & cache' & Hrun & Hready & Hann & _).
  set (m := MInsert (rd_id rel) key row) in *.
  destruct (announce_events L cat rel Hrel Hsend cache ann cache' Hready Hann)
    as (es & Hse & Hme & ks' & Hks' & Hkn).
  destruct (announces_wf L cat rel Hrel Hsend _ _ _ Hready Hann) as [Hwa Hla].
  assert (Hm : msg_event L (known cache') m (snapshot_row_event rel desc vals) (known cache')).
  { unfold m, snapshot_row_event. destruct Hr as [Hrs ->]. destruct Hk as ([i|] & Hix & Hk).
    - destruct Hk as [Hkv ->]. rewrite Hix. eapply (ME_insert L _ _ _ _ (Some _)); [exact Hkn| |done].
      unfold schema_for_table_key in Hks'. rewrite Hix in Hks'. injection Hks' as <-. by eexists.
    - subst key. rewrite Hix. by eapply (ME_insert L _ _ _ _ None); [exact Hkn| |]. }
  assert (Hwm : wf_message m).
  { split; [by apply (relid_s64 cat)|]. split.
    - destruct Hk as ([i|] & _ & Hk); [|by subst]. destruct Hk as [Hkv ->].
      by apply (encode_ok L (schema_for_table_row cat i)).
    - destruct Hr as [Hrs ->]. by apply (encode_ok L (schema_for_table_row cat rel)). }
  assert (Hwf : Forall wf_message (ann ++ [m])).
  { apply list.Forall_app. split; [done|]. by apply Forall_singleton. }
  assert (Hlen : (length (ann ++ [m]) <= 3)%nat) by (rewrite length_app; simpl; lia).
  assert (Hfit : fits (frame_bytes L (ann ++ [m]))).
  { destruct (announced_schemas L cat rel _ _ _ Hready Hann) as [->|(ks2 & Hks2 & ->)]; [done|].
    assert (ks2 = ks) as -> by congruence. done. }
  exists (ann ++ [m]), es, cache'.
  split; [eapply msg_events_app; [exact Hme|]; econstructor; [exact Hm|constructor]|].
  split; [done|]. split; [done|]. split; [done|]. split; [apply Hready|].
  unfold format_snapshot_row. etrans; [apply bind_Ret; unfold the_table; by rewrite Ht|].
  etrans; [by apply bind_Ret|].
  etrans; [apply bind_Ret, on_export_run; rewrite Hsv; apply zoom_frame; eapply (reset_run L frame_schema), Hf|].
  etrans; [apply bind_Ret, on_export_run; exact Hrun|].
  assert (Hw : write_value L (frame_value (ann ++ [m])) =
    (Ret (written (frame_bytes L (ann ++ [m]))), frame_value (ann ++ [m]))).
  { rewrite (write_value_spec L frame_schema) by (apply frame_has_schema; [done|lia]).
    unfold frame_bytes in Hfit |- *. by rewrite decide_True. }
  etrans; [by apply on_export_run, zoom_frame|]. done.
Qed.

(** ** The export *)

(** In the middle of the export: [t] is being read and [rows] are left of it, [rest] are
    the tables after it; the locks on [t] and [rest] are held. *)
Record at_table (s : export_state) (pre : list export_table) (t : export_table) (desc : tupdesc)
  (rows : list tuple) (rest : list (export_table * cursor)) (cache : schema_cache) : Prop := {
  at_tables : tables s = pre ++ t :: map fst rest;
  at_current : current_table s = length pre;
  at_cursor : x_cursor s = (desc, rows);
  at_locks : locks s = t_relid t :: map t_relid (map fst rest);
  at_server : exists f, x_server s = (f, cache) /\ vreset f = frame_value [];
  at_cache : cache_ok cache;
  at_distinct : NoDup (locks s);
}.

Lemma the_table_run s pre t desc rows rest cache :
  at_table s pre t desc rows rest cache -> the_table s = (Ret t, s).
Proof.
  intros [Hts Hcur _ _ _ _ _]. unfold the_table. rewrite Hts, Hcur. by rewrite list_lookup_middle.
Qed.

Lemma remaining_run {A} s pre t desc rows rest cache (k : nat -> M export_state A) :
  at_table s pre t desc rows rest cache ->
  (n ← gets (fun s => length (tables s) - current_table s)%nat; k n) s = k (S (length rest)) s.
Proof.
  intros [Hts Hcur _ _ _ _ _]. unfold gets, mbind, M_bind. rewrite Hts, Hcur.
  rewrite length_app. simpl. rewrite length_map. f_equal. lia.
Qed.

(** A row is left: its frame is returned. *)
Lemma export_call_row s pre t desc row rows rest cache :
  at_table s pre t desc (row :: rows) rest cache -> rows_exportable t desc (row :: rows) ->
  exists ms es cache' s',
    msg_events L (known cache) ms (es ++ [snapshot_row_event (t_rel t) desc row]) (known cache') /\
    schema_events L cat (t_rel t) (known cache) (known cache') es /\
    Forall wf_message ms /\ (length ms <= 3)%nat /\
    export_call s = (Ret (Some (written (frame_bytes L ms))), s') /\
    at_table s' pre t desc rows rest cache'.
Proof.
  intros Hat (Hrel & Hsend & Hdesc & Hrows). apply list.Forall_cons in Hrows as [Hrow _].
  pose proof Hat as [Hts Hcur Hcs Hlk (f & Hsv & Hf) Hc Hnd].
  set (s1 := set_cursor (desc, rows) s).
  destruct (format_snapshot_row_run s1 t row f cache) as (ms & es & cache' & Hme & Hse & Hwf & Hlen & Hc' & Hrun);
    [|done..|].
  { simpl. rewrite Hts, Hcur. by rewrite list_lookup_middle. }
  exists ms, es, cache', (set_server (frame_value ms, cache') s1).
  split; [done|]. split; [done|]. split; [done|]. split; [done|]. split.
  - unfold export_call. etrans; [by eapply remaining_run|]. cbn [export_loop].
    etrans; [apply bind_Ret; unfold SPI_cursor_fetch; by rewrite Hcs|].
    etrans; [apply bind_Ret, Hrun|]. done.
  - split; simpl; try done. eexists. split; [done|]. apply frame_value_reset.
Qed.

(** The locks after the current table is closed. *)
Lemma filter_locks oid (l : list Z) : NoDup (oid :: l) -> filter (fun r => r <> oid) (oid :: l) = l.
Proof.
  intros Hnd. apply list.NoDup_cons in Hnd as [Hnot _]. rewrite filter_cons, decide_False by naive_solver.
  induction l as [|x l IH]; [done|]. apply not_elem_of_cons in Hnot as [Hne Hnot].
  rewrite filter_cons, decide_True by done. f_equal. by apply IH.
Qed.

(** No row is left: the table is closed and the next one is read in the same call. *)
Lemma export_call_next s pre t desc t2 desc2 rows2 rest cache :
  at_table s pre t desc [] ((t2, (desc2, rows2)) :: rest) cache ->
  table_exportable (t2, (desc2, rows2)) ->
  exists s', export_call s = export_call s' /\ at_table s' (pre ++ [t]) t2 desc2 rows2 rest cache.
Proof.
  intros Hat (Hq & _). pose proof Hat as [Hts Hcur Hcs Hlk (f & Hsv & Hf) Hc Hnd].
  pose proof (the_table_run _ _ _ _ _ _ _ Hat) as Hthe.
  set (s1 := set_current (S (current_table s)) (set_cursor ([], []) (set_locks (map t_relid (t2 :: map fst rest)) s))).
  assert (Hat' : at_table (set_cursor (desc2, rows2) s1) (pre ++ [t]) t2 desc2 rows2 rest cache).
  { split; simpl; try done.
    - rewrite Hts. by rewrite <- (assoc_L (++)).
    - rewrite Hcur, length_app. simpl. lia.
    - by exists f.
    - rewrite Hlk in Hnd. by apply list.NoDup_cons in Hnd as [_ ?]. }
  exists (set_cursor (desc2, rows2) s1). split; [|done].
  unfold export_call. etrans; [by eapply remaining_run|]. symmetry.
  etrans; [by eapply remaining_run|]. symmetry. cbn [export_loop length].
  etrans; [apply bind_Ret; unfold SPI_cursor_fetch; by rewrite Hcs|]. cbv iota.
  etrans; [apply bind_Ret|].
  { unfold close_current_table. etrans; [apply bind_Ret, Hthe|]. reflexivity. }
  cbv beta. rewrite Hlk, filter_locks by (by rewrite Hlk in Hnd).
  etrans; [by apply bind_Ret|]. etrans; [by apply bind_Ret|]. fold s1.
  assert (Hmore : Nat.ltb (current_table s1) (length (tables s1)) = true).
  { apply Nat.ltb_lt. simpl. rewrite Hts, Hcur, length_app. simpl. lia. }
  change (((_ ← when (Nat.ltb (current_table s1) (length (tables s1))) open_next_table;
    export_loop (S (length rest))) s1) = export_loop (S (length rest)) (set_cursor (desc2, rows2) s1)).
  rewrite Hmore. apply (bind_Ret _ (fun _ : unit => export_loop (S (length rest))) _ tt).
  unfold when, open_next_table.
  etrans; [apply bind_Ret|].
  { unfold the_table. instantiate (2 := t2).
    assert (E : tables s1 = (pre ++ [t]) ++ t2 :: map fst rest)
      by (simpl; rewrite Hts; by rewrite <- (assoc_L (++))).
    rewrite E. assert (Hc1 : current_table s1 = length (pre ++ [t]))
      by (simpl; rewrite Hcur, length_app; simpl; lia).
    by rewrite Hc1, list_lookup_middle. }
  by rewrite Hq.
Qed.

(** The last table is exhausted: all locks are released and the function is done. *)
Lemma export_call_end s pre t desc cache :
  at_table s pre t desc [] [] cache ->
  exists s', export_call s = (Ret None, s') /\ locks s' = [] /\
    current_table s' = length (tables s') /\ tables s' = tables s.
Proof.
  intros Hat. pose proof Hat as [Hts Hcur Hcs Hlk (f & Hsv & Hf) Hc Hnd].
  pose proof (the_table_run _ _ _ _ _ _ _ Hat) as Hthe.
  set (s1 := set_current (S (current_table s)) (set_cursor ([], []) (set_locks [] s))).
  assert (Hlen : S (length pre) = length (tables s)) by (rewrite Hts, length_app; simpl; lia).
  exists (set_server (fst (x_server s1), ∅) s1). split; [|simpl; rewrite Hcur; done].
  unfold export_call. etrans; [by eapply remaining_run|]. cbn [export_loop length].
  etrans; [apply bind_Ret; unfold SPI_cursor_fetch; by rewrite Hcs|]. cbv iota.
  etrans; [apply bind_Ret|].
  { unfold close_current_table. etrans; [apply bind_Ret, Hthe|]. reflexivity. }
  cbv beta. rewrite Hlk, filter_locks by (by rewrite Hlk in Hnd).
  etrans; [by apply bind_Ret|]. etrans; [by apply bind_Ret|].
  change (((_ ← when (Nat.ltb (current_table s1) (length (tables s1))) open_next_table;
    export_loop 0) s1) = (Ret None, set_server (fst (x_server s1), ∅) s1)).
  assert (Hmore : Nat.ltb (current_table s1) (length (tables s1)) = false).
  { apply Nat.ltb_ge. simpl. lia. }
  rewrite Hmore. etrans; [by apply bind_Ret|].
  cbn [export_loop].
  etrans; [apply bind_Ret, zoom_run, zoom_run, schema_cache_free_empty|done].
Qed.

Definition total_rows (plan : list (export_table * cursor)) : nat :=
  sum_list_with (fun tc => length (snd (snd tc))) plan.

Lemma export_all_S n frames s :
  export_all (S n) frames s =
  (r ← export_call;
   match r with Some b => export_all n (frames ++ [payload b]) | None => mret frames end) s.
Proof. done. Qed.

(** Called [n] times from here, the function returns the frames of the rows of [t] that are
    left and of the tables in [rest], and is done with all locks released. *)
Definition exports (n : nat) (s : export_state) (t : export_table) (desc : tupdesc)
  (rows : list tuple) (rest : list (export_table * cursor)) (cache : schema_cache) : Prop :=
  forall frames, exists fs ess1 ess2 k1 k2 s',
    export_all n frames s = (Ret (frames ++ fs), s') /\
    frames_events L (known cache) fs (ess1 ++ ess2) k2 /\
    rows_events (t_rel t) desc (known cache) rows ess1 k1 /\ tables_events k1 rest ess2 k2 /\
    length fs = (length rows + total_rows rest)%nat /\ locks s' = [].

Lemma exports_row n s pre t desc row rows rest cache :
  at_table s pre t desc (row :: rows) rest cache -> rows_exportable t desc (row :: rows) ->
  (forall s' cache', at_table s' pre t desc rows rest cache' -> exports n s' t desc rows rest cache') ->
  exports (S n) s t desc (row :: rows) rest cache.
Proof.
  intros Hat Hex IH frames.
  destruct (export_call_row _ _ _ _ _ _ _ _ Hat Hex)
    as (ms & es & cache' & s1 & Hme & Hse & Hwf & Hlen & Hrun & Hat').
  destruct (IH s1 cache' Hat' (frames ++ [frame_bytes L ms]))
    as (fs & ess1 & ess2 & k1 & k2 & s' & Hall & Hfe & Hre & Hte & Hl & Hlk).
  eexists (frame_bytes L ms :: fs), (_ :: ess1), ess2, k1, k2, s'.
  split; [|split; [by eapply frames_cons|split; [by eapply rows_cons|]]].
  - rewrite export_all_S. etrans; [apply bind_Ret, Hrun|]. cbv beta iota.
    rewrite payload_of_written, Hall. by rewrite <- (assoc_L (++)).
  - split; [done|]. split; [|done]. simpl. by rewrite Hl.
Qed.

Lemma exports_spec rest : forall rows s pre t desc cache n,
  at_table s pre t desc rows rest cache -> rows_exportable t desc rows ->
  Forall table_exportable rest ->
  (length rows + total_rows rest < n)%nat -> exports n s t desc rows rest cache.
Proof.
  induction rest as [|[t2 [desc2 rows2]] rest IHrest];
    induction rows as [|row rows IHrows]; intros s pre t desc cache n Hat Hex Hrest Hn;
    (destruct n as [|n]; [lia|]).
  - intros frames. destruct (export_call_end _ _ _ _ _ Hat) as (s' & Hrun & Hlk & _).
    exists [], [], [], (known cache), (known cache), s'. rewrite app_nil_r, export_all_S.
    split; [by etrans; [apply bind_Ret, Hrun|]|]. split_and!; try constructor. done.
  - eapply exports_row; [done|done|]. intros s' cache' Hat'.
    eapply IHrows; [done| |done|cbn [length] in Hn; lia].
    destruct Hex as (? & ? & ? & Hrows). split; [done|]. by apply list.Forall_cons in Hrows as [_ ?].
  - apply list.Forall_cons in Hrest as [Hex2 Hrest].
    destruct (export_call_next _ _ _ _ _ _ _ _ _ Hat Hex2) as (s1 & Hcall & Hat1).
    destruct Hex2 as [_ Hex2]. intros frames.
    destruct (IHrest rows2 s1 _ t2 desc2 cache (S n) Hat1 Hex2 Hrest ltac:(unfold total_rows in *; simpl in *; lia) frames)
      as (fs & ess1 & ess2 & k1 & k2 & s' & Hall & Hfe & Hre & Hte & Hl & Hlk).
    exists fs, [], (ess1 ++ ess2), (known cache), k2, s'.
    split; [|split; [done|split; [constructor|split; [by econstructor|done]]]].
    rewrite export_all_S in Hall |- *. unfold mbind, M_bind in *. by rewrite Hcall.
  - eapply exports_row; [done|done|]. intros s' cache' Hat'.
    eapply IHrows; [done| |done|cbn [length] in Hn; lia].
    destruct Hex as (? & ? & ? & Hrows). split; [done|]. by apply list.Forall_cons in Hrows as [_ ?].
Qed.

(** ** Properties *)

Lemma get_table_list_run allow_unkeyed rows ts s :
  spi_table_list Q = inr rows -> Forall2 row_table rows ts ->
  if decide (NoDup (map t_relid ts) /\ (allow_unkeyed = true \/ Forall keyed ts))
  then get_table_list allow_unkeyed s =
    (Ret tt, set_tables ts (set_locks (locks s ++ map t_relid ts) s))
  else exists msg s', get_table_list allow_unkeyed s = (Elog msg, s').
Proof.
  intros Hq Hrows. unfold get_table_list. rewrite Hq.
  destruct (table_list_loop_spec rows ts [] [] s Hrows) as [Hok Hbad]; [constructor|].
  destruct (decide (NoDup (map t_relid ts))) as [Hnd|Hnd].
  - destruct (Hok Hnd) as (errs & Hrun & Hk). unfold mbind, M_bind. rewrite Hrun. simpl.
    destruct errs as [|e errs].
    + rewrite decide_True; [done|]. split; [done|]. right. by apply Hk.
    + destruct allow_unkeyed; [rewrite decide_True by auto; done|].
      rewrite decide_False; [by eexists _, _|]. intros [_ [?|Hall]]; [done|]. by apply Hk in Hall.
  - destruct (Hbad Hnd) as (msg & s' & Hrun). rewrite decide_False by tauto.
    unfold mbind, M_bind. rewrite Hrun. by eexists _, _.
Qed.

(** C31: The list of tables to export: the tables of the catalog query, in order, each with
    its lock taken; the call fails if a table appears twice (two candidate keys), and if
    a table has no key unless unkeyed tables were allowed, and only then. *)
Theorem table_list_checked allow_unkeyed rows ts s :
  spi_table_list Q = inr rows -> Forall2 row_table rows ts ->
  if decide (NoDup (map t_relid ts) /\ (allow_unkeyed = true \/ Forall keyed ts))
  then get_table_list allow_unkeyed s =
    (Ret tt, set_tables ts (set_locks (locks s ++ map t_relid ts) s))
  else exists msg s', get_table_list allow_unkeyed s = (Elog msg, s').
Proof. apply get_table_list_run. Qed.

(** The first call leaves the function in front of the first table. *)
Lemma export_first_call_run allow_unkeyed rows t desc rows1 rest s0 :
  spi_table_list Q = inr rows -> Forall2 row_table rows (t :: map fst rest) ->
  NoDup (map t_relid (t :: map fst rest)) ->
  allow_unkeyed = true \/ Forall keyed (t :: map fst rest) ->
  table_exportable (t, (desc, rows1)) -> new_export_state = Ret s0 ->
  exists s1, export_first_call allow_unkeyed s0 = (Ret tt, s1) /\
    at_table s1 [] t desc rows1 rest schema_cache_new.
Proof.
  intros Hq Hrows Hnd Hkeys [Hcur _] [= <-].
  set (s0 := ExportState [] 0 (frame_value [], schema_cache_new) ([], []) []).
  pose proof (get_table_list_run allow_unkeyed rows (t :: map fst rest) s0 Hq Hrows) as Hrun.
  rewrite decide_True in Hrun by done. simpl in Hrun.
  eexists. split.
  - unfold export_first_call. etrans; [apply bind_Ret, Hrun|]. etrans; [by apply bind_Ret|]. simpl.
    unfold open_next_table. etrans; [by apply bind_Ret|]. by rewrite Hcur.
  - split; simpl; try done. by exists (frame_value []).
Qed.

(** All calls: the frames, the events they stand for, and the locks. *)
Lemma export_frames allow_unkeyed rows plan :
  spi_table_list Q = inr rows -> Forall2 row_table rows (map fst plan) ->
  NoDup (map t_relid (map fst plan)) -> allow_unkeyed = true \/ Forall keyed (map fst plan) ->
  Forall table_exportable plan ->
  exists s0 s1 fs s' ess k',
    new_export_state = Ret s0 /\ export_first_call allow_unkeyed s0 = (Ret tt, s1) /\
    locks s1 = map t_relid (map fst plan) /\
    export_all (S (total_rows plan)) [] s1 = (Ret fs, s') /\ locks s' = [] /\
    length fs = total_rows plan /\ tables_events ∅ plan ess k' /\ frames_events L ∅ fs ess k'.
Proof.
  intros Hq Hrows Hnd Hkeys Hex.
  assert (Hs0 : exists s0, new_export_state = Ret s0) by (by eexists). destruct Hs0 as [s0 Hs0].
  exists s0.
  destruct plan as [|[t [desc rows1]] rest].
  - injection Hs0 as <-. eexists _, [], _, [], ∅. split; [done|].
    split; [|split; [|split; [|split; [|split_and!; try constructor]]]].
    + unfold export_first_call.
      pose proof (get_table_list_run allow_unkeyed rows [] (ExportState [] 0 (frame_value [], schema_cache_new) ([], []) []) Hq Hrows) as Hrun.
      rewrite decide_True in Hrun by done. etrans; [apply bind_Ret, Hrun|]. done.
    + done.
    + done.
    + done.
  - apply list.Forall_cons in Hex as [Hex1 Hex]. simpl in Hrows, Hnd, Hkeys.
    destruct (export_first_call_run allow_unkeyed rows t desc rows1 rest s0) as (s1 & Hrun & Hat); try done.
    destruct (exports_spec rest rows1 s1 [] t desc schema_cache_new (S (total_rows ((t, (desc, rows1)) :: rest)))
      Hat (proj2 Hex1) Hex ltac:(unfold total_rows; simpl; lia) [])
      as (fs & ess1 & ess2 & k1 & k2 & s' & Hall & Hfe & Hre & Hte & Hl & Hlk).
    unfold known, schema_cache_new in Hfe, Hre. rewrite fmap_empty in Hfe, Hre.
    exists s1, fs, s', (ess1 ++ ess2), k2. split; [done|]. split; [done|]. split; [apply Hat|].
    split; [done|]. split; [done|]. split; [done|]. split; [by econstructor|done].
Qed.

(** C7: The snapshot exports every row of every table. After the first call has locked the
    tables, the set-returning function terminates: it returns one frame per row, table
    after table in the order of the catalog query and row after row in the order of each
    cursor, then reports that it is done, with all locks released. A client that parses
    these frames from a fresh reader sees exactly one insertion per row, with the values
    of its columns, and each table's schemas before the table's first row. *)
Theorem snapshot_complete allow_unkeyed rows plan {X} (cbs : callbacks X) (x : X) :
  spi_table_list Q = inr rows -> Forall2 row_table rows (map fst plan) ->
  NoDup (map t_relid (map fst plan)) -> allow_unkeyed = true \/ Forall keyed (map fst plan) ->
  Forall table_exportable plan -> 3 * Z.of_nat (total_rows plan) < 2 ^ 29 ->
  exists s0 s1 fs s' ess k' r0 r',
    new_export_state = Ret s0 /\ export_first_call allow_unkeyed s0 = (Ret tt, s1) /\
    locks s1 = map t_relid (map fst plan) /\
    export_all (S (total_rows plan)) [] s1 = (Ret fs, s') /\ locks s' = [] /\
    length fs = total_rows plan /\ tables_events ∅ plan ess k' /\
    frame_reader_new = Ret r0 /\
    let wals := replicate (length fs) 0 in
    parse_frames L cbs (zip wals fs) (r0, x) = after r' (notify_frames cbs (zip wals ess) x).
Proof.
  intros Hq Hrows Hnd Hkeys Hex Hsmall.
  destruct frame_reader_new_knows as (r0 & Hr0 & Hk & Hnil).
  destruct (export_frames allow_unkeyed rows plan Hq Hrows Hnd Hkeys Hex)
    as (s0 & s1 & fs & s' & ess & k' & H0 & H1 & H2 & H3 & H4 & H5 & H6 & H7).
  destruct (parse_frames_spec L cbs fs ess ∅ k' (replicate (length fs) 0) r0 x H7 Hk) as [r' Hr'].
  { by rewrite length_replicate. }
  { rewrite Hnil, H5. simpl. lia. }
  exists s0, s1, fs, s', ess, k', r0, r'. by split_and!.
Qed.

End snapshot.

(** ** Schemas as SQL functions *)

Section schema_functions.
Context (L : avro_lib) {HL : AvroConforms L} (cat : catalog).

(** [relation_openrv] of a qualified name. *)
Context (relation_openrv : string -> outcome relation).

Definition schema_for_relname (relname : string) (get_key : bool) : outcome (option bytea) :=
  match relation_openrv relname with
  | Ret rel =>
      match (if get_key then schema_for_table_key cat rel else Ret (Some (schema_for_table_row cat rel))) with
      | Ret None => Ret None
      | Ret (Some schema) =>
          match try_writing L (write_schema_json L schema) with
          | Ret json => Ret (Some json)
          | Err _ => Elog "bottledwater_table_schema: Could not encode schema as JSON"
          | o => cast_outcome o
          end
      | o => cast_outcome o
      end
  | o => cast_outcome o
  end.

Definition bottledwater_key_schema (table_name : string) : outcome bytea :=
  match schema_for_relname table_name true with
  | Ret (Some json) => Ret json
  | Ret None => Elog "Table does not have a primary key or replica identity"
  | o => cast_outcome o
  end.

(** The null pointer would be returned as text. *)
Definition bottledwater_row_schema (table_name : string) : outcome bytea :=
  match schema_for_relname table_name false with
  | Ret (Some json) => Ret json
  | Ret None => Undef
  | o => cast_outcome o
  end.

Definition bottledwater_frame_schema : outcome bytea :=
  match schema_for_frame with
  | Ret schema =>
      match try_writing L (write_schema_json L schema) with
      | Ret json => Ret json
      | Err _ => Elog "bottledwater_frame_schema: Could not encode schema as JSON"
      | o => cast_outcome o
      end
  | o => cast_outcome o
  end.

(** C36: The SQL functions give the JSON of the table's row schema and key schema; asking for
    the key of a table that has none is an error, not an empty answer. *)
Theorem schema_functions relname rel :
  relation_openrv relname = Ret rel -> rel_sendable L cat rel ->
  (exists b, bottledwater_row_schema relname = Ret b /\
     payload b = schema_json L (schema_for_table_row cat rel)) /\
  (forall ks, schema_for_table_key cat rel = Ret (Some ks) ->
     exists b, bottledwater_key_schema relname = Ret b /\ payload b = schema_json L ks) /\
  (schema_for_table_key cat rel = Ret None ->
     bottledwater_key_schema relname = Elog "Table does not have a primary key or replica identity").
Proof.
  intros Hopen [Hrow Hkey].
  unfold bottledwater_row_schema, bottledwater_key_schema, schema_for_relname. rewrite Hopen.
  split; [|split].
  - rewrite schema_json_written by done. eexists. split; [done|]. apply payload_of_written.
  - intros ks Hks. rewrite Hks, schema_json_written by auto. eexists. split; [done|].
    apply payload_of_written.
  - by intros ->.
Qed.

End schema_functions.

(** ** On the sample database *)

Definition sample_live (id name : Z) : list (option (Datum sample_pg)) := [Some id; Some name; None].
Definition sample_cursor : tupdesc * list (list (option (Datum sample_pg))) :=
  (live sample_att, [sample_live 1 3; sample_live 2 5]).

Definition sample_catalog_row : catalog_row :=
  CatalogRow (Some 16384) (Some "public") (Some "test") (Some 100) (Some "test_pkey").
Definition sample_export : export_table :=
  ExportTable 16384 sample_table "public" "test" 100 (Some "test_pkey").
Definition sample_spi : spi sample_pg :=
  Spi sample_pg (inr [sample_catalog_row])
    (fun q => if String.eqb q "SELECT * FROM public.test" then Some sample_cursor else None)
    (fun ns name => ns +:+ "." +:+ name).

Lemma sample_row_table : Forall2 (row_table sample_catalog) [sample_catalog_row] [sample_export].
Proof. apply List.Forall2_cons; [|constructor]. by split_and!. Qed.

Lemma sample_row_exportable id name :
  (id, name) ∈ [(1, 3); (2, 5)] ->
  row_exportable ref_lib sample_pg sample_catalog sample_table (live sample_att) (sample_live id name).
Proof.
  intros Hin. split; [apply sample_decodes|].
  eexists (Some _), _, (Some (schema_for_table_row sample_catalog sample_index)). split.
  { exists (Some sample_index). split; [done|]. split; [|done].
    exact (proj2 (tuple_to_avro_key_spec ref_lib sample_pg sample_catalog sample_table sample_index
      _ _ _ (or_intror eq_refl) (sample_decodes _ _ _) sample_index_of (default_of_schema _))). }
  split.
  { split; [|done].
    exact (proj2 (tuple_to_avro_row_spec ref_lib sample_pg sample_catalog sample_table
      _ _ _ (or_intror eq_refl) (sample_decodes _ _ _) (default_of_schema _))). }
  repeat (apply elem_of_cons in Hin as [[= -> ->]|Hin];
    [split; [by vm_compute|]; split; [by vm_compute|]; split; [done|]; split; by vm_compute|]).
  by apply elem_of_nil in Hin.
Qed.

Lemma sample_exportable :
  table_exportable ref_lib sample_pg sample_catalog sample_spi (sample_export, sample_cursor).
Proof.
  split; [done|]. split; [apply sample_rel_ok|]. split; [apply sample_sendable|].
  split; [by right|].
  repeat apply List.Forall_cons; [apply sample_row_exportable|apply sample_row_exportable|constructor].
  - by left.
  - right. by left.
Qed.

Lemma table_list_checked_witness :
  exists st, get_table_list sample_pg sample_catalog sample_spi false
    (ExportState sample_pg [] 0 (frame_value [], ∅) ([], []) []) = (Ret tt, st).
Proof.
  eexists. eapply (table_list_checked sample_pg sample_catalog sample_spi false
    [sample_catalog_row] [sample_export] (ExportState sample_pg [] 0 (frame_value [], ∅) ([], []) [])).
  - reflexivity.
  - apply sample_row_table.
Defined.

Lemma snapshot_complete_witness :
  exists s0 s1 fs s', new_export_state sample_pg = Ret s0 /\
    export_first_call sample_pg sample_catalog sample_spi false s0 = (Ret tt, s1) /\
    export_all ref_lib sample_pg sample_catalog sample_spi 3 [] s1 = (Ret fs, s') /\ length fs = 2%nat.
Proof.
  destruct (snapshot_complete ref_lib sample_pg sample_catalog sample_spi false [sample_catalog_row]
    [(sample_export, sample_cursor)] recorder [])
    as (s0 & s1 & fs & s' & ess & k' & r0 & r' & H1 & H2 & _ & H3 & _ & H4 & _).
  - reflexivity.
  - apply sample_row_table.
  - apply NoDup_singleton.
  - right. apply Forall_singleton. by eexists.
  - apply Forall_singleton, sample_exportable.
  - by vm_compute.
  - by exists s0, s1, fs, s'.
Defined.

Lemma schema_functions_witness :
  exists b, bottledwater_row_schema ref_lib sample_catalog (fun _ => Ret sample_table) "test" = Ret b.
Proof.
  destruct (schema_functions ref_lib sample_catalog (fun _ => Ret sample_table) "test" sample_table
    eq_refl sample_sendable) as [(b & Hb & _) _]. by exists b.
Defined.
