(* ===== verification/NetBytes.v ===== *)
(** * Integers on the wire and in text

    Network byte order as [client/replication.c] and [kafka/registry.c] produce it
    ([htonl], [memcpy] of a 32-bit word), and log positions in the "%X/%X" text form
    that Postgres uses ([sscanf], [appendPQExpBuffer]). *)

From S2P Require Import Prelude.
From Stdlib Require Import Ascii.
Open Scope Z_scope.

(** ** 32-bit words in memory *)

Definition byte_of (v : Z) (i : Z) : Z := Z.land (Z.shiftr v (8 * i)) 255.

(** The four bytes of a word as [memcpy] copies them out of and into memory, on a
    little-endian ([le = true]) or big-endian host. *)
Definition store32 (le : bool) (v : Z) : list Z :=
  if le then [byte_of v 0; byte_of v 1; byte_of v 2; byte_of v 3]
  else [byte_of v 3; byte_of v 2; byte_of v 1; byte_of v 0].

Definition word32 (b3 b2 b1 b0 : Z) : Z :=
  Z.lor (Z.shiftl b3 24) (Z.lor (Z.shiftl b2 16) (Z.lor (Z.shiftl b1 8) b0)).

Definition load32 (le : bool) (l : list Z) : option Z :=
  match l with
  | [a; b; c; d] => Some (if le then word32 d c b a else word32 a b c d)
  | _ => None
  end.

(** Host to network order and back: a byte swap on a little-endian host. *)
Definition htonl (le : bool) (v : Z) : Z :=
  if le then word32 (byte_of v 0) (byte_of v 1) (byte_of v 2) (byte_of v 3) else v.
Definition ntohl : bool -> Z -> Z := htonl.

(** [htonl] and [memcpy], the bytes that go on the wire. *)
Definition net32 (le : bool) (v : Z) : list Z := store32 le (htonl le v).
(** [memcpy] and [ntohl]. *)
Definition from_net32 (le : bool) (l : list Z) : option Z := ntohl le <$> load32 le l.

(** Most significant byte first: what the network expects. *)
Definition big_endian32 (v : Z) : list Z :=
  [v / 2 ^ 24 mod 256; v / 2 ^ 16 mod 256; v / 2 ^ 8 mod 256; v mod 256].

Lemma byte_of_spec v i : 0 <= i -> byte_of v i = v / 2 ^ (8 * i) mod 256.
Proof.
  intros Hi. unfold byte_of. rewrite Z.shiftr_div_pow2 by lia.
  change 255 with (Z.ones 8). by rewrite Z.land_ones by lia.
Qed.

Lemma land_shiftl_small a b n : 0 <= n -> 0 <= b < 2 ^ n -> Z.land (Z.shiftl a n) b = 0.
Proof.
  intros Hn Hb. apply Z.bits_inj'. intros k Hk. rewrite Z.land_spec, Z.bits_0, Z.shiftl_spec by lia.
  destruct (decide (k < n)); [by rewrite Z.testbit_neg_r by lia|].
  rewrite <- (Z.mod_small b (2 ^ n)) by lia. rewrite Z.mod_pow2_bits_high by lia. apply andb_false_r.
Qed.

(** Or-ing a value into the free low bits adds it. *)
Lemma lor_shiftl_add a b n : 0 <= n -> 0 <= b < 2 ^ n -> Z.lor (Z.shiftl a n) b = a * 2 ^ n + b.
Proof.
  intros Hn Hb. rewrite <- Z.shiftl_mul_pow2 by lia.
  by rewrite <- Z.lxor_lor, <- Z.add_nocarry_lxor by (by apply land_shiftl_small).
Qed.

Lemma word32_add b3 b2 b1 b0 :
  is_byte b3 -> is_byte b2 -> is_byte b1 -> is_byte b0 ->
  word32 b3 b2 b1 b0 = b3 * 2 ^ 24 + b2 * 2 ^ 16 + b1 * 2 ^ 8 + b0.
Proof.
  unfold is_byte, word32. intros.
  rewrite (lor_shiftl_add b1 b0 8) by lia.
  rewrite (lor_shiftl_add b2 _ 16) by lia. rewrite (lor_shiftl_add b3 _ 24) by lia. lia.
Qed.

Lemma byte_of_byte v i : 0 <= i -> is_byte (byte_of v i).
Proof. intros. rewrite byte_of_spec by done. unfold is_byte. apply Z.mod_pos_bound. lia. Qed.

#[local] Hint Resolve byte_of_byte : bw.

Ltac byte_lia :=
  unfold is_byte, is_u32 in *;
  change (2 ^ (8 * 0)) with 1 in *; change (2 ^ (8 * 1)) with 256 in *;
  change (2 ^ (8 * 2)) with 65536 in *; change (2 ^ (8 * 3)) with 16777216 in *;
  change (2 ^ 8) with 256 in *; change (2 ^ 16) with 65536 in *;
  change (2 ^ 24) with 16777216 in *; change (2 ^ 32) with 4294967296 in *;
  Z.to_euclidean_division_equations; lia.

Lemma word32_bytes b3 b2 b1 b0 :
  is_byte b3 -> is_byte b2 -> is_byte b1 -> is_byte b0 ->
  is_u32 (word32 b3 b2 b1 b0) /\
  byte_of (word32 b3 b2 b1 b0) 0 = b0 /\ byte_of (word32 b3 b2 b1 b0) 1 = b1 /\
  byte_of (word32 b3 b2 b1 b0) 2 = b2 /\ byte_of (word32 b3 b2 b1 b0) 3 = b3.
Proof.
  intros H3 H2 H1 H0. rewrite !byte_of_spec, word32_add by (done || lia). split_and!; byte_lia.
Qed.

Lemma word32_of_bytes v :
  is_u32 v -> word32 (byte_of v 3) (byte_of v 2) (byte_of v 1) (byte_of v 0) = v.
Proof.
  intros Hv. rewrite word32_add by (apply byte_of_byte; lia). rewrite !byte_of_spec by lia. byte_lia.
Qed.

(** The wire format does not depend on the host. *)
Lemma net32_big_endian le v : is_u32 v -> net32 le v = big_endian32 v.
Proof.
  intros Hv. unfold net32, store32, htonl, big_endian32. destruct le.
  - destruct (word32_bytes (byte_of v 0) (byte_of v 1) (byte_of v 2) (byte_of v 3))
      as (_ & -> & -> & -> & ->); try (apply byte_of_byte; lia).
    rewrite !byte_of_spec by lia. repeat f_equal; byte_lia.
  - rewrite !byte_of_spec by lia. repeat f_equal; byte_lia.
Qed.

Lemma from_net32_big_endian le v : is_u32 v -> from_net32 le (big_endian32 v) = Some v.
Proof.
  intros Hv. rewrite <- (net32_big_endian le v Hv).
  assert (Hb : forall i, 0 <= i -> is_byte (byte_of v i)) by (intros; by apply byte_of_byte).
  unfold from_net32, net32, store32, load32, ntohl, htonl. destruct le; simpl; f_equal.
  - destruct (word32_bytes (byte_of v 0) (byte_of v 1) (byte_of v 2) (byte_of v 3))
      as (_ & -> & -> & -> & ->); try (apply Hb; lia).
    destruct (word32_bytes (byte_of v 0) (byte_of v 1) (byte_of v 2) (byte_of v 3))
      as (_ & -> & -> & -> & ->); try (apply Hb; lia).
    by apply word32_of_bytes.
  - by apply word32_of_bytes.
Qed.

(** ** Log positions as text *)

Definition hex_digit (c : ascii) : option Z :=
  let n := Z.of_nat (nat_of_ascii c) in
  if (48 <=? n) && (n <=? 57) then Some (n - 48)
  else if (65 <=? n) && (n <=? 70) then Some (n - 55)
  else if (97 <=? n) && (n <=? 102) then Some (n - 87)
  else None.

Definition is_space (c : ascii) : bool :=
  let n := nat_of_ascii c in ((n =? 32) || (9 <=? n) && (n <=? 13))%nat.

(** The digits of a [%X] conversion; the value saturates like [strtoul]. *)
Fixpoint scan_digits (s : string) (acc : Z) : Z * string :=
  match s with
  | String c s' =>
      match hex_digit c with
      | Some d => scan_digits s' (Z.min (acc * 16 + d) (2 ^ 64 - 1))
      | None => (acc, s)
      end
  | EmptyString => (acc, s)
  end.

Fixpoint skip_spaces (s : string) : string :=
  match s with
  | String c s' => if is_space c then skip_spaces s' else s
  | EmptyString => s
  end.

Definition scan_sign (s : string) : bool * string :=
  match s with
  | String "-" s' => (true, s')
  | String "+" s' => (false, s')
  | _ => (false, s)
  end.

Definition skip_0x (s : string) : string :=
  match s with
  | String "0" (String "x" s') | String "0" (String "X" s') => s'
  | _ => s
  end.

(** [sscanf] of one [%X] into a 32-bit word, and the rest of the input. *)
Definition scan_hex (s : string) : option (Z * string) :=
  let '(neg, s) := scan_sign (skip_spaces s) in
  match skip_0x s with
  | String c _ as digits =>
      match hex_digit c with
      | Some _ =>
          let '(v, rest) := scan_digits digits 0 in
          Some (u32 (if neg : bool then - v else v), rest)
      | None => None
      end
  | EmptyString => None
  end.

(** [sscanf(s, "%X/%X", &h32, &l32) == 2], and the position put together. *)
Definition parse_lsn (s : string) : option Z :=
  '(h32, rest) ← scan_hex s;
  match rest with
  | String "/" rest =>
      '(l32, _) ← scan_hex rest;
      Some (Z.lor (Z.shiftl h32 32) l32)
  | _ => None
  end.

Definition hex_char (d : Z) : ascii :=
  ascii_of_nat (Z.to_nat (if d <? 10 then 48 + d else 55 + d)).

(** [printf("%X")] in front of [tail]; 8 digits are enough for 32 bits. *)
Fixpoint print_digits (fuel : nat) (v : Z) (tail : string) : string :=
  match fuel with
  | O => tail
  | S fuel =>
      let tail := String (hex_char (v mod 16)) tail in
      if v <? 16 then tail else print_digits fuel (v / 16) tail
  end.
Definition print_hex (v : Z) (tail : string) : string := print_digits 8 v tail.

(** [printf("%X/%X", (uint32) (lsn >> 32), (uint32) lsn)]. *)
Definition print_lsn (lsn : Z) : string :=
  print_hex (u32 (Z.shiftr lsn 32)) (String "/" (print_hex (u32 lsn) "")).

Lemma hex_char_cases (P : Z -> ascii -> Prop) :
  (forall d, d ∈ [0;1;2;3;4;5;6;7;8;9;10;11;12;13;14;15] -> P d (hex_char d)) ->
  forall d, 0 <= d < 16 -> P d (hex_char d).
Proof.
  intros H d Hd. apply H.
  assert (d = 0 \/ d = 1 \/ d = 2 \/ d = 3 \/ d = 4 \/ d = 5 \/ d = 6 \/ d = 7 \/ d = 8 \/ d = 9 \/
    d = 10 \/ d = 11 \/ d = 12 \/ d = 13 \/ d = 14 \/ d = 15) as Hc by lia.
  rewrite !elem_of_cons. tauto.
Qed.

Lemma hex_digit_char d : 0 <= d < 16 -> hex_digit (hex_char d) = Some d.
Proof.
  apply (hex_char_cases (fun d c => hex_digit c = Some d)). intros x Hx.
  repeat (apply elem_of_cons in Hx as [->|Hx]; [reflexivity|]). by apply elem_of_nil in Hx.
Qed.

Lemma hex_char_plain d :
  0 <= d < 16 -> is_space (hex_char d) = false /\ hex_char d <> "-"%char /\ hex_char d <> "+"%char /\
  (hex_char d = "0"%char -> d = 0).
Proof.
  apply (hex_char_cases (fun d c => is_space c = false /\ c <> "-"%char /\ c <> "+"%char /\
    (c = "0"%char -> d = 0))). intros x Hx.
  repeat (apply elem_of_cons in Hx as [->|Hx]; [by split_and!|]). by apply elem_of_nil in Hx.
Qed.

Ltac dlia := Z.to_euclidean_division_equations; lia.

(** The first character is a digit, and a zero only for zero. *)
Lemma print_digits_head fuel v tail :
  0 <= v ->
  exists d s, print_digits (S fuel) v tail = String (hex_char d) s /\ 0 <= d < 16 /\
    (v < 16 ^ Z.of_nat (S fuel) -> d = 0 -> v = 0 /\ s = tail).
Proof.
  revert v tail. induction fuel as [|fuel IH]; intros v tail Hv.
  - change (16 ^ Z.of_nat 1) with 16. simpl. exists (v mod 16), tail.
    destruct (v <? 16) eqn:E; (split; [done|split; [dlia|]]); intros; (split; [dlia|done]).
  - change (print_digits (S (S fuel)) v tail) with
      (let tail := String (hex_char (v mod 16)) tail in
       if v <? 16 then tail else print_digits (S fuel) (v / 16) tail). cbv zeta.
    destruct (v <? 16) eqn:E.
    + exists (v mod 16), tail. split; [done|]. split; [dlia|]. intros. split; [dlia|done].
    + destruct (IH (v / 16) (String (hex_char (v mod 16)) tail)) as (d & s & Heq & Hd & Hz); [dlia|].
      exists d, s. split; [done|]. split; [done|]. intros Hlt Hd0.
      destruct Hz as [Hz _]; [|done|exfalso; dlia].
      apply Z.div_lt_upper_bound; [dlia|]. rewrite <- Z.pow_succ_r by dlia.
      by replace (Z.succ (Z.of_nat (S fuel))) with (Z.of_nat (S (S fuel))) by dlia.
Qed.

Lemma scan_print_digits fuel v tail :
  0 <= v < 16 ^ Z.of_nat (S fuel) -> v < 2 ^ 64 ->
  scan_digits (print_digits (S fuel) v tail) 0 = scan_digits tail v.
Proof.
  revert v tail. induction fuel as [|fuel IH]; intros v tail Hv H64.
  - change (16 ^ Z.of_nat 1) with 16 in Hv.
    simpl. destruct (Z.ltb_spec v 16) as [_|]; [|dlia].
    rewrite Z.mod_small by dlia. simpl. rewrite hex_digit_char by dlia. f_equal. dlia.
  - change (print_digits (S (S fuel)) v tail) with
      (let tail := String (hex_char (v mod 16)) tail in
       if v <? 16 then tail else print_digits (S fuel) (v / 16) tail). cbv zeta.
    destruct (Z.ltb_spec v 16).
    + rewrite Z.mod_small by dlia. simpl. rewrite hex_digit_char by dlia. f_equal. dlia.
    + rewrite IH.
      * simpl. rewrite hex_digit_char by dlia. f_equal. dlia.
      * split; [dlia|]. apply Z.div_lt_upper_bound; [dlia|]. rewrite <- Z.pow_succ_r by dlia.
        replace (Z.succ (Z.of_nat (S fuel))) with (Z.of_nat (S (S fuel))) by dlia. dlia.
      * dlia.
Qed.

(** Text that ends a number: not a digit, and not the x of a 0x prefix. *)
Definition ends_number (s : string) : Prop :=
  match s with
  | EmptyString => True
  | String c _ => hex_digit c = None /\ c <> "x"%char /\ c <> "X"%char
  end.

Lemma scan_hex_print v tail :
  is_u32 v -> ends_number tail -> scan_hex (print_hex v tail) = Some (v, tail).
Proof.
  intros Hv Htail. unfold is_u32 in Hv. unfold print_hex.
  assert (H16 : v < 16 ^ Z.of_nat 8) by (change (16 ^ Z.of_nat 8) with (2 ^ 32); lia).
  destruct (print_digits_head 7 v tail) as (d & s & Heq & Hd & Hz); [lia|]. specialize (Hz H16).
  pose proof (scan_print_digits 7 v tail ltac:(lia) ltac:(lia)) as Hscan.
  rewrite Heq in Hscan |- *. destruct (hex_char_plain d Hd) as (Hsp & Hminus & Hplus & H0).
  unfold scan_hex. simpl skip_spaces. rewrite Hsp.
  assert (Hsign : scan_sign (String (hex_char d) s) = (false, String (hex_char d) s)).
  { unfold scan_sign. destruct (hex_char d) as [[] [] [] [] [] [] [] []]; try done. }
  rewrite Hsign.
  assert (Hx : skip_0x (String (hex_char d) s) = String (hex_char d) s).
  { destruct (decide (hex_char d = "0"%char)) as [E|E].
    - rewrite E. destruct (Hz (H0 E)) as [_ ->]. destruct tail as [|c t]; [done|].
      destruct Htail as (_ & Hcx & HcX). simpl.
      destruct c as [[] [] [] [] [] [] [] []]; try done.
    - unfold skip_0x. destruct (hex_char d) as [[] [] [] [] [] [] [] []]; try done. }
  rewrite Hx, hex_digit_char by done. rewrite Hscan.
  assert (Hend : scan_digits tail v = (v, tail)).
  { destruct tail as [|c t]; [done|]. simpl. by destruct Htail as (-> & _). }
  rewrite Hend, uwrap_id by done. done.
Qed.

(** A position printed by one side is read back by the other. *)
Lemma parse_print_lsn lsn : is_u64 lsn -> parse_lsn (print_lsn lsn) = Some lsn.
Proof.
  intros Hlsn. unfold parse_lsn, print_lsn.
  assert (is_u32 (u32 lsn)) by (apply uwrap_range; lia).
  assert (is_u32 (u32 (Z.shiftr lsn 32))) by (apply uwrap_range; lia).
  rewrite scan_hex_print by done. simpl.
  rewrite (scan_hex_print (u32 lsn) "") by done. simpl. f_equal.
  rewrite lor_shiftl_add by (done || lia). rewrite Z.shiftr_div_pow2 by lia. int_lia.
Qed.

(** C37: Log positions survive their text form: the position printed in START_REPLICATION is
    the one that the same format reads, for every 64-bit position. *)
Theorem lsn_roundtrip lsn : is_u64 lsn -> parse_lsn (print_lsn lsn) = Some lsn.
Proof. apply parse_print_lsn. Qed.

Lemma lsn_roundtrip_witness : parse_lsn (print_lsn 18446744073709551615) = Some 18446744073709551615.
Proof. apply (lsn_roundtrip 18446744073709551615). done. Defined.
