(* ===== verification/Libpq.v ===== *)
(** * libpq as the client uses it

    A connection is a script of what the server and the network do, consumed one call
    at a time, and a log of what the client sent. A script that has run out leaves a
    blocking call waiting ([Blocked]). Nothing else is assumed about the server. *)

From S2P Require Import Prelude.
Open Scope Z_scope.

Inductive exec_status : Type :=
| PGRES_COMMAND_OK
| PGRES_TUPLES_OK
| PGRES_SINGLE_TUPLE
| PGRES_COPY_BOTH
| PGRES_FATAL_ERROR.
#[export] Instance exec_status_eq_dec : EqDecision exec_status.
Proof. solve_decision. Defined.

(** A result: its status, its rows (null is [None]), the number of fields, the format
    of the first field. *)
Record pg_result : Type := PGresult {
  PQresultStatus : exec_status;
  res_rows : list (list (option string));
  PQnfields : Z;
  PQfformat : Z;
}.
Definition PQntuples (r : pg_result) : Z := Z.of_nat (length (res_rows r)).
(** A field of a row; null outside the result, as [PQgetisnull] reports it. *)
Definition PQgetfield (r : pg_result) (row field : nat) : option string :=
  row ← res_rows r !! row; default None (row !! field).

(** What [PQgetCopyData] finds: a message, nothing yet (0), the end of the stream (-1) or
    an error (-2). *)
Inductive copy_result : Type :=
| CopyData (buf : list Z)
| CopyNone
| CopyEnd
| CopyError.

(** What the client sent. *)
Inductive sent : Type :=
| SentQuery (query : string)
| SentParams (query : string) (args : list string)
| SentCopy (buf : list Z)
| SentFinish.

Record pg_conn : Type := PGconn {
  conn_replies : list pg_result;            (* PQexec, PQexecParams *)
  conn_results : list (option pg_result);   (* PQgetResult; None is no more rows *)
  conn_copies : list copy_result;           (* PQgetCopyData *)
  conn_puts : list Z;                       (* PQputCopyData, PQflush *)
  conn_busy : list bool;                    (* PQisBusy *)
  conn_flags : list bool;                   (* PQsendQueryParams, PQsetSingleRowMode, PQconsumeInput *)
  conn_sent : list sent;
}.

(** No connection yet. *)
Definition null_conn : pg_conn := PGconn [] [] [] [] [] [] [].

Definition log_sent (s : sent) (c : pg_conn) : pg_conn :=
  PGconn (conn_replies c) (conn_results c) (conn_copies c) (conn_puts c) (conn_busy c)
    (conn_flags c) (conn_sent c ++ [s]).

(** The answer to a command, given at once in the log. *)
Definition exec_command (s : sent) : M pg_conn pg_result := fun c =>
  match conn_replies c with
  | r :: rs =>
      (Ret r, log_sent s
         (PGconn rs (conn_results c) (conn_copies c) (conn_puts c) (conn_busy c) (conn_flags c)
            (conn_sent c)))
  | [] => (Blocked, log_sent s c)
  end.
Definition PQexec (query : string) : M pg_conn pg_result := exec_command (SentQuery query).
(** With the values of the parameters $1, $2, ... *)
Definition PQexecParams (query : string) (args : list string) : M pg_conn pg_result :=
  exec_command (SentParams query args).

Definition PQgetResult : M pg_conn (option pg_result) := fun c =>
  match conn_results c with
  | r :: rs =>
      (Ret r, PGconn (conn_replies c) rs (conn_copies c) (conn_puts c) (conn_busy c)
                (conn_flags c) (conn_sent c))
  | [] => (Blocked, c)
  end.

(** Does not block: without input there is no message yet. *)
Definition PQgetCopyData : M pg_conn copy_result := fun c =>
  match conn_copies c with
  | r :: rs =>
      (Ret r, PGconn (conn_replies c) (conn_results c) rs (conn_puts c) (conn_busy c)
                (conn_flags c) (conn_sent c))
  | [] => (Ret CopyNone, c)
  end.

(** The return value of the next call that sends. *)
Definition next_put : M pg_conn Z := fun c =>
  match conn_puts c with
  | r :: rs =>
      (Ret r, PGconn (conn_replies c) (conn_results c) (conn_copies c) rs (conn_busy c)
                (conn_flags c) (conn_sent c))
  | [] => (Blocked, c)
  end.
(** The message is on its way when the result is positive. *)
Definition PQputCopyData (buf : list Z) : M pg_conn Z :=
  r ← next_put;
  _ ← when (0 <? r) (modify (log_sent (SentCopy buf)));
  mret r.
Definition PQflush : M pg_conn Z := next_put.

Definition PQisBusy : M pg_conn bool := fun c =>
  match conn_busy c with
  | b :: bs =>
      (Ret b, PGconn (conn_replies c) (conn_results c) (conn_copies c) (conn_puts c) bs
                (conn_flags c) (conn_sent c))
  | [] => (Blocked, c)
  end.

Definition next_flag : M pg_conn bool := fun c =>
  match conn_flags c with
  | b :: bs =>
      (Ret b, PGconn (conn_replies c) (conn_results c) (conn_copies c) (conn_puts c) (conn_busy c)
                bs (conn_sent c))
  | [] => (Blocked, c)
  end.
Definition PQsendQueryParams (query : string) (args : list string) : M pg_conn bool :=
  _ ← modify (log_sent (SentParams query args)); next_flag.
Definition PQsetSingleRowMode : M pg_conn bool := next_flag.
Definition PQconsumeInput : M pg_conn bool := next_flag.

(** Closing tells the server. *)
Definition PQfinish : M pg_conn unit := modify (log_sent SentFinish).

(** The bytes of a field. *)
Definition bytes_of_string (s : string) : list Z :=
  map (fun c => Z.of_nat (Ascii.nat_of_ascii c)) (String.list_ascii_of_string s).
