(* ===== verification/Replication.v ===== *)
(** * The replication stream ([client/replication.c])

    The client side of Postgres' logical replication protocol: slots, the stream of
    messages from the server, and the periodic status updates ("checkpoints") that tell
    the server which part of the log the client no longer needs. *)

From S2P Require Import Prelude Avro AvroBinary Protocol ProtocolClient NetBytes Libpq.
Open Scope Z_scope.

Definition CHECKPOINT_INTERVAL_SEC : Z := 10.
Definition USECS_PER_SEC : Z := 1000000.
Definition SECS_PER_DAY : Z := 86400.
Definition POSTGRES_EPOCH_JDATE : Z := 2451545.
Definition UNIX_EPOCH_JDATE : Z := 2440588.
Definition InvalidXLogRecPtr : Z := 0.

(** The text of the error buffer is not modelled. [ticks] counts the readings of the
    clock. *)
Record replication_stream : Type := ReplicationStream {
  slot_name : option string;
  output_plugin : option string;
  snapshot_name : option string;
  conn : pg_conn;
  start_lsn : Z;
  recvd_lsn : Z;
  fsync_lsn : Z;
  last_checkpoint : Z;
  r_status : Z;
  ticks : nat;
}.

Definition set_slot_name v s :=
  ReplicationStream v (output_plugin s) (snapshot_name s) (conn s) (start_lsn s) (recvd_lsn s)
    (fsync_lsn s) (last_checkpoint s) (r_status s) (ticks s).
Definition set_output_plugin v s :=
  ReplicationStream (slot_name s) v (snapshot_name s) (conn s) (start_lsn s) (recvd_lsn s)
    (fsync_lsn s) (last_checkpoint s) (r_status s) (ticks s).
Definition set_conn v s :=
  ReplicationStream (slot_name s) (output_plugin s) (snapshot_name s) v (start_lsn s)
    (recvd_lsn s) (fsync_lsn s) (last_checkpoint s) (r_status s) (ticks s).
Definition set_snapshot_name v s :=
  ReplicationStream (slot_name s) (output_plugin s) v (conn s) (start_lsn s) (recvd_lsn s)
    (fsync_lsn s) (last_checkpoint s) (r_status s) (ticks s).
Definition set_start_lsn v s :=
  ReplicationStream (slot_name s) (output_plugin s) (snapshot_name s) (conn s) v (recvd_lsn s)
    (fsync_lsn s) (last_checkpoint s) (r_status s) (ticks s).
Definition set_recvd_lsn v s :=
  ReplicationStream (slot_name s) (output_plugin s) (snapshot_name s) (conn s) (start_lsn s) v
    (fsync_lsn s) (last_checkpoint s) (r_status s) (ticks s).
Definition set_fsync_lsn v s :=
  ReplicationStream (slot_name s) (output_plugin s) (snapshot_name s) (conn s) (start_lsn s)
    (recvd_lsn s) v (last_checkpoint s) (r_status s) (ticks s).
Definition set_last_checkpoint v s :=
  ReplicationStream (slot_name s) (output_plugin s) (snapshot_name s) (conn s) (start_lsn s)
    (recvd_lsn s) (fsync_lsn s) v (r_status s) (ticks s).
Definition set_r_status v s :=
  ReplicationStream (slot_name s) (output_plugin s) (snapshot_name s) (conn s) (start_lsn s)
    (recvd_lsn s) (fsync_lsn s) (last_checkpoint s) v (ticks s).
Definition tick s :=
  ReplicationStream (slot_name s) (output_plugin s) (snapshot_name s) (conn s) (start_lsn s)
    (recvd_lsn s) (fsync_lsn s) (last_checkpoint s) (r_status s) (S (ticks s)).

#[export] Instance Has_conn : Has pg_conn replication_stream.
Proof. by refine {| prj := conn; upd := set_conn |}; intros; destruct x. Defined.

(** ** Integers on the wire *)

Section wire.
Context (le : bool).

Definition sendint64 (i64 : Z) : list Z :=
  net32 le (u32 (Z.shiftr i64 32)) ++ net32 le (u32 i64).

Definition recvint64 (buf : list Z) : option Z :=
  h32 ← load32 le (take 4 buf);
  l32 ← load32 le (take 4 (drop 4 buf));
  let result := s64 (Z.shiftl (ntohl le h32) 32) in
  Some (Z.lor result (ntohl le l32)).

(** ** Slots *)

(** Empty or missing. *)
Definition unset (s : option string) : bool :=
  match s with None | Some EmptyString => true | _ => false end.
Definition text (s : option string) : string := default "" s.
Definition quote (s : string) : string := String (Ascii.ascii_of_nat 34) (s +:+ String (Ascii.ascii_of_nat 34) "").

Definition replication_slot_create : M replication_stream unit :=
  stream ← gets (fun s => s);
  if unset (slot_name stream) then fail EINVAL
  else if unset (output_plugin stream) then fail EINVAL
  else
    res ← zoom (PQexec ("CREATE_REPLICATION_SLOT " +:+ quote (text (slot_name stream)) +:+
                        " LOGICAL " +:+ quote (text (output_plugin stream))));
    if negb (bool_decide (PQresultStatus res = PGRES_TUPLES_OK)) then fail EIO
    else if negb (PQntuples res =? 1) || negb (PQnfields res =? 4) then fail EIO
    else
      match PQgetfield res 0 1, PQgetfield res 0 2 with
      | Some lsn, Some snapshot =>
          match parse_lsn lsn with
          | Some v =>
              _ ← modify (set_start_lsn v);
              modify (set_snapshot_name (Some snapshot))
          | None => fail EIO
          end
      | _, _ => fail EIO
      end.

Definition replication_slot_drop : M replication_stream unit :=
  stream ← gets (fun s => s);
  res ← zoom (PQexec ("DROP_REPLICATION_SLOT " +:+ quote (text (slot_name stream))));
  if bool_decide (PQresultStatus res = PGRES_COMMAND_OK) then mret () else fail EIO.

Definition replication_stream_check : M replication_stream unit :=
  res ← zoom (PQexec "IDENTIFY_SYSTEM");
  if negb (bool_decide (PQresultStatus res = PGRES_TUPLES_OK)) then fail EIO
  else if negb (PQntuples res =? 1) || (PQnfields res <? 4) then fail EIO
  else match PQgetfield res 0 3 with Some _ => mret () | None => fail EIO end.

Definition replication_stream_start : M replication_stream unit :=
  stream ← gets (fun s => s);
  res ← zoom (PQexec ("START_REPLICATION SLOT " +:+ quote (text (slot_name stream)) +:+
                      " LOGICAL " +:+ print_lsn (start_lsn stream)));
  if bool_decide (PQresultStatus res = PGRES_COPY_BOTH) then mret () else fail EIO.

(** A null result has the status of a fatal error. *)
Definition replication_stream_finish : M replication_stream unit :=
  res ← zoom PQgetResult;
  match res with
  | Some r => if bool_decide (PQresultStatus r = PGRES_COMMAND_OK) then mret () else fail EIO
  | None => fail EIO
  end.

(** ** Status updates *)

(** [gettimeofday]: seconds and microseconds at each reading. *)
Context (clock : nat -> Z * Z).

Definition current_time : M replication_stream Z :=
  n ← gets ticks;
  _ ← modify tick;
  let '(tv_sec, tv_usec) := clock n in
  let timestamp := tv_sec - (POSTGRES_EPOCH_JDATE - UNIX_EPOCH_JDATE) * SECS_PER_DAY in
  mret (s64 (timestamp * USECS_PER_SEC + tv_usec)).

Definition checkpoint_message (recvd fsync now : Z) : list Z :=
  [114] ++ sendint64 (s64 recvd) ++ sendint64 (s64 fsync) ++ sendint64 InvalidXLogRecPtr ++
  sendint64 now ++ [0].

Definition send_checkpoint (now : Z) : M replication_stream unit :=
  stream ← gets (fun s => s);
  put ← zoom (PQputCopyData (checkpoint_message (recvd_lsn stream) (fsync_lsn stream) now));
  if put <=? 0 then fail EIO
  else
    flush ← zoom PQflush;
    if negb (flush =? 0) then fail EIO else modify (set_last_checkpoint now).

Definition replication_stream_keepalive : M replication_stream unit :=
  recvd ← gets recvd_lsn;
  when (negb (recvd =? InvalidXLogRecPtr)) (
    now ← current_time;
    last ← gets last_checkpoint;
    when (CHECKPOINT_INTERVAL_SEC * USECS_PER_SEC <? s64 (now - last)) (send_checkpoint now)).

(** ** Messages from the server *)

Definition parse_keepalive_message (buf : list Z) : M replication_stream unit :=
  if Z.of_nat (length buf) <? 1 + 8 + 8 + 1 then fail EIO
  else
    match recvint64 (drop 1 buf), buf !! 17%nat with
    | Some v, Some reply_requested =>
        let wal_pos := u64 v in
        _ ← modify (fun s => set_recvd_lsn (Z.max wal_pos (recvd_lsn s)) s);
        when (negb (reply_requested =? 0)) (now ← current_time; send_checkpoint now)
    | _, _ => stop Undef
    end.

Context (L : avro_lib) {X : Type} `{HX : Has replication_stream X} (cbs : callbacks X).
Abbreviation MC := (M (frame_reader * X)).

(** A computation on the stream, inside the state of the callbacks. *)
Definition on_stream {A} (m : M replication_stream A) : MC A := zoom (zoom (X := X) m).

Definition hdrlen : Z := 1 + 8 + 8 + 8.

Definition parse_xlogdata_message (buf : list Z) : MC unit :=
  if Z.of_nat (length buf) <? hdrlen + 1 then fail EIO
  else
    match recvint64 (drop 1 buf) with
    | Some v =>
        let wal_pos := u64 v in
        err ← status (parse_frame L cbs wal_pos (drop (Z.to_nat hdrlen) buf));
        _ ← on_stream (modify (fun s => set_recvd_lsn (Z.max wal_pos (recvd_lsn s)) s));
        if err =? 0 then mret () else fail err
    | None => stop Undef
    end.

(** One message, by its first byte: 'k' or 'w'. *)
Definition parse_message (buf : list Z) : MC unit :=
  match buf with
  | [] => fail EIO
  | c :: _ =>
      if c =? 107 then on_stream (parse_keepalive_message buf)
      else if c =? 119 then parse_xlogdata_message buf
      else fail EIO
  end.

Definition replication_stream_poll : MC unit :=
  ret ← on_stream (zoom PQgetCopyData);
  match ret with
  | CopyEnd =>
      err ← status (on_stream replication_stream_finish);
      _ ← on_stream (modify (set_r_status (-1)));
      if err =? 0 then mret () else fail err
  | CopyError =>
      _ ← on_stream (modify (set_r_status (-2)));
      fail EIO
  | CopyNone | CopyData [] =>
      _ ← on_stream (modify (set_r_status 0));
      on_stream replication_stream_keepalive
  | CopyData buf =>
      _ ← on_stream (modify (set_r_status 1));
      _ ← parse_message buf;
      on_stream replication_stream_keepalive
  end.

End wire.

(** ** What a poll is made of

    A compositional property holds of a poll if it holds of work on the frame reader, of
    the callbacks, and of the few things a poll does to the stream. *)

Record stream_work (le : bool) (clock : nat -> Z * Z)
  (Q : forall A, M replication_stream A -> Prop) : Prop := {
  work_copy : Q _ (zoom PQgetCopyData);
  work_finish : Q _ replication_stream_finish;
  work_keepalive : Q _ (replication_stream_keepalive le clock);
  work_message buf : Q _ (parse_keepalive_message le clock buf);
  work_recvd v : is_u64 v -> Q _ (modify (fun s => set_recvd_lsn (Z.max v (recvd_lsn s)) s));
  work_status v : Q _ (modify (set_r_status v));
}.

Section poll_comp.
Context (le : bool) (clock : nat -> Z * Z) (L : avro_lib).
Context {X : Type} `{HX : Has replication_stream X} (cbs : callbacks X).
Context (P : forall A, M (frame_reader * X) A -> Prop) (Q : forall A, M replication_stream A -> Prop).
Context {HP : Compositional P} (Hreader : forall A (m : M frame_reader A), P A (zoom m)).
Context (Hcbs : forall w e, is_u64 w -> P unit (zoom (notify cbs w e))).
Context (Hstream : forall A (m : M replication_stream A), Q A m -> P A (on_stream m)).
Context (Hwork : stream_work le clock Q).

Lemma parse_message_comp buf : P unit (parse_message le clock L cbs buf).
Proof.
  unfold parse_message, parse_xlogdata_message. destruct buf as [|c buf]; [apply comp_stop|].
  destruct (c =? 107); [apply Hstream, Hwork|]. destruct (c =? 119); [|apply comp_stop].
  destruct (_ <? _); [apply comp_stop|]. destruct (recvint64 _ _) as [v|]; [|apply comp_stop].
  apply comp_bind; [apply comp_status, parse_frame_comp; auto using u64_range|intros err].
  apply comp_bind; [apply Hstream, Hwork, u64_range|intros _].
  destruct (err =? 0); [apply comp_ret|apply comp_stop].
Qed.

Lemma poll_comp : P unit (replication_stream_poll le clock L cbs).
Proof.
  unfold replication_stream_poll. apply comp_bind; [apply Hstream, Hwork|intros ret].
  destruct ret as [[|b buf]| | |].
  - apply comp_bind; [|intros _]; apply Hstream, Hwork.
  - apply comp_bind; [apply Hstream, Hwork|intros _].
    apply comp_bind; [apply parse_message_comp|intros _; apply Hstream, Hwork].
  - apply comp_bind; [|intros _]; apply Hstream, Hwork.
  - apply comp_bind; [apply comp_status, Hstream, Hwork|intros err].
    apply comp_bind; [apply Hstream, Hwork|intros _].
    destruct (err =? 0); [apply comp_ret|apply comp_stop].
  - apply comp_bind; [apply Hstream, Hwork|intros _; apply comp_stop].
Qed.

End poll_comp.

(** A status update changes the connection and its time only. *)
Lemma preserves_update (I : replication_stream -> Prop) le now :
  (forall c s, I s -> I (set_conn c s)) -> (forall v s, I s -> I (set_last_checkpoint v s)) ->
  preserves I (send_checkpoint le now).
Proof.
  intros Hc Ht.
  assert (Hz : forall A (m : M pg_conn A), preserves I (zoom m)).
  { intros A m s Hs. unfold zoom. destruct (m (prj s)). by apply Hc. }
  apply preserves_bind; [apply preserves_gets|intros s]. apply preserves_bind; [apply Hz|intros put].
  destruct (put <=? 0); [apply preserves_stop|]. apply preserves_bind; [apply Hz|intros flush].
  destruct (negb _); [apply preserves_stop|]. apply preserves_modify. auto.
Qed.

(** ** Integers on the wire: any two hosts understand each other *)

Lemma sendint64_wire le v :
  sendint64 le v = big_endian32 (u32 (Z.shiftr v 32)) ++ big_endian32 (u32 v).
Proof. unfold sendint64. by rewrite !net32_big_endian by (apply uwrap_range; lia). Qed.

Lemma length_sendint64 le v : length (sendint64 le v) = 8%nat.
Proof. by rewrite sendint64_wire. Qed.

Lemma recv_sendint64 le le' v rest :
  is_s64 v -> recvint64 le (sendint64 le' v ++ rest) = Some v.
Proof.
  intros Hv. rewrite sendint64_wire. unfold recvint64.
  assert (Hload : forall w, is_u32 w -> exists x, load32 le (big_endian32 w) = Some x /\ ntohl le x = w).
  { intros w Hw. pose proof (from_net32_big_endian le w Hw) as H. unfold from_net32 in H.
    destruct (load32 le (big_endian32 w)) as [x|] eqn:E; simplify_eq/=. eauto. }
  destruct (Hload (u32 (Z.shiftr v 32))) as (h & Hh & Eh); [apply uwrap_range; lia|].
  destruct (Hload (u32 v)) as (l & Hl & El); [apply uwrap_range; lia|].
  rewrite <- (assoc_L (++)).
  change (take 4 (big_endian32 (u32 (Z.shiftr v 32)) ++ big_endian32 (u32 v) ++ rest))
    with (big_endian32 (u32 (Z.shiftr v 32))).
  change (take 4 (drop 4 (big_endian32 (u32 (Z.shiftr v 32)) ++ big_endian32 (u32 v) ++ rest)))
    with (big_endian32 (u32 v)).
  rewrite Hh, Hl. simpl. rewrite Eh, El. f_equal.
  rewrite Z.shiftl_mul_pow2, Z.shiftr_div_pow2 by lia.
  assert (Hs : s64 (u32 (v / 2 ^ 32) * 2 ^ 32) = Z.shiftl (v / 2 ^ 32) 32).
  { rewrite Z.shiftl_mul_pow2 by lia. int_lia. }
  rewrite Hs, lor_shiftl_add by (try apply uwrap_range; lia). int_lia.
Qed.

(** The message that reaches the server: 34 bytes, 'r', the three positions, the time
    and a zero. *)
Lemma checkpoint_message_layout le recvd fsync now :
  is_u64 recvd -> is_u64 fsync -> is_s64 now ->
  let m := checkpoint_message le recvd fsync now in
  length m = 34%nat /\ m !! 0%nat = Some 114 /\
  (forall le', u64 <$> recvint64 le' (drop 1 m) = Some recvd /\
    u64 <$> recvint64 le' (drop 9 m) = Some fsync /\
    recvint64 le' (drop 17 m) = Some 0 /\ recvint64 le' (drop 25 m) = Some now) /\
  m !! 33%nat = Some 0.
Proof.
  intros Hr Hf Hn m. unfold m, checkpoint_message.
  set (a := sendint64 le (s64 recvd)). set (b := sendint64 le (s64 fsync)).
  set (c := sendint64 le InvalidXLogRecPtr). set (d := sendint64 le now).
  assert (length a = 8 /\ length b = 8 /\ length c = 8 /\ length d = 8)%nat as (Ha & Hb & Hc & Hd).
  { split_and!; apply length_sendint64. }
  assert (Hdrop : forall (k : nat) (pre suf : list Z), length pre = k -> drop k (pre ++ suf) = suf).
  { intros k pre suf <-. apply drop_app_length. }
  split; [rewrite !length_app, Ha, Hb, Hc, Hd; done|]. split; [done|]. split.
  - intros le'. split_and!.
    + rewrite Hdrop by done. unfold a. rewrite recv_sendint64 by apply s64_range. simpl. by rewrite u64_s64.
    + rewrite (assoc_L (++)), Hdrop by (rewrite length_app, Ha; done).
      unfold b. rewrite recv_sendint64 by apply s64_range. simpl. by rewrite u64_s64.
    + rewrite !(assoc_L (++)), <- (assoc_L (++) ((([114] ++ a) ++ b) ++ c) d [0]),
        <- (assoc_L (++) (([114] ++ a) ++ b) c), Hdrop by (rewrite !length_app, Ha, Hb; done).
      by apply recv_sendint64.
    + rewrite !(assoc_L (++)), <- (assoc_L (++) ((([114] ++ a) ++ b) ++ c) d [0]),
        Hdrop by (rewrite !length_app, Ha, Hb, Hc; done).
      by apply recv_sendint64.
  - rewrite !(assoc_L (++)). rewrite lookup_app_r by (rewrite !length_app, Ha, Hb, Hc, Hd; done).
    by rewrite !length_app, Ha, Hb, Hc, Hd.
Qed.

(** ** Work on the stream

    Between the callbacks the flushed position stays, the received one grows, and only
    status updates with these positions are sent. *)

(** Status updates in the log. *)
Definition is_update (x : sent) : bool := if x is SentCopy _ then true else false.

(** The log grows by something else at most. *)
Definition mute (c c' : pg_conn) : Prop :=
  exists new, conn_sent c' = conn_sent c ++ new /\ existsb is_update new = false.
Lemma mute_same c c' : conn_sent c' = conn_sent c -> mute c c'.
Proof. intros E. exists []. by rewrite E, app_nil_r. Qed.
Lemma mute_one c c' x : conn_sent c' = conn_sent c ++ [x] -> is_update x = false -> mute c c'.
Proof. intros E Hx. exists [x]. simpl. by rewrite Hx. Qed.
Lemma no_update_in (l : list sent) buf : existsb is_update l = false -> SentCopy buf ∉ l.
Proof.
  intros Hl Hb. assert (H : existsb is_update l = true); [|congruence].
  apply existsb_exists. exists (SentCopy buf). by rewrite <- list_elem_of_In.
Qed.

(** [s'] comes after [s], with status updates sent in between at most. *)
Definition updates (le : bool) (s s' : replication_stream) : Prop :=
  recvd_lsn s <= recvd_lsn s' /\ (is_u64 (recvd_lsn s) -> is_u64 (recvd_lsn s')) /\ fsync_lsn s' = fsync_lsn s /\
  exists new, conn_sent (conn s') = conn_sent (conn s) ++ new /\
    forall buf, SentCopy buf ∈ new -> exists now, buf = checkpoint_message le (recvd_lsn s) (fsync_lsn s) now.

Lemma updates_mute le s s' :
  mute (conn s) (conn s') -> recvd_lsn s <= recvd_lsn s' -> (is_u64 (recvd_lsn s) -> is_u64 (recvd_lsn s')) ->
  fsync_lsn s' = fsync_lsn s -> updates le s s'.
Proof.
  intros (new & Hc & Hn) Hr Hu Hf. do 3 (split; [done|]). exists new. split; [done|].
  intros buf Hb. by destruct (no_update_in new buf).
Qed.

(** What such steps keep. *)
Definition held (le : bool) (I : replication_stream -> Prop) : Prop :=
  forall s s', updates le s s' -> I s -> I s'.

Section held.
Context (le : bool) (clock : nat -> Z * Z) (I : replication_stream -> Prop) (HI : held le I).

Lemma held_modify (f : replication_stream -> replication_stream) :
  (forall s, conn (f s) = conn s) ->
  (forall s, recvd_lsn s <= recvd_lsn (f s) /\ (is_u64 (recvd_lsn s) -> is_u64 (recvd_lsn (f s)))) ->
  (forall s, fsync_lsn (f s) = fsync_lsn s) -> preserves I (modify f).
Proof.
  intros Hc Hr Hf. apply preserves_modify. intros s. apply HI. apply updates_mute; [|apply Hr..|done].
  apply mute_same. by rewrite Hc.
Qed.

Lemma held_conn {A} (m : M pg_conn A) : (forall c, mute c (snd (m c))) -> preserves I (zoom m).
Proof.
  intros Hm s. apply HI. unfold zoom. simpl. specialize (Hm (conn s)). destruct (m (conn s)) as [o c].
  by apply updates_mute.
Qed.

(** A command. *)
Lemma held_query q : preserves I (zoom (PQexec q)).
Proof.
  apply held_conn. intros c. unfold PQexec, exec_command. by destruct (conn_replies c); eapply mute_one.
Qed.

Lemma held_start : preserves I replication_stream_start.
Proof.
  unfold replication_stream_start. apply preserves_bind; [apply preserves_gets|intros s].
  apply preserves_bind; [apply held_query|intros res].
  destruct (bool_decide _); [apply preserves_ret|apply preserves_stop].
Qed.

Lemma held_drop : preserves I replication_slot_drop.
Proof.
  unfold replication_slot_drop. apply preserves_bind; [apply preserves_gets|intros s].
  apply preserves_bind; [apply held_query|intros res].
  destruct (bool_decide _); [apply preserves_ret|apply preserves_stop].
Qed.

Lemma held_consume : preserves I (zoom PQconsumeInput).
Proof.
  apply held_conn. intros c. apply mute_same. unfold PQconsumeInput, next_flag. by destruct (conn_flags c).
Qed.

Lemma held_time : preserves I (current_time clock).
Proof.
  apply preserves_bind; [apply preserves_gets|intros n]. apply preserves_bind; [by apply held_modify|].
  intros _. destruct (clock n). apply preserves_ret.
Qed.

Lemma held_send_checkpoint now : preserves I (send_checkpoint le now).
Proof.
  intros s. apply HI.
  assert (Hlog : forall s', conn_sent (conn s') =
      conn_sent (conn s) ++ [SentCopy (checkpoint_message le (recvd_lsn s) (fsync_lsn s) now)] ->
    recvd_lsn s' = recvd_lsn s -> fsync_lsn s' = fsync_lsn s -> updates le s s').
  { intros s' Hl Hr Hf. split; [lia|]. split; [by rewrite Hr|]. split; [done|]. eexists. split; [exact Hl|].
    intros buf [= ->]%list_elem_of_singleton. by exists now. }
  unfold send_checkpoint, PQputCopyData, PQflush, next_put, when, gets, zoom, mbind, M_bind. simpl.
  destruct (conn_puts (conn s)) as [|p ps] eqn:Hp; [apply updates_mute; [by apply mute_same|done..]|]. simpl.
  destruct (Z.ltb_spec 0 p) as [Hpos|Hneg]; simpl.
  - destruct (Z.leb_spec p 0); [lia|]. simpl. destruct ps as [|f ps]; [by apply Hlog|]. simpl.
    destruct (negb _); by apply Hlog.
  - destruct (Z.leb_spec p 0); [apply updates_mute; [by apply mute_same|done..]|lia].
Qed.

Lemma held_keepalive : preserves I (replication_stream_keepalive le clock).
Proof.
  apply preserves_bind; [apply preserves_gets|intros recvd]. apply preserves_when. intros _.
  apply preserves_bind; [apply held_time|intros now].
  apply preserves_bind; [apply preserves_gets|intros last]. apply preserves_when. intros _.
  apply held_send_checkpoint.
Qed.

Lemma held_recvd v : is_u64 v -> preserves I (modify (fun s => set_recvd_lsn (Z.max v (recvd_lsn s)) s)).
Proof. intros Hv. apply held_modify; [done| |done]. intros s. simpl. unfold is_u64 in *. lia. Qed.

Lemma held_parse_keepalive buf : preserves I (parse_keepalive_message le clock buf).
Proof.
  unfold parse_keepalive_message. case_match; [apply preserves_stop|].
  destruct (recvint64 le (drop 1 buf)); [|apply preserves_stop].
  destruct (buf !! 17%nat); [|apply preserves_stop].
  apply preserves_bind; [apply held_recvd, u64_range|intros _]. apply preserves_when. intros _.
  apply preserves_bind; [apply held_time|apply held_send_checkpoint].
Qed.

Lemma held_stream : stream_work le clock (fun A => @preserves _ A I).
Proof.
  split.
  - apply held_conn. intros c. apply mute_same. unfold PQgetCopyData. by destruct (conn_copies c).
  - apply preserves_bind.
    + apply held_conn. intros c. apply mute_same. unfold PQgetResult. by destruct (conn_results c).
    + intros [res|]; [destruct (bool_decide _)|]; first [apply preserves_ret|apply preserves_stop].
  - apply held_keepalive.
  - apply held_parse_keepalive.
  - apply held_recvd.
  - intros v. by apply held_modify.
Qed.

End held.

(** ** What the server is told *)

(** The flushed position that a server reads in a status update. *)
Definition flush_position (le : bool) (buf : list Z) : option Z := u64 <$> recvint64 le (drop 9 buf).

Lemma flush_position_message le le' recvd fsync now :
  flush_position le' (checkpoint_message le recvd fsync now) = Some (u64 fsync).
Proof.
  unfold flush_position, checkpoint_message.
  rewrite (assoc_L (++)), drop_app_length' by (by rewrite length_app, length_sendint64).
  rewrite recv_sendint64 by apply s64_range. cbn [fmap option_fmap option_map]. f_equal. int_lia.
Qed.

(** No update sent so far tells more than [v]. *)
Definition told_at_most (v : Z) (s : replication_stream) : Prop :=
  forall le buf p, SentCopy buf ∈ conn_sent (conn s) -> flush_position le buf = Some p -> p <= v.

Lemma told_mono v v' s : v <= v' -> told_at_most v s -> told_at_most v' s.
Proof. intros Hv Ht le buf p Hb Hp. specialize (Ht le buf p Hb Hp). lia. Qed.

(** Other messages do not count. *)
Lemma told_log v s s' x :
  conn_sent (conn s') = conn_sent (conn s) ++ [x] -> is_update x = false -> told_at_most v s -> told_at_most v s'.
Proof.
  intros Hc Hx Ht le buf p Hb. apply (Ht le). rewrite Hc in Hb.
  by apply elem_of_app in Hb as [Hb|<-%list_elem_of_singleton].
Qed.

(** No update was sent. *)
Definition no_update (s : replication_stream) : Prop := existsb is_update (conn_sent (conn s)) = false.
Lemma no_update_told v s : no_update s -> told_at_most v s.
Proof. intros Hn le buf p Hb _. by destruct (no_update_in _ buf Hn). Qed.

(** A position that the server read in an update. *)
Definition was_told (le : bool) (s : replication_stream) (v : Z) : Prop :=
  exists buf, SentCopy buf ∈ conn_sent (conn s) /\ flush_position le buf = Some v.

(** The flushed position is [v], and covers what was told. *)
Definition steady (v : Z) (s : replication_stream) : Prop := fsync_lsn s = v /\ told_at_most v s.

Lemma steady_holds le v : 0 <= v -> held le (steady v).
Proof.
  intros Hv s s' (_ & _ & Hf & new & Hlog & Hsent) [<- Ht]. split; [done|]. intros le' buf p Hbuf Hp.
  rewrite Hlog in Hbuf. apply elem_of_app in Hbuf as [Hold|Hnew]; [by eapply Ht|].
  destruct (Hsent buf Hnew) as [now ->].
  rewrite flush_position_message in Hp. injection Hp as <-. unfold u64, uwrap. apply Z.mod_le; lia.
Qed.

(** Both positions of a status update: received and flushed. *)
Definition update_positions (le : bool) (buf : list Z) : option (Z * Z) :=
  recvd ← recvint64 le (drop 1 buf);
  flushed ← flush_position le buf;
  Some (u64 recvd, flushed).

Lemma update_positions_message le le' recvd fsync now :
  is_u64 recvd -> is_u64 fsync ->
  update_positions le' (checkpoint_message le recvd fsync now) = Some (recvd, fsync).
Proof.
  intros Hr Hf. unfold update_positions. rewrite flush_position_message. unfold checkpoint_message. simpl.
  rewrite drop_0, recv_sendint64 by apply s64_range. simpl. rewrite u64_s64 by done. do 2 f_equal. int_lia.
Qed.

(** The positions fit in 64 bits. *)
Definition well_placed (s : replication_stream) : Prop := is_u64 (recvd_lsn s) /\ is_u64 (fsync_lsn s).

(** What was sent from [s] to [s'] was added to the log, and every status update among it
    is one whose positions, as any server reads them, the client had reached by then. *)
Definition reports (s s' : replication_stream) : Prop :=
  exists new, conn_sent (conn s') = conn_sent (conn s) ++ new /\
    forall buf, SentCopy buf ∈ new -> exists recvd flushed,
      (forall le, update_positions le buf = Some (recvd, flushed)) /\
      recvd_lsn s <= recvd <= recvd_lsn s' /\ fsync_lsn s <= flushed <= fsync_lsn s'.

(** From [s] to [s'] nothing is unlearned, and the reports are right. *)
Definition progress (s s' : replication_stream) : Prop :=
  well_placed s' /\ recvd_lsn s <= recvd_lsn s' /\ fsync_lsn s <= fsync_lsn s' /\ reports s s'.

Lemma progress_mute s s' :
  well_placed s' -> mute (conn s) (conn s') -> recvd_lsn s <= recvd_lsn s' -> fsync_lsn s <= fsync_lsn s' ->
  progress s s'.
Proof.
  intros Hw (new & Hc & Hn) Hr Hf. do 3 (split; [done|]). exists new. split; [done|].
  intros buf Hb. by destruct (no_update_in new buf).
Qed.

Lemma progress_refl s : well_placed s -> progress s s.
Proof. intros Hw. apply progress_mute; [done|by apply mute_same|lia..]. Qed.

Lemma progress_trans s1 s2 s3 : progress s1 s2 -> progress s2 s3 -> progress s1 s3.
Proof.
  intros (_ & Hr & Hf & new & Hc & Hn) (Hw & Hr' & Hf' & new' & Hc' & Hn').
  split; [done|]. split; [lia|]. split; [lia|]. exists (new ++ new'). split; [by rewrite Hc', Hc, (assoc_L (++))|].
  intros buf [Hb|Hb]%elem_of_app; [destruct (Hn buf Hb) as (r & f & E & ? & ?)|destruct (Hn' buf Hb) as (r & f & E & ? & ?)];
    exists r, f; (split; [done|lia]).
Qed.

Lemma progress_updates le s s' : well_placed s -> updates le s s' -> progress s s'.
Proof.
  intros [Hr Hf] (Hrecvd & Hu & Hfsync & new & Hc & Hn). split; [by split; [auto|rewrite Hfsync]|].
  split; [done|]. split; [lia|]. exists new. split; [done|]. intros buf Hb. destruct (Hn buf Hb) as [now ->].
  exists (recvd_lsn s), (fsync_lsn s). split; [|lia]. intros le'. by apply update_positions_message.
Qed.

Lemma progress_holds le s0 : held le (progress s0).
Proof. intros s s' Hup Hs. eapply progress_trans; [exact Hs|]. eapply progress_updates; [apply Hs|exact Hup]. Qed.

Section reports.
Context (le : bool) (clock : nat -> Z * Z).
Context (L : avro_lib) {X : Type} `{HX : Has replication_stream X} (cbs : callbacks X).
Abbreviation PX s0 := (fun rx : frame_reader * X => progress s0 (prj (snd rx))).

Lemma preserves_on_stream {A} s0 (m : M replication_stream A) :
  preserves (progress s0) m -> preserves (PX s0) (on_stream m).
Proof.
  intros Hm [r x] Hx. specialize (Hm (prj x) Hx). unfold on_stream, zoom. simpl.
  destruct (m (prj x)) as [o s]. simpl in *. by rewrite prj_upd.
Qed.

Lemma preserves_poll s0 :
  (forall w e, is_u64 w -> preserves (fun x => progress s0 (prj x)) (notify cbs w e)) ->
  preserves (PX s0) (replication_stream_poll le clock L cbs).
Proof.
  intros Hcbs.
  apply (poll_comp le clock L cbs (fun A => @preserves _ A (PX s0)) (fun A => @preserves _ A (progress s0))).
  - intros A m [r x] Hx. unfold zoom. simpl. by destruct (m r).
  - intros w e Hw [r x] Hx. specialize (Hcbs w e Hw x Hx). unfold zoom. simpl. by destruct (notify cbs w e x).
  - intros A m. apply preserves_on_stream.
  - apply held_stream, progress_holds.
Qed.


End reports.

(** ** Properties of the wire format *)

(** 64-bit integers survive the wire: what one host writes with [sendint64], whatever its
    byte order, another reads back with [recvint64], for every signed 64-bit value; the
    bytes are the big-endian representation. *)
Theorem int64_roundtrip sender receiver v rest :
  is_s64 v ->
  length (sendint64 sender v) = 8%nat /\
  sendint64 sender v = big_endian32 (u32 (Z.shiftr v 32)) ++ big_endian32 (u32 v) /\
  recvint64 receiver (sendint64 sender v ++ rest) = Some v.
Proof.
  intros Hv. split; [apply length_sendint64|]. split; [apply sendint64_wire|by apply recv_sendint64].
Qed.

(** C38: The standby status update has the layout the replication protocol asks for: 34 bytes,
    'r', then the received, flushed and applied positions and the time, each of which any
    receiver decodes to the value sent (also positions above 2^63), then a zero byte. *)
Theorem status_update_layout le recvd fsync now :
  is_u64 recvd -> is_u64 fsync -> is_s64 now ->
  let m := checkpoint_message le recvd fsync now in
  length m = 34%nat /\ m !! 0%nat = Some 114 /\
  (forall le', u64 <$> recvint64 le' (drop 1 m) = Some recvd /\
    u64 <$> recvint64 le' (drop 9 m) = Some fsync /\
    recvint64 le' (drop 17 m) = Some 0 /\ recvint64 le' (drop 25 m) = Some now) /\
  m !! 33%nat = Some 0.
Proof. apply checkpoint_message_layout. Qed.

Lemma int64_roundtrip_witness :
  recvint64 true (sendint64 false (-2) ++ []) = Some (-2).
Proof. apply (int64_roundtrip false true (-2) []). done. Defined.

Lemma status_update_layout_witness :
  length (checkpoint_message true 18446744073709551615 20 5) = 34%nat.
Proof. apply (status_update_layout true 18446744073709551615 20 5); done. Defined.

(** The server sends a keepalive for position 77 that asks for a reply. *)
Definition sample_stream : replication_stream :=
  ReplicationStream (Some "slot") (Some "plugin") None
    (PGconn [] [] [CopyData ([107] ++ sendint64 true 77 ++ sendint64 true 0 ++ [1])] [1; 0] [] [] [])
    0 0 0 0 0 0.
Definition sample_clock (_ : nat) : Z * Z := (1000000000, 5).

Abbreviation sample_polled :=
  (snd (snd (replication_stream_poll true sample_clock ref_lib no_callbacks (sample_reader, sample_stream)))).

Lemma sample_polled_reply :
  recvd_lsn sample_polled = 77 /\ fsync_lsn sample_polled = 0 /\
  exists buf, conn_sent (conn sample_polled) = [SentCopy buf].
Proof. split_and!; [by vm_compute..|]. eexists. vm_compute. reflexivity. Qed.


(** The reply reports the position of the keepalive. *)
Example sample_reply :
  let s := snd (snd (replication_stream_poll true sample_clock ref_lib no_callbacks
    (sample_reader, sample_stream))) in
  recvd_lsn s = 77 /\ exists now, conn_sent (conn s) = [SentCopy (checkpoint_message true 77 0 now)].
Proof. split; [by vm_compute|]. exists 53315200000005. by vm_compute. Qed.
