(* ===== verification/Connect.v ===== *)
(** * The database client ([client/connect.c])

    Two connections to Postgres: one for SQL, over which the initial snapshot is read,
    and one for the replication stream. The client creates the slot and takes the
    snapshot when the slot does not exist yet, and otherwise resumes streaming. *)

From S2P Require Import Prelude Avro AvroBinary Protocol Oid2Avro ProtocolClient EndToEnd.
From S2P Require Import NetBytes Libpq Replication.
Open Scope Z_scope.

(** [PQconnectdb]: the connection object and whether its status is CONNECTION_OK. *)
Abbreviation connected := (pg_conn * bool)%type.

(** The client's state. The environment is part of it: the outcomes of connection
    attempts and of [select] (return value and errno) still to come, and the parameters
    the replication connection was opened with. *)
Record client_context : Type := ClientContext {
  conninfo : option string;
  app_name : option string;
  sql_conn : option pg_conn;
  repl : replication_stream;
  allow_unkeyed : bool;
  taking_snapshot : bool;
  cl_status : Z;
  net : list connected;
  selects : list (Z * Z);
  repl_params : list (string * string);
}.

(** All fields are zero; the script of the environment is given. *)
Definition db_client_new (net : list connected) (selects : list (Z * Z)) : client_context :=
  ClientContext None None None (ReplicationStream None None None null_conn 0 0 0 0 0 0) false false 0
    net selects [].

Definition set_app_name v c :=
  ClientContext (conninfo c) v (sql_conn c) (repl c) (allow_unkeyed c) (taking_snapshot c)
    (cl_status c) (net c) (selects c) (repl_params c).
Definition set_conninfo v c :=
  ClientContext v (app_name c) (sql_conn c) (repl c) (allow_unkeyed c) (taking_snapshot c)
    (cl_status c) (net c) (selects c) (repl_params c).
Definition set_sql_conn v c :=
  ClientContext (conninfo c) (app_name c) v (repl c) (allow_unkeyed c) (taking_snapshot c)
    (cl_status c) (net c) (selects c) (repl_params c).
Definition set_repl v c :=
  ClientContext (conninfo c) (app_name c) (sql_conn c) v (allow_unkeyed c) (taking_snapshot c)
    (cl_status c) (net c) (selects c) (repl_params c).
Definition set_allow_unkeyed v c :=
  ClientContext (conninfo c) (app_name c) (sql_conn c) (repl c) v (taking_snapshot c)
    (cl_status c) (net c) (selects c) (repl_params c).
Definition set_taking_snapshot v c :=
  ClientContext (conninfo c) (app_name c) (sql_conn c) (repl c) (allow_unkeyed c) v
    (cl_status c) (net c) (selects c) (repl_params c).
Definition set_cl_status v c :=
  ClientContext (conninfo c) (app_name c) (sql_conn c) (repl c) (allow_unkeyed c)
    (taking_snapshot c) v (net c) (selects c) (repl_params c).
Definition set_net v c :=
  ClientContext (conninfo c) (app_name c) (sql_conn c) (repl c) (allow_unkeyed c)
    (taking_snapshot c) (cl_status c) v (selects c) (repl_params c).
Definition set_selects v c :=
  ClientContext (conninfo c) (app_name c) (sql_conn c) (repl c) (allow_unkeyed c)
    (taking_snapshot c) (cl_status c) (net c) v (repl_params c).
Definition set_repl_params v c :=
  ClientContext (conninfo c) (app_name c) (sql_conn c) (repl c) (allow_unkeyed c)
    (taking_snapshot c) (cl_status c) (net c) (selects c) v.

#[export] Instance Has_repl : Has replication_stream client_context.
Proof. by refine {| prj := repl; upd := set_repl |}; intros; destruct x. Defined.

(** Work on the SQL connection; a null connection must not be used. *)
Definition on_sql {A} (m : M pg_conn A) : M client_context A := fun c =>
  match sql_conn c with
  | Some conn => let '(o, conn) := m conn in (o, set_sql_conn (Some conn) c)
  | None => (Undef, c)
  end.

Definition exec_sql (query : string) : M client_context unit :=
  res ← on_sql (PQexec query);
  if bool_decide (PQresultStatus res = PGRES_COMMAND_OK) then mret () else fail EIO.

(** The next attempt to connect: nothing has been sent on a new connection. *)
Definition new_conn (c : pg_conn) : pg_conn :=
  PGconn (conn_replies c) (conn_results c) (conn_copies c) (conn_puts c) (conn_busy c) (conn_flags c) [].
Definition next_connection : M client_context connected := fun c =>
  match net c with
  | x :: xs => (Ret (new_conn (fst x), snd x), set_net xs c)
  | [] => (Blocked, c)
  end.

(** [PQfinish] of the SQL connection. *)
Definition close_sql : M client_context unit := modify (set_sql_conn None).

(** Closes the connections there are; the replication connection exists once it was
    asked for with its parameters. *)
Definition db_client_free : M client_context unit :=
  c ← gets (fun c => c);
  _ ← when (bool_decide (is_Some (sql_conn c))) close_sql;
  when (bool_decide (repl_params c <> [])) (zoom (zoom (X := replication_stream) PQfinish)).

Section connect.
(** [PQconninfoParse]: the options of a connection string with their values. *)
Context (PQconninfoParse : string -> option (list (string * option string))).

(** The options with a value, then the two that make it a replication connection. *)
Definition replication_params (app : string) (opts : list (string * option string))
  : list (string * string) :=
  omap (fun o => match o with (k, Some v) => if unset (Some v) then None else Some (k, v) | _ => None end) opts
  ++ [("replication", "database"); ("fallback_application_name", app)].

Definition client_connect : M client_context unit :=
  c ← gets (fun c => c);
  if unset (conninfo c) then fail EINVAL
  else if unset (app_name c) then fail EINVAL
  else
    sql ← next_connection;
    _ ← modify (set_sql_conn (Some (fst sql)));
    if negb (snd sql) then fail EIO
    else
      match PQconninfoParse (text (conninfo c)) with
      | None => fail EIO
      | Some opts =>
          _ ← modify (set_repl_params (replication_params (text (app_name c)) opts));
          r ← next_connection;
          _ ← zoom (modify (set_conn (fst r)));
          if (snd r : bool) then mret () else fail EIO
      end.

(** Whether the slot exists; if it does, its restart position is stored. *)
Definition replication_slot_exists : M client_context bool :=
  c ← gets (fun c => c);
  if unset (slot_name (repl c)) then fail EINVAL
  else
    res ← on_sql (PQexecParams "SELECT restart_lsn FROM pg_replication_slots where slot_name = $1"
                   [text (slot_name (repl c))]);
    if negb (bool_decide (PQresultStatus res = PGRES_TUPLES_OK)) then fail EIO
    else
      match (if 0 <? PQntuples res then PQgetfield res 0 0 else None) with
      | Some lsn =>
          match parse_lsn lsn with
          | Some v => _ ← zoom (modify (set_start_lsn v)); mret true
          | None => fail EIO
          end
      | None => mret false
      end.

Context (le : bool) (clock : nat -> Z * Z) (L : avro_lib).
Context {X : Type} `{HX : Has client_context X} (cbs : callbacks X).
Abbreviation MC := (M (frame_reader * X)).

#[local] Instance Has_stream : Has replication_stream X.
Proof.
  refine {| prj := fun x => repl (prj x); upd := fun s x => upd (set_repl s (prj x)) x |}.
  - intros s x. by rewrite prj_upd.
  - intros x. replace (set_repl (repl (prj x)) (prj x)) with (prj x) by (by destruct (prj x)).
    apply upd_prj.
  - intros s1 s2 x. by rewrite prj_upd, upd_upd.
Defined.

(** A computation on the client, inside the state of the callbacks. *)
Definition on_client {A} (m : M client_context A) : MC A := zoom (zoom (X := X) m).

Definition snapshot_start : MC unit :=
  c ← on_client (gets (fun c => c));
  if unset (snapshot_name (repl c)) then fail EINVAL
  else
    _ ← on_client (exec_sql "BEGIN");
    _ ← on_client (exec_sql "SET TRANSACTION ISOLATION LEVEL REPEATABLE READ");
    _ ← on_client (exec_sql ("SET TRANSACTION SNAPSHOT '" +:+ text (snapshot_name (repl c)) +:+ "'"));
    sent ← on_client (on_sql (PQsendQueryParams
      "SELECT bottledwater_export(table_pattern := $1, allow_unkeyed := $2)"
      ["%"; if allow_unkeyed c then "t" else "f"]));
    if negb sent then fail EIO
    else
      single ← on_client (on_sql PQsetSingleRowMode);
      if negb single then fail EIO
      else call (on_begin_txn cbs) (fun f => f (start_lsn (repl c)) 0).

(** One row of the snapshot: a frame in binary format. *)
Definition snapshot_tuple (res : pg_result) (row_number : nat) : MC unit :=
  if negb (PQnfields res =? 1) then fail EIO
  else
    match PQgetfield res row_number 0 with
    | None => fail EIO
    | Some v =>
        if negb (PQfformat res =? 1) then fail EIO
        else parse_frame L cbs 0 (bytes_of_string v)
    end.

Fixpoint snapshot_tuples (res : pg_result) (tuple remaining : nat) : MC unit :=
  match remaining with
  | O => mret ()
  | S remaining =>
      _ ← snapshot_tuple res tuple;
      snapshot_tuples res (S tuple) remaining
  end.

Definition snapshot_poll : MC unit :=
  res ← on_client (on_sql PQgetResult);
  match res with
  | None =>
      _ ← on_client (exec_sql "COMMIT");
      _ ← on_client close_sql;
      c ← on_client (gets (fun c => c));
      call (on_commit_txn cbs) (fun f => f (start_lsn (repl c)) 0)
  | Some r =>
      if negb (bool_decide (PQresultStatus r = PGRES_SINGLE_TUPLE \/ PQresultStatus r = PGRES_TUPLES_OK))
      then fail EIO
      else snapshot_tuples r 0 (length (res_rows r))
  end.

Definition db_client_start : MC unit :=
  _ ← on_client client_connect;
  _ ← on_client (zoom replication_stream_check);
  slot_exists ← on_client replication_slot_exists;
  if slot_exists : bool then
    _ ← on_client close_sql;
    _ ← on_client (modify (set_taking_snapshot false));
    on_client (zoom replication_stream_start)
  else
    _ ← on_client (modify (set_taking_snapshot true));
    _ ← on_client (zoom replication_slot_create);
    snapshot_start.

Definition db_client_poll : MC unit :=
  c ← on_client (gets (fun c => c));
  match sql_conn c with
  | Some _ =>
      busy ← on_client (on_sql PQisBusy);
      if busy : bool then on_client (modify (set_cl_status 0))
      else
        _ ← snapshot_poll;
        _ ← on_client (modify (set_cl_status 1));
        c ← on_client (gets (fun c => c));
        match sql_conn c with
        | None => on_client (zoom replication_stream_start)
        | Some _ => mret ()
        end
  | None =>
      _ ← replication_stream_poll le clock L cbs;
      on_client (modify (fun c => set_cl_status (r_status (repl c)) c))
  end.

(** Wait for input on either connection for at most a second. *)
Definition db_client_wait : M client_context unit := fun c =>
  match selects c with
  | [] => (Blocked, c)
  | (ret, errno) :: rest =>
      (if decide (ret = 0 \/ (ret < 0 /\ errno = EINTR)) then mret ()
       else if ret <? 0 then fail errno
       else
         ok ← zoom (zoom PQconsumeInput);
         if negb ok then fail EIO
         else
           sql ← gets sql_conn;
           match sql with
           | Some _ => ok ← on_sql PQconsumeInput; if ok : bool then mret () else fail EIO
           | None => mret ()
           end) (set_selects rest c)
  end.

(** ** What a poll is made of *)

Record client_work (Q : forall A, M client_context A -> Prop) : Prop := {
  work_get : Q _ (gets (fun c => c));
  work_sql A (m : M pg_conn A) : Q _ (on_sql m);
  work_exec query : Q _ (exec_sql query);
  work_close : Q _ close_sql;
  work_cl_status f : Q _ (modify (fun c => set_cl_status (f c) c));
  work_start : Q _ (zoom replication_stream_start);
}.

Section poll_client.
Context (P : forall A, MC A -> Prop) (Q : forall A, M client_context A -> Prop)
  (QS : forall A, M replication_stream A -> Prop).
Context {HP : Compositional P} (Hreader : forall A (m : M frame_reader A), P A (zoom m)).
Context (Hcbs : forall w e, is_u64 w \/ e = ECommit 0 -> P unit (zoom (notify cbs w e))).
Context (Hclient : forall A (m : M client_context A), Q A m -> P A (on_client m)).
Context (Hstream : forall A (m : M replication_stream A), QS A m -> P A (on_stream m)).
Context (Hwork : client_work Q) (Hswork : stream_work le clock QS).

Lemma snapshot_poll_comp : P unit snapshot_poll.
Proof.
  assert (Ht : forall res n i, P unit (snapshot_tuples res i n)).
  { intros res n. induction n as [|n IH]; intros i; [apply comp_ret|]. simpl.
    apply comp_bind; [|intros _; apply IH]. unfold snapshot_tuple. destruct (negb _); [apply comp_stop|].
    destruct (PQgetfield res i 0); [|apply comp_stop]. destruct (negb _); [apply comp_stop|].
    apply (parse_frame_comp L cbs 0 P Hreader). intros e. apply Hcbs. by left. }
  unfold snapshot_poll. apply comp_bind; [apply Hclient, Hwork|intros [res|]].
  - destruct (negb _); [apply comp_stop|apply Ht].
  - apply comp_bind; [apply Hclient, Hwork|intros _]. apply comp_bind; [apply Hclient, Hwork|intros _].
    apply comp_bind; [apply Hclient, Hwork|intros c]. apply call_notify; [done|].
    apply (Hcbs (start_lsn (repl c)) (ECommit 0)). by right.
Qed.

Lemma db_client_poll_comp : P unit db_client_poll.
Proof.
  unfold db_client_poll. apply comp_bind; [apply Hclient, Hwork|intros c]. destruct (sql_conn c) as [sql|].
  - apply comp_bind; [apply Hclient, Hwork|intros busy].
    destruct busy; [apply Hclient, (work_cl_status _ Hwork (fun _ => 0))|].
    apply comp_bind; [apply snapshot_poll_comp|intros _].
    apply comp_bind; [apply Hclient, (work_cl_status _ Hwork (fun _ => 1))|intros _].
    apply comp_bind; [apply Hclient, Hwork|intros c'].
    destruct (sql_conn c'); [apply comp_ret|apply Hclient, Hwork].
  - apply comp_bind; [apply (poll_comp le clock L cbs P QS); auto|intros _]. apply Hclient, Hwork.
Qed.

End poll_client.

(** ** Starting *)

Lemma on_client_inv {A} (m : M client_context A) r x a rx' :
  on_client m (r, x) = (Ret a, rx') ->
  exists c', m (prj x) = (Ret a, c') /\ rx' = (r, upd c' x) /\ prj (upd c' x) = c'.
Proof.
  unfold on_client, zoom. simpl. destruct (m (prj x)) as [o c'] eqn:E. intros [= -> <-].
  exists c'. split; [done|]. split; [done|]. apply prj_upd.
Qed.

Lemma on_sql_inv {A} (m : M pg_conn A) c a c' :
  on_sql m c = (Ret a, c') ->
  exists s s', sql_conn c = Some s /\ m s = (Ret a, s') /\ c' = set_sql_conn (Some s') c.
Proof.
  unfold on_sql. destruct (sql_conn c) as [s|]; [|done]. destruct (m s) as [o s'] eqn:E.
  intros [= -> <-]. by exists s, s'.
Qed.

Lemma exec_command_inv x c q c' :
  exec_command x c = (Ret q, c') ->
  conn_replies c = q :: conn_replies c' /\ conn_sent c' = conn_sent c ++ [x].
Proof. unfold exec_command. destruct (conn_replies c); [done|]. by intros [= <- <-]. Qed.

(** A command on the stream's connection. *)
Lemma stream_exec_inv query s q s' :
  zoom (PQexec query) s = (Ret q, s') ->
  exists cn, s' = set_conn cn s /\ conn_replies (conn s) = q :: conn_replies cn /\
    conn_sent cn = conn_sent (conn s) ++ [SentQuery query].
Proof.
  unfold zoom. simpl. destruct (PQexec query (conn s)) as [o cn] eqn:E. intros [= -> <-].
  apply exec_command_inv in E as [E1 E2]. by exists cn.
Qed.

Lemma exec_sql_inv query c c' :
  exec_sql query c = (Ret tt, c') ->
  exists s s', sql_conn c = Some s /\ c' = set_sql_conn (Some s') c /\
    conn_sent s' = conn_sent s ++ [SentQuery query].
Proof.
  unfold exec_sql. intros Hrun. apply bind_Ret_inv in Hrun as (res & c1 & H1 & H2).
  apply on_sql_inv in H1 as (s & s' & Hs & Hm & ->). apply exec_command_inv in Hm as [_ Hm].
  destruct (bool_decide _); [|done]. injection H2 as <-. eauto 10.
Qed.

Lemma next_flag_sent b s s' : next_flag s = (Ret b, s') -> conn_sent s' = conn_sent s.
Proof. unfold next_flag. destruct (conn_flags s); [done|]. by intros [= <- <-]. Qed.

(** ** What a successful start has received

    The two connections, and on them: the system's identity, the slot's row, and then
    either the permission to stream or the new slot. *)

Lemma next_connection_inv c x c' :
  next_connection c = (Ret x, c') ->
  exists cn ok rest, net c = (cn, ok) :: rest /\ x = (new_conn cn, ok) /\ c' = set_net rest c.
Proof. unfold next_connection. destruct (net c) as [|[cn ok] rest]; [done|]. intros [= <- <-]. by exists cn, ok, rest. Qed.

Lemma client_connect_inv c c' :
  client_connect c = (Ret tt, c') ->
  exists sql rpl rest, net c = (sql, true) :: (rpl, true) :: rest /\
    sql_conn c' = Some (new_conn sql) /\ repl c' = set_conn (new_conn rpl) (repl c) /\
    allow_unkeyed c' = allow_unkeyed c.
Proof.
  unfold client_connect. intros Hrun. apply bind_Ret_inv in Hrun as (c0 & ? & [= <- <-] & Hrun).
  destruct (unset (conninfo c)); [done|]. destruct (unset (app_name c)); [done|].
  apply bind_Ret_inv in Hrun as (a & c1 & (sql & ok & rest & Hnet & -> & ->)%next_connection_inv & Hrun).
  apply bind_Ret_inv in Hrun as (u & c2 & [= _ <-] & Hrun). destruct ok; [|done]. cbn [snd negb] in Hrun.
  destruct (PQconninfoParse _) as [opts|]; [|done].
  apply bind_Ret_inv in Hrun as (u' & c3 & [= _ <-] & Hrun).
  apply bind_Ret_inv in Hrun as (b & c4 & (rpl & ok & rest' & Hnet' & -> & ->)%next_connection_inv & Hrun).
  simpl in Hnet'. subst rest. apply bind_Ret_inv in Hrun as (u'' & c5 & H5 & Hrun).
  unfold zoom, modify in H5. injection H5 as _ <-. destruct ok; [|done]. injection Hrun as <-.
  by exists sql, rpl, rest'.
Qed.

Lemma stream_check_inv s s' :
  replication_stream_check s = (Ret tt, s') ->
  exists id cn, s' = set_conn cn s /\ conn_replies (conn s) = id :: conn_replies cn /\
    conn_sent cn = conn_sent (conn s) ++ [SentQuery "IDENTIFY_SYSTEM"].
Proof.
  unfold replication_stream_check. intros Hrun.
  apply bind_Ret_inv in Hrun as (id & s1 & (cn & -> & Hr & Hs)%stream_exec_inv & Hrun). exists id, cn.
  destruct (negb _); [done|]. destruct (_ || _); [done|]. destruct (PQgetfield id 0 3); [|done]. by injection Hrun as <-.
Qed.

(** The position that the catalog keeps for the slot, if the slot is there. *)
Definition slot_position (q : pg_result) : option string :=
  if 0 <? PQntuples q then PQgetfield q 0 0 else None.

Lemma slot_exists_inv c b c' :
  replication_slot_exists c = (Ret b, c') ->
  exists s s' q, sql_conn c = Some s /\ conn_replies s = q :: conn_replies s' /\
    conn_sent s' = conn_sent s ++ [SentParams "SELECT restart_lsn FROM pg_replication_slots where slot_name = $1"
      [text (slot_name (repl c))]] /\
    match slot_position q with
    | Some lsn => b = true /\ exists v, parse_lsn lsn = Some v /\
        c' = set_repl (set_start_lsn v (repl c)) (set_sql_conn (Some s') c)
    | None => b = false /\ c' = set_sql_conn (Some s') c
    end.
Proof.
  unfold replication_slot_exists. intros Hrun. apply bind_Ret_inv in Hrun as (c0 & ? & [= <- <-] & Hrun).
  destruct (unset _); [done|]. apply bind_Ret_inv in Hrun as (q & c1 & H1 & Hrun).
  apply on_sql_inv in H1 as (s & s' & Hs & [Hr Hl]%exec_command_inv & ->). exists s, s', q.
  do 3 (split; [done|]). destruct (negb _); [done|]. fold (slot_position q) in Hrun.
  destruct (slot_position q) as [lsn|]; [|by injection Hrun as <- <-].
  destruct (parse_lsn lsn) as [v|]; [|done]. apply bind_Ret_inv in Hrun as (u & c2 & H2 & Hrun).
  unfold zoom, modify in H2. injection H2 as _ <-. injection Hrun as <- <-. split; [done|]. by exists v.
Qed.

Lemma slot_create_inv s s' :
  replication_slot_create s = (Ret tt, s') ->
  exists a lsn v n cn, conn_replies (conn s) = a :: conn_replies cn /\
    PQgetfield a 0 1 = Some lsn /\ parse_lsn lsn = Some v /\ PQgetfield a 0 2 = Some n /\
    s' = set_snapshot_name (Some n) (set_start_lsn v (set_conn cn s)) /\
    conn_sent cn = conn_sent (conn s) ++
      [SentQuery ("CREATE_REPLICATION_SLOT " +:+ quote (text (slot_name s)) +:+
        " LOGICAL " +:+ quote (text (output_plugin s)))].
Proof.
  unfold replication_slot_create. intros Hrun. apply bind_Ret_inv in Hrun as (? & s1 & [= <- <-] & Hrun).
  destruct (unset (slot_name s)); [done|]. destruct (unset (output_plugin s)); [done|].
  apply bind_Ret_inv in Hrun as (a & s1 & (cn & -> & Hr & Hs)%stream_exec_inv & Hrun).
  destruct (negb (bool_decide _)); [done|]. destruct (negb _ || negb _); [done|].
  destruct (PQgetfield a 0 1) as [lsn|] eqn:E1; [|done]. destruct (PQgetfield a 0 2) as [n|] eqn:E2; [|done].
  destruct (parse_lsn lsn) as [v|] eqn:E3; [|done]. injection Hrun as <-. by exists a, lsn, v, n, cn.
Qed.

Lemma stream_start_inv s s' :
  replication_stream_start s = (Ret tt, s') ->
  exists a cn, conn_replies (conn s) = a :: conn_replies cn /\ PQresultStatus a = PGRES_COPY_BOTH /\
    s' = set_conn cn s /\ conn_sent cn = conn_sent (conn s) ++
      [SentQuery ("START_REPLICATION SLOT " +:+ quote (text (slot_name s)) +:+ " LOGICAL " +:+ print_lsn (start_lsn s))].
Proof.
  unfold replication_stream_start. intros Hrun. apply bind_Ret_inv in Hrun as (? & s1 & [= <- <-] & Hrun).
  apply bind_Ret_inv in Hrun as (a & s1 & (cn & -> & Hr & Hs)%stream_exec_inv & Hrun).
  case_bool_decide as Hst; [|done]. injection Hrun as <-. by exists a, cn.
Qed.

(** What the snapshot transaction sends: the snapshot of the slot, then the export. *)
Definition snapshot_queries (snapshot : string) (unkeyed : bool) : list sent :=
  [SentQuery "BEGIN"; SentQuery "SET TRANSACTION ISOLATION LEVEL REPEATABLE READ";
   SentQuery ("SET TRANSACTION SNAPSHOT '" +:+ snapshot +:+ "'");
   SentParams "SELECT bottledwater_export(table_pattern := $1, allow_unkeyed := $2)"
     ["%"; if unkeyed then "t" else "f"]].

Lemma snapshot_start_inv r x rx' :
  snapshot_start (r, x) = (Ret tt, rx') ->
  exists x1 s0 s, sql_conn (prj x) = Some s0 /\ sql_conn (prj x1) = Some s /\
    conn_sent s = conn_sent s0 ++ snapshot_queries (text (snapshot_name (repl (prj x)))) (allow_unkeyed (prj x)) /\
    repl (prj x1) = repl (prj x) /\ taking_snapshot (prj x1) = taking_snapshot (prj x) /\
    allow_unkeyed (prj x1) = allow_unkeyed (prj x) /\
    call (on_begin_txn cbs) (fun f => f (start_lsn (repl (prj x))) 0) (r, x1) = (Ret tt, rx').
Proof.
  unfold snapshot_start. intros Hrun.
  apply bind_Ret_inv in Hrun as (c0 & rx0 & H0 & Hrun).
  apply on_client_inv in H0 as (c0' & [= Ea Eb] & -> & _). rewrite <- Eb, upd_prj, <- Ea in Hrun. clear Ea Eb c0 c0'.
  destruct (unset _); [done|].
  assert (Hq : forall q x a rx, on_client (exec_sql q) (r, x) = (Ret a, rx) ->
    exists s s' x', rx = (r, x') /\ sql_conn (prj x) = Some s /\ prj x' = set_sql_conn (Some s') (prj x) /\
      conn_sent s' = conn_sent s ++ [SentQuery q]).
  { intros q y [] rx H. apply on_client_inv in H as (c' & H & -> & Hp).
    apply exec_sql_inv in H as (s & s' & Hs & -> & Hlog). eexists _, _, _. split; [done|]. eauto. }
  apply bind_Ret_inv in Hrun as (u1 & rx1 & H1 & Hrun).
  apply Hq in H1 as (s0 & s1 & x1 & -> & Hs0 & Hx1 & L1).
  apply bind_Ret_inv in Hrun as (u2 & rx2 & H2 & Hrun).
  apply Hq in H2 as (s1' & s2 & x2 & -> & Hs1 & Hx2 & L2). rewrite Hx1 in Hs1. injection Hs1 as <-.
  apply bind_Ret_inv in Hrun as (u3 & rx3 & H3 & Hrun).
  apply Hq in H3 as (s2' & s3 & x3 & -> & Hs2 & Hx3 & L3). rewrite Hx2 in Hs2. injection Hs2 as <-.
  apply bind_Ret_inv in Hrun as (sent & rx4 & H4 & Hrun).
  apply on_client_inv in H4 as (c4 & H4 & -> & Hp4).
  apply on_sql_inv in H4 as (s3' & s4 & Hs3 & H4 & ->). rewrite Hx3 in Hs3. injection Hs3 as <-.
  unfold PQsendQueryParams in H4. apply bind_Ret_inv in H4 as (u4 & s3b & [= _ <-] & H4). apply next_flag_sent in H4.
  destruct sent; [|done]. simpl in Hrun.
  apply bind_Ret_inv in Hrun as (single & rx5 & H5 & Hrun).
  apply on_client_inv in H5 as (c5 & H5 & -> & Hp5).
  apply on_sql_inv in H5 as (s4' & s5 & Hs4 & H5 & ->). rewrite Hp4 in Hs4. injection Hs4 as <-.
  apply next_flag_sent in H5. destruct single; [|done]. simpl in Hrun.
  match type of Hrun with call _ _ (r, ?y) = _ => exists y, s0, s5 end.
  split; [done|]. split; [by rewrite Hp5|].
  split; [|do 3 (split; [by rewrite Hp5, Hp4, Hx3, Hx2, Hx1|]); done].
  rewrite H5, H4. simpl. rewrite L3, L2, L1. by rewrite <- !(assoc_L (++)).
Qed.

(** C12: Starting the client loses nothing between the snapshot and the stream. If
    [db_client_start] succeeds, two connections were made, and what the catalog answered for
    the slot decides. If it has the slot with a position, no snapshot is taken, the SQL
    connection is closed, and streaming was requested, and granted, from exactly that
    position. Otherwise the slot was created, its position and the name of the exported
    snapshot are those of the answer to that command, and the only thing done on the SQL
    connection is to begin a transaction with this very snapshot and to ask for the export
    (tables without a key included as configured); so the stream begins exactly where the
    snapshot ends. Then the begin callback has run, for a transaction with id 0 at the
    position of the new slot. *)
Theorem start_is_consistent r x rx' :
  db_client_start (r, x) = (Ret tt, rx') ->
  let c0 := prj x in
  let slot := text (slot_name (repl c0)) in
  exists sql rpl rest q sqls id a rpls x1,
    net c0 = (sql, true) :: (rpl, true) :: rest /\
    conn_replies sql = q :: sqls /\ conn_replies rpl = id :: a :: rpls /\
    let c := prj x1 in
    match slot_position q with
    | Some lsn =>
        taking_snapshot c = false /\ sql_conn c = None /\ rx' = (r, x1) /\
        parse_lsn lsn = Some (start_lsn (repl c)) /\ PQresultStatus a = PGRES_COPY_BOTH /\
        conn_sent (conn (repl c)) =
          [SentQuery "IDENTIFY_SYSTEM";
           SentQuery ("START_REPLICATION SLOT " +:+ quote slot +:+ " LOGICAL " +:+ print_lsn (start_lsn (repl c)))]
    | None =>
        taking_snapshot c = true /\
        call (on_begin_txn cbs) (fun f => f (start_lsn (repl c)) 0) (r, x1) = (Ret tt, rx') /\
        exists lsn n s,
          PQgetfield a 0 1 = Some lsn /\ parse_lsn lsn = Some (start_lsn (repl c)) /\
          PQgetfield a 0 2 = Some n /\ snapshot_name (repl c) = Some n /\
          conn_sent (conn (repl c)) =
            [SentQuery "IDENTIFY_SYSTEM";
             SentQuery ("CREATE_REPLICATION_SLOT " +:+ quote slot +:+ " LOGICAL " +:+
               quote (text (output_plugin (repl c0))))] /\
          sql_conn c = Some s /\
          conn_sent s = SentParams "SELECT restart_lsn FROM pg_replication_slots where slot_name = $1" [slot] ::
            snapshot_queries n (allow_unkeyed c0)
    end.
Proof.
  unfold db_client_start. intros Hrun.
  apply bind_Ret_inv in Hrun as ([] & rx1 & H1 & Hrun). apply on_client_inv in H1 as (c1 & H1 & -> & Hp1).
  apply client_connect_inv in H1 as (sql & rpl & rest & Hnet & Hsql & Hrepl & Hunk).
  apply bind_Ret_inv in Hrun as ([] & rx2 & H2 & Hrun). apply on_client_inv in H2 as (c2 & H2 & -> & Hp2).
  rewrite Hp1 in H2. unfold zoom in H2. simpl in H2. destruct (replication_stream_check (repl c1)) as [o s2] eqn:Hck.
  injection H2 as -> <-. apply stream_check_inv in Hck as (id & cn & -> & Hid & Hlog).
  rewrite Hrepl in Hid, Hlog. simpl in Hid, Hlog.
  apply bind_Ret_inv in Hrun as (b & rx3 & H3 & Hrun). apply on_client_inv in H3 as (c3 & H3 & -> & Hp3).
  rewrite Hp2 in H3. apply slot_exists_inv in H3 as (s & s' & q & Hs & Hq & Hl & Hb). simpl in Hs, Hl, Hb.
  rewrite Hsql in Hs. injection Hs as <-. simpl in Hq, Hl.
  set (x3 := upd c3 _) in *. exists sql, rpl, rest, q, (conn_replies s'), id.
  destruct (slot_position q) as [lsn|].
  - destruct Hb as (-> & v & Hv & ->).
    apply bind_Ret_inv in Hrun as (u4 & rx4 & H4 & Hrun). apply on_client_inv in H4 as (c4 & [= _ <-] & -> & Hp4).
    apply bind_Ret_inv in Hrun as (u5 & rx5 & H5 & Hrun). apply on_client_inv in H5 as (c5 & [= _ <-] & -> & Hp5).
    apply on_client_inv in Hrun as (c6 & Hrun & -> & Hp6). rewrite Hp5, Hp4, Hp3 in Hrun.
    unfold zoom in Hrun. simpl in Hrun. destruct (replication_stream_start _) as [o s6] eqn:Hst. injection Hrun as -> <-.
    apply stream_start_inv in Hst as (a & cn' & Ha & Hcb & -> & Hlog'). simpl in Ha, Hlog'.
    exists a, (conn_replies cn'). eexists. split; [done|]. split; [done|]. split; [by rewrite Hid, Ha|].
    rewrite Hp6. simpl. do 3 (split; [done|]). split; [done|]. split; [done|]. by rewrite Hlog', Hlog, Hrepl.
  - destruct Hb as (-> & ->).
    apply bind_Ret_inv in Hrun as (u4 & rx4 & H4 & Hrun). apply on_client_inv in H4 as (c4 & [= _ <-] & -> & Hp4).
    apply bind_Ret_inv in Hrun as ([] & rx5 & H5 & Hrun). apply on_client_inv in H5 as (c5 & H5 & -> & Hp5).
    rewrite Hp4, Hp3 in H5. unfold zoom in H5. simpl in H5.
    destruct (replication_slot_create _) as [o s5] eqn:Hcr. injection H5 as -> <-.
    apply slot_create_inv in Hcr as (a & lsn & v & n & cn' & Ha & Hlsn & Hv & Hn & -> & Hlog'). simpl in Ha, Hlog'.
    apply snapshot_start_inv in Hrun as (x1 & s0 & s1 & Hs0 & Hs1 & Hsent & Hrep & Htak & _ & Hcall).
    rewrite Hp5 in *. simpl in *. injection Hs0 as <-.
    exists a, (conn_replies cn'), x1. split; [done|]. split; [done|]. split; [by rewrite Hid, Ha|].
    rewrite Htak, Hrep. simpl. split; [done|]. split; [done|]. exists lsn, n, s1. do 4 (split; [done|]).
    split; [by rewrite Hlog', Hlog, Hrepl|]. split; [done|]. by rewrite Hsent, Hl, Hrepl, Hunk.
Qed.

(** ** Rows of the snapshot *)

(** The result has one binary column; its rows are the frames [fs]. *)
Definition frame_rows (res : pg_result) (fs : list (list Z)) : Prop :=
  PQnfields res = 1 /\ PQfformat res = 1 /\
  Forall2 (fun row f => exists v, row = [Some v] /\ bytes_of_string v = f) (res_rows res) fs.

Lemma snapshot_tuples_run res ran fs rx :
  PQnfields res = 1 -> PQfformat res = 1 ->
  Forall2 (fun row f => exists v, row = [Some v] /\ bytes_of_string v = f) (drop ran (res_rows res)) fs ->
  snapshot_tuples res ran (length fs) rx = parse_frames L cbs (map (pair 0) fs) rx.
Proof.
  intros Hn Hf. revert ran rx. induction fs as [|f fs IH]; intros ran rx Hrows; [done|].
  destruct (drop ran (res_rows res)) as [|row rows] eqn:E; [by inversion Hrows|].
  apply List.Forall2_cons_iff in Hrows as [(v & -> & <-) Hrows].
  assert (Hrow : res_rows res !! ran = Some [Some v]).
  { rewrite <- (Nat.add_0_r ran), <- lookup_drop, E. done. }
  simpl. unfold snapshot_tuple. rewrite Hn, Hf. simpl. unfold PQgetfield. rewrite Hrow. simpl.
  unfold mbind, M_bind. destruct (parse_frame L cbs 0 (bytes_of_string v) rx) as [[] rx1]; try done.
  apply IH. replace (S ran) with (ran + 1)%nat by lia. rewrite <- drop_drop, E. done.
Qed.

(** Every row of a snapshot result is handed to the frame parser, in order and with WAL
    position 0, so what the export function returns is what the callbacks see. *)
Theorem snapshot_rows_parsed r x res rest fs sql :
  sql_conn (prj x) = Some sql -> conn_results sql = Some res :: rest ->
  PQresultStatus res = PGRES_SINGLE_TUPLE \/ PQresultStatus res = PGRES_TUPLES_OK ->
  frame_rows res fs ->
  exists x', sql_conn (prj x') = Some (PGconn (conn_replies sql) rest (conn_copies sql) (conn_puts sql)
      (conn_busy sql) (conn_flags sql) (conn_sent sql)) /\
    snapshot_poll (r, x) = parse_frames L cbs (map (pair 0) fs) (r, x').
Proof.
  intros Hsql Hres Hst (Hn & Hf & Hrows).
  set (sql' := PGconn _ _ _ _ _ _ _). exists (upd (set_sql_conn (Some sql') (prj x)) x).
  rewrite prj_upd. split; [done|]. unfold snapshot_poll. etrans.
  - apply bind_Ret. unfold on_client, zoom. simpl. unfold on_sql. rewrite Hsql. unfold PQgetResult.
    rewrite Hres. reflexivity.
  - simpl. rewrite bool_decide_eq_true_2 by done. simpl.
    rewrite (List.Forall2_length Hrows). by apply snapshot_tuples_run.
Qed.

End connect.

(** ** Examples *)

(** A Postgres server without the slot: the client creates it and starts the snapshot. *)
Definition ok_result : pg_result := PGresult PGRES_COMMAND_OK [] 0 0.
Definition sample_sql : pg_conn :=
  PGconn [PGresult PGRES_TUPLES_OK [] 1 0; ok_result; ok_result; ok_result] [] [] [] [] [true; true] [].
Definition sample_repl_conn : pg_conn :=
  PGconn [PGresult PGRES_TUPLES_OK [[Some "sys"; Some "1"; Some "0/0"; Some "db"]] 4 0;
          PGresult PGRES_TUPLES_OK [[Some "slot"; Some "0/4D"; Some "00000ABC-1"; Some "plugin"]] 4 0]
    [] [] [] [] [] [].
Definition sample_client : client_context :=
  ClientContext (Some "postgres://localhost") (Some "bottledwater") None sample_stream false false 0
    [(sample_sql, true); (sample_repl_conn, true)] [] [].
Definition sample_parse (_ : string) : option (list (string * option string)) := Some [].

Definition sample_started : outcome unit * (frame_reader * client_context) :=
  db_client_start sample_parse no_callbacks (sample_reader, sample_client).

Lemma sample_started_ok :
  db_client_start sample_parse no_callbacks (sample_reader, sample_client) = (Ret tt, snd sample_started).
Proof. vm_compute. reflexivity. Qed.

(** A server that has the slot. *)
Definition resumed_sql : pg_conn := PGconn [PGresult PGRES_TUPLES_OK [[Some "0/2A"]] 1 0] [] [] [] [] [] [].
Definition resumed_repl : pg_conn :=
  PGconn [PGresult PGRES_TUPLES_OK [[Some "sys"; Some "1"; Some "0/0"; Some "db"]] 4 0;
          PGresult PGRES_COPY_BOTH [] 0 0] [] [] [] [] [] [].
Definition resumed_client : client_context :=
  set_net [(resumed_sql, true); (resumed_repl, true)] sample_client.
Definition sample_resumed : outcome unit * (frame_reader * client_context) :=
  db_client_start sample_parse no_callbacks (sample_reader, resumed_client).
Lemma sample_resumed_ok :
  db_client_start sample_parse no_callbacks (sample_reader, resumed_client) = (Ret tt, snd sample_resumed).
Proof. vm_compute. reflexivity. Qed.

Lemma start_is_consistent_witness :
  (exists (c : client_context) s, taking_snapshot c = true /\ start_lsn (repl c) = 77 /\
     snapshot_name (repl c) = Some "00000ABC-1" /\ sql_conn c = Some s /\
     SentQuery "SET TRANSACTION SNAPSHOT '00000ABC-1'" ∈ conn_sent s) /\
  (exists c : client_context, taking_snapshot c = false /\ start_lsn (repl c) = 42 /\
     conn_sent (conn (repl c)) =
       [SentQuery "IDENTIFY_SYSTEM"; SentQuery ("START_REPLICATION SLOT " +:+ quote "slot" +:+ " LOGICAL 0/2A")]).
Proof.
  split.
  - destruct (start_is_consistent sample_parse no_callbacks sample_reader sample_client
      (snd sample_started) sample_started_ok) as (sql & rpl & rest & q & sqls & id & a & rpls & c & Hn & Hq & Ha & H).
    injection Hn as <- <- <-. injection Hq as <- <-. injection Ha as <- <- <-.
    cbn [slot_position PQntuples res_rows length Z.of_nat Z.ltb Z.compare] in H.
    destruct H as (Ht & _ & lsn & n & s & [= <-] & Hv & [= <-] & Hname & _ & Hs & Hlog).
    exists c, s. split; [done|]. split; [by injection Hv as <-|]. split; [done|]. split; [done|].
    rewrite Hlog. do 3 right. left.
  - destruct (start_is_consistent sample_parse no_callbacks sample_reader resumed_client
      (snd sample_resumed) sample_resumed_ok) as (sql & rpl & rest & q & sqls & id & a & rpls & c & Hn & Hq & Ha & H).
    injection Hn as <- <- <-. injection Hq as <- <-. injection Ha as <- <- <-.
    change (slot_position _) with (Some "0/2A") in H. destruct H as (Ht & _ & _ & Hv & _ & Hlog).
    injection Hv as Hv. exists c. split; [done|]. split; [done|]. cbn [prj Has_refl] in Hlog. by rewrite Hlog, <- Hv.
Defined.

(** The slot's position and snapshot are the ones used. *)
Example sample_started_state :
  let c := snd (snd sample_started) in
  taking_snapshot c = true /\ start_lsn (repl c) = 77 /\ snapshot_name (repl c) = Some "00000ABC-1".
Proof. by vm_compute. Qed.

(** One row of a snapshot, a frame without messages. *)
Definition sample_row_sql : pg_conn :=
  PGconn [] [Some (PGresult PGRES_SINGLE_TUPLE
    [[Some (String (Ascii.ascii_of_nat 0) "")]] 1 1)] [] [] [] [] [].

Lemma snapshot_rows_parsed_witness :
  exists x', snapshot_poll ref_lib no_callbacks (sample_reader, set_sql_conn (Some sample_row_sql) sample_client) =
    parse_frames ref_lib no_callbacks (map (pair 0) [[0]]) (sample_reader, x').
Proof.
  destruct (snapshot_rows_parsed ref_lib no_callbacks sample_reader
    (set_sql_conn (Some sample_row_sql) sample_client)
    (PGresult PGRES_SINGLE_TUPLE [[Some (String (Ascii.ascii_of_nat 0) "")]] 1 1) [] [[0]] sample_row_sql)
    as (x' & _ & Hrun).
  - reflexivity.
  - reflexivity.
  - by left.
  - split; [done|]. split; [done|]. apply List.Forall2_cons; [|constructor]. by eexists.
  - exists x'. exact Hrun.
Defined.
