(* ===== verification/Registry.v ===== *)
(** * The schema registry client ([kafka/registry.c])

    Schemas are posted to Confluent's schema registry over HTTP; the ids it assigns
    prefix every message that goes to Kafka. libcurl and jansson are parameters. *)

From S2P Require Import Prelude NetBytes.
From Stdlib Require Import Ascii.
Open Scope Z_scope.
Set Warnings "-register-all".

Definition SCHEMA_REGISTRY_MESSAGE_PREFIX_LEN : Z := 5.
Definition URL_BUFFER : Z := 512.

(** JSON values as the program inspects them; objects list their members. *)
Inductive json : Type :=
| JObject (members : list (string * json))
| JString (s : string)
| JInteger (z : Z)
| JOther.

(** The member of an object with the given key. *)
Fixpoint assoc {A} (l : list (string * A)) (k : string) : option A :=
  match l with
  | [] => None
  | (k', v) :: l => if String.eqb k' k then Some v else assoc l k
  end.
Definition json_object_get (j : json) (k : string) : option json :=
  match j with JObject l => assoc l k | _ => None end.

(** What an HTTP request comes back with: the CURLcode (0 is CURLE_OK), the status and
    the pieces in which the body arrives. *)
Record http_response : Type := HttpResponse {
  curl_result : Z;
  resp_code : Z;
  resp_data : list string;
}.

(** libcurl hands over the body piece by piece; each is appended to the buffer. *)
Definition registry_response_cb (buffer data : string) : string := buffer +:+ data.
Definition resp_body (r : http_response) : string := foldl registry_response_cb "" (resp_data r).

(** A request that was sent: URL and body. *)
Record http_request : Type := HttpRequest { req_url : string; req_body : string }.

(** The registry: its URL, the responses of the server still to come, the requests made. *)
Record schema_registry : Type := SchemaRegistry {
  registry_url : string;
  responses : list http_response;
  requests : list http_request;
}.

(** The character at a position; the terminating NUL at the end. *)
Definition char_at (s : string) (n : nat) : option Ascii.ascii := String.get n s.

(** "Strip trailing slash", as it is written: the character tested is the one at
    [strlen(url)]. *)
Definition schema_registry_set_url (url : string) : string :=
  let len := String.length url in
  match char_at url len with
  | Some c => if Ascii.eqb c "/"%char then String.substring 0 len url else url
  | None => url (* the terminating NUL is not a slash *)
  end.

Definition schema_registry_new (url : string) (server : list http_response) : schema_registry :=
  SchemaRegistry (schema_registry_set_url url) server [].

Section registry.
Context (le : bool).

(** ** The prefix of a message *)

Definition add_schema_prefix (schema_id : Z) (avro_bin : option (list Z)) : option (list Z) :=
  match avro_bin with
  | None => None
  | Some bin => Some ([0] ++ net32 le (u32 schema_id) ++ bin)
  end.

Definition schema_registry_encode_msg (key_schema_id row_schema_id : Z)
  (key_bin row_bin : option (list Z)) : option (list Z) * option (list Z) :=
  (add_schema_prefix key_schema_id key_bin, add_schema_prefix row_schema_id row_bin).

(** ** Registering a schema *)

(** jansson: the request body for a schema text, and the parser. *)
Context (json_dumps : list Z -> option string) (json_loadb : string -> option json).

Definition registry_parse_response (r : http_response) : outcome Z :=
  if negb (curl_result r =? 0) then Err EIO
  else
    match json_loadb (resp_body r) with
    | None => Err EIO
    | Some resp_json =>
        if negb (resp_code r =? 200) then Err EIO
        else
          match json_object_get resp_json "id" with
          | Some (JInteger id) => Ret (s32 id)
          | _ => Err EIO
          end
    end.

(** [curl_easy_perform]. *)
Definition curl_easy_perform (req : http_request) : M schema_registry http_response := fun r =>
  match responses r with
  | x :: xs => (Ret x, SchemaRegistry (registry_url r) xs (requests r ++ [req]))
  | [] => (Blocked, SchemaRegistry (registry_url r) [] (requests r ++ [req]))
  end.

Definition request_url (base name : string) (is_key : bool) : string :=
  base +:+ "/subjects/" +:+ name +:+ "-" +:+ (if is_key then "key" else "value") +:+ "/versions".

(** [*schema_id_out] is left as it was ([None]) when there is nothing to register. *)
Definition schema_registry_request (name : string) (is_key : bool) (schema_json : option (list Z))
  : M schema_registry (option Z) :=
  match schema_json with
  | None | Some [] => mret None
  | Some text =>
      base ← gets registry_url;
      let url := request_url base name is_key in
      if URL_BUFFER <=? Z.of_nat (String.length url) then fail EINVAL
      else
        match json_dumps text with
        | None => fail EINVAL
        | Some body =>
            resp ← curl_easy_perform (HttpRequest url body);
            schema_id ← stop (registry_parse_response resp);
            mret (Some schema_id)
        end
  end.

End registry.

(** ** Properties *)

Section prefix.
Context (le : bool).

Definition prefix_bytes (schema_id : Z) : list Z := 0 :: big_endian32 (u32 schema_id).

(** Splitting a message the way a consumer does: magic byte, schema id, payload. *)
Definition split_message (le : bool) (msg : list Z) : option (Z * list Z) :=
  match msg with
  | 0 :: a :: b :: c :: d :: bin => id ← from_net32 le [a; b; c; d]; Some (s32 id, bin)
  | _ => None
  end.

Lemma add_schema_prefix_length id bin :
  exists msg, add_schema_prefix le id (Some bin) = Some msg /\
    Z.of_nat (length msg) = Z.of_nat (length bin) + SCHEMA_REGISTRY_MESSAGE_PREFIX_LEN.
Proof.
  eexists. split; [done|]. rewrite net32_big_endian by (apply uwrap_range; lia).
  unfold big_endian32, SCHEMA_REGISTRY_MESSAGE_PREFIX_LEN. simpl. lia.
Qed.

(** The id and the payload come back on any host. *)
Lemma split_add_schema_prefix le' id bin :
  is_s32 id -> (add_schema_prefix le id (Some bin) ≫= split_message le') = Some (id, bin).
Proof.
  intros Hid. unfold add_schema_prefix. rewrite net32_big_endian by (apply uwrap_range; lia).
  pose proof (from_net32_big_endian le' (u32 id) ltac:(apply uwrap_range; lia)) as H.
  assert (exists a b c d, big_endian32 (u32 id) = [a; b; c; d]) as (a & b & c & d & E)
    by (by repeat eexists).
  rewrite E in *. change ((id' ← from_net32 le' [a; b; c; d]; Some (s32 id', bin)) = Some (id, bin)).
  rewrite H. simpl. do 2 f_equal. int_lia.
Qed.

End prefix.

(** The URL is used as given: a trailing slash stays. *)
Lemma schema_registry_set_url_id url : schema_registry_set_url url = url.
Proof.
  unfold schema_registry_set_url, char_at.
  assert (H : String.get (String.length url) url = None) by (induction url; done).
  by rewrite H.
Qed.

(** C35: A registry message is a zero byte, the schema id in network byte order and the payload,
    five bytes longer than the payload; a consumer on any host gets the id and the payload
    back, for every 32-bit id. *)
Theorem registry_prefix_roundtrip sender receiver id bin :
  is_s32 id ->
  exists msg, add_schema_prefix sender id (Some bin) = Some msg /\
    msg = prefix_bytes id ++ bin /\
    Z.of_nat (length msg) = Z.of_nat (length bin) + SCHEMA_REGISTRY_MESSAGE_PREFIX_LEN /\
    split_message receiver msg = Some (id, bin).
Proof.
  intros Hid. destruct (add_schema_prefix_length sender id bin) as (msg & Hmsg & Hlen).
  exists msg. split; [done|]. split; [|split; [done|]].
  - injection Hmsg as <-. by rewrite net32_big_endian by (apply uwrap_range; lia).
  - pose proof (split_add_schema_prefix sender receiver id bin Hid) as H. by rewrite Hmsg in H.
Qed.

Lemma registry_prefix_roundtrip_witness :
  split_message false (0 :: net32 true 70000 ++ [1; 2]) = Some (70000, [1; 2]).
Proof.
  destruct (registry_prefix_roundtrip true false 70000 [1; 2]) as (msg & Hmsg & _ & _ & H); [done|].
  by injection Hmsg as <-.
Defined.

(** The registry URL is stored unchanged: the test for a trailing slash looks at the
    terminating zero, so the slash is never removed and request URLs contain a double
    slash. *)
Theorem registry_url_unchanged url server :
  registry_url (schema_registry_new url server) = url.
Proof. apply schema_registry_set_url_id. Qed.
