(* ===== verification/TableMapper.v ===== *)
(** * Tables and their Kafka metadata ([kafka/table_mapper.c])

    For every relation: the Kafka topic, the schema ids of the registry and the schemas
    themselves. *)

From S2P Require Import Prelude Avro AvroBinary NetBytes Registry.
Open Scope Z_scope.

Definition TABLE_MAPPER_SCHEMA_ID_MISSING : Z := -1.
Definition TABLE_MAPPER_MAX_TOPIC_LEN : Z := 256 + 1.

(** The topic pointer of a table. It dangles when the topic was destroyed for a renamed
    table and no new one could be opened. *)
Inductive topic_slot : Type :=
| TopicNone
| TopicOpen (name : string)
| TopicDangling.

#[export] Instance topic_slot_eq_dec : EqDecision topic_slot.
Proof. solve_decision. Defined.

Record table_metadata : Type := TableMetadata {
  t_relid : Z;
  t_name : option string;
  t_topic : topic_slot;
  t_key_schema_id : Z;
  t_key_schema : option avro_schema;
  t_row_schema_id : Z;
  t_row_schema : option avro_schema;
}.

Definition set_t_name v t :=
  TableMetadata (t_relid t) v (t_topic t) (t_key_schema_id t) (t_key_schema t)
    (t_row_schema_id t) (t_row_schema t).
Definition set_t_topic v t :=
  TableMetadata (t_relid t) (t_name t) v (t_key_schema_id t) (t_key_schema t)
    (t_row_schema_id t) (t_row_schema t).
Definition set_t_key_schema_id v t :=
  TableMetadata (t_relid t) (t_name t) (t_topic t) v (t_key_schema t) (t_row_schema_id t)
    (t_row_schema t).
Definition set_t_key_schema v t :=
  TableMetadata (t_relid t) (t_name t) (t_topic t) (t_key_schema_id t) v (t_row_schema_id t)
    (t_row_schema t).
Definition set_t_row_schema_id v t :=
  TableMetadata (t_relid t) (t_name t) (t_topic t) (t_key_schema_id t) (t_key_schema t) v
    (t_row_schema t).
Definition set_t_row_schema v t :=
  TableMetadata (t_relid t) (t_name t) (t_topic t) (t_key_schema_id t) (t_key_schema t)
    (t_row_schema_id t) v.

(** [opens] is what [rd_kafka_topic_new] still answers: whether the topic could be opened;
    an exhausted list means yes. *)
Record table_mapper : Type := TableMapper {
  m_registry : option schema_registry;
  m_topic_prefix : option string;
  m_capacity : Z;
  m_tables : list table_metadata;
  m_opens : list bool;
}.
Definition set_m_registry v m :=
  TableMapper v (m_topic_prefix m) (m_capacity m) (m_tables m) (m_opens m).
Definition set_m_capacity v m :=
  TableMapper (m_registry m) (m_topic_prefix m) v (m_tables m) (m_opens m).
Definition set_m_tables v m :=
  TableMapper (m_registry m) (m_topic_prefix m) (m_capacity m) v (m_opens m).
Definition set_m_opens v m :=
  TableMapper (m_registry m) (m_topic_prefix m) (m_capacity m) (m_tables m) v.

Definition table_mapper_new (registry : option schema_registry) (topic_prefix : option string)
  (opens : list bool) : table_mapper :=
  TableMapper registry topic_prefix 16 [] opens.

(** The index of the first table with the relation id. *)
Fixpoint table_find (l : list table_metadata) (relid : Z) (i : nat) : option nat :=
  match l with
  | [] => None
  | t :: l => if t_relid t =? relid then Some i else table_find l relid (S i)
  end.
Definition table_mapper_lookup (relid : Z) (m : table_mapper) : option nat :=
  table_find (m_tables m) relid 0.

(** Grow the array if it is full, then use the next slot. *)
Definition table_metadata_new (relid : Z) : M table_mapper nat :=
  full ← gets (fun m => Z.of_nat (length (m_tables m)) =? m_capacity m);
  _ ← when full (modify (fun m => set_m_capacity (s32 (m_capacity m * 4)) m));
  m ← gets (fun m => m);
  if decide (Z.of_nat (length (m_tables m)) < m_capacity m) then
    _ ← modify (fun m => set_m_tables (m_tables m ++
          [TableMetadata relid None TopicNone TABLE_MAPPER_SCHEMA_ID_MISSING None
             TABLE_MAPPER_SCHEMA_ID_MISSING None]) m);
    mret (length (m_tables m))
  else stop Undef.

Definition table_at (i : nat) : M table_mapper table_metadata := fun m =>
  match m_tables m !! i with
  | Some t => (Ret t, m)
  | None => (Undef, m)
  end.
Definition update_table (i : nat) (f : table_metadata -> table_metadata) : M table_mapper unit :=
  modify (fun m => set_m_tables (alter f i (m_tables m)) m).

(** ** Topics *)

Definition topic_name_for (prefix : option string) (table_name : string) : outcome string :=
  match prefix with
  | Some p =>
      let prefixed_name := p +:+ "-" +:+ table_name in
      if TABLE_MAPPER_MAX_TOPIC_LEN <=? Z.of_nat (String.length prefixed_name) then Err (-1)
      else Ret prefixed_name
  | None => Ret table_name
  end.

Definition rd_kafka_topic_new (name : string) : M table_mapper bool := fun m =>
  match m_opens m with
  | b :: bs => (Ret b, set_m_opens bs m)
  | [] => (Ret true, m)
  end.

Definition open_topic (i : nat) (table_name : string) : M table_mapper unit :=
  _ ← update_table i (set_t_name (Some table_name));
  m ← gets (fun m => m);
  name ← stop (topic_name_for (m_topic_prefix m) table_name);
  ok ← rd_kafka_topic_new name;
  if ok : bool then update_table i (set_t_topic (TopicOpen name))
  else
    _ ← update_table i (set_t_topic TopicNone);
    fail (-1).

Definition table_metadata_update_topic (i : nat) (table_name : string) : M table_mapper unit :=
  t ← table_at i;
  match t_topic t with
  | TopicNone => open_topic i table_name
  | TopicOpen _ =>
      if bool_decide (t_name t = Some table_name) then mret ()
      else
        _ ← update_table i (set_t_topic TopicDangling);
        open_topic i table_name
  | TopicDangling =>
      if bool_decide (t_name t = Some table_name) then mret () else stop Undef
  end.

(** ** Schemas *)

Definition on_registry {A} (a : A) (f : M schema_registry A) : M table_mapper A := fun m =>
  match m_registry m with
  | Some r => let '(o, r) := f r in (o, set_m_registry (Some r) m)
  | None => (Ret a, m)
  end.

Definition table_metadata_set_schema_id (is_key : bool) (schema_id : Z) (t : table_metadata)
  : table_metadata :=
  if is_key then set_t_key_schema_id schema_id t else set_t_row_schema_id schema_id t.

(** Whatever was stored before, the new schema (or null) is stored after. *)
Definition table_metadata_set_schema (is_key : bool) (new_schema : option avro_schema)
  (t : table_metadata) : table_metadata :=
  if is_key then set_t_key_schema new_schema t else set_t_row_schema new_schema t.

Section mapper.
Context (L : avro_lib) (json_dumps : list Z -> option string) (json_loadb : string -> option json).

Definition table_metadata_update_schema (i : nat) (is_key : bool) (schema_json : option (list Z))
  : M table_mapper unit :=
  t ← table_at i;
  let prev_schema_id := if is_key then t_key_schema_id t else t_row_schema_id t in
  m ← gets (fun m => m);
  schema_id ←
    match m_registry m with
    | Some _ =>
        match t_topic t with
        | TopicOpen name =>
            got ← on_registry None (schema_registry_request json_dumps json_loadb name is_key schema_json);
            let schema_id := default TABLE_MAPPER_SCHEMA_ID_MISSING got in
            _ ← update_table i (table_metadata_set_schema_id is_key schema_id);
            mret schema_id
        | _ => stop Undef
        end
    | None => mret TABLE_MAPPER_SCHEMA_ID_MISSING
    end;
  when ((prev_schema_id =? TABLE_MAPPER_SCHEMA_ID_MISSING) || negb (prev_schema_id =? schema_id)) (
    schema ←
      match schema_json with
      | Some json => s ← stop (avro_schema_from_json_length L (json ++ [0]) (Z.of_nat (length json))); mret (Some s)
      | None => mret None
      end;
    update_table i (table_metadata_set_schema is_key schema)).

(** The updated table, or null ([None]) on failure. *)
Definition table_mapper_update (relid : Z) (table_name : string)
  (key_schema_json : option (list Z)) (row_schema_json : list Z) : M table_mapper (option nat) :=
  found ← gets (table_mapper_lookup relid);
  i ← match found with Some i => mret i | None => table_metadata_new relid end;
  err ← status (table_metadata_update_topic i table_name);
  if negb (err =? 0) then mret None else
  err ← status (table_metadata_update_schema i true key_schema_json);
  if negb (err =? 0) then mret None else
  err ← status (table_metadata_update_schema i false (Some row_schema_json));
  if negb (err =? 0) then mret None else mret (Some i).

(** Destroying a topic leaves a pointer to it; destroying it twice is undefined. *)
Definition table_metadata_free (t : table_metadata) : outcome table_metadata :=
  match t_topic t with
  | TopicNone => Ret t
  | TopicOpen _ => Ret (set_t_topic TopicDangling t)
  | TopicDangling => Undef
  end.
Fixpoint free_tables (l : list table_metadata) : outcome (list table_metadata) :=
  match l with
  | [] => Ret []
  | t :: l =>
      match table_metadata_free t with
      | Ret t => match free_tables l with Ret l => Ret (t :: l) | o => o end
      | o => cast_outcome o
      end
  end.
(** What is left of the mapper. *)
Definition table_mapper_free (m : table_mapper) : outcome table_mapper :=
  match free_tables (m_tables m) with
  | Ret l => Ret (set_m_tables l m)
  | o => cast_outcome o
  end.

End mapper.

(** ** Release *)

(** Every open topic destroyed. *)
Definition table_released (t : table_metadata) : table_metadata :=
  if t_topic t is TopicOpen _ then set_t_topic TopicDangling t else t.
Definition mapper_released (m : table_mapper) : table_mapper :=
  set_m_tables (table_released <$> m_tables m) m.

Lemma table_mapper_free_run m :
  Forall (fun t => t_topic t <> TopicDangling) (m_tables m) -> table_mapper_free m = Ret (mapper_released m).
Proof.
  intros Hall. unfold table_mapper_free, mapper_released.
  assert (E : free_tables (m_tables m) = Ret (table_released <$> m_tables m)); [|by rewrite E].
  induction Hall as [|t l Ht _ IH]; [done|]. simpl. unfold table_metadata_free, table_released.
  rewrite IH. by destruct (t_topic t).
Qed.

Lemma table_mapper_free_dangling m t :
  t ∈ m_tables m -> t_topic t = TopicDangling -> table_mapper_free m = Undef.
Proof.
  intros [i Hi]%list_elem_of_lookup Ht. unfold table_mapper_free.
  assert (E : free_tables (m_tables m) = Undef); [|by rewrite E].
  revert i Hi. induction (m_tables m) as [|t' l IH]; intros i Hi; [done|]. simpl. unfold table_metadata_free.
  destruct i as [|i]; [injection Hi as ->; by rewrite Ht|]. rewrite (IH i Hi). by destruct (t_topic t').
Qed.

(** ** The mapper as a map *)

Definition topic_ok (prefix : option string) (t : table_metadata) : Prop :=
  match t_topic t with
  | TopicNone => True
  | TopicOpen n => exists name, t_name t = Some name /\ topic_name_for prefix name = Ret n
  | TopicDangling => False
  end.

(** One entry per relation, inside the array, with the topic of its table name. *)
Definition mapper_ok (m : table_mapper) : Prop :=
  16 <= m_capacity m < 2 ^ 31 /\ Z.of_nat (length (m_tables m)) <= m_capacity m /\
  NoDup (map t_relid (m_tables m)) /\ Forall (topic_ok (m_topic_prefix m)) (m_tables m).

Lemma table_find_Some l relid i j :
  table_find l relid i = Some j -> exists t, l !! (j - i)%nat = Some t /\ (i <= j)%nat /\ t_relid t = relid.
Proof.
  revert i. induction l as [|t l IH]; intros i H; simpl in *; [done|].
  destruct (Z.eqb_spec (t_relid t) relid).
  - simplify_eq. exists t. by rewrite Nat.sub_diag.
  - destruct (IH _ H) as (t' & Ht & Hle & Hr). exists t'. split; [|split; [lia|done]].
    by replace (j - i)%nat with (S (j - S i)) by lia.
Qed.

Lemma table_find_None l relid i : table_find l relid i = None <-> relid ∉ map t_relid l.
Proof.
  revert i. induction l as [|t l IH]; intros i; simpl; [split; [intros _; apply not_elem_of_nil|done]|].
  rewrite not_elem_of_cons. destruct (Z.eqb_spec (t_relid t) relid) as [E|E].
  - split; [done|]. intros [? _]. congruence.
  - rewrite IH. split; [by intros ?|by intros []].
Qed.

Lemma table_find_at l relid i k t :
  NoDup (map t_relid l) -> l !! i = Some t -> t_relid t = relid -> table_find l relid k = Some (k + i)%nat.
Proof.
  revert i k. induction l as [|t' l IH]; intros i k Hnd Hi Hr; [done|]. simpl.
  apply list.NoDup_cons in Hnd as [Hnot Hnd]. destruct i as [|i].
  - injection Hi as ->. rewrite Hr, Z.eqb_refl. f_equal. lia.
  - destruct (Z.eqb_spec (t_relid t') relid) as [E|_].
    + destruct Hnot. apply list_elem_of_fmap. exists t. split; [congruence|by eapply list_elem_of_lookup_2].
    + rewrite (IH i (S k) Hnd Hi Hr). f_equal. lia.
Qed.

(** [m] differs from [m0] in entry [i], which is the one of [relid], at most. *)
Definition framed (m0 : table_mapper) (i : nat) (relid : Z) (m : table_mapper) : Prop :=
  m_capacity m = m_capacity m0 /\ m_topic_prefix m = m_topic_prefix m0 /\
  length (m_tables m) = length (m_tables m0) /\
  (forall j, j <> i -> m_tables m !! j = m_tables m0 !! j) /\
  exists t, m_tables m !! i = Some t /\ t_relid t = relid.

Section framed.
Context (m0 : table_mapper) (i : nat) (relid : Z).

Lemma framed_update f : (forall t, t_relid (f t) = t_relid t) -> preserves (framed m0 i relid) (update_table i f).
Proof.
  intros Hf. apply preserves_modify. intros m (Hc & Hp & Hl & Ho & t & Ht & Hr).
  split; [done|]. split; [done|]. cbn [set_m_tables m_tables]. split; [by rewrite length_alter|].
  split; [intros j Hj; rewrite list_lookup_alter_ne by done; by apply Ho|].
  exists (f t). split; [by rewrite list_lookup_alter_eq, Ht|]. by rewrite Hf.
Qed.

Lemma framed_table_at : preserves (framed m0 i relid) (table_at i).
Proof. intros m Hm. unfold table_at. by destruct (m_tables m !! i). Qed.

Lemma framed_open name : preserves (framed m0 i relid) (open_topic i name).
Proof.
  apply preserves_bind; [by apply framed_update|intros _].
  apply preserves_bind; [apply preserves_gets|intros m].
  apply preserves_bind; [apply preserves_stop|intros n]. apply preserves_bind.
  - intros m' Hm. unfold rd_kafka_topic_new. by destruct (m_opens m').
  - intros [|]; [by apply framed_update|].
    apply preserves_bind; [by apply framed_update|intros _; apply preserves_stop].
Qed.

Lemma framed_update_topic name : preserves (framed m0 i relid) (table_metadata_update_topic i name).
Proof.
  apply preserves_bind; [apply framed_table_at|intros t]. destruct (t_topic t).
  - apply framed_open.
  - case_bool_decide; [apply preserves_ret|].
    apply preserves_bind; [by apply framed_update|intros _; apply framed_open].
  - case_bool_decide; [apply preserves_ret|apply preserves_stop].
Qed.

Context (L : avro_lib) (json_dumps : list Z -> option string) (json_loadb : string -> option json).

Lemma framed_update_schema is_key js :
  preserves (framed m0 i relid) (table_metadata_update_schema L json_dumps json_loadb i is_key js).
Proof.
  assert (Hset : forall s t, t_relid (table_metadata_set_schema is_key s t) = t_relid t) by (by destruct is_key).
  assert (Hid : forall s t, t_relid (table_metadata_set_schema_id is_key s t) = t_relid t) by (by destruct is_key).
  apply preserves_bind; [apply framed_table_at|intros t].
  apply preserves_bind; [apply preserves_gets|intros m]. apply preserves_bind.
  - destruct (m_registry m); [|apply preserves_ret]. destruct (t_topic t); try apply preserves_stop.
    apply preserves_bind.
    + intros m' Hm. unfold on_registry. destruct (m_registry m') as [r|]; [|done].
      by destruct (schema_registry_request _ _ _ _ _ r).
    + intros got. apply preserves_bind; [by apply framed_update|intros _; apply preserves_ret].
  - intros id. apply preserves_when. intros _. apply preserves_bind.
    + destruct js; [|apply preserves_ret]. apply preserves_bind; [apply preserves_stop|].
      intros s. apply preserves_ret.
    + intros s. by apply framed_update.
Qed.

End framed.

(** A computation that returned, from a framed state. *)
Lemma framed_run {A} m0 i relid (m : M table_mapper A) s o s' :
  preserves (framed m0 i relid) m -> framed m0 i relid s -> m s = (o, s') -> framed m0 i relid s'.
Proof. intros Hm Hs Hrun. specialize (Hm s Hs). by rewrite Hrun in Hm. Qed.

Lemma string_length_app s1 s2 : String.length (s1 +:+ s2) = (String.length s1 + String.length s2)%nat.
Proof. induction s1 as [|a s1 IH]; [done|]. simpl. by rewrite IH. Qed.
Lemma list_alter_compose {A} (f g : A -> A) i (l : list A) : alter (f ∘ g) i l = alter f i (alter g i l).
Proof. revert i. induction l as [|x l IH]; intros [|i]; [done..|]. simpl. f_equal. apply IH. Qed.
Lemma alter_at {A} (f : A -> A) i x (l : list A) : l !! i = Some x -> alter f i l = <[i := f x]> l.
Proof. revert i. induction l as [|y l IH]; intros [|i] Hi; simplify_eq/=; [done|]. f_equal. by apply IH. Qed.

(** A rename to a name that is too long. *)
Lemma rename_fails m i name prefix topic old t :
  m_tables m !! i = Some t -> t_topic t = TopicOpen topic -> t_name t = Some old ->
  m_topic_prefix m = Some prefix -> name <> old ->
  TABLE_MAPPER_MAX_TOPIC_LEN <= Z.of_nat (String.length prefix + 1 + String.length name) ->
  table_metadata_update_topic i name m =
    (Err (-1), set_m_tables (<[i := set_t_topic TopicDangling (set_t_name (Some name) t)]> (m_tables m)) m).
Proof.
  intros Ht Htop Hname Hpre Hne Hlong. unfold table_metadata_update_topic.
  rewrite (bind_Ret (table_at i) _ m t m) by (unfold table_at; by rewrite Ht).
  rewrite Htop, bool_decide_eq_false_2 by congruence.
  unfold open_topic, update_table, modify, gets, stop, mbind, M_bind. cbn [set_m_tables m_topic_prefix]. rewrite Hpre.
  unfold topic_name_for. rewrite !string_length_app.
  replace (TABLE_MAPPER_MAX_TOPIC_LEN <=? _) with true by (symmetry; apply Z.leb_le; simpl String.length; lia).
  f_equal. unfold set_m_tables. cbn [m_registry m_topic_prefix m_capacity m_tables m_opens]. f_equal.
  rewrite <- list_alter_compose, (alter_at _ i t) by done. done.
Qed.

(** Entry [i] after a successful opening of its topic. *)
Lemma update_topic_spec i name m m' t :
  m_tables m !! i = Some t -> topic_ok (m_topic_prefix m) t ->
  table_metadata_update_topic i name m = (Ret tt, m') ->
  exists t' n, m_tables m' !! i = Some t' /\ t_topic t' = TopicOpen n /\ t_name t' = Some name /\
    topic_name_for (m_topic_prefix m) name = Ret n /\
    t_key_schema t' = t_key_schema t /\ t_row_schema t' = t_row_schema t /\
    t_key_schema_id t' = t_key_schema_id t /\ t_row_schema_id t' = t_row_schema_id t /\
    m_registry m' = m_registry m.
Proof.
  intros Ht Hok Hrun.
  assert (Hopen : forall m1 t1, m_tables m1 !! i = Some t1 -> m_topic_prefix m1 = m_topic_prefix m ->
    open_topic i name m1 = (Ret tt, m') ->
    exists t' n, m_tables m' !! i = Some t' /\ t_topic t' = TopicOpen n /\ t_name t' = Some name /\
      topic_name_for (m_topic_prefix m) name = Ret n /\
      t_key_schema t' = t_key_schema t1 /\ t_row_schema t' = t_row_schema t1 /\
      t_key_schema_id t' = t_key_schema_id t1 /\ t_row_schema_id t' = t_row_schema_id t1 /\
      m_registry m' = m_registry m1).
  { intros m1 t1 Ht1 Hp H. unfold open_topic in H.
    apply bind_Ret_inv in H as (u & m2 & [= _ <-] & H).
    apply bind_Ret_inv in H as (m2' & m3 & [= <- <-] & H). cbn [set_m_tables m_topic_prefix] in H. rewrite Hp in H.
    apply bind_Ret_inv in H as (n & m4 & H4 & H). unfold stop in H4. injection H4 as Hn <-.
    apply bind_Ret_inv in H as (ok & m5 & H5 & H).
    assert (Hm5 : m_tables m5 = alter (set_t_name (Some name)) i (m_tables m1) /\ m_registry m5 = m_registry m1).
    { unfold rd_kafka_topic_new in H5. cbn [set_m_tables m_opens] in H5.
      destruct (m_opens m1); injection H5 as <- <-; done. }
    destruct Hm5 as [Hm5 Hreg]. destruct ok; [|by apply bind_Ret_inv in H as (? & ? & _ & ?)].
    injection H as <-. cbn [set_m_tables m_tables m_registry].
    exists (set_t_topic (TopicOpen n) (set_t_name (Some name) t1)), n.
    rewrite Hm5, list_lookup_alter_eq, list_lookup_alter_eq, Ht1. by rewrite Hreg. }
  unfold table_metadata_update_topic in Hrun. apply bind_Ret_inv in Hrun as (t0 & m1 & H1 & Hrun).
  unfold table_at in H1. rewrite Ht in H1. injection H1 as <- <-.
  unfold topic_ok in Hok. destruct (t_topic t) as [|n|] eqn:Htop; [by eapply Hopen| |done].
  case_bool_decide as Hname.
  - injection Hrun as <-. destruct Hok as (name' & Hn' & Hfor). assert (name' = name) as -> by congruence.
    exists t, n. by split_and!.
  - apply bind_Ret_inv in Hrun as (u & m1 & [= _ <-] & Hrun).
    apply (Hopen _ (set_t_topic TopicDangling t)) in Hrun; [done| |done].
    cbn [set_m_tables m_tables]. by rewrite list_lookup_alter_eq, Ht.
Qed.

Section update.
Context (L : avro_lib) (json_dumps : list Z -> option string) (json_loadb : string -> option json).
Abbreviation update_schema := (table_metadata_update_schema L json_dumps json_loadb).
Abbreviation update := (table_mapper_update L json_dumps json_loadb).

(** The schema of a text, if there is a text. *)
Definition parsed (js : option (list Z)) (s : option avro_schema) : Prop :=
  match js with
  | Some text => exists s', avro_schema_from_json_length L (text ++ [0]) (Z.of_nat (length text)) = Ret s' /\ s = Some s'
  | None => s = None
  end.

Lemma parse_inv js (m : table_mapper) s m' :
  (match js with
   | Some json => s ← stop (avro_schema_from_json_length L (json ++ [0]) (Z.of_nat (length json))); mret (Some s)
   | None => mret None
   end : M table_mapper _) m = (Ret s, m') -> m' = m /\ parsed js s.
Proof.
  destruct js as [text|]; [|by intros [= <- <-]]. intros H.
  apply bind_Ret_inv in H as (s' & m1 & H1 & H2). unfold stop in H1. injection H1 as H1 <-.
  injection H2 as <- <-. split; [done|]. by exists s'.
Qed.

(** Updating a schema of entry [i] leaves its topic; without a registry it stores the
    schema of the new text. *)
Lemma update_schema_spec i (is_key : bool) js m m' t :
  m_tables m !! i = Some t -> update_schema i is_key js m = (Ret tt, m') ->
  exists t', m_tables m' !! i = Some t' /\ t_topic t' = t_topic t /\ t_name t' = t_name t /\
    (m_registry m = None -> m_registry m' = None /\
      parsed js (if is_key then t_key_schema t' else t_row_schema t') /\
      (if is_key then t_row_schema t' else t_key_schema t') =
      (if is_key then t_row_schema t else t_key_schema t)).
Proof.
  intros Ht Hrun. unfold table_metadata_update_schema in Hrun.
  apply bind_Ret_inv in Hrun as (t0 & m1 & H1 & Hrun).
  unfold table_at in H1. rewrite Ht in H1. injection H1 as <- <-.
  apply bind_Ret_inv in Hrun as (m0 & m1 & [= <- <-] & Hrun).
  apply bind_Ret_inv in Hrun as (id & m2 & Hreg & Hrun).
  assert (Hm2 : exists t2, m_tables m2 !! i = Some t2 /\ t_topic t2 = t_topic t /\ t_name t2 = t_name t /\
    (m_registry m = None -> m2 = m /\ t2 = t /\ id = TABLE_MAPPER_SCHEMA_ID_MISSING)).
  { destruct (m_registry m) as [r|] eqn:Er; [|injection Hreg as <- <-; by exists t].
    destruct (t_topic t) as [|n|] eqn:Et; try done.
    apply bind_Ret_inv in Hreg as (got & m3 & H3 & Hreg).
    apply bind_Ret_inv in Hreg as (u & m4 & [= _ <-] & Hreg). injection Hreg as <- <-.
    unfold on_registry in H3. rewrite Er in H3. destruct (schema_registry_request _ _ _ _ _ r) as [o r'].
    injection H3 as -> <-. cbn [set_m_tables set_m_registry m_tables].
    rewrite list_lookup_alter_eq, Ht. eexists. split; [done|]. by destruct is_key. }
  destruct Hm2 as (t2 & Ht2 & Htop & Hname & Hnone).
  destruct (_ || _) eqn:Hcond.
  - apply bind_Ret_inv in Hrun as (s & m3 & Hs & Hrun). apply parse_inv in Hs as [-> Hs].
    injection Hrun as <-. cbn [set_m_tables m_tables m_registry].
    rewrite list_lookup_alter_eq, Ht2. eexists. split; [done|].
    split; [by destruct is_key|]. split; [by destruct is_key|].
    intros Hn. destruct (Hnone Hn) as (-> & -> & _). split; [done|]. by destruct is_key.
  - injection Hrun as <-. exists t2. split; [done|]. split; [done|]. split; [done|].
    intros Hn. destruct (Hnone Hn) as (_ & _ & ->). exfalso.
    destruct (Z.eqb_spec (if is_key then t_key_schema_id t else t_row_schema_id t) TABLE_MAPPER_SCHEMA_ID_MISSING);
      done.
Qed.

(** The entry that the update works on, found or new. *)
Lemma entry_for_spec relid m i m1 :
  mapper_ok m -> Z.of_nat (length (m_tables m)) < 2 ^ 29 ->
  (match table_mapper_lookup relid m with Some i => mret i | None => table_metadata_new relid end
   : M table_mapper nat) m = (Ret i, m1) ->
  exists t, m_tables m1 !! i = Some t /\ t_relid t = relid /\ mapper_ok m1 /\
    m_registry m1 = m_registry m /\ m_topic_prefix m1 = m_topic_prefix m /\
    (m_tables m1 = m_tables m \/
     m_tables m1 = m_tables m ++ [t] /\ i = length (m_tables m) /\ relid ∉ map t_relid (m_tables m)).
Proof.
  intros Hok Hsmall. pose proof Hok as (Hcap & Hlen & Hnd & Hall). unfold table_mapper_lookup.
  destruct (table_find (m_tables m) relid 0) as [j|] eqn:Hfind.
  - intros [= -> <-]. apply table_find_Some in Hfind as (t & Ht & _ & Hr).
    rewrite Nat.sub_0_r in Ht. exists t. split_and!; try done. by left.
  - apply table_find_None in Hfind. intros H. unfold table_metadata_new in H.
    apply bind_Ret_inv in H as (full & m2 & [= <- <-] & H).
    apply bind_Ret_inv in H as (u & m2 & Hgrow & H).
    assert (Hm2 : m_tables m2 = m_tables m /\ m_registry m2 = m_registry m /\
      m_topic_prefix m2 = m_topic_prefix m /\ 16 <= m_capacity m2 < 2 ^ 31).
    { unfold when in Hgrow. destruct (Z.eqb_spec (Z.of_nat (length (m_tables m))) (m_capacity m)) as [E|E];
        injection Hgrow as _ <-; (do 3 (split; [done|])); [|done]. cbn [set_m_capacity m_capacity].
      rewrite s32_small; lia. }
    destruct Hm2 as (Hts & Hreg & Hpre & Hcap2).
    apply bind_Ret_inv in H as (m2' & m3 & [= <- <-] & H). rewrite Hts in H.
    destruct (decide (Z.of_nat (length (m_tables m)) < m_capacity m2)) as [Hlt|]; [|done].
    apply bind_Ret_inv in H as (u2 & m4 & [= _ <-] & H). injection H as <- <-.
    cbn [set_m_tables m_tables m_registry m_topic_prefix]. rewrite Hts.
    eexists. split; [by rewrite list_lookup_middle|]. split; [done|].
    split; [|split; [done|split; [done|by right]]].
    split; [done|]. split; [cbn [set_m_tables m_tables m_capacity]; rewrite ?Hts, length_app; simpl; lia|].
    cbn [set_m_tables m_tables m_topic_prefix]. rewrite ?Hts, Hpre. split.
    + rewrite map_app. apply list.NoDup_app. split; [done|]. split; [|apply NoDup_singleton].
      intros x Hx Hx'. apply list_elem_of_singleton in Hx' as ->. done.
    + apply list.Forall_app. split; [done|]. by apply Forall_singleton.
Qed.

(** The entry of a relation. *)
Definition entry_of (m : table_mapper) (relid : Z) : option table_metadata :=
  i ← table_mapper_lookup relid m; m_tables m !! i.

Lemma entry_of_unique m i t :
  NoDup (map t_relid (m_tables m)) -> m_tables m !! i = Some t ->
  table_mapper_lookup (t_relid t) m = Some i.
Proof. intros Hnd Hi. unfold table_mapper_lookup. by rewrite (table_find_at _ _ i 0 t). Qed.

Lemma entry_of_Some m relid t :
  NoDup (map t_relid (m_tables m)) ->
  entry_of m relid = Some t <-> t_relid t = relid /\ t ∈ m_tables m.
Proof.
  intros Hnd. unfold entry_of. split.
  - destruct (table_mapper_lookup relid m) as [i|] eqn:Hi; [|done]. simpl. intros Ht.
    apply table_find_Some in Hi as (t' & Ht' & _ & Hr). rewrite Nat.sub_0_r in Ht'.
    assert (t' = t) as -> by congruence. split; [done|]. by eapply list_elem_of_lookup_2.
  - intros [<- Hin]. apply list_elem_of_lookup in Hin as [i Hi]. by rewrite (entry_of_unique m i t).
Qed.

Lemma framed_ok m0 m i relid t :
  mapper_ok m0 -> framed m0 i relid m -> m_tables m !! i = Some t -> topic_ok (m_topic_prefix m) t ->
  (exists t0, m_tables m0 !! i = Some t0 /\ t_relid t0 = relid) -> mapper_ok m.
Proof.
  intros (Hcap & Hlen & Hnd & Hall) (Hc & Hp & Hl & Ho & t' & Ht' & Hr') Ht Htop (t0 & Ht0 & Hr0).
  assert (t' = t) as -> by congruence.
  assert (Heq : m_tables m = <[i := t]> (m_tables m0)).
  { apply list_eq. intros j. destruct (decide (j = i)) as [->|Hj].
    - rewrite list_lookup_insert_eq by (by eapply lookup_lt_Some). done.
    - rewrite list_lookup_insert_ne by done. by apply Ho. }
  split; [by rewrite Hc|]. split; [by rewrite Hl, Hc|]. rewrite Hp, Heq. split.
  - replace (map t_relid (<[i:=t]> (m_tables m0))) with (map t_relid (m_tables m0)); [done|].
    symmetry. etrans; [apply list_fmap_insert|]. apply list_insert_id.
    rewrite list_lookup_fmap, Ht0. simpl. congruence.
  - apply Forall_insert; [done|]. by rewrite <- Hp.
Qed.

(** Errors are nonzero. *)
Definition fails_nonzero {S A} (m : M S A) : Prop := forall s s', m s <> (Err 0, s').

Lemma fails_bind {S A B} (m : M S A) (k : A -> M S B) :
  fails_nonzero m -> (forall a, fails_nonzero (k a)) -> fails_nonzero (m ≫= k).
Proof.
  intros Hm Hk s s'. specialize (Hm s). unfold mbind, M_bind.
  destruct (m s) as [[a|e| | | |] s1]; simpl; try done; [apply Hk|]. intros [= ->]. by eapply Hm.
Qed.
Lemma fails_stop {S A} (o : outcome A) : o <> Err 0 -> fails_nonzero (S := S) (stop o).
Proof. intros Ho s s' [= E _]. done. Qed.
Lemma fails_ret {S A} (a : A) : fails_nonzero (S := S) (mret a).
Proof. intros s s' H. discriminate H. Qed.
Lemma fails_gets {S A} (f : S -> A) : fails_nonzero (gets f).
Proof. intros s s' H. discriminate H. Qed.
Lemma fails_modify {S} (f : S -> S) : fails_nonzero (modify f).
Proof. intros s s' H. discriminate H. Qed.
Lemma fails_table_at i : fails_nonzero (table_at i).
Proof. intros s s'. unfold table_at. by destruct (m_tables s !! i). Qed.

Lemma fails_open i name : fails_nonzero (open_topic i name).
Proof.
  apply fails_bind; [apply fails_modify|intros _]. apply fails_bind; [apply fails_gets|intros m].
  apply fails_bind.
  { apply fails_stop. unfold topic_name_for. repeat case_match; done. }
  intros n. apply fails_bind.
  { intros s s'. unfold rd_kafka_topic_new. by destruct (m_opens s). }
  intros [|]; [apply fails_modify|]. apply fails_bind; [apply fails_modify|intros _]. by apply fails_stop.
Qed.

Lemma fails_update_topic i name : fails_nonzero (table_metadata_update_topic i name).
Proof.
  apply fails_bind; [apply fails_table_at|intros t].
  destruct (t_topic t); [apply fails_open|..]; case_bool_decide; try apply fails_ret.
  - apply fails_bind; [apply fails_modify|intros _; apply fails_open].
  - by apply fails_stop.
Qed.

Context (Hparse : forall json n, avro_schema_from_json_length L json n <> Err 0).

Lemma fails_request name is_key js : fails_nonzero (schema_registry_request json_dumps json_loadb name is_key js).
Proof.
  unfold schema_registry_request. destruct js as [[|c text]|]; try apply fails_ret.
  apply fails_bind; [apply fails_gets|intros base]. case_match; [by apply fails_stop|].
  destruct (json_dumps _) as [body|]; [|by apply fails_stop]. apply fails_bind.
  { intros s s'. unfold curl_easy_perform. by destruct (responses s). }
  intros resp. apply fails_bind; [|intros id; apply fails_ret]. apply fails_stop.
  unfold registry_parse_response. repeat case_match; done.
Qed.

Lemma fails_update_schema i is_key js : fails_nonzero (update_schema i is_key js).
Proof.
  apply fails_bind; [apply fails_table_at|intros t]. apply fails_bind; [apply fails_gets|intros m].
  apply fails_bind.
  - destruct (m_registry m); [|apply fails_ret]. destruct (t_topic t); try by apply fails_stop.
    apply fails_bind; [|intros got; apply fails_bind; [apply fails_modify|intros _; apply fails_ret]].
    intros s1 s2. unfold on_registry. destruct (m_registry s1) as [r|]; [|done].
    destruct (schema_registry_request _ _ _ _ _ r) as [o r'] eqn:E. intros [= -> _].
    by eapply fails_request.
  - intros id. unfold when. destruct (_ || _); [|apply fails_ret]. apply fails_bind; [|intros s; apply fails_modify].
    destruct js as [text|]; [|apply fails_ret].
    apply fails_bind; [by apply fails_stop|intros s; apply fails_ret].
Qed.

(** A step whose status is 0. *)
Lemma step_inv {A} (m : M table_mapper unit) (k : M table_mapper (option A)) s a s' :
  fails_nonzero m -> (err ← status m; if negb (err =? 0) then mret None else k) s = (Ret (Some a), s') ->
  exists s1, m s = (Ret tt, s1) /\ k s1 = (Ret (Some a), s').
Proof.
  intros Hm H. apply bind_Ret_inv in H as (err & s1 & H1 & H2). exists s1.
  destruct (Z.eqb_spec err 0) as [->|]; [|done]. split; [|done]. unfold status in H1.
  destruct (m s) as [[[]|e| | | |] s2] eqn:E; simplify_eq/=; [done|]. by destruct (Hm s s1).
Qed.

(** The entries of other relations, when only entry [i] has changed or was added. *)
Lemma entry_of_others m m1 m' i relid t1 t4 r :
  mapper_ok m -> mapper_ok m' -> m_tables m1 !! i = Some t1 -> t_relid t1 = relid ->
  m_tables m' !! i = Some t4 -> t_relid t4 = relid ->
  (forall k, k <> i -> m_tables m' !! k = m_tables m1 !! k) ->
  (forall t, t_relid t <> relid -> t ∈ m_tables m1 <-> t ∈ m_tables m) ->
  r <> relid -> entry_of m' r = entry_of m r.
Proof.
  intros (_ & _ & Hnd & _) (_ & _ & Hnd' & _) Ht1 Hr1 Ht4 Hr4 Ho Hin1 Hr.
  apply option_eq. intros t. rewrite (entry_of_Some m'), (entry_of_Some m) by done.
  assert (Hin : t_relid t = r -> t ∈ m_tables m' <-> t ∈ m_tables m1).
  { intros Htr. rewrite !list_elem_of_lookup. split; intros [k Hk]; exists k;
      (destruct (decide (k = i)) as [->|Hne]; [|by rewrite Ho in * by done]).
    - assert (t = t4) as -> by congruence. congruence.
    - assert (t = t1) as -> by congruence. congruence. }
  split; intros [Htr Ht]; (split; [done|]); apply (Hin Htr) in Ht || apply (Hin Htr);
    apply Hin1; congruence || done.
Qed.

Lemma mapper_update_spec relid name key row m i m' :
  mapper_ok m -> Z.of_nat (length (m_tables m)) < 2 ^ 29 ->
  update relid name key row m = (Ret (Some i), m') ->
  mapper_ok m' /\ m_topic_prefix m' = m_topic_prefix m /\ (length (m_tables m') <= S (length (m_tables m)))%nat /\
  (forall r, r <> relid -> entry_of m' r = entry_of m r) /\
  exists t n, m_tables m' !! i = Some t /\ entry_of m' relid = Some t /\
    t_name t = Some name /\ t_topic t = TopicOpen n /\ topic_name_for (m_topic_prefix m) name = Ret n /\
    (m_registry m = None ->
     m_registry m' = None /\ parsed key (t_key_schema t) /\ parsed (Some row) (t_row_schema t)).
Proof.
  intros Hok Hsmall Hrun. unfold table_mapper_update in Hrun.
  apply bind_Ret_inv in Hrun as (found & m0 & [= <- <-] & Hrun).
  apply bind_Ret_inv in Hrun as (j & m1 & H1 & Hrun).
  apply entry_for_spec in H1 as (t1 & Ht1 & Hr1 & Hok1 & Hreg1 & Hpre1 & Htab); [|done..].
  apply step_inv in Hrun as (m2 & H2 & Hrun); [|apply fails_update_topic].
  apply step_inv in Hrun as (m3 & H3 & Hrun); [|apply fails_update_schema].
  apply step_inv in Hrun as (m4 & H4 & Hrun); [|apply fails_update_schema].
  injection Hrun as -> ->.
  assert (Hf1 : framed m1 i relid m1) by (split_and!; try done; by exists t1).
  pose proof (framed_run _ _ _ _ _ _ _ (framed_update_topic m1 i relid name) Hf1 H2) as Hf2.
  pose proof (framed_run _ _ _ _ _ _ _ (framed_update_schema m1 i relid L json_dumps json_loadb true key) Hf2 H3) as Hf3.
  pose proof (framed_run _ _ _ _ _ _ _ (framed_update_schema m1 i relid L json_dumps json_loadb false (Some row)) Hf3 H4) as Hf4.
  assert (Htop1 : topic_ok (m_topic_prefix m1) t1).
  { destruct Hok1 as (_ & _ & _ & Hall). by eapply Forall_lookup_1 in Hall. }
  destruct (update_topic_spec i name m1 m2 t1 Ht1 Htop1 H2)
    as (t2 & n & Ht2 & Htop2 & Hn2 & Hfor & _ & _ & _ & _ & Hreg2).
  destruct (update_schema_spec i true key m2 m3 t2 Ht2 H3) as (t3 & Ht3 & Htop3 & Hn3 & Hs3).
  destruct (update_schema_spec i false (Some row) m3 m' t3 Ht3 H4) as (t4 & Ht4 & Htop4 & Hn4 & Hs4).
  assert (Hok' : mapper_ok m').
  { eapply (framed_ok m1 m' i relid t4); [done|done|done| |by exists t1].
    unfold topic_ok. rewrite Htop4, Htop3, Htop2. exists name. split; [congruence|].
    destruct Hf4 as (_ & -> & _). done. }
  pose proof Hok' as (_ & _ & Hnd' & _). destruct Hf4 as (_ & Hp4 & Hl4 & Ho4 & t4' & Ht4' & Hr4). assert (t4' = t4) as -> by congruence.
  split; [done|]. split; [congruence|]. split.
  { rewrite Hl4. destruct Htab as [->|(-> & _)]; [|rewrite length_app; simpl]; lia. }
  split.
  - intros r Hr. apply (entry_of_others m m1 m' i relid t1 t4); try done. intros t Ht.
    destruct Htab as [->|(-> & _)]; [done|]. rewrite elem_of_app, list_elem_of_singleton. split; [|by left].
    intros [|E]; [done|]. subst t. done.
  - exists t4, n. split; [done|]. split.
    { apply entry_of_Some; [done|]. split; [done|]. by eapply list_elem_of_lookup_2. }
    split; [congruence|]. split; [congruence|]. split; [by rewrite <- Hpre1|].
    intros Hnone. rewrite <- Hreg1, <- Hreg2 in Hnone. destruct (Hs3 Hnone) as (Hnone3 & Hk & _).
    destruct (Hs4 Hnone3) as (? & Hrow & Hkeep). split; [done|]. split; [|done]. by rewrite Hkeep.
Qed.

(** C33: The table mapper is a map from relations to table metadata, kept within its array. A
    successful update leaves one entry for the relation, with the new table name and the
    open topic of that name (with the prefix, if one is configured), leaves every other
    relation's entry as it was and adds at most one entry, and, without a schema registry,
    stores the schemas parsed from the new texts; lookups afterwards find this entry. *)
Theorem mapper_update_correct relid name key row m i m' :
  mapper_ok m -> Z.of_nat (length (m_tables m)) < 2 ^ 29 ->
  update relid name key row m = (Ret (Some i), m') ->
  mapper_ok m' /\ m_topic_prefix m' = m_topic_prefix m /\ (length (m_tables m') <= S (length (m_tables m)))%nat /\
  (forall r, r <> relid -> entry_of m' r = entry_of m r) /\
  exists t n, m_tables m' !! i = Some t /\ entry_of m' relid = Some t /\
    t_name t = Some name /\ t_topic t = TopicOpen n /\ topic_name_for (m_topic_prefix m) name = Ret n /\
    (m_registry m = None ->
     m_registry m' = None /\ parsed key (t_key_schema t) /\ parsed (Some row) (t_row_schema t)).
Proof. apply mapper_update_spec. Qed.

(** C40: A rename that fails leaves a dangling topic. For every table with an open topic and
    every configured prefix: an update with another table name, such that the prefixed
    name has 257 bytes or more, fails, but only after it has destroyed the old topic, whose
    pointer stays in the table's entry under the new name; the other entries are as before.
    The shutdown that follows then destroys the topic a second time, which is undefined
    behaviour. *)
Theorem failed_rename_dangles m relid name key row prefix topic old t :
  mapper_ok m -> entry_of m relid = Some t -> t_topic t = TopicOpen topic -> t_name t = Some old ->
  m_topic_prefix m = Some prefix -> name <> old ->
  TABLE_MAPPER_MAX_TOPIC_LEN <= Z.of_nat (String.length prefix + 1 + String.length name) ->
  exists m', update relid name key row m = (Ret None, m') /\
    entry_of m' relid = Some (set_t_topic TopicDangling (set_t_name (Some name) t)) /\
    (forall r, r <> relid -> entry_of m' r = entry_of m r) /\
    table_mapper_free m' = Undef.
Proof.
  intros Hok Hentry Htop Hname Hpre Hne Hlong. pose proof Hok as (_ & _ & Hnd & _).
  unfold entry_of in Hentry. destruct (table_mapper_lookup relid m) as [i|] eqn:Hi; [|done]. simpl in Hentry.
  set (t' := set_t_topic TopicDangling (set_t_name (Some name) t)).
  set (m' := set_m_tables (<[i := t']> (m_tables m)) m).
  assert (Hrel : t_relid t = relid).
  { apply table_find_Some in Hi as (t0 & Ht0 & _ & Hr). rewrite Nat.sub_0_r in Ht0. congruence. }
  assert (Hlt : (i < length (m_tables m))%nat) by (by eapply lookup_lt_Some).
  assert (Hup : table_metadata_update_topic i name m = (Err (-1), m')) by (by apply (rename_fails m i name prefix topic old t)).
  assert (Hids : map t_relid (m_tables m') = map t_relid (m_tables m)).
  { simpl. etrans; [apply list_fmap_insert|]. apply list_insert_id. by rewrite list_lookup_fmap, Hentry. }
  exists m'. split; [|split; [|split]].
  - unfold table_mapper_update. rewrite (bind_Ret (gets _) _ m (Some i) m) by (unfold gets; by rewrite Hi).
    rewrite (bind_Ret (mret i) _ m i m) by done. unfold mbind, M_bind, status. by rewrite Hup.
  - unfold entry_of. rewrite <- Hrel. change (t_relid t) with (t_relid t').
    rewrite (entry_of_unique m' i t'); [by apply list_lookup_insert_eq|by rewrite Hids|by apply list_lookup_insert_eq].
  - intros r Hr. apply option_eq. intros t0. rewrite !entry_of_Some by (by rewrite ?Hids).
    split; intros [Ht0 Hin]; (split; [done|]); apply list_elem_of_lookup in Hin as [k Hk]; apply list_elem_of_lookup; exists k;
      (destruct (decide (k = i)) as [->|Hki]; [exfalso|simpl in *; by rewrite list_lookup_insert_ne in * by done]).
    + simpl in Hk. rewrite list_lookup_insert_eq in Hk by done. injection Hk as <-. apply Hr. by rewrite <- Ht0, <- Hrel.
    + congruence.
  - apply (table_mapper_free_dangling m' t'); [|done]. eapply list_elem_of_lookup_2. by apply list_lookup_insert_eq.
Qed.

End update.

(** ** Examples *)

Fixpoint repeat_string (n : nat) (s : string) : string :=
  match n with O => "" | S n => s +:+ repeat_string n s end.

Definition no_dumps (_ : list Z) : option string := None.
Definition no_json (_ : string) : option json := None.
Definition sample_mapper (prefix : option string) : table_mapper := table_mapper_new None prefix [].
Abbreviation sample_update := (table_mapper_update ref_lib no_dumps no_json).

Definition sample_updated : table_mapper :=
  snd (sample_update 16384 "test" None (schema_text SInt) (sample_mapper (Some "pre"))).

Lemma mapper_update_correct_witness : mapper_ok sample_updated.
Proof.
  apply (mapper_update_correct ref_lib no_dumps no_json) with (relid := 16384) (name := "test")
    (key := None) (row := schema_text SInt) (m := sample_mapper (Some "pre")) (i := 0%nat).
  - intros j n. simpl. unfold text_schema. by case_match.
  - split_and!; try done; constructor.
  - done.
  - vm_compute. reflexivity.
Defined.

Definition long_name : string := repeat_string 253 "x".
Lemma sample_updated_ok : mapper_ok sample_updated.
Proof.
  apply (mapper_update_spec ref_lib no_dumps no_json) with (relid := 16384) (name := "test")
    (key := None) (row := schema_text SInt) (m := sample_mapper (Some "pre")) (i := 0%nat).
  - intros j n. simpl. unfold text_schema. by case_match.
  - split_and!; try done; constructor.
  - done.
  - vm_compute. reflexivity.
Qed.

Lemma failed_rename_dangles_witness :
  exists m', sample_update 16384 long_name None (schema_text SInt) sample_updated = (Ret None, m') /\
    table_mapper_free m' = Undef.
Proof.
  destruct (failed_rename_dangles ref_lib no_dumps no_json sample_updated 16384 long_name None (schema_text SInt)
    "pre" "pre-test" "test" (default (TableMetadata 0 None TopicNone 0 None 0 None) (m_tables sample_updated !! 0%nat)))
    as (m' & Hrun & _ & _ & Hfree).
  - exact sample_updated_ok.
  - vm_compute. reflexivity.
  - vm_compute. reflexivity.
  - vm_compute. reflexivity.
  - vm_compute. reflexivity.
  - done.
  - vm_compute. done.
  - by exists m'.
Defined.
