(* ===== verification/Json.v ===== *)
(** * JSON output ([kafka/json.c])

    Keys and rows are decoded with the table's schemas and rendered by libavro. *)

From S2P Require Import Prelude Avro AvroBinary NetBytes Registry TableMapper.
Open Scope Z_scope.

Section json.
Context (L : avro_lib).

(** [None] is a null pointer. Trailing bytes are not looked for here. *)
Definition avro_bin_to_json (schema : option avro_schema) (val_bin : option (list Z))
  : outcome (option (list Z)) :=
  match val_bin, schema with
  | None, _ => Ret None
  | Some _, None => Err EINVAL
  | Some bin, Some s =>
      match avro_value_read L (bin, default_value s) with
      | (Ret _, (_, value)) =>
          match avro_value_to_json L value with
          | Ret text => Ret (Some text)
          | o => cast_outcome o
          end
      | (o, _) => cast_outcome o
      end
  end.

Definition json_encode_msg (table : table_metadata) (key_bin row_bin : option (list Z))
  : outcome (option (list Z) * option (list Z)) :=
  match avro_bin_to_json (t_key_schema table) key_bin with
  | Ret key =>
      match avro_bin_to_json (t_row_schema table) row_bin with
      | Ret row => Ret (key, row)
      | o => cast_outcome o
      end
  | o => cast_outcome o
  end.

Context {HL : AvroConforms L}.

(** The text produced is that of the value that was encoded. *)
Lemma avro_bin_to_json_spec s v text :
  has_schema s v -> avro_value_to_json L v = Ret text ->
  avro_bin_to_json (Some s) (Some (encode L v)) = Ret (Some text).
Proof.
  intros Hv Ht. simpl.
  pose proof (conf_value_read (L := L) s v (default_value s) [] Hv (default_of_reset s)) as H.
  rewrite app_nil_r in H. by rewrite H, Ht.
Qed.

(** C34: JSON output decodes what was encoded: for a row and key that are encodings of values
    of the table's schemas, the message consists of the JSON texts of exactly these values;
    a missing key stays missing. *)
Theorem json_message table ks kv rs rv key_text row_text :
  t_key_schema table = Some ks -> t_row_schema table = Some rs ->
  has_schema ks kv -> has_schema rs rv ->
  avro_value_to_json L kv = Ret key_text -> avro_value_to_json L rv = Ret row_text ->
  json_encode_msg table (Some (encode L kv)) (Some (encode L rv)) = Ret (Some key_text, Some row_text) /\
  json_encode_msg table None (Some (encode L rv)) = Ret (None, Some row_text) /\
  json_encode_msg table (Some (encode L kv)) None = Ret (Some key_text, None).
Proof.
  intros Hk Hr Hkv Hrv Htk Htr. unfold json_encode_msg. rewrite Hk, Hr.
  rewrite (avro_bin_to_json_spec ks kv key_text) by done.
  rewrite (avro_bin_to_json_spec rs rv row_text) by done. done.
Qed.

End json.

Lemma json_message_witness :
  json_encode_msg ref_lib (TableMetadata 1 None TopicNone 0 (Some SInt) 0 (Some SInt)) None
    (Some (enc (VInt 5))) = Ret (None, Some (enc (VInt 5))).
Proof.
  apply (json_message ref_lib (TableMetadata 1 None TopicNone 0 (Some SInt) 0 (Some SInt))
    SInt (VInt 5) SInt (VInt 5) (enc (VInt 5))); try reflexivity; by constructor.
Defined.
