(* ===== verification/Producer.v ===== *)
(** * The Kafka producer ([kafka/bottledwater.c])

    The application: every row event becomes a Kafka message; transactions in flight are
    kept in a circular buffer; when the oldest is committed and all its messages are
    acknowledged by Kafka, the position up to which Postgres may discard its log is
    advanced. librdkafka is scripted: which produce calls it accepts, and which delivery
    reports each poll serves. *)

From S2P Require Import Prelude Avro Protocol ProtocolClient NetBytes Libpq Replication Connect.
From S2P Require Import Registry TableMapper Json.
Open Scope Z_scope.

Definition DEFAULT_REPLICATION_SLOT : string := "bottledwater".
Definition APP_NAME : string := "bottledwater".
Definition OUTPUT_PLUGIN : string := "bottledwater".
Definition DEFAULT_BROKER_LIST : string := "localhost:9092".
Definition DEFAULT_SCHEMA_REGISTRY : string := "http://localhost:8081".
Definition MAX_IN_FLIGHT_TRANSACTIONS : Z := 1000.

(** The output format; [OUTPUT_FORMAT_UNDEFINED] is never set by the program. *)
Inductive format_t : Type :=
| OUTPUT_FORMAT_UNDEFINED
| OUTPUT_FORMAT_AVRO
| OUTPUT_FORMAT_JSON.
#[export] Instance format_eq_dec : EqDecision format_t.
Proof. solve_decision. Defined.

Record transaction_info : Type := TransactionInfo {
  xid : Z;
  recvd_events : Z;
  pending_events : Z;
  commit_lsn : Z;
}.
Definition no_transaction : transaction_info := TransactionInfo 0 0 0 0.

(** The opaque pointer that goes with a message: [xact] is an index of [xact_list]. *)
Record msg_envelope : Type := MsgEnvelope {
  env_wal_pos : Z;
  env_relid : Z;
  env_xact : Z;
}.

(** ** librdkafka *)

Record kafka_msg : Type := KafkaMsg {
  k_topic : string;
  k_key : option (list Z);
  k_val : option (list Z);
  k_envelope : msg_envelope;
}.

(** What one [rd_kafka_poll] does: the delivery reports it serves (number of the message
    and error code) and a signal that arrives meanwhile. *)
Record poll_result : Type := PollResult {
  reports : list (nat * Z);
  poll_signal : option Z;
}.

(** What one [rd_kafka_produce] does: whether it accepts the message, and the value errno
    has afterwards. After a failure that is its reason; after a success it is anything that
    was left there. *)
Record attempt : Type := Attempt {
  att_accepted : bool;
  att_errno : Z;
}.

(** The producer handle. Calls of [rd_kafka_produce] beyond [k_attempts] succeed.
    Messages are numbered in the order they were accepted; each is reported at most once. *)
Record kafka_t : Type := Kafka {
  k_attempts : list attempt;
  k_polls : list poll_result;
  k_produced : list kafka_msg;
  k_reported : list nat;
}.

Record producer_context : Type := ProducerContext {
  client : client_context;
  registry : option schema_registry;
  brokers : string;
  xact_list : list transaction_info;
  xact_head : Z;
  xact_tail : Z;
  kafka : kafka_t;
  mapper : table_mapper;
  output_format : format_t;
  topic_prefix : option string;
  errno : Z;
  received_shutdown_signal : Z;
  wal_order_warnings : nat;   (* how often the warning was printed *)
}.

Definition set_client v c :=
  ProducerContext v (registry c) (brokers c) (xact_list c) (xact_head c) (xact_tail c) (kafka c)
    (mapper c) (output_format c) (topic_prefix c) (errno c) (received_shutdown_signal c)
    (wal_order_warnings c).
Definition set_registry v c :=
  ProducerContext (client c) v (brokers c) (xact_list c) (xact_head c) (xact_tail c) (kafka c)
    (mapper c) (output_format c) (topic_prefix c) (errno c) (received_shutdown_signal c)
    (wal_order_warnings c).
Definition set_brokers v c :=
  ProducerContext (client c) (registry c) v (xact_list c) (xact_head c) (xact_tail c) (kafka c)
    (mapper c) (output_format c) (topic_prefix c) (errno c) (received_shutdown_signal c)
    (wal_order_warnings c).
Definition set_xact_list v c :=
  ProducerContext (client c) (registry c) (brokers c) v (xact_head c) (xact_tail c) (kafka c)
    (mapper c) (output_format c) (topic_prefix c) (errno c) (received_shutdown_signal c)
    (wal_order_warnings c).
Definition set_xact_head v c :=
  ProducerContext (client c) (registry c) (brokers c) (xact_list c) v (xact_tail c) (kafka c)
    (mapper c) (output_format c) (topic_prefix c) (errno c) (received_shutdown_signal c)
    (wal_order_warnings c).
Definition set_xact_tail v c :=
  ProducerContext (client c) (registry c) (brokers c) (xact_list c) (xact_head c) v (kafka c)
    (mapper c) (output_format c) (topic_prefix c) (errno c) (received_shutdown_signal c)
    (wal_order_warnings c).
Definition set_kafka v c :=
  ProducerContext (client c) (registry c) (brokers c) (xact_list c) (xact_head c) (xact_tail c)
    v (mapper c) (output_format c) (topic_prefix c) (errno c) (received_shutdown_signal c)
    (wal_order_warnings c).
Definition set_mapper v c :=
  ProducerContext (client c) (registry c) (brokers c) (xact_list c) (xact_head c) (xact_tail c)
    (kafka c) v (output_format c) (topic_prefix c) (errno c) (received_shutdown_signal c)
    (wal_order_warnings c).
Definition set_output_format_field v c :=
  ProducerContext (client c) (registry c) (brokers c) (xact_list c) (xact_head c) (xact_tail c)
    (kafka c) (mapper c) v (topic_prefix c) (errno c) (received_shutdown_signal c)
    (wal_order_warnings c).
Definition set_topic_prefix v c :=
  ProducerContext (client c) (registry c) (brokers c) (xact_list c) (xact_head c) (xact_tail c)
    (kafka c) (mapper c) (output_format c) v (errno c) (received_shutdown_signal c)
    (wal_order_warnings c).
Definition set_errno v c :=
  ProducerContext (client c) (registry c) (brokers c) (xact_list c) (xact_head c) (xact_tail c)
    (kafka c) (mapper c) (output_format c) (topic_prefix c) v (received_shutdown_signal c)
    (wal_order_warnings c).
Definition set_signal v c :=
  ProducerContext (client c) (registry c) (brokers c) (xact_list c) (xact_head c) (xact_tail c)
    (kafka c) (mapper c) (output_format c) (topic_prefix c) (errno c) v (wal_order_warnings c).
Definition warn_wal_order c :=
  ProducerContext (client c) (registry c) (brokers c) (xact_list c) (xact_head c) (xact_tail c)
    (kafka c) (mapper c) (output_format c) (topic_prefix c) (errno c)
    (received_shutdown_signal c) (S (wal_order_warnings c)).

#[export] Instance Has_client : Has client_context producer_context.
Proof. by refine {| prj := client; upd := set_client |}; intros; destruct x. Defined.
#[export] Instance Has_kafka : Has kafka_t producer_context.
Proof. by refine {| prj := kafka; upd := set_kafka |}; intros; destruct x. Defined.
#[export] Instance Has_mapper : Has table_mapper producer_context.
Proof. by refine {| prj := mapper; upd := set_mapper |}; intros; destruct x. Defined.

Abbreviation MP := (M producer_context).

(** The replication stream of the client. *)
Definition on_repl {A} (m : M replication_stream A) : MP A := zoom (zoom (X := client_context) m).

(** ** Leaving *)

(** Drops the slot of an unfinished snapshot when there was an error; releases the topics;
    ends the process. *)
Definition exit_nicely {A} (status : Z) : MP A :=
  c ← gets client;
  _ ← when (taking_snapshot c && negb (status =? 0)) (
        _ ← Prelude.status (on_repl replication_slot_drop); mret ());
  m ← gets mapper;
  m ← stop (table_mapper_free m);
  _ ← modify (set_mapper m);
  stop (Exit status).

(** ** The circular buffer *)

Definition xact_list_full (c : producer_context) : bool :=
  (xact_head c + 1) mod MAX_IN_FLIGHT_TRANSACTIONS =? xact_tail c.

Definition xact_at (i : Z) : MP transaction_info := fun c =>
  match xact_list c !! Z.to_nat i with
  | Some x => (Ret x, c)
  | None => (Undef, c)
  end.
Definition update_xact (i : Z) (f : transaction_info -> transaction_info) : MP unit :=
  modify (fun c => set_xact_list (alter f (Z.to_nat i) (xact_list c)) c).

(** One iteration of the checkpoint loop; [true] to go on. *)
Definition checkpoint_step : MP bool :=
  tail ← gets xact_tail;
  xact ← xact_at tail;
  if (pending_events xact =? 0) && ((0 <? commit_lsn xact) || (xid xact =? 0)) then
    fsync ← gets (fun c => fsync_lsn (repl (client c)));
    _ ← when (commit_lsn xact <? fsync) (modify warn_wal_order);
    _ ← on_repl (modify (set_fsync_lsn (commit_lsn xact)));
    _ ← when ((xid xact =? 0) && (0 <? commit_lsn xact)) (zoom (modify (set_taking_snapshot false)));
    head ← gets xact_head;
    if tail =? head then mret false
    else
      _ ← modify (set_xact_tail ((tail + 1) mod MAX_IN_FLIGHT_TRANSACTIONS));
      mret true
  else mret false.

Fixpoint checkpoint_loop (fuel : nat) : MP unit :=
  match fuel with
  | O => stop Blocked
  | S fuel =>
      again ← checkpoint_step;
      if again : bool then checkpoint_loop fuel else mret ()
  end.

(** The tail moves towards the head, so the ring's size bounds the iterations. *)
Definition maybe_checkpoint : MP unit := checkpoint_loop (Z.to_nat MAX_IN_FLIGHT_TRANSACTIONS).

(** ** Delivery reports *)

Definition in_flight (k : kafka_t) (m : nat) : bool :=
  bool_decide (m < length (k_produced k))%nat && negb (bool_decide (m ∈ k_reported k)).

Definition on_deliver_msg (envelope : msg_envelope) (err : Z) : MP unit :=
  if negb (err =? 0) then exit_nicely 1
  else
    _ ← update_xact (env_xact envelope) (fun x =>
          TransactionInfo (xid x) (recvd_events x) (s32 (pending_events x - 1)) (commit_lsn x));
    maybe_checkpoint.

(** Serve one report. *)
Definition deliver (m : nat) (err : Z) : MP unit :=
  k ← gets kafka;
  match k_produced k !! m with
  | Some msg =>
      when (in_flight k m) (
        _ ← modify (fun c => set_kafka (Kafka (k_attempts (kafka c)) (k_polls (kafka c))
                                 (k_produced (kafka c)) (m :: k_reported (kafka c))) c);
        on_deliver_msg (k_envelope msg) err)
  | None => mret ()
  end.

Fixpoint deliver_all (l : list (nat * Z)) : MP unit :=
  match l with
  | [] => mret ()
  | (m, err) :: l => _ ← deliver m err; deliver_all l
  end.

Definition rd_kafka_poll : MP unit :=
  k ← gets kafka;
  match k_polls k with
  | [] => mret ()
  | r :: rest =>
      _ ← modify (set_kafka (Kafka (k_attempts k) rest (k_produced k) (k_reported k)));
      _ ← deliver_all (reports r);
      modify (fun c => set_signal (default (received_shutdown_signal c) (poll_signal r)) c)
  end.

(** ** Backpressure *)

Section producer.
Context (le : bool) (clock : nat -> Z * Z) (L : avro_lib).
Context (json_dumps : list Z -> option string) (json_loadb : string -> option json).

Definition backpressure : MP unit :=
  _ ← rd_kafka_poll;
  sig ← gets received_shutdown_signal;
  if negb (sig =? 0) then exit_nicely 0
  else
    err ← status (on_repl (replication_stream_keepalive le clock));
    if negb (err =? 0) then exit_nicely 1 else mret ().

(** [while (xact_list_full(context)) backpressure(context)]: waits forever if the
    environment acknowledges nothing. *)
Fixpoint wait_not_full (fuel : nat) : MP unit :=
  full ← gets xact_list_full;
  if negb full then mret ()
  else
    match fuel with
    | O => stop Blocked
    | S fuel => _ ← backpressure; wait_not_full fuel
    end.

(** ** Callbacks *)

Definition begin_txn (wal_pos : Z) (new_xid : Z) : MP unit :=
  if new_xid =? 0 then
    c ← gets (fun c => c);
    if negb (xact_head c =? 0) || negb (xact_tail c =? 0) then exit_nicely 1 else mret ()
  else
    polls ← gets (fun c => length (k_polls (kafka c)));
    _ ← wait_not_full polls;
    _ ← modify (fun c => set_xact_head ((xact_head c + 1) mod MAX_IN_FLIGHT_TRANSACTIONS) c);
    head ← gets xact_head;
    update_xact head (fun _ => TransactionInfo new_xid 0 0 0).

Definition commit_txn (wal_pos : Z) (committed : Z) : MP unit :=
  head ← gets xact_head;
  xact ← xact_at head;
  if negb (committed =? xid xact) then exit_nicely 1
  else
    _ ← update_xact head (fun x =>
          TransactionInfo (xid x) (recvd_events x) (pending_events x) wal_pos);
    maybe_checkpoint.

Definition table_schema_cb (wal_pos relid : Z) (key : option schema_arg) (row : schema_arg) : MP unit :=
  table ← zoom (table_mapper_update L json_dumps json_loadb relid (avro_schema_name (snd row))
                  (fst <$> key) (fst row));
  match table with
  | Some _ => mret ()
  | None => exit_nicely 1
  end.

(** ** Producing *)

(** 0, or -1. *)
Definition rd_kafka_produce (msg : kafka_msg) : MP Z :=
  k ← gets kafka;
  let a := default (Attempt true 0) (head (k_attempts k)) in
  let rest := tail (k_attempts k) in
  _ ← modify (set_errno (att_errno a));
  if att_accepted a then
    _ ← modify (set_kafka (Kafka rest (k_polls k) (k_produced k ++ [msg]) (k_reported k)));
    mret 0
  else
    _ ← modify (set_kafka (Kafka rest (k_polls k) (k_produced k) (k_reported k)));
    mret (-1).

(** One round of the enqueueing loop; [true] once the message is enqueued. ENOBUFS is the
    errno that librdkafka maps to RD_KAFKA_RESP_ERR__QUEUE_FULL; it is tested whether or
    not the call failed. *)
Definition try_produce (msg : kafka_msg) : MP bool :=
  err ← rd_kafka_produce msg;
  e ← gets errno;
  if e =? ENOBUFS then _ ← backpressure; mret (err =? 0)
  else if negb (err =? 0) then exit_nicely 1
  else mret true.

(** Every rejected attempt uses up one element of the script. *)
Fixpoint produce_loop (fuel : nat) (msg : kafka_msg) : MP unit :=
  match fuel with
  | O => stop Blocked
  | S fuel =>
      enqueued ← try_produce msg;
      if enqueued : bool then mret () else produce_loop fuel msg
  end.

(** Key and value in the output format. *)
Definition encode_msg (format : format_t) (table : table_metadata) (key_bin val_bin : option (list Z))
  : outcome (option (list Z) * option (list Z)) :=
  match format with
  | OUTPUT_FORMAT_JSON => json_encode_msg L table key_bin val_bin
  | OUTPUT_FORMAT_AVRO =>
      Ret (schema_registry_encode_msg le (t_key_schema_id table) (t_row_schema_id table) key_bin val_bin)
  | OUTPUT_FORMAT_UNDEFINED => Err EINVAL
  end.

Definition send_kafka_msg (wal_pos relid : Z) (key_bin val_bin : option (list Z)) : MP unit :=
  head ← gets xact_head;
  _ ← xact_at head;
  _ ← update_xact head (fun x =>
        TransactionInfo (xid x) (s32 (recvd_events x + 1)) (s32 (pending_events x + 1)) (commit_lsn x));
  let envelope := MsgEnvelope wal_pos relid head in
  c ← gets (fun c => c);
  match table_mapper_lookup relid (mapper c) ≫= (fun i => m_tables (mapper c) !! i) with
  | None => exit_nicely 1
  | Some table =>
      match encode_msg (output_format c) table key_bin val_bin with
      | Ret (key, val) =>
          match t_topic table with
          | TopicOpen topic =>
              produce_loop (S (length (k_attempts (kafka c)))) (KafkaMsg topic key val envelope)
          | _ => stop Undef
          end
      | Err _ => exit_nicely 1
      | o => stop (cast_outcome o)
      end
  end.

Definition insert_row (wal_pos relid : Z) (key : option value_arg) (row : value_arg) : MP unit :=
  send_kafka_msg wal_pos relid (fst <$> key) (Some (fst row)).

Definition update_row (wal_pos relid : Z) (key old : option value_arg) (row : value_arg) : MP unit :=
  send_kafka_msg wal_pos relid (fst <$> key) (Some (fst row)).

(** A delete is a message without value; without a key nothing can be done. *)
Definition delete_row (wal_pos relid : Z) (key old : option value_arg) : MP unit :=
  match key with
  | Some k => send_kafka_msg wal_pos relid (Some (fst k)) None
  | None => mret ()
  end.

Definition producer_callbacks : callbacks producer_context := {|
  on_begin_txn := Some begin_txn;
  on_commit_txn := Some commit_txn;
  on_table_schema := Some table_schema_cb;
  on_insert_row := Some insert_row;
  on_update_row := Some update_row;
  on_delete_row := Some delete_row;
|}.

End producer.
