(* ===== verification/ProducerSafety.v ===== *)
(** * Delivery guarantees of the producer

    The circular buffer, the delivery reports and the checkpoint position, related to the
    history of the stream: which transaction every message belongs to and where each
    transaction was committed. The main invariant holds after every callback and every
    poll: a message that Kafka has not acknowledged belongs to a transaction that is still
    open or was committed after the position reported to Postgres. *)

From S2P Require Import Prelude Avro Protocol ProtocolClient NetBytes Libpq Replication Connect.
From S2P Require Import Registry TableMapper Json Producer.
Open Scope Z_scope.

(** ** The history *)

(** The transactions received so far, numbered from 0 (the snapshot, or nothing when the
    slot existed already): the position of their commit, 0 while there is none. The last
    one is current; it may still be open. [h_txns]: the transaction of every message
    handed to Kafka. *)
Record history : Type := History {
  h_commits : list Z;
  h_open : bool;
  h_snapshot : bool;
  h_txns : list nat;
}.

Definition commit_of (h : history) (tid : nat) : Z := default 0 (h_commits h !! tid).
Definition current (h : history) : nat := pred (length (h_commits h)).
Definition closed (h : history) (tid : nat) : Prop :=
  (tid < current h)%nat \/ (tid = current h /\ h_open h = false).

(** Messages of transaction [tid] that are not acknowledged. *)
Definition waiting (h : history) (reported : list nat) (tid : nat) : list nat :=
  filter (fun m => h_txns h !! m = Some tid /\ m ∉ reported) (seq 0 (length (h_txns h))).
Definition unacked (h : history) (reported : list nat) (tid : nat) : nat :=
  length (waiting h reported tid).

Definition slot (tid : nat) : nat := (tid mod 1000)%nat.
Definition fsync (c : producer_context) : Z := fsync_lsn (repl (client c)).

(** A history that the client can have seen: positions increase, everything but the
    current transaction is committed. *)
Record wf_history (h : history) : Prop := {
  wf_nonempty : h_commits h <> [];
  wf_committed tid : closed h tid -> (tid <> 0%nat \/ h_snapshot h = true) -> 0 < commit_of h tid;
  wf_opened : h_open h = true -> commit_of h (current h) = 0;
  wf_increasing i j : (i < j)%nat -> closed h j -> commit_of h i < commit_of h j;
  wf_nosnapshot : h_snapshot h = false ->
    closed h 0 /\ commit_of h 0 = 0 /\ (forall m, h_txns h !! m <> Some 0%nat);
  wf_txns m tid : h_txns h !! m = Some tid -> (tid <= current h)%nat;
  wf_rows tid : Z.of_nat (length (filter (fun t => t = tid) (h_txns h))) < 2 ^ 31;
}.

(** The ring holds the transactions from [t] to the current one. [extra] messages of the
    current transaction are counted as pending but not yet handed to Kafka. *)
Record ring (h : history) (t extra : nat) (c : producer_context) : Prop := {
  ring_window : (t <= current h < t + 1000)%nat;
  ring_length : length (xact_list c) = 1000%nat;
  ring_head : xact_head c = Z.of_nat (slot (current h));
  ring_tail : xact_tail c = Z.of_nat (slot t);
  ring_slot tid : (t <= tid <= current h)%nat ->
    exists x, xact_list c !! slot tid = Some x /\ commit_lsn x = commit_of h tid /\
      pending_events x = Z.of_nat (unacked h (k_reported (kafka c)) tid +
                                   if decide (tid = current h) then extra else 0) /\
      (xid x = 0 <-> tid = 0%nat);
}.

(** The messages Kafka has taken belong to the slots of their transactions; those without
    an acknowledgement are in the window. *)
Record delivery (h : history) (t : nat) (c : producer_context) : Prop := {
  del_length : length (h_txns h) = length (k_produced (kafka c));
  del_envelope m msg tid : k_produced (kafka c) !! m = Some msg -> h_txns h !! m = Some tid ->
    env_xact (k_envelope msg) = Z.of_nat (slot tid);
  del_waiting m tid : h_txns h !! m = Some tid -> m ∉ k_reported (kafka c) -> (t <= tid)%nat;
  del_reported m : m ∈ k_reported (kafka c) -> (m < length (k_produced (kafka c)))%nat;
}.

(** The reported position: not beyond the commit of any transaction in the window, and
    at it only when all its messages are acknowledged; the server was never told more. *)
Record checkpointed (h : history) (t : nat) (c : producer_context) : Prop := {
  ck_nonneg : 0 <= fsync c;
  ck_bound tid : (t <= tid)%nat -> closed h tid ->
    fsync c <= commit_of h tid /\
    (fsync c = commit_of h tid -> unacked h (k_reported (kafka c)) tid = 0%nat);
  ck_start : t = 0%nat -> commit_of h 0 = 0 -> fsync c = 0;
  ck_source : fsync c = 0 \/ exists tid, closed h tid /\ fsync c = commit_of h tid;
  ck_warnings : wal_order_warnings c = 0%nat;
  ck_snapshot : h_snapshot h = true -> taking_snapshot (client c) = false ->
    0 < commit_of h 0 /\ unacked h (k_reported (kafka c)) 0 = 0%nat;
  ck_cleared : (0 < t)%nat \/ 0 < fsync c -> h_snapshot h = true -> taking_snapshot (client c) = false;
  ck_told : told_at_most (fsync c) (repl (client c));
}.

Record invariant_at (h : history) (t extra : nat) (c : producer_context) : Prop := {
  inv_wf : wf_history h;
  inv_ring : ring h t extra c;
  inv_delivery : delivery h t c;
  inv_checkpoint : checkpointed h t c;
  inv_extra : (extra <> 0)%nat -> h_open h = true;
  inv_room : Z.of_nat (length (filter (fun u => u = current h) (h_txns h))) + Z.of_nat extra < 2 ^ 31;
}.

Definition invariant (h : history) (extra : nat) (c : producer_context) : Prop :=
  exists t, invariant_at h t extra c.

(** ** Counting *)

Lemma unacked_le h reported tid :
  (unacked h reported tid <= length (filter (fun t => t = tid) (h_txns h)))%nat.
Proof.
  unfold unacked, waiting. generalize (h_txns h) as l. intros l.
  assert (H : forall k, (length (filter (fun m => l !! (m - k)%nat = Some tid /\ m ∉ reported) (seq k (length l)))
    <= length (filter (fun t => t = tid) l))%nat).
  { induction l as [|a l IH]; intros k; [done|]. simpl seq. simpl length.
    rewrite !filter_cons. specialize (IH (S k)).
    assert (E : length (filter (fun m => (a :: l) !! (m - k)%nat = Some tid /\ m ∉ reported) (seq (S k) (length l)))
      = length (filter (fun m => l !! (m - S k)%nat = Some tid /\ m ∉ reported) (seq (S k) (length l)))).
    { f_equal. apply filter_iff_in. intros m Hm. apply elem_of_seq in Hm.
      by replace (m - k)%nat with (S (m - S k)) by lia. }
    repeat case_decide; simpl; try lia.
    destruct_and?. replace (k - k)%nat with 0%nat in * by lia. simplify_eq/=. }
  specialize (H 0%nat). etrans; [|exact H]. apply Nat.eq_le_incl. f_equal.
  apply list_filter_iff. intros m. by rewrite Nat.sub_0_r.
Qed.

Lemma elem_of_waiting h reported tid m :
  m ∈ waiting h reported tid <-> h_txns h !! m = Some tid /\ m ∉ reported.
Proof.
  unfold waiting. rewrite list_elem_of_filter, elem_of_seq. split; [tauto|].
  intros [Hm Hr]. split; [done|]. apply lookup_lt_Some in Hm. lia.
Qed.

Lemma NoDup_waiting h reported tid : NoDup (waiting h reported tid).
Proof. apply list.NoDup_filter, NoDup_seq. Qed.

(** A report takes one message off the count of its transaction. *)
Lemma unacked_report h reported m tid :
  h_txns h !! m = Some tid -> m ∉ reported ->
  unacked h reported tid = S (unacked h (m :: reported) tid).
Proof.
  intros Hm Hr. unfold unacked.
  assert (E : waiting h reported tid ≡ₚ m :: waiting h (m :: reported) tid).
  { apply list.NoDup_Permutation; [apply NoDup_waiting| |].
    - apply list.NoDup_cons. split; [|apply NoDup_waiting]. rewrite elem_of_waiting, elem_of_cons. tauto.
    - intros x. rewrite elem_of_cons, !elem_of_waiting, not_elem_of_cons.
      destruct (decide (x = m)) as [->|]; tauto. }
  by rewrite E.
Qed.

Lemma unacked_report_other h reported m tid tid' :
  h_txns h !! m = Some tid -> tid' <> tid ->
  unacked h (m :: reported) tid' = unacked h reported tid'.
Proof.
  intros Hm Hne. unfold unacked. f_equal. apply list_filter_iff.
  intros x. rewrite not_elem_of_cons. split; [tauto|]. intros [Hx Hr].
  split; [done|]. split; [|done]. intros ->. congruence.
Qed.

(** A message handed to Kafka. *)
Definition with_message (tid : nat) (h : history) : history :=
  History (h_commits h) (h_open h) (h_snapshot h) (h_txns h ++ [tid]).

Lemma unacked_produce h reported tid0 tid :
  (forall m, m ∈ reported -> (m < length (h_txns h))%nat) ->
  unacked (with_message tid0 h) reported tid =
  (unacked h reported tid + if decide (tid = tid0) then 1 else 0)%nat.
Proof.
  intros Hrep. unfold unacked, waiting. simpl.
  rewrite length_app, Nat.add_1_r, seq_S, list.filter_app, length_app. f_equal.
  - f_equal. apply filter_iff_in. intros m Hm. apply elem_of_seq in Hm.
    by rewrite lookup_app_l by lia.
  - simpl. rewrite filter_cons, filter_nil.
    destruct (decide (tid = tid0)) as [->|Hne].
    + rewrite decide_True; [done|]. split; [by rewrite list_lookup_middle|].
      intros Hin. apply Hrep in Hin. lia.
    + rewrite decide_False; [done|]. rewrite list_lookup_middle by done. intros [[=] _]. congruence.
Qed.

Lemma unacked_pos h reported m tid :
  h_txns h !! m = Some tid -> m ∉ reported -> unacked h reported tid <> 0%nat.
Proof. intros Hm Hr. rewrite (unacked_report h reported m tid) by done. lia. Qed.

(** ** Slots *)

Lemma slot_lt tid : (slot tid < 1000)%nat.
Proof. unfold slot. apply Nat.mod_upper_bound. lia. Qed.

(** Transactions of one window have different slots. *)
Lemma slot_inj i j : slot i = slot j -> (i <= j < i + 1000)%nat -> i = j.
Proof.
  unfold slot. intros E H. pose proof (Nat.div_mod_eq i 1000). pose proof (Nat.div_mod_eq j 1000). lia.
Qed.

Lemma slot_S tid : Z.of_nat (slot (S tid)) = (Z.of_nat (slot tid) + 1) mod 1000.
Proof.
  unfold slot. rewrite !Nat2Z.inj_mod. rewrite Nat2Z.inj_succ. unfold Z.succ.
  by rewrite Zplus_mod_idemp_l.
Qed.

Lemma current_lookup h : h_commits h <> [] -> (current h < length (h_commits h))%nat.
Proof. unfold current. destruct (h_commits h); [done|]. simpl. lia. Qed.

(** ** The checkpoint loop *)

Definition complete (x : transaction_info) : bool :=
  (pending_events x =? 0) && ((0 <? commit_lsn x) || (xid x =? 0)).

Definition set_fsync (v : Z) (c : producer_context) : producer_context :=
  set_client (set_repl (set_fsync_lsn v (repl (client c))) (client c)) c.
Definition clear_snapshot (c : producer_context) : producer_context :=
  set_client (set_taking_snapshot false (client c)) c.

(** The assignments of one iteration. *)
Definition advance (x : transaction_info) (c : producer_context) : producer_context :=
  let c := if commit_lsn x <? fsync c then warn_wal_order c else c in
  let c := set_fsync (commit_lsn x) c in
  if (xid x =? 0) && (0 <? commit_lsn x) then clear_snapshot c else c.

Lemma checkpoint_step_run c x :
  xact_list c !! Z.to_nat (xact_tail c) = Some x ->
  checkpoint_step c =
  if complete x then
    if xact_tail c =? xact_head c then (Ret false, advance x c)
    else (Ret true, set_xact_tail ((xact_tail c + 1) mod 1000) (advance x c))
  else (Ret false, c).
Proof.
  intros Hx. unfold checkpoint_step, complete, advance, mbind, M_bind, gets, xact_at. rewrite Hx.
  destruct ((pending_events x =? 0) && _); [|done].
  unfold fsync, when, modify, on_repl, zoom. simpl.
  destruct (commit_lsn x <? _); simpl; destruct ((xid x =? 0) && _); simpl;
    by destruct (xact_tail c =? xact_head c).
Qed.

(** What the iteration leaves alone. *)
Lemma advance_frame x c :
  kafka (advance x c) = kafka c /\ xact_list (advance x c) = xact_list c /\
  xact_head (advance x c) = xact_head c /\ xact_tail (advance x c) = xact_tail c /\
  fsync (advance x c) = commit_lsn x /\ conn (repl (client (advance x c))) = conn (repl (client c)).
Proof.
  unfold advance. destruct (commit_lsn x <? fsync c), ((xid x =? 0) && (0 <? commit_lsn x)); by split_and!.
Qed.

Lemma ring_ext h t extra c c' :
  xact_list c' = xact_list c -> xact_head c' = xact_head c -> xact_tail c' = xact_tail c ->
  k_reported (kafka c') = k_reported (kafka c) -> ring h t extra c -> ring h t extra c'.
Proof. intros E1 E2 E3 E4 []. split; rewrite ?E1, ?E2, ?E3, ?E4; auto. Qed.

Lemma delivery_ext h t c c' :
  k_produced (kafka c') = k_produced (kafka c) -> k_reported (kafka c') = k_reported (kafka c) ->
  delivery h t c -> delivery h t c'.
Proof. intros E1 E2 []. split; rewrite ?E1, ?E2; auto. Qed.

Section checkpoint.
Context (h : history) (t extra : nat) (c : producer_context) (x : transaction_info).
Context (Hinv : invariant_at h t extra c).
Context (Hx : xact_list c !! slot t = Some x) (Hcomplete : complete x = true).

Lemma complete_facts :
  commit_lsn x = commit_of h t /\ unacked h (k_reported (kafka c)) t = 0%nat /\
  ((0 < commit_of h t /\ closed h t) \/ (commit_of h t = 0 /\ t = 0%nat)) /\
  (xid x = 0 <-> t = 0%nat).
Proof.
  destruct Hinv as [Hwf Hring _ _ _ _].
  destruct (ring_slot _ _ _ _ Hring t) as (x' & Hx' & Hcom & Hpend & Hxid).
  { pose proof (ring_window _ _ _ _ Hring). lia. }
  assert (x' = x) as -> by congruence.
  unfold complete in Hcomplete. apply andb_true_iff in Hcomplete as [Hp Hc].
  apply Z.eqb_eq in Hp. split; [done|]. split; [lia|]. split; [|done].
  apply orb_true_iff in Hc as [Hc|Hc].
  - left. apply Z.ltb_lt in Hc. split; [lia|].
    pose proof (ring_window _ _ _ _ Hring). unfold closed.
    destruct (decide (t = current h)) as [Ht|]; [right|left; lia]. split; [done|].
    destruct (h_open h) eqn:Ho; [|done]. pose proof (wf_opened _ Hwf Ho). subst t. lia.
  - apply Z.eqb_eq, Hxid in Hc as ->. destruct (decide (commit_of h 0 = 0)) as [|Hne]; [by right|].
    left. assert (Hcl : closed h 0).
    { unfold closed. destruct (decide (0%nat = current h)) as [E|]; [right|left; lia]. split; [done|].
      destruct (h_open h) eqn:Ho; [|done]. pose proof (wf_opened _ Hwf Ho) as H0.
      rewrite <- E in H0. lia. }
    split; [|done]. destruct (inv_checkpoint _ _ _ _ Hinv) as [Hnn Hb _ _ _ _ _ _].
    destruct (Hb 0%nat) as [Hb0 _]; [lia|done|]. lia.
Qed.

Lemma advance_checkpointed : checkpointed h t (advance x c).
Proof.
  destruct complete_facts as (Hcom & Hun & Hcase & Hxid).
  destruct (advance_frame x c) as (Hk & _ & _ & _ & Hf & Hconn).
  destruct (inv_checkpoint _ _ _ _ Hinv) as [Hnn Hb Hst Hsrc Hw Hsn Hclr Htold].
  assert (Hle : fsync c <= commit_of h t).
  { destruct Hcase as [[_ Hcl]|[Hz ->]]; [by apply Hb|]. rewrite (Hst eq_refl Hz). lia. }
  split; rewrite ?Hf, ?Hk, ?Hcom.
  - lia.
  - intros tid Htid Hcl. destruct (decide (tid = t)) as [->|Hne]; [done|].
    assert (commit_of h t < commit_of h tid); [|lia].
    apply (wf_increasing _ (inv_wf _ _ _ _ Hinv)); [lia|done].
  - intros -> Hz. done.
  - destruct Hcase as [[_ Hcl]|[Hz _]]; [right; eauto|by left].
  - unfold advance. rewrite Hcom. destruct (Z.ltb_spec (commit_of h t) (fsync c)); [lia|].
    by destruct ((xid x =? 0) && _).
  - intros Hs Ht. unfold advance in Ht. rewrite Hcom in Ht.
    destruct (Z.ltb_spec (commit_of h t) (fsync c)); [lia|].
    destruct (Z.eqb_spec (xid x) 0) as [E|E]; simpl in Ht.
    + apply Hxid in E. subst t.
      destruct (Z.ltb_spec 0 (commit_of h 0)); [done|]. by apply Hsn.
    + by apply Hsn.
  - intros Hpos Hs. unfold advance. rewrite Hcom. destruct (Z.ltb_spec (commit_of h t) (fsync c)); [lia|].
    destruct (Z.eqb_spec (xid x) 0) as [E|E]; simpl.
    + apply Hxid in E. subst t. destruct (Z.ltb_spec 0 (commit_of h 0)); [done|]. destruct Hpos; lia.
    + apply Hclr; [left|done]. destruct (decide (t = 0%nat)) as [Ht|]; [|lia]. by apply Hxid in Ht.
  - unfold told_at_most in *. rewrite Hconn. intros le buf p Hbuf Hp. specialize (Htold le buf p Hbuf Hp). lia.
Qed.

Lemma advance_invariant : invariant_at h t extra (advance x c).
Proof.
  destruct Hinv as [? Hr Hd Hc ? ?]. destruct (advance_frame x c) as (Hk & Hl & Hh & Ht & _).
  split; try done.
  - eapply ring_ext; [..|exact Hr]; congruence.
  - eapply delivery_ext; [..|exact Hd]; congruence.
  - apply advance_checkpointed.
Qed.

End checkpoint.

(** The tail moves past a transaction without outstanding messages. *)
Lemma shift_tail h t extra c :
  invariant_at h t extra c -> unacked h (k_reported (kafka c)) t = 0%nat -> t <> current h ->
  fsync c = commit_of h t ->
  invariant_at h (S t) extra (set_xact_tail ((xact_tail c + 1) mod 1000) c).
Proof.
  intros [Hwf Hr Hd Hc He Hroom] Hun Hne Hf. split; try done.
  - destruct Hr as [Hwin Hlen Hhd Htl Hslot]. split; simpl; try done; try lia.
    + by rewrite Htl, slot_S.
    + intros tid Htid. apply Hslot. lia.
  - destruct Hd as [? ? Hw ?]. split; simpl; try done.
    intros m tid Hm Hrep. pose proof (Hw m tid Hm Hrep).
    destruct (decide (tid = t)) as [->|]; [|lia].
    by destruct (unacked_pos h (k_reported (kafka c)) m t Hm Hrep).
  - destruct Hc as [? Hb ? ? ? ? Hcle ?]. split; simpl; try done.
    + intros tid Htid Hcl. apply Hb; [lia|done].
    + intros _ Hs. apply Hcle; [right|done]. rewrite Hf. apply (wf_committed _ Hwf); [left|by right].
      pose proof (ring_window _ _ _ _ Hr). lia.
Qed.

(** How far the loop can go: it stops at the head, or at a transaction that waits. *)
Definition stopped (h : history) (t : nat) (c : producer_context) : Prop :=
  exists x, xact_list c !! slot t = Some x /\
    (complete x = false \/ (t = current h /\ fsync c = commit_lsn x)).

(** What the checkpoint loop leaves alone. *)
Definition same_kafka (c c' : producer_context) : Prop :=
  kafka c' = kafka c /\ mapper c' = mapper c /\ xact_list c' = xact_list c /\
  xact_head c' = xact_head c /\ output_format c' = output_format c /\
  received_shutdown_signal c' = received_shutdown_signal c /\ errno c' = errno c.

Lemma same_kafka_trans c1 c2 c3 : same_kafka c1 c2 -> same_kafka c2 c3 -> same_kafka c1 c3.
Proof. unfold same_kafka. intros (?&?&?&?&?&?&?) (?&?&?&?&?&?&?). split_and!; congruence. Qed.

Lemma advance_same x c : same_kafka c (advance x c).
Proof.
  unfold advance. destruct (commit_lsn x <? fsync c), ((xid x =? 0) && (0 <? commit_lsn x)); by split_and!.
Qed.

(** The loop terminates: every round but the last moves the tail towards the head. *)
Lemma checkpoint_loop_spec fuel h t extra c :
  invariant_at h t extra c -> (current h - t < fuel)%nat ->
  exists t' c', checkpoint_loop fuel c = (Ret tt, c') /\ invariant_at h t' extra c' /\
    (t <= t')%nat /\ stopped h t' c' /\ same_kafka c c' /\ fsync c <= fsync c'.
Proof.
  revert t c. induction fuel as [|fuel IH]; intros t c Hinv Hfuel; [lia|].
  pose proof (inv_ring _ _ _ _ Hinv) as Hr.
  destruct (ring_slot _ _ _ _ Hr t) as (x & Hx & Hcom & _ & _).
  { pose proof (ring_window _ _ _ _ Hr). lia. }
  assert (Hx' : xact_list c !! Z.to_nat (xact_tail c) = Some x).
  { by rewrite (ring_tail _ _ _ _ Hr), Nat2Z.id. }
  simpl. unfold mbind, M_bind. rewrite (checkpoint_step_run c x Hx').
  destruct (complete x) eqn:Hcomp.
  2:{ exists t, c. split; [done|]. split; [done|]. split; [done|].
      split; [exists x; eauto|]. split; [by split_and!|lia]. }
  pose proof (advance_invariant h t extra c x Hinv Hx Hcomp) as Hadv.
  destruct (advance_frame x c) as (Hk & Hl & Hh & Ht & Hf & _).
  destruct (complete_facts h t extra c x Hinv Hx Hcomp) as (_ & Hun & Hcase & _).
  assert (Hmono : fsync c <= fsync (advance x c)).
  { rewrite Hf, Hcom. destruct (inv_checkpoint _ _ _ _ Hinv) as [Hnn Hb Hst _ _ _ _ _].
    destruct Hcase as [[_ Hcl]|[Hz ->]]; [by apply Hb|]. rewrite (Hst eq_refl Hz). lia. }
  rewrite (ring_tail _ _ _ _ Hr), (ring_head _ _ _ _ Hr).
  destruct (Z.eqb_spec (Z.of_nat (slot t)) (Z.of_nat (slot (current h)))) as [E|E].
  - assert (t = current h) as Htc.
    { apply slot_inj; [lia|]. pose proof (ring_window _ _ _ _ Hr). lia. }
    exists t, (advance x c). split; [done|]. split; [done|]. split; [done|].
    split; [|split; [apply advance_same|done]]. exists x. rewrite Hl, Hf. auto.
  - assert (Hne : t <> current h) by (intros ->; done).
    pose proof (ring_window _ _ _ _ Hr) as Hwin.
    assert (Hun' : unacked h (k_reported (kafka (advance x c))) t = 0%nat) by congruence.
    pose proof (shift_tail h t extra _ Hadv Hun' Hne ltac:(by rewrite Hf, Hcom)) as Hshift.
    rewrite Ht, (ring_tail _ _ _ _ Hr) in Hshift.
    destruct (IH _ _ Hshift) as (t' & c' & Hrun & Hinv' & Hle & Hstop & Hsame & Hm); [lia|].
    exists t', c'. split; [exact Hrun|]. split; [done|]. split; [lia|]. split; [done|].
    split; [|etrans; [exact Hmono|exact Hm]].
    eapply same_kafka_trans; [apply advance_same|]. exact Hsame.
Qed.

Lemma maybe_checkpoint_spec h t extra c :
  invariant_at h t extra c ->
  exists t' c', maybe_checkpoint c = (Ret tt, c') /\ invariant_at h t' extra c' /\
    (t <= t')%nat /\ stopped h t' c' /\ same_kafka c c' /\ fsync c <= fsync c'.
Proof.
  intros Hinv. apply checkpoint_loop_spec; [done|].
  pose proof (ring_window _ _ _ _ (inv_ring _ _ _ _ Hinv)).
  change (Z.to_nat MAX_IN_FLIGHT_TRANSACTIONS) with 1000%nat. lia.
Qed.

(** ** Delivery reports *)

Lemma unacked_report_le h reported m tid :
  (unacked h (m :: reported) tid <= unacked h reported tid)%nat.
Proof.
  unfold unacked. apply submseteq_length, NoDup_submseteq; [apply NoDup_waiting|].
  intros x. rewrite !elem_of_waiting, not_elem_of_cons. tauto.
Qed.

(** The number of unacknowledged messages fits the counter. *)
Lemma unacked_fits h t extra c tid :
  invariant_at h t extra c ->
  Z.of_nat (unacked h (k_reported (kafka c)) tid + if decide (tid = current h) then extra else 0) < 2 ^ 31.
Proof.
  intros Hinv. pose proof (unacked_le h (k_reported (kafka c)) tid).
  pose proof (wf_rows _ (inv_wf _ _ _ _ Hinv) tid). pose proof (inv_room _ _ _ _ Hinv).
  case_decide; [subst tid|]; lia.
Qed.

Definition acknowledge (m : nat) (msg : kafka_msg) (c : producer_context) : producer_context :=
  let k := kafka c in
  let c := set_kafka (Kafka (k_attempts k) (k_polls k) (k_produced k) (m :: k_reported k)) c in
  set_xact_list (alter (fun x => TransactionInfo (xid x) (recvd_events x) (s32 (pending_events x - 1))
                                   (commit_lsn x))
                   (Z.to_nat (env_xact (k_envelope msg))) (xact_list c)) c.

Lemma acknowledge_invariant h t extra c m msg :
  invariant_at h t extra c -> k_produced (kafka c) !! m = Some msg -> m ∉ k_reported (kafka c) ->
  invariant_at h t extra (acknowledge m msg c).
Proof.
  intros Hinv Hmsg Hrep. pose proof Hinv as [Hwf Hr Hd Hc He Hroom].
  destruct (lookup_lt_is_Some_2 (h_txns h) m) as [tid Htid].
  { rewrite (del_length _ _ _ Hd). by eapply lookup_lt_Some. }
  pose proof (del_envelope _ _ _ Hd m msg tid Hmsg Htid) as Henv.
  pose proof (del_waiting _ _ _ Hd m tid Htid Hrep) as Hge.
  pose proof (wf_txns _ Hwf m tid Htid) as Hle.
  unfold acknowledge. rewrite Henv, Nat2Z.id. split; try done.
  - destruct Hr as [Hwin Hlen Hhd Htl Hslot]. split; simpl; try done; [by rewrite length_alter|].
    intros u Hu. destruct (Hslot u Hu) as (x & Hx & Hcom & Hpend & Hxid).
    destruct (decide (u = tid)) as [->|Hne].
    + rewrite list_lookup_alter_eq, Hx. eexists. split; [done|]. simpl. split; [done|].
      split; [|done]. rewrite Hpend. pose proof (unacked_fits h t extra c tid Hinv).
      rewrite (unacked_report h _ m tid Htid Hrep) in *. rewrite s32_small by lia. lia.
    + rewrite list_lookup_alter_ne.
      2:{ intros E. apply Hne. destruct (decide (u <= tid)%nat).
          - apply slot_inj; [done|]. lia.
          - symmetry. apply slot_inj; [done|]. lia. }
      exists x. split; [done|]. split; [done|]. split; [|done].
      by rewrite (unacked_report_other h _ m tid u Htid Hne).
  - destruct Hd as [? ? Hw Hrl]. split; simpl; try done.
    + intros m' tid' Hm' Hr'. apply (Hw m' tid' Hm'). intros Hin. apply Hr'. by right.
    + intros m' Hin. apply elem_of_cons in Hin as [->|Hin]; [by eapply lookup_lt_Some|by apply Hrl].
  - destruct Hc as [? Hb ? ? ? Hsn ? ?]. split; simpl; try done.
    + intros u Hu Hcl. destruct (Hb u Hu Hcl) as [Hle' Heq]. split; [done|]. intros E.
      pose proof (unacked_report_le h (k_reported (kafka c)) m u). rewrite (Heq E) in *. lia.
    + intros Hs Ht. destruct (Hsn Hs Ht) as [Hpos Hz]. split; [done|].
      pose proof (unacked_report_le h (k_reported (kafka c)) m 0). lia.
Qed.

(** Steps that change neither the ring nor what Kafka has taken and reported, and tell the
    server no new position. *)
Lemma invariant_ext h t extra c c' :
  k_produced (kafka c') = k_produced (kafka c) -> k_reported (kafka c') = k_reported (kafka c) ->
  xact_list c' = xact_list c -> xact_head c' = xact_head c -> xact_tail c' = xact_tail c ->
  fsync c' = fsync c -> wal_order_warnings c' = wal_order_warnings c ->
  taking_snapshot (client c') = taking_snapshot (client c) ->
  (0 <= fsync c -> told_at_most (fsync c) (repl (client c)) -> told_at_most (fsync c) (repl (client c'))) ->
  invariant_at h t extra c -> invariant_at h t extra c'.
Proof.
  intros E1 E2 E3 E4 E5 E6 E7 E8 E9 [Hwf Hr Hd Hc He Hroom]. split; try done.
  - by eapply ring_ext.
  - by eapply delivery_ext.
  - destruct Hc. split; rewrite ?E6, ?E2, ?E7, ?E8; auto.
Qed.

(** A successful report keeps the invariant; the loop behind it always ends. *)
Lemma deliver_ok h extra c m :
  invariant h extra c ->
  exists c', deliver m 0 c = (Ret tt, c') /\ invariant h extra c' /\ fsync c <= fsync c' /\
    k_produced (kafka c') = k_produced (kafka c) /\ k_attempts (kafka c') = k_attempts (kafka c) /\
    k_polls (kafka c') = k_polls (kafka c).
Proof.
  intros [t Hinv]. unfold deliver, mbind, M_bind, gets.
  destruct (k_produced (kafka c) !! m) as [msg|] eqn:Hmsg.
  2:{ exists c. split; [done|]. split; [by exists t|]. split; [lia|done]. }
  unfold in_flight. rewrite bool_decide_eq_true_2 by (by eapply lookup_lt_Some). simpl.
  destruct (decide (m ∈ k_reported (kafka c))) as [Hin|Hrep].
  { rewrite bool_decide_eq_true_2 by done. simpl. exists c.
    split; [done|]. split; [by exists t|]. split; [lia|done]. }
  rewrite bool_decide_eq_false_2 by done. simpl. unfold modify, on_deliver_msg, update_xact. simpl.
  pose proof (acknowledge_invariant h t extra c m msg Hinv Hmsg Hrep) as Hack.
  destruct (maybe_checkpoint_spec h t extra _ Hack) as (t' & c' & Hrun & Hinv' & _ & _ & Hsame & Hm).
  exists c'. split; [exact Hrun|]. split; [by exists t'|]. split; [exact Hm|].
  destruct Hsame as (Hk & _). by rewrite Hk.
Qed.

Lemma exit_nicely_no_return {A} status c (a : A) c' : exit_nicely status c <> (Ret a, c').
Proof.
  unfold exit_nicely. intros H.
  apply bind_Ret_inv in H as (? & ? & _ & H). apply bind_Ret_inv in H as (? & ? & _ & H).
  apply bind_Ret_inv in H as (m & ? & _ & H). by destruct (table_mapper_free m).
Qed.

Lemma triple_exit {A} status I (J : A -> producer_context -> Prop) : triple I (exit_nicely status) J.
Proof. intros c a c' _ H. by destruct (exit_nicely_no_return status c a c'). Qed.

(** ** Preserved since [c0]: the invariant, the messages taken, and an advancing position. *)
Definition kept (h : history) (extra : nat) (c0 c : producer_context) : Prop :=
  invariant h extra c /\ fsync c0 <= fsync c /\ k_produced (kafka c) = k_produced (kafka c0).

Definition keeps {A} (m : MP A) : Prop :=
  forall h extra c0, triple (kept h extra c0) m (fun _ => kept h extra c0).

Lemma keeps_bind {A B} (m : MP A) (f : A -> MP B) :
  keeps m -> (forall a, keeps (f a)) -> keeps (m ≫= f).
Proof. intros Hm Hf h extra c0. eapply triple_bind; [apply Hm|]. intros a. apply Hf. Qed.

Lemma keeps_gets {A} (f : producer_context -> A) : keeps (gets f).
Proof. intros h extra c0. apply (triple_gets f (fun _ => kept h extra c0)). Qed.

Lemma keeps_ret {A} (a : A) : keeps (mret a).
Proof. intros h extra c0. apply (triple_ret a (fun _ => kept h extra c0)). Qed.

Lemma keeps_exit {A} status : keeps (exit_nicely (A := A) status).
Proof. intros h extra c0. apply triple_exit. Qed.

Lemma keeps_stop {A} (o : outcome A) : (forall a, o <> Ret a) -> keeps (stop o).
Proof. intros Ho h extra c0. by apply triple_stop. Qed.

(** Updates outside the ring. *)
Lemma keeps_modify (f : producer_context -> producer_context) :
  (forall c, k_produced (kafka (f c)) = k_produced (kafka c) /\
    k_reported (kafka (f c)) = k_reported (kafka c) /\ xact_list (f c) = xact_list c /\
    xact_head (f c) = xact_head c /\ xact_tail (f c) = xact_tail c /\ fsync (f c) = fsync c /\
    wal_order_warnings (f c) = wal_order_warnings c /\
    taking_snapshot (client (f c)) = taking_snapshot (client c) /\
    repl (client (f c)) = repl (client c)) ->
  keeps (modify f).
Proof.
  intros Hf h extra c0 c a c' [[t Hinv] [Hm Hp]] [= _ <-].
  destruct (Hf c) as (E1 & E2 & E3 & E4 & E5 & E6 & E7 & E8 & E9).
  split; [exists t; apply (invariant_ext h t extra c); by rewrite ?E9|]. rewrite E6, E1. auto.
Qed.

Lemma keeps_deliver m err : keeps (deliver m err).
Proof.
  intros h extra c0 c [] c' [Hinv [Hm Hp]] Hrun.
  destruct (deliver_ok h extra c m Hinv) as (c1 & Hok & Hinv1 & Hm1 & Hp1 & _).
  destruct (decide (err = 0)) as [->|Herr].
  { assert (c' = c1) as -> by congruence. split; [done|]. split; [lia|congruence]. }
  unfold deliver, mbind at 1, M_bind, gets in Hrun.
  destruct (k_produced (kafka c) !! m) as [msg|]; [|by injection Hrun as <-].
  destruct (in_flight (kafka c) m); simpl in Hrun; [|by injection Hrun as <-].
  apply bind_Ret_inv in Hrun as (? & ? & _ & Hrun). unfold on_deliver_msg in Hrun.
  destruct (Z.eqb_spec err 0); [done|]. by apply exit_nicely_no_return in Hrun.
Qed.

Lemma keeps_deliver_all l : keeps (deliver_all l).
Proof.
  induction l as [|[m err] l IH]; simpl; [apply keeps_ret|].
  apply keeps_bind; [apply keeps_deliver|done].
Qed.

Lemma keeps_poll : keeps rd_kafka_poll.
Proof.
  unfold rd_kafka_poll. intros h extra c0 c [] c' Hk Hrun. unfold mbind at 1, M_bind, gets in Hrun.
  destruct (k_polls (kafka c)) as [|r rest]; [by injection Hrun as <-|].
  assert (H : keeps (_ ← deliver_all (reports r);
    modify (fun c => set_signal (default (received_shutdown_signal c) (poll_signal r)) c))).
  { apply keeps_bind; [apply keeps_deliver_all|]. intros _. by apply keeps_modify. }
  apply bind_Ret_inv in Hrun as ([] & c1 & H1 & Hrun). injection H1 as <-.
  eapply H; [|exact Hrun]. destruct Hk as [[t Hinv] [Hm Hp]].
  split; [exists t; by apply (invariant_ext h t extra c)|done].
Qed.

(** Sending status updates does not move the position. *)
Lemma keepalive_preserves le clock v w :
  preserves (fun s => fsync_lsn s = v /\ recvd_lsn s = w) (replication_stream_keepalive le clock).
Proof.
  unfold replication_stream_keepalive, current_time.
  apply preserves_bind; [apply preserves_gets|]. intros r. apply preserves_when. intros _.
  apply preserves_bind.
  - apply preserves_bind; [apply preserves_gets|]. intros n.
    apply preserves_bind; [by apply preserves_modify|]. intros _.
    destruct (clock n). apply preserves_ret.
  - intros now. apply preserves_bind; [apply preserves_gets|]. intros last.
    apply preserves_when. intros _. by apply preserves_update.
Qed.

Lemma keeps_on_repl {A} (m : M replication_stream A) :
  (forall v, 0 <= v -> preserves (steady v) m) ->
  forall h extra c0 c, kept h extra c0 c -> kept h extra c0 (snd (on_repl m c)).
Proof.
  intros Hm h extra c0 c [[t Hinv] [Hle Hp]].
  destruct (inv_checkpoint _ _ _ _ Hinv) as [Hnn _ _ _ _ _ _ Ht].
  specialize (Hm (fsync c) Hnn (repl (client c)) (conj eq_refl Ht)).
  unfold on_repl, zoom. simpl. unfold prj, upd, Has_client, Has_repl in *. simpl in *.
  destruct (m (repl (client c))) as [o s]. destruct Hm as [Hf Ht']. simpl in *.
  assert (E : fsync (set_client (set_repl s (client c)) c) = fsync c) by done.
  split; [exists t; by apply (invariant_ext h t extra c)|]. by rewrite E.
Qed.

Lemma keeps_backpressure le clock : keeps (backpressure le clock).
Proof.
  unfold backpressure. apply keeps_bind; [apply keeps_poll|]. intros _.
  apply keeps_bind; [apply keeps_gets|]. intros sig.
  destruct (negb (sig =? 0)); [apply keeps_exit|].
  apply keeps_bind.
  - intros h extra c0 c a c' Hk Hrun.
    assert (Hpres : kept h extra c0 (snd (on_repl (replication_stream_keepalive le clock) c))).
    { apply keeps_on_repl; [|done]. intros v Hv. apply (held_keepalive le), (steady_holds le v Hv). }
    unfold status in Hrun. destruct (on_repl _ c) as [[] c1]; simplify_eq/=; done.
  - intros err. destruct (negb (err =? 0)); [apply keeps_exit|apply keeps_ret].
Qed.

(** ** The history moves on *)

Definition h_begin (h : history) : history :=
  History (h_commits h ++ [0]) true (h_snapshot h) (h_txns h).
Definition h_commit (lsn : Z) (h : history) : history :=
  History (<[current h := lsn]> (h_commits h)) false (h_snapshot h) (h_txns h).

Lemma current_begin h : h_commits h <> [] -> current (h_begin h) = S (current h).
Proof. unfold current. simpl. rewrite length_app. destruct (h_commits h); [done|]. simpl. lia. Qed.

Lemma commit_of_begin h tid : commit_of (h_begin h) tid = commit_of h tid.
Proof.
  unfold commit_of. simpl. destruct (decide (tid < length (h_commits h))%nat) as [Hlt|Hge].
  - by rewrite lookup_app_l.
  - rewrite lookup_app_r, (lookup_ge_None_2 (h_commits h)) by lia.
    destruct (tid - length (h_commits h))%nat as [|[|n]]; done.
Qed.

Lemma current_commit h lsn : current (h_commit lsn h) = current h.
Proof. unfold current. simpl. by rewrite length_insert. Qed.

Lemma commit_of_commit h lsn tid :
  h_commits h <> [] ->
  commit_of (h_commit lsn h) tid = if decide (tid = current h) then lsn else commit_of h tid.
Proof.
  intros Hne. unfold commit_of. simpl. case_decide as E.
  - subst tid. by rewrite list_lookup_insert_eq by (by apply current_lookup).
  - by rewrite list_lookup_insert_ne.
Qed.

Lemma unacked_none h reported tid :
  (forall m, h_txns h !! m <> Some tid) -> unacked h reported tid = 0%nat.
Proof.
  intros H. unfold unacked. destruct (waiting h reported tid) as [|m l] eqn:E; [done|].
  assert (Hm : m ∈ waiting h reported tid) by (rewrite E; by left).
  apply elem_of_waiting in Hm as [Hm _]. by destruct (H m).
Qed.

Lemma filter_none (l : list nat) tid : (forall m : nat, l !! m <> Some tid) -> filter (fun t => t = tid) l = [].
Proof.
  induction l as [|a l IH]; intros H; [done|]. rewrite filter_cons, decide_False.
  - apply IH. intros m. apply (H (S m)).
  - intros ->. by apply (H 0%nat).
Qed.

Lemma wf_begin h : wf_history h -> h_open h = false -> wf_history (h_begin h).
Proof.
  intros Hwf Ho. pose proof (current_begin h (wf_nonempty _ Hwf)) as Hcur.
  assert (Hcl : forall tid, closed (h_begin h) tid -> closed h tid).
  { unfold closed. rewrite Hcur. simpl. intros tid [?|[_ ?]]; [|done].
    destruct (decide (tid = current h)); [by right|left; lia]. }
  destruct Hwf. split.
  - simpl. by destruct (h_commits h).
  - intros tid H1 H2. rewrite commit_of_begin. eauto.
  - intros _. rewrite Hcur, commit_of_begin. unfold commit_of.
    rewrite lookup_ge_None_2; [done|]. unfold current. lia.
  - intros i j Hij Hj. rewrite !commit_of_begin. eauto.
  - intros Hs. destruct (wf_nosnapshot0 Hs) as (_ & H0 & Hm). rewrite commit_of_begin.
    split; [|done]. unfold closed. rewrite Hcur. left. lia.
  - intros m tid Hm. rewrite Hcur. etrans; [by eapply wf_txns0|lia].
  - done.
Qed.

Lemma wf_commit h lsn :
  wf_history h -> h_open h = true -> 0 < lsn ->
  (forall tid, (tid < current h)%nat -> commit_of h tid < lsn) -> wf_history (h_commit lsn h).
Proof.
  intros Hwf Ho Hpos Hlast. pose proof (wf_nonempty _ Hwf) as Hne. destruct Hwf. split.
  - simpl. intros E. apply (f_equal length) in E. rewrite length_insert in E.
    by destruct (h_commits h).
  - intros tid Hcl Hs. rewrite commit_of_commit by done. case_decide; [done|].
    apply wf_committed0; [|done]. unfold closed in *. rewrite current_commit in Hcl. tauto.
  - done.
  - intros i j Hij Hj. rewrite !commit_of_commit by done. unfold closed in Hj.
    rewrite current_commit in Hj. rewrite (decide_False (P := i = current h)) by lia.
    case_decide; [apply Hlast; lia|]. apply wf_increasing0; [done|]. unfold closed. left. lia.
  - intros Hs. destruct (wf_nosnapshot0 Hs) as (H0 & Hz & Hm).
    assert (0%nat <> current h) by (destruct H0 as [?|[? ?]]; [lia|congruence]).
    rewrite commit_of_commit, decide_False by done. split; [|done].
    unfold closed. rewrite current_commit. left. lia.
  - intros m tid Hm. rewrite current_commit. eauto.
  - done.
Qed.

Lemma wf_with_message h :
  wf_history h -> h_open h = true ->
  Z.of_nat (length (filter (fun u => u = current h) (h_txns h))) + 1 < 2 ^ 31 ->
  wf_history (with_message (current h) h).
Proof.
  intros Hwf Ho Hroom. destruct Hwf. split; try done.
  - intros Hs. destruct (wf_nosnapshot0 Hs) as (H0 & Hz & Hm). split; [done|]. split; [done|].
    intros m. simpl. destruct (decide (m < length (h_txns h))%nat) as [Hlt|Hge].
    + rewrite lookup_app_l by done. apply Hm.
    + rewrite lookup_app_r by lia. intros E.
      destruct (m - length (h_txns h))%nat as [|n]; simpl in E; [|by destruct n].
      injection E as E. destruct H0 as [?|[_ ?]]; [lia|congruence].
  - intros m tid. simpl. destruct (decide (m < length (h_txns h))%nat) as [Hlt|Hge].
    + rewrite lookup_app_l by done. apply wf_txns0.
    + rewrite lookup_app_r by lia. intros E.
      destruct (m - length (h_txns h))%nat as [|n]; simpl in E; [|by destruct n].
      injection E as <-. done.
  - intros tid. simpl. rewrite list.filter_app, length_app, filter_cons, filter_nil.
    case_decide as E; simpl; [subst tid; lia|]. rewrite Nat.add_0_r. apply wf_rows0.
Qed.

(** ** The callbacks *)

Section callbacks.
Context (le : bool) (clock : nat -> Z * Z) (L : avro_lib).
Context (json_dumps : list Z -> option string) (json_loadb : string -> option json).

(** Waiting for room: when it ends, the ring is not full. *)
Lemma wait_not_full_spec fuel h extra c0 :
  triple (kept h extra c0) (wait_not_full le clock fuel)
    (fun _ c => kept h extra c0 c /\ xact_list_full c = false).
Proof.
  induction fuel as [|fuel IH]; intros c [] c' Hk Hrun; simpl in Hrun;
    apply bind_Ret_inv in Hrun as (b & c1 & [= <- <-] & Hrun);
    destruct (xact_list_full c) eqn:Hfull; simpl in Hrun; try done; try (by injection Hrun as <-).
  apply bind_Ret_inv in Hrun as ([] & c1 & Hbp & Hrun).
  eapply IH; [|exact Hrun]. by eapply keeps_backpressure.
Qed.

(** A slot for a new transaction: it is free, nothing in flight refers to it. *)
(** A buffer that is not full has room for one more transaction. *)
Lemma begin_room h t extra c :
  ring h t extra c -> xact_list_full c = false -> (S (current h) < t + 1000)%nat.
Proof.
  intros Hr Hfull. pose proof (ring_window _ _ _ _ Hr). unfold xact_list_full in Hfull.
  apply Z.eqb_neq in Hfull. change MAX_IN_FLIGHT_TRANSACTIONS with 1000 in Hfull.
  rewrite (ring_head _ _ _ _ Hr), <- slot_S, (ring_tail _ _ _ _ Hr) in Hfull.
  destruct (decide (S (current h) = (t + 1000)%nat)) as [E|]; [|lia].
  destruct Hfull. rewrite E. unfold slot. f_equal.
  replace (t + 1000)%nat with (t + 1 * 1000)%nat by lia. by apply Nat.Div0.mod_add.
Qed.

Lemma begin_invariant h t c new_xid :
  invariant_at h t 0 c -> h_open h = false -> new_xid <> 0 -> xact_list_full c = false ->
  let head := (xact_head c + 1) mod 1000 in
  invariant_at (h_begin h) t 0
    (set_xact_list (alter (fun _ => TransactionInfo new_xid 0 0 0) (Z.to_nat head) (xact_list c))
       (set_xact_head head c)).
Proof.
  intros [Hwf Hr Hd Hc He Hroom] Ho Hxid Hfull head.
  pose proof (current_begin h (wf_nonempty _ Hwf)) as Hcur.
  assert (Hhead : head = Z.of_nat (slot (S (current h)))).
  { unfold head. by rewrite (ring_head _ _ _ _ Hr), slot_S. }
  pose proof (begin_room h t 0 c Hr Hfull) as Hwin.
  assert (Hnone : forall m, h_txns h !! m <> Some (S (current h))).
  { intros m Hm. apply (wf_txns _ Hwf) in Hm. lia. }
  rewrite Hhead, Nat2Z.id. split.
  - by apply wf_begin.
  - destruct Hr as [Hw Hlen Hhd Htl Hslot]. split; simpl; rewrite ?Hcur; try done; try lia.
    + by rewrite length_alter.
    + intros u Hu. rewrite commit_of_begin. destruct (decide (u = S (current h))) as [->|Hne].
      * destruct (lookup_lt_is_Some_2 (xact_list c) (slot (S (current h)))) as [x Hx].
        { rewrite Hlen. apply slot_lt. }
        rewrite list_lookup_alter_eq, Hx. eexists. split; [done|]. simpl.
        split; [unfold commit_of; rewrite lookup_ge_None_2; [done|unfold current; lia]|].
        split; [|split; [done|lia]].
        change (unacked (h_begin h) (k_reported (kafka c)) (S (current h)))
          with (unacked h (k_reported (kafka c)) (S (current h))).
        by rewrite unacked_none.
      * destruct (Hslot u) as (x & Hx & Hcom & Hpend & Hx0); [lia|].
        rewrite list_lookup_alter_ne.
        2:{ intros E. apply Hne. symmetry in E. apply slot_inj; [done|]. lia. }
        exists x. split; [done|]. split; [done|]. split; [|done]. rewrite Hpend.
        change (unacked (h_begin h) (k_reported (kafka c)) u) with (unacked h (k_reported (kafka c)) u).
        destruct (decide (u = current h)); lia.
  - destruct Hd. by split.
  - destruct Hc as [? Hb ? Hsrc ? ? ? ?]. split; simpl; rewrite ?commit_of_begin; try done.
    + intros u Hu Hcl. rewrite commit_of_begin. apply Hb; [done|].
      unfold closed in *. rewrite Hcur in Hcl. simpl in Hcl.
      destruct Hcl as [?|[_ ?]]; [|done]. destruct (decide (u = current h)); [by right|left; lia].
    + destruct Hsrc as [?|(u & Hu & E)]; [by left|right]. exists u. rewrite commit_of_begin.
      split; [|done]. unfold closed in *. rewrite Hcur. left. lia.
  - done.
  - rewrite Hcur. simpl. rewrite filter_none by done. simpl. lia.
Qed.

Lemma begin_txn_spec h wal_pos new_xid c c' :
  invariant h 0 c -> h_open h = false -> new_xid <> 0 ->
  begin_txn le clock wal_pos new_xid c = (Ret tt, c') ->
  invariant (h_begin h) 0 c' /\ fsync c <= fsync c' /\ k_produced (kafka c') = k_produced (kafka c).
Proof.
  intros Hinv Ho Hxid Hrun. unfold begin_txn in Hrun.
  destruct (Z.eqb_spec new_xid 0); [done|].
  apply bind_Ret_inv in Hrun as (polls & c1 & [= <- <-] & Hrun).
  apply bind_Ret_inv in Hrun as ([] & c1 & Hwait & Hrun).
  destruct (wait_not_full_spec (length (k_polls (kafka c))) h 0 c c tt c1) as [Hk Hfull];
    [by split; [|split]|exact Hwait|]. destruct Hk as [[t Ht] [Hle Hp]].
  apply bind_Ret_inv in Hrun as ([] & c2 & [= <-] & Hrun).
  apply bind_Ret_inv in Hrun as (head & c3 & [= <- <-] & Hrun).
  injection Hrun as <-. split; [|done]. exists t. by apply begin_invariant.
Qed.

(** Setting the commit position of the current transaction. *)
Lemma commit_invariant h t c lsn :
  invariant_at h t 0 c -> h_open h = true -> 0 < lsn ->
  (forall tid, (tid < current h)%nat -> commit_of h tid < lsn) ->
  invariant_at (h_commit lsn h) t 0
    (set_xact_list (alter (fun x => TransactionInfo (xid x) (recvd_events x) (pending_events x) lsn)
       (Z.to_nat (xact_head c)) (xact_list c)) c).
Proof.
  intros [Hwf Hr Hd Hc He Hroom] Ho Hpos Hlast. pose proof (wf_nonempty _ Hwf) as Hne.
  rewrite (ring_head _ _ _ _ Hr), Nat2Z.id.
  assert (Hcl : forall tid, closed h tid -> (tid < current h)%nat).
  { intros tid [?|[_ ?]]; [done|congruence]. }
  split.
  - by apply wf_commit.
  - destruct Hr as [Hw Hlen Hhd Htl Hslot]. split; simpl; rewrite ?current_commit; try done.
    + by rewrite length_alter.
    + intros u Hu. destruct (Hslot u Hu) as (x & Hx & Hcom & Hpend & Hx0).
      rewrite commit_of_commit by done. destruct (decide (u = current h)) as [->|Hneq].
      * rewrite list_lookup_alter_eq, Hx. eexists. split; [done|]. simpl. split; [done|].
        split; [|done]. rewrite Hpend. by repeat case_decide.
      * rewrite list_lookup_alter_ne.
        2:{ intros E. apply Hneq. symmetry in E. apply slot_inj; [done|]. lia. }
        exists x. split; [done|]. split; [done|]. split; [|done]. rewrite Hpend. by repeat case_decide.
  - destruct Hd. by split.
  - destruct Hc as [? Hb Hst Hsrc ? Hsn ? ?].
    assert (Hlt : fsync c < lsn).
    { destruct Hsrc as [->|(u & Hu & ->)]; [done|]. by apply Hlast, Hcl. }
    split; simpl; rewrite ?commit_of_commit by done; try done.
    + intros u Hu Hclu. rewrite commit_of_commit by done. case_decide as E.
      * change (fsync (set_xact_list _ c)) with (fsync c). lia.
      * apply Hb; [done|]. unfold closed in *. rewrite current_commit in Hclu. left. lia.
    + intros Ht. case_decide as E; [lia|by apply Hst].
    + destruct Hsrc as [?|(u & Hu & E)]; [by left|right]. exists u.
      pose proof (Hcl u Hu). rewrite commit_of_commit, decide_False by (done || lia).
      split; [|done]. left. by rewrite current_commit.
    + intros Hs Ht. destruct (Hsn Hs Ht) as [H0 Hz]. split; [|done].
      case_decide as E; [done|done].
  - done.
  - rewrite current_commit. done.
Qed.

Lemma commit_txn_spec h wal_pos committed c c' :
  invariant h 0 c -> h_open h = true -> 0 < wal_pos ->
  (forall tid, (tid < current h)%nat -> commit_of h tid < wal_pos) ->
  commit_txn wal_pos committed c = (Ret tt, c') ->
  invariant (h_commit wal_pos h) 0 c' /\ fsync c <= fsync c' /\
  k_produced (kafka c') = k_produced (kafka c).
Proof.
  intros [t Hinv] Ho Hpos Hlast Hrun. unfold commit_txn in Hrun.
  apply bind_Ret_inv in Hrun as (head & c1 & [= <- <-] & Hrun).
  apply bind_Ret_inv in Hrun as (x & c1 & Hat & Hrun). unfold xact_at in Hat.
  destruct (xact_list c !! _) as [x'|]; simplify_eq.
  destruct (negb (committed =? xid x)); [by apply exit_nicely_no_return in Hrun|].
  apply bind_Ret_inv in Hrun as ([] & c2 & [= <-] & Hrun).
  pose proof (commit_invariant h t _ wal_pos Hinv Ho Hpos Hlast) as H1.
  destruct (maybe_checkpoint_spec _ _ _ _ H1) as (t' & c3 & Hrun' & Hinv' & _ & _ & Hsame & Hle).
  assert (c3 = c') as -> by congruence. split; [by exists t'|]. split; [exact Hle|].
  destruct Hsame as (-> & _). done.
Qed.

(** *** Rows *)

(** Counting a message before it is handed over. *)
Lemma count_invariant h t c :
  invariant_at h t 0 c -> h_open h = true ->
  Z.of_nat (length (filter (fun u => u = current h) (h_txns h))) + 1 < 2 ^ 31 ->
  invariant_at h t 1
    (set_xact_list (alter (fun x => TransactionInfo (xid x) (s32 (recvd_events x + 1))
       (s32 (pending_events x + 1)) (commit_lsn x)) (Z.to_nat (xact_head c)) (xact_list c)) c).
Proof.
  intros Hinv Ho Hrows. pose proof Hinv as [Hwf Hr Hd Hc He Hroom].
  rewrite (ring_head _ _ _ _ Hr), Nat2Z.id. split; try done.
  - destruct Hr as [Hw Hlen Hhd Htl Hslot]. split; simpl; try done.
    + by rewrite length_alter.
    + intros u Hu. destruct (Hslot u Hu) as (x & Hx & Hcom & Hpend & Hx0).
      destruct (decide (u = current h)) as [->|Hneq].
      * rewrite list_lookup_alter_eq, Hx. eexists. split; [done|]. simpl. split; [done|].
        split; [|done]. rewrite Hpend.
        pose proof (unacked_le h (k_reported (kafka c)) (current h)).
        rewrite s32_small by lia. lia.
      * rewrite list_lookup_alter_ne.
        2:{ intros E. apply Hneq. symmetry in E. apply slot_inj; [done|]. lia. }
        by exists x.
  - destruct Hd. by split.
  - destruct Hc. by split.
Qed.

(** Kafka takes a message of the current transaction. *)
Lemma produce_invariant h t c msg attempts :
  invariant_at h t 1 c -> env_xact (k_envelope msg) = xact_head c ->
  let k := kafka c in
  invariant_at (with_message (current h) h) t 0
    (set_kafka (Kafka attempts (k_polls k) (k_produced k ++ [msg]) (k_reported k)) c).
Proof.
  intros Hinv Henv k. pose proof Hinv as [Hwf Hr Hd Hc He Hroom].
  assert (Ho : h_open h = true) by (by apply He).
  assert (Hrep : forall m, m ∈ k_reported (kafka c) -> (m < length (h_txns h))%nat).
  { intros m Hm. rewrite (del_length _ _ _ Hd). by apply (del_reported _ _ _ Hd). }
  assert (Hcur : current (with_message (current h) h) = current h) by done.
  split.
  - by apply wf_with_message.
  - destruct Hr as [Hw Hlen Hhd Htl Hslot]. split; simpl; try done.
    intros u Hu. destruct (Hslot u Hu) as (x & Hx & Hcom & Hpend & Hx0). exists x.
    split; [done|]. split; [done|]. split; [|done]. unfold k.
    rewrite (unacked_produce h _ (current h) u Hrep), Hpend. rewrite Hcur.
    destruct (decide (u = current h)); lia.
  - destruct Hd as [Hlen Hev Hwait Hrp]. split; simpl; rewrite ?length_app; simpl.
    + by rewrite Hlen.
    + intros m msg' tid Hm Htid. destruct (decide (m < length (h_txns h))%nat) as [Hlt|Hge].
      * rewrite lookup_app_l in Htid by done. rewrite lookup_app_l in Hm by (unfold k; lia). eauto.
      * rewrite lookup_app_r in Htid by lia. rewrite lookup_app_r in Hm by (unfold k; lia).
        unfold k in Hm. rewrite <- Hlen in Hm. destruct (m - length (h_txns h))%nat as [|n]; simplify_eq/=.
        by rewrite Henv, (ring_head _ _ _ _ Hr).
    + intros m tid Hm Hnr. destruct (decide (m < length (h_txns h))%nat) as [Hlt|Hge].
      * rewrite lookup_app_l in Hm by done. eauto.
      * rewrite lookup_app_r in Hm by lia. destruct (m - length (h_txns h))%nat as [|n]; simplify_eq/=.
        pose proof (ring_window _ _ _ _ Hr). lia.
    + intros m Hm. apply Hrp in Hm. unfold k. lia.
  - destruct Hc as [? Hb ? ? ? Hsn ? ?]. split; simpl; try done.
    + intros u Hu Hcl. destruct (Hb u Hu Hcl) as [Hle Heq]. split; [done|]. intros E. unfold k.
      rewrite (unacked_produce h _ (current h) u Hrep), (Heq E).
      rewrite decide_False; [done|]. intros ->. destruct Hcl as [?|[_ Hf]]; [lia|]. simpl in Hf. congruence.
    + intros Hs Ht. destruct (Hsn Hs Ht) as [H0 Hz]. split; [done|]. unfold k.
      rewrite (unacked_produce h _ (current h) 0 Hrep), Hz. rewrite decide_False; [done|].
      intros E. pose proof (wf_opened _ Hwf Ho) as Hop. rewrite <- E in Hop.
      assert (commit_of (with_message (current h) h) 0 = commit_of h 0) by done. lia.
  - done.
  - rewrite Hcur. simpl. rewrite list.filter_app, length_app, filter_cons_True, filter_nil by done.
    simpl. lia.
Qed.

(** Since [c0], Kafka has taken exactly [msg]. *)
Definition produced_since (h : history) (c0 : producer_context) (msg : kafka_msg)
  (c : producer_context) : Prop :=
  invariant (with_message (current h) h) 0 c /\ fsync c0 <= fsync c /\
  k_produced (kafka c) = k_produced (kafka c0) ++ [msg].

Lemma keeps_produced_since {A} (m : MP A) h c0 msg :
  keeps m -> triple (produced_since h c0 msg) m (fun _ => produced_since h c0 msg).
Proof.
  intros Hm c a c' (Hinv & Hle & Hp) Hrun.
  destruct (Hm (with_message (current h) h) 0%nat c c a c') as (Hinv' & Hle' & Hp'); [by split; [|split]|done|].
  split; [done|]. split; [lia|congruence].
Qed.

Lemma rd_kafka_produce_spec h c0 msg :
  triple (fun c => kept h 1 c0 c /\ env_xact (k_envelope msg) = xact_head c) (rd_kafka_produce msg)
    (fun err c => if decide (err = 0) then produced_since h c0 msg c
                  else kept h 1 c0 c /\ env_xact (k_envelope msg) = xact_head c).
Proof.
  intros c err c' [[[t Hinv] [Hle Hp]] Henv] Hrun. unfold rd_kafka_produce in Hrun.
  apply bind_Ret_inv in Hrun as (k & c1 & [= <- <-] & Hrun).
  assert (Hacc : forall c2 attempts, invariant_at h t 1 c2 -> fsync c0 <= fsync c2 -> xact_head c2 = xact_head c ->
    kafka c2 = kafka c -> produced_since h c0 msg
    (set_kafka (Kafka attempts (k_polls (kafka c)) (k_produced (kafka c) ++ [msg]) (k_reported (kafka c))) c2)).
  { intros c2 attempts Hi2 Hf2 Hx2 Hk2. rewrite <- Hk2. split.
    - exists t. apply produce_invariant; [done|congruence].
    - split; [done|]. simpl. by rewrite Hk2, Hp. }
  apply bind_Ret_inv in Hrun as ([] & c2 & [= <-] & Hrun).
  destruct (att_accepted _); injection Hrun as <- <-.
  - apply Hacc; [by apply (invariant_ext h t 1 c)|done..].
  - split; [|done]. split; [exists t; by apply (invariant_ext h t 1 c)|done].
Qed.

(** The head does not move while messages are delivered. *)
Lemma head_of_kept h extra c0 c c1 :
  invariant h extra c -> kept h extra c0 c1 -> xact_head c1 = xact_head c.
Proof.
  intros [t H] [[t1 H1] _].
  by rewrite (ring_head _ _ _ _ (inv_ring _ _ _ _ H)), (ring_head _ _ _ _ (inv_ring _ _ _ _ H1)).
Qed.

Lemma produce_loop_spec fuel h c0 msg :
  triple (fun c => kept h 1 c0 c /\ env_xact (k_envelope msg) = xact_head c)
    (produce_loop le clock fuel msg) (fun _ => produced_since h c0 msg).
Proof.
  induction fuel as [|fuel IH]; intros c [] c' HI Hrun; [done|]. simpl in Hrun.
  apply bind_Ret_inv in Hrun as (enq & c1 & Htry & Hrun). unfold try_produce in Htry.
  apply bind_Ret_inv in Htry as (err & c2 & Hprod & Htry).
  pose proof (rd_kafka_produce_spec h c0 msg c err c2 HI Hprod) as Hpost. cbv beta in Hpost.
  apply bind_Ret_inv in Htry as (e & c3 & [= <- <-] & Htry).
  destruct (errno c2 =? ENOBUFS).
  - apply bind_Ret_inv in Htry as ([] & c4 & Hbp & [= <- <-]).
    destruct (Z.eqb_spec err 0) as [->|Herr].
    + rewrite decide_True in Hpost by done. injection Hrun as <-.
      by eapply (keeps_produced_since _ _ _ _ (keeps_backpressure le clock)).
    + rewrite decide_False in Hpost by done. destruct Hpost as [Hk Henv].
      assert (Hk4 : kept h 1 c0 c4) by (by eapply keeps_backpressure).
      eapply IH; [|exact Hrun]. split; [done|]. rewrite Henv. symmetry.
      eapply head_of_kept; [apply Hk|done].
  - destruct (Z.eqb_spec err 0) as [->|Herr]; simpl in Htry.
    + injection Htry as <- <-. injection Hrun as <-. by rewrite decide_True in Hpost.
    + by apply exit_nicely_no_return in Htry.
Qed.

Lemma send_kafka_msg_spec h wal_pos relid key_bin val_bin c c' :
  invariant h 0 c -> h_open h = true ->
  Z.of_nat (length (filter (fun u => u = current h) (h_txns h))) + 1 < 2 ^ 31 ->
  send_kafka_msg le clock L wal_pos relid key_bin val_bin c = (Ret tt, c') ->
  exists table topic key val,
    (table_mapper_lookup relid (mapper c) ≫= (fun i => m_tables (mapper c) !! i)) = Some table /\
    t_topic table = TopicOpen topic /\
    encode_msg le L (output_format c) table key_bin val_bin = Ret (key, val) /\
    produced_since h c (KafkaMsg topic key val (MsgEnvelope wal_pos relid (xact_head c))) c'.
Proof.
  intros [t Hinv] Ho Hrows Hrun. unfold send_kafka_msg in Hrun.
  apply bind_Ret_inv in Hrun as (head & c1 & [= <- <-] & Hrun).
  apply bind_Ret_inv in Hrun as (x & c1 & Hat & Hrun). unfold xact_at in Hat.
  destruct (xact_list c !! _) as [x'|]; simplify_eq.
  apply bind_Ret_inv in Hrun as ([] & c2 & [= <-] & Hrun).
  apply bind_Ret_inv in Hrun as (c3 & c4 & [= <- <-] & Hrun).
  set (c2 := set_xact_list _ c1) in Hrun.
  change (mapper c2) with (mapper c1) in Hrun. change (output_format c2) with (output_format c1) in Hrun.
  destruct (table_mapper_lookup relid (mapper c1) ≫= _) as [table|] eqn:Htab;
    [|by apply exit_nicely_no_return in Hrun].
  destruct (encode_msg le L (output_format c1) table key_bin val_bin) as [[key val]| | | | |] eqn:Henc;
    try done; try (by apply exit_nicely_no_return in Hrun).
  destruct (t_topic table) as [|topic|] eqn:Htop; try done.
  exists table, topic, key, val. split; [done|]. split; [done|]. split; [done|].
  eapply produce_loop_spec; [|exact Hrun]. split; [|done].
  split; [exists t; by apply count_invariant|]. split; [apply Z.le_refl|done].
Qed.

End callbacks.
