(* ===== verification/Delivery.v ===== *)
(** * Runs of the producer

    A run is a sequence of inputs: events of the stream, and polls of the Kafka client in
    between. The history of a run is computed from the inputs alone; the theorems relate
    it to the producer's state at the end. *)

From S2P Require Import Prelude Avro AvroBinary Protocol ProtocolClient NetBytes Libpq.
From S2P Require Import Replication Connect Registry TableMapper Json Producer ProducerSafety.
Open Scope Z_scope.

Inductive input : Type :=
| IEvent (wal_pos : Z) (e : event)
| IPoll.

(** A message of the current transaction. *)
Definition h_row (h : history) : option history :=
  if decide (h_open h = true /\
             Z.of_nat (length (filter (fun u => u = current h) (h_txns h))) + 1 < 2 ^ 31)
  then Some (with_message (current h) h) else None.

(** The history after an input; [None] if the stream never gives this input here: rows and
    commits belong to an open transaction (of fewer than 2^31 rows), commit positions
    increase, the snapshot comes first. *)
Definition h_step (h : history) (i : input) : option history :=
  match i with
  | IPoll | IEvent _ (ESchema _ _ _) => Some h
  | IEvent _ (EBegin xid) =>
      if decide (xid = 0) then
        if decide (h_commits h = [0] /\ h_snapshot h = true /\ h_txns h = []) then Some h else None
      else if h_open h then None else Some (h_begin h)
  | IEvent wal_pos (ECommit _) =>
      if decide (h_open h = true /\ 0 < wal_pos /\ Forall (fun l => l < wal_pos) (take (current h) (h_commits h)))
      then Some (h_commit wal_pos h) else None
  | IEvent _ (EInsert _ _ _) | IEvent _ (EUpdate _ _ _ _) => h_row h
  | IEvent _ (EDelete _ (Some _) _) => h_row h
  | IEvent _ (EDelete _ None _) => Some h
  end.

Fixpoint h_run (h : history) (l : list input) : option history :=
  match l with
  | [] => Some h
  | i :: l => h' ← h_step h i; h_run h' l
  end.

(** The producer as [init_producer] leaves it; with or without a snapshot to take. *)
Record fresh_producer (c : producer_context) : Prop := {
  fresh_ring : xact_list c = replicate 1000 no_transaction;
  fresh_head : xact_head c = 0;
  fresh_tail : xact_tail c = 0;
  fresh_produced : k_produced (kafka c) = [];
  fresh_reported : k_reported (kafka c) = [];
  fresh_fsync : fsync c = 0;
  fresh_warnings : wal_order_warnings c = 0%nat;
  fresh_told : no_update (repl (client c));
}.
Definition h_initial (c : producer_context) : history :=
  History [0] (taking_snapshot (client c)) (taking_snapshot (client c)) [].

Section runs.
Context (le : bool) (clock : nat -> Z * Z) (L : avro_lib).
Context (json_dumps : list Z -> option string) (json_loadb : string -> option json).
Abbreviation cbs := (producer_callbacks le clock L json_dumps json_loadb).

Definition run_input (i : input) : MP unit :=
  match i with
  | IEvent wal_pos e => notify cbs wal_pos e
  | IPoll => rd_kafka_poll
  end.
Fixpoint run_inputs (l : list input) : MP unit :=
  match l with
  | [] => mret ()
  | i :: l => _ ← run_input i; run_inputs l
  end.

Lemma fresh_invariant c : fresh_producer c -> invariant (h_initial c) 0 c.
Proof.
  intros [Hring Hhead Htail Hprod Hrep Hf Hw Htold]. exists 0%nat.
  assert (Hun : forall r tid, unacked (h_initial c) r tid = 0%nat) by done.
  assert (H0 : forall tid, commit_of (h_initial c) tid = 0) by (intros [|[]]; done).
  assert (Hcl : forall tid, closed (h_initial c) tid -> tid = 0%nat /\ taking_snapshot (client c) = false).
  { intros tid [?|[? ?]]; [simpl in *; unfold current in *; simpl in *; lia|done]. }
  split.
  - split; try done.
    + intros tid Ht [?|Hs]; apply Hcl in Ht as [-> Ht]; [done|]. simpl in Hs. congruence.
    + intros i j Hij Hj. apply Hcl in Hj as [-> _]. lia.
    + intros Hs. split; [by right|]. done.
  - split; simpl; try done.
    + unfold current. simpl. lia.
    + by rewrite Hring, length_replicate.
    + intros tid Ht. unfold current in Ht. simpl in Ht. assert (tid = 0%nat) as -> by lia.
      exists no_transaction. rewrite Hring. split; [done|]. split; [by rewrite H0|].
      split; [|done]. by case_decide.
  - split; simpl; rewrite ?Hprod, ?Hrep; try done. intros m Hm. by apply elem_of_nil in Hm.
  - split; rewrite ?Hf; try done.
    + intros tid _ _. by rewrite H0, Hun.
    + by left.
    + intros Hs Ht. simpl in Hs. congruence.
    + lia.
    + by apply no_update_told.
  - done.
  - done.
Qed.

(** Schemas only concern the table mapper. *)
Lemma keeps_schema wal_pos relid key row :
  keeps (table_schema_cb L json_dumps json_loadb wal_pos relid key row).
Proof.
  unfold table_schema_cb. apply keeps_bind.
  - intros h extra c0 c a c' [[t Hinv] [Hm Hp]] Hrun. unfold zoom in Hrun.
    destruct (table_mapper_update _ _ _ _ _ _ _ _) as [o m]. injection Hrun as _ <-.
    split; [exists t; by apply (invariant_ext h t extra c)|done].
  - intros [i|]; [apply keeps_ret|apply keeps_exit].
Qed.

Lemma keeps_invariant {A} (m : MP A) h c a c' :
  keeps m -> invariant h 0 c -> m c = (Ret a, c') -> invariant h 0 c' /\ fsync c <= fsync c'.
Proof.
  intros Hm Hinv Hrun. destruct (Hm h 0%nat c c a c') as (? & ? & _); [|done|done].
  split; [done|]. split; [lia|done].
Qed.

Lemma row_step h wal_pos relid key_bin val_bin c c' h' :
  invariant h 0 c -> h_row h = Some h' ->
  send_kafka_msg le clock L wal_pos relid key_bin val_bin c = (Ret tt, c') ->
  invariant h' 0 c' /\ fsync c <= fsync c'.
Proof.
  intros Hinv Hrow Hrun. unfold h_row in Hrow. case_decide as Hd; simplify_eq. destruct Hd as [Ho Hr].
  destruct (send_kafka_msg_spec le clock L h wal_pos relid key_bin val_bin c c' Hinv Ho Hr Hrun)
    as (? & ? & ? & ? & _ & _ & _ & Hinv' & Hle & _). done.
Qed.

Lemma run_input_spec h i h' c c' :
  invariant h 0 c -> h_step h i = Some h' -> run_input i c = (Ret tt, c') ->
  invariant h' 0 c' /\ fsync c <= fsync c'.
Proof.
  intros Hinv Hstep Hrun. destruct i as [wal_pos e|].
  2:{ injection Hstep as <-. eapply keeps_invariant; [apply keeps_poll|done|exact Hrun]. }
  destruct e as [x|x|relid k r|relid k r|relid k o r|relid k o]; simpl in Hstep, Hrun.
  - case_decide as Hx.
    + case_decide; simplify_eq. unfold begin_txn in Hrun. simpl in Hrun.
      apply bind_Ret_inv in Hrun as (c1 & c2 & [= <- <-] & Hrun).
      destruct (negb _ || negb _); [by apply exit_nicely_no_return in Hrun|].
      injection Hrun as <-. split; [done|lia].
    + destruct (h_open h) eqn:Ho; simplify_eq.
      destruct (begin_txn_spec le clock h wal_pos x c c' Hinv Ho Hx Hrun) as (? & ? & _). done.
  - case_decide as Hd; simplify_eq. destruct Hd as (Ho & Hpos & Hall).
    destruct (commit_txn_spec h wal_pos x c c' Hinv Ho Hpos) as (? & ? & _); [|done|done].
    intros tid Htid. rewrite Forall_lookup in Hall. unfold commit_of.
    destruct (lookup_lt_is_Some_2 (h_commits h) tid) as [l Hl].
    { unfold current in Htid. lia. }
    rewrite Hl. simpl. apply (Hall tid). by rewrite lookup_take_lt.
  - injection Hstep as <-. eapply keeps_invariant; [apply keeps_schema|done|exact Hrun].
  - by eapply row_step.
  - by eapply row_step.
  - destruct k as [k|]; [by eapply row_step|]. simplify_eq. injection Hrun as <-. split; [done|lia].
Qed.

Lemma run_inputs_spec l : forall h h' c c',
  invariant h 0 c -> h_run h l = Some h' -> run_inputs l c = (Ret tt, c') ->
  invariant h' 0 c' /\ fsync c <= fsync c'.
Proof.
  induction l as [|i l IH]; intros h h' c c' Hinv Hh Hrun; simpl in *.
  - simplify_eq. injection Hrun as <-. split; [done|lia].
  - destruct (h_step h i) as [h1|] eqn:Hs; [|done]. simpl in Hh.
    apply bind_Ret_inv in Hrun as ([] & c1 & H1 & Hrun).
    destruct (run_input_spec h i h1 c c1 Hinv Hs H1) as [Hinv1 Hle1].
    destruct (IH h1 h' c1 c' Hinv1 Hh Hrun) as [? ?]. split; [done|lia].
Qed.

Lemma h_run_app h l1 l2 h2 :
  h_run h (l1 ++ l2) = Some h2 -> exists h1, h_run h l1 = Some h1 /\ h_run h1 l2 = Some h2.
Proof.
  revert h. induction l1 as [|i l1 IH]; intros h H; simpl in *; [eauto|].
  destruct (h_step h i) as [h1|]; simpl in *; [|done]. by apply IH.
Qed.

Lemma h_run_snapshot h l h' : h_run h l = Some h' -> h_snapshot h' = h_snapshot h.
Proof.
  revert h. induction l as [|i l IH]; intros h H; simpl in *; [by simplify_eq|].
  destruct (h_step h i) as [h1|] eqn:E; simpl in *; [|done]. rewrite (IH _ H).
  destruct i as [w [x|x|? ? ?|? ? ?|? ? ? ?|? [] ?] |]; simpl in E; unfold h_row in E;
    repeat case_decide; simplify_eq; try done. by destruct (h_open h); simplify_eq.
Qed.

End runs.

(** What the invariant says about the messages in flight and the snapshot. *)
Definition nothing_lost (h : history) (c : producer_context) : Prop :=
  length (h_txns h) = length (k_produced (kafka c)) /\
  forall m tid, h_txns h !! m = Some tid -> m ∉ k_reported (kafka c) ->
    commit_of h tid = 0 \/ fsync c < commit_of h tid.

Lemma invariant_nothing_lost h c : invariant h 0 c -> nothing_lost h c.
Proof.
  intros [t [Hwf Hr Hd Hc _ _]]. split; [apply (del_length _ _ _ Hd)|]. intros m tid Hm Hrep.
  pose proof (del_waiting _ _ _ Hd m tid Hm Hrep) as Hge.
  pose proof (wf_txns _ Hwf m tid Hm) as Hle.
  destruct (decide (closed h tid)) as [Hcl|Hop].
  - right. destruct (ck_bound _ _ _ Hc tid Hge Hcl) as [Hb Heq].
    destruct (decide (fsync c = commit_of h tid)) as [E|]; [|lia].
    by destruct (unacked_pos h (k_reported (kafka c)) m tid Hm Hrep); apply Heq.
  - left. assert (tid = current h /\ h_open h = true) as [-> Ho].
    { unfold closed in Hop. destruct (h_open h); split; try lia; try done;
        destruct (decide (tid = current h)); try lia; destruct Hop; auto; left; lia. }
    by apply (wf_opened _ Hwf).
Qed.

Lemma invariant_snapshot h c :
  invariant h 0 c -> h_snapshot h = true -> taking_snapshot (client c) = false ->
  0 < commit_of h 0 /\ forall m, h_txns h !! m = Some 0%nat -> m ∈ k_reported (kafka c).
Proof.
  intros [t Hinv] Hs Hflag.
  destruct (ck_snapshot _ _ _ (inv_checkpoint _ _ _ _ Hinv) Hs Hflag) as [Hpos Hun].
  split; [done|]. intros m Hm. destruct (decide (m ∈ k_reported (kafka c))) as [|Hno]; [done|].
  by destruct (unacked_pos h (k_reported (kafka c)) m 0 Hm Hno).
Qed.

(** ** A concrete producer *)


Definition demo_conn : pg_conn := PGconn [] [] [] [1; 0; 1; 0] [] [] [].
Definition demo_stream : replication_stream :=
  ReplicationStream (Some "bottledwater") (Some "bottledwater") None demo_conn 0 0 0 0 0 0.
Definition demo_client (snapshot : bool) : client_context :=
  ClientContext (Some "db") (Some "bottledwater") None demo_stream false snapshot 0 [] [] [].
Definition demo_mapper : table_mapper :=
  TableMapper None None 16 [TableMetadata 1 (Some "users") (TopicOpen "users") 3 None 4 (Some SBytes)] [].
(** Kafka refuses the second attempt once (queue full) and the error number stays set; the
    polls acknowledge message 0, then message 1. *)
Definition demo_kafka : kafka_t :=
  Kafka [Attempt true 0; Attempt false ENOBUFS; Attempt true ENOBUFS]
    [PollResult [(0%nat, 0)] None; PollResult [] None; PollResult [(1%nat, 0)] None] [] [].
Definition demo_producer (snapshot : bool) : producer_context :=
  ProducerContext (demo_client snapshot) None "localhost:9092" (replicate 1000 no_transaction) 0 0
    demo_kafka demo_mapper OUTPUT_FORMAT_AVRO None 0 0 0.

Definition demo_clock (n : nat) : Z * Z := (0, 0).
Definition demo_row : value_arg := ([7], VNull).

(** Two transactions, the second with a message in flight. *)
Definition demo_inputs : list input :=
  [IEvent 10 (EBegin 5); IEvent 10 (EInsert 1 None demo_row); IEvent 20 (ECommit 5);
   IEvent 30 (EBegin 6); IEvent 30 (EInsert 1 None demo_row); IEvent 40 (ECommit 6)].

Lemma demo_fresh snapshot : fresh_producer (demo_producer snapshot).
Proof. by split. Qed.

Abbreviation demo_run := (run_inputs true demo_clock ref_lib no_dumps no_json).

(** ** Theorems *)

Section theorems.
Context (le : bool) (clock : nat -> Z * Z) (L : avro_lib).
Context (json_dumps : list Z -> option string) (json_loadb : string -> option json).
Abbreviation run := (run_inputs le clock L json_dumps json_loadb).

(** At-least-once delivery. In every state that a run of the producer reaches, each
    message that Kafka has not acknowledged belongs to a transaction that is not committed
    yet or was committed after the position [fsync_lsn] that is reported to Postgres, so
    the log that holds it is kept and replayed after a crash. *)
Theorem at_least_once c0 inputs h c :
  fresh_producer c0 -> h_run (h_initial c0) inputs = Some h -> run inputs c0 = (Ret tt, c) ->
  length (h_txns h) = length (k_produced (kafka c)) /\
  forall m tid, h_txns h !! m = Some tid -> m ∉ k_reported (kafka c) ->
    commit_of h tid = 0 \/ fsync c < commit_of h tid.
Proof.
  intros Hfresh Hh Hrun.
  destruct (run_inputs_spec le clock L json_dumps json_loadb inputs _ h c0 c
              (fresh_invariant c0 Hfresh) Hh Hrun) as [Hinv _].
  by apply invariant_nothing_lost.
Qed.

(** C8: The circular buffer is exact. After a run there is a window of at most 1000
    transactions, ending at the current one, in which every transaction has its slot with
    its commit position and with [pending_events] equal to the number of its messages that
    Kafka has not acknowledged; every unacknowledged message belongs to the window, so no
    slot is reused while Kafka still refers to it. *)
Theorem ring_exact c0 inputs h c :
  fresh_producer c0 -> h_run (h_initial c0) inputs = Some h -> run inputs c0 = (Ret tt, c) ->
  exists t, (t <= current h < t + 1000)%nat /\
    xact_tail c = Z.of_nat (t mod 1000) /\ xact_head c = Z.of_nat (current h mod 1000) /\
    (forall tid, (t <= tid <= current h)%nat -> exists x,
      xact_list c !! (tid mod 1000)%nat = Some x /\ commit_lsn x = commit_of h tid /\
      pending_events x = Z.of_nat (unacked h (k_reported (kafka c)) tid)) /\
    (forall m msg tid, k_produced (kafka c) !! m = Some msg -> h_txns h !! m = Some tid ->
      m ∉ k_reported (kafka c) ->
      (t <= tid <= current h)%nat /\ env_xact (k_envelope msg) = Z.of_nat (tid mod 1000)).
Proof.
  intros Hfresh Hh Hrun.
  destruct (run_inputs_spec le clock L json_dumps json_loadb inputs _ h c0 c
              (fresh_invariant c0 Hfresh) Hh Hrun) as [[t [Hwf Hr Hd Hc _ _]] _].
  exists t. split; [apply (ring_window _ _ _ _ Hr)|]. split; [apply (ring_tail _ _ _ _ Hr)|].
  split; [apply (ring_head _ _ _ _ Hr)|]. split.
  - intros tid Htid. destruct (ring_slot _ _ _ _ Hr tid Htid) as (x & Hx & Hcom & Hpend & _).
    exists x. split; [done|]. split; [done|]. rewrite Hpend. case_decide; lia.
  - intros m msg tid Hmsg Hm Hrep. split; [|by eapply del_envelope].
    split; [by eapply del_waiting|by eapply wf_txns].
Qed.

(** C11: The reported position never moves back, and the warning "Commits not in WAL order"
    is never printed: for any split of a run, the position after the first part is at most
    the position at the end. *)
Theorem fsync_monotone c0 before after_ h c1 c :
  fresh_producer c0 -> h_run (h_initial c0) (before ++ after_) = Some h ->
  run before c0 = (Ret tt, c1) -> run after_ c1 = (Ret tt, c) ->
  0 <= fsync c1 <= fsync c /\ wal_order_warnings c = 0%nat.
Proof.
  intros Hfresh Hh Hrun1 Hrun2.
  destruct (h_run_app _ _ _ _ Hh) as (h1 & Hh1 & Hh2).
  destruct (run_inputs_spec le clock L json_dumps json_loadb before _ h1 c0 c1
              (fresh_invariant c0 Hfresh) Hh1 Hrun1) as [Hinv1 _].
  destruct (run_inputs_spec le clock L json_dumps json_loadb after_ h1 h c1 c Hinv1 Hh2 Hrun2)
    as [[t Hinv] Hle].
  destruct Hinv1 as [t1 Hinv1].
  split; [split; [apply (ck_nonneg _ _ _ (inv_checkpoint _ _ _ _ Hinv1))|done]|].
  apply (ck_warnings _ _ _ (inv_checkpoint _ _ _ _ Hinv)).
Qed.

(** The snapshot flag. A run that starts with a snapshot to take clears
    [taking_snapshot] (which makes an exit keep the replication slot) only when the
    snapshot is committed and Kafka has acknowledged every one of its messages. *)
Theorem snapshot_flag c0 inputs h c :
  fresh_producer c0 -> taking_snapshot (client c0) = true ->
  h_run (h_initial c0) inputs = Some h -> run inputs c0 = (Ret tt, c) ->
  taking_snapshot (client c) = false ->
  0 < commit_of h 0 /\ forall m, h_txns h !! m = Some 0%nat -> m ∈ k_reported (kafka c).
Proof.
  intros Hfresh Hsnap Hh Hrun Hflag.
  destruct (run_inputs_spec le clock L json_dumps json_loadb inputs _ h c0 c
              (fresh_invariant c0 Hfresh) Hh Hrun) as [Hinv _].
  apply invariant_snapshot; [done| |done]. by rewrite (h_run_snapshot _ _ _ Hh).
Qed.

(** C9: One message per row, with the right content. After any run with an open transaction,
    a row event that returns has handed Kafka exactly one new message: to the topic of the
    row's table, with the key and row in the configured output format (JSON text, or
    registry prefix and Avro bytes), tagged with the transaction's slot; a delete has no
    value. However often Kafka's queue was full in between, the message is neither lost nor
    enqueued twice. *)
Theorem row_message_exact c0 inputs h c wal_pos e relid key_bin val_bin c' :
  fresh_producer c0 -> h_run (h_initial c0) inputs = Some h -> run inputs c0 = (Ret tt, c) ->
  h_row h <> None ->
  ((exists k r, e = EInsert relid k r /\ key_bin = fst <$> k /\ val_bin = Some (fst r)) \/
   (exists k o r, e = EUpdate relid k o r /\ key_bin = fst <$> k /\ val_bin = Some (fst r)) \/
   (exists k o, e = EDelete relid (Some k) o /\ key_bin = Some (fst k) /\ val_bin = None)) ->
  notify (producer_callbacks le clock L json_dumps json_loadb) wal_pos e c = (Ret tt, c') ->
  exists table topic key val,
    (table_mapper_lookup relid (mapper c) ≫= (fun i => m_tables (mapper c) !! i)) = Some table /\
    t_topic table = TopicOpen topic /\
    encode_msg le L (output_format c) table key_bin val_bin = Ret (key, val) /\
    k_produced (kafka c') =
      k_produced (kafka c) ++ [KafkaMsg topic key val (MsgEnvelope wal_pos relid (xact_head c))].
Proof.
  intros Hfresh Hh Hrun Hrow He Hn.
  destruct (run_inputs_spec le clock L json_dumps json_loadb inputs _ h c0 c
              (fresh_invariant c0 Hfresh) Hh Hrun) as [Hinv _].
  assert (Hsend : send_kafka_msg le clock L wal_pos relid key_bin val_bin c = (Ret tt, c')).
  { destruct He as [(k & r & -> & -> & ->)|[(k & o & r & -> & -> & ->)|(k & o & -> & -> & ->)]]; exact Hn. }
  unfold h_row in Hrow. case_decide as Hd; [|done]. destruct Hd as [Ho Hrows].
  destruct (send_kafka_msg_spec le clock L h wal_pos relid key_bin val_bin c c' Hinv Ho Hrows Hsend)
    as (table & topic & key & val & ? & ? & ? & _ & _ & ?).
  exists table, topic, key, val. done.
Qed.

(** C10: The checkpoint is as far as it can be. From any state that a run reaches, the loop over
    the circular buffer terminates, and it stops at a transaction [t] such that every
    earlier message is acknowledged and [t] is unfinished, still open or with messages in
    flight; or, if all transactions are finished, the reported position is the commit of
    the last one. The Kafka client, the tables and the buffer's contents are not touched. *)
Theorem checkpoint_maximal c0 inputs h c :
  fresh_producer c0 -> h_run (h_initial c0) inputs = Some h -> run inputs c0 = (Ret tt, c) ->
  exists t c', maybe_checkpoint c = (Ret tt, c') /\ same_kafka c c' /\
    (forall m tid, h_txns h !! m = Some tid -> (tid < t)%nat -> m ∈ k_reported (kafka c)) /\
    (unacked h (k_reported (kafka c)) t <> 0%nat \/ ~ closed h t \/
     (t = current h /\ fsync c' = commit_of h t)).
Proof.
  intros Hfresh Hh Hrun.
  destruct (run_inputs_spec le clock L json_dumps json_loadb inputs _ h c0 c
              (fresh_invariant c0 Hfresh) Hh Hrun) as [[t0 Hinv] _].
  destruct (maybe_checkpoint_spec _ _ _ _ Hinv) as (t & c' & Hck & Hinv' & _ & (x & Hx & Hstop) & Hsame & _).
  exists t, c'. split; [done|]. split; [done|]. pose proof Hsame as (Hk & _).
  destruct Hinv' as [Hwf Hr Hd _ _ _]. split.
  - intros m tid Hm Htid. destruct (decide (m ∈ k_reported (kafka c))) as [|Hno]; [done|].
    pose proof (del_waiting _ _ _ Hd m tid Hm) as Hge. rewrite Hk in Hge. specialize (Hge Hno). lia.
  - destruct (ring_slot _ _ _ _ Hr t) as (x' & Hx' & Hcom & Hpend & Hxid).
    { pose proof (ring_window _ _ _ _ Hr). lia. }
    assert (x' = x) as -> by congruence.
    destruct Hstop as [Hinc|[Ht Hf]]; [|right; right; split; [done|congruence]].
    destruct (decide (unacked h (k_reported (kafka c)) t = 0%nat)) as [Hu|]; [|by left].
    right; left. intros Hcl. unfold complete in Hinc.
    rewrite Hpend, Hk, Hu in Hinc. replace (if decide (t = current h) then 0%nat else 0%nat) with 0%nat in Hinc
      by (by case_decide). simpl in Hinc. rewrite Hcom in Hinc.
    apply orb_false_iff in Hinc as [Hc0 Hx0]. apply Z.ltb_ge in Hc0. apply Z.eqb_neq in Hx0.
    pose proof (wf_committed _ Hwf t Hcl) as Hpos. destruct (decide (t = 0%nat)) as [->|Hne].
    + apply Hx0, Hxid. done.
    + specialize (Hpos (or_introl Hne)). lia.
Qed.

End theorems.

(** ** Witnesses *)

Section witnesses.

Definition run_state (inputs : list input) (snapshot : bool) : producer_context :=
  snd (demo_run inputs (demo_producer snapshot)).
Definition run_history (inputs : list input) (snapshot : bool) : history :=
  default (h_initial (demo_producer snapshot)) (h_run (h_initial (demo_producer snapshot)) inputs).

Lemma demo_runs :
  demo_run demo_inputs (demo_producer false) = (Ret tt, run_state demo_inputs false) /\
  h_run (h_initial (demo_producer false)) demo_inputs = Some (run_history demo_inputs false).
Proof. split; vm_compute; reflexivity. Qed.

Definition snapshot_inputs : list input :=
  [IEvent 5 (EBegin 0); IEvent 0 (EInsert 1 None demo_row); IEvent 5 (ECommit 0); IPoll].

Lemma snapshot_runs :
  demo_run snapshot_inputs (demo_producer true) = (Ret tt, run_state snapshot_inputs true) /\
  h_run (h_initial (demo_producer true)) snapshot_inputs = Some (run_history snapshot_inputs true).
Proof. split; vm_compute; reflexivity. Qed.

End witnesses.

(** The message of transaction 6 is in flight: the position is that of transaction 5. *)
Lemma at_least_once_witness :
  let h := run_history demo_inputs false in let c := run_state demo_inputs false in
  fsync c = 20 /\ commit_of h 2 = 40 /\ (commit_of h 2 = 0 \/ fsync c < commit_of h 2).
Proof.
  split; [vm_compute; reflexivity|]. split; [vm_compute; reflexivity|].
  apply (proj2 (at_least_once true demo_clock ref_lib no_dumps no_json (demo_producer false)
    demo_inputs (run_history demo_inputs false) (run_state demo_inputs false) (demo_fresh false)
    (proj2 demo_runs) (proj1 demo_runs)) 1%nat 2%nat).
  - vm_compute. reflexivity.
  - refine (bool_decide_eq_true_1 _ _). vm_compute. reflexivity.
Defined.

(** Transactions 1 and 2 are in the window, one message of transaction 2 is pending. *)
Lemma ring_exact_witness :
  let h := run_history demo_inputs false in let c := run_state demo_inputs false in
  current h = 2%nat /\ exists t, (t <= current h < t + 1000)%nat /\
    xact_tail c = Z.of_nat (t mod 1000) /\ xact_head c = Z.of_nat (current h mod 1000).
Proof.
  split; [vm_compute; reflexivity|].
  destruct (ring_exact true demo_clock ref_lib no_dumps no_json (demo_producer false)
    demo_inputs (run_history demo_inputs false) (run_state demo_inputs false) (demo_fresh false)
    (proj2 demo_runs) (proj1 demo_runs)) as (t & H1 & H2 & H3 & _).
  exists t. auto.
Defined.

Lemma fsync_monotone_witness :
  fsync (run_state (take 3 demo_inputs) false) = 0 /\ fsync (run_state demo_inputs false) = 20 /\
  0 <= fsync (run_state (take 3 demo_inputs) false) <= fsync (run_state demo_inputs false).
Proof.
  split; [vm_compute; reflexivity|]. split; [vm_compute; reflexivity|].
  apply (fsync_monotone true demo_clock ref_lib no_dumps no_json (demo_producer false)
    (take 3 demo_inputs) (drop 3 demo_inputs) (run_history demo_inputs false) _ _ (demo_fresh false)).
  - vm_compute. reflexivity.
  - vm_compute. reflexivity.
  - vm_compute. reflexivity.
Defined.

(** The snapshot's one message is acknowledged by the poll, and the flag is cleared. *)
Lemma snapshot_flag_witness :
  let h := run_history snapshot_inputs true in let c := run_state snapshot_inputs true in
  taking_snapshot (client c) = false /\ 0 < commit_of h 0 /\ 0%nat ∈ k_reported (kafka c).
Proof.
  split; [vm_compute; reflexivity|].
  destruct (snapshot_flag true demo_clock ref_lib no_dumps no_json (demo_producer true)
    snapshot_inputs (run_history snapshot_inputs true) (run_state snapshot_inputs true)
    (demo_fresh true) eq_refl (proj2 snapshot_runs) (proj1 snapshot_runs)) as [H1 H2].
  { vm_compute. reflexivity. }
  split; [exact H1|]. apply H2. vm_compute. reflexivity.
Defined.

(** A third row, in an open transaction, after the run above. *)
Definition open_inputs : list input := demo_inputs ++ [IEvent 50 (EBegin 7)].

Lemma open_runs :
  demo_run open_inputs (demo_producer false) = (Ret tt, run_state open_inputs false) /\
  h_run (h_initial (demo_producer false)) open_inputs = Some (run_history open_inputs false).
Proof. split; vm_compute; reflexivity. Qed.

Lemma row_message_exact_witness :
  exists table topic key val,
    (table_mapper_lookup 1 (mapper (run_state open_inputs false)) ≫=
      (fun i => m_tables (mapper (run_state open_inputs false)) !! i)) = Some table /\
    t_topic table = TopicOpen topic /\
    encode_msg true ref_lib (output_format (run_state open_inputs false)) table None (Some [7]) = Ret (key, val).
Proof.
  destruct (row_message_exact true demo_clock ref_lib no_dumps no_json (demo_producer false)
    open_inputs (run_history open_inputs false) (run_state open_inputs false) 50
    (EInsert 1 None demo_row) 1 None (Some [7])
    (run_state (open_inputs ++ [IEvent 50 (EInsert 1 None demo_row)]) false) (demo_fresh false)
    (proj2 open_runs) (proj1 open_runs)) as (table & topic & key & val & H1 & H2 & H3 & _).
  - vm_compute. discriminate.
  - left. by exists None, demo_row.
  - vm_compute. reflexivity.
  - exists table, topic, key, val. exact (conj H1 (conj H2 H3)).
Defined.

Lemma checkpoint_maximal_witness :
  exists t c', maybe_checkpoint (run_state demo_inputs false) = (Ret tt, c') /\
    same_kafka (run_state demo_inputs false) c' /\
    (unacked (run_history demo_inputs false) (k_reported (kafka (run_state demo_inputs false))) t <> 0%nat \/
     ~ closed (run_history demo_inputs false) t \/
     (t = current (run_history demo_inputs false) /\ fsync c' = commit_of (run_history demo_inputs false) t)).
Proof.
  destruct (checkpoint_maximal true demo_clock ref_lib no_dumps no_json (demo_producer false)
    demo_inputs (run_history demo_inputs false) (run_state demo_inputs false) (demo_fresh false)
    (proj2 demo_runs) (proj1 demo_runs)) as (t & c' & H1 & H2 & _ & H3).
  exists t, c'. exact (conj H1 (conj H2 H3)).
Defined.
