(* ===== verification/Main.v ===== *)
(** * The program ([kafka/bottledwater.c]: options, start-up, main loop)

    Command-line options fill in the producer's context; then the program connects to
    Kafka and to Postgres and polls both until an error, the end of the stream or a signal.
    What [getopt_long] returns is an argument; so is what librdkafka answers. *)

From S2P Require Import Prelude Avro AvroBinary Protocol ProtocolClient NetBytes Libpq.
From S2P Require Import Replication Connect Registry TableMapper Json Producer ProducerSafety.
From S2P Require Import Delivery.
From Stdlib Require Import Ascii.
Open Scope Z_scope.

(** What the surroundings will do: the answers of the registry, the connections, the
    results of [select], Kafka's script, which topics open. *)
Record world : Type := World {
  w_registry : list http_response;
  w_net : list connected;
  w_selects : list (Z * Z);
  w_kafka : list attempt * list poll_result;
  w_topics : list bool;
  w_kafka_new : bool;                              (* rd_kafka_new gives a handle *)
  w_brokers_add : string -> Z;                     (* the number of valid brokers *)
  w_kafka_conf_set : string -> string -> bool;     (* RD_KAFKA_CONF_OK *)
  w_topic_conf_set : string -> string -> bool;
}.

(** The context while the program starts: librdkafka takes over the configurations, the
    properties set so far, when the handle is made. *)
Record startup : Type := Startup {
  su_producer : producer_context;
  kafka_conf : list (string * string);
  topic_conf : list (string * string);
}.
Definition set_su_producer v s := Startup v (kafka_conf s) (topic_conf s).
#[export] Instance Has_su_producer : Has producer_context startup.
Proof. by refine {| prj := su_producer; upd := set_su_producer |}; intros; destruct x. Defined.
Abbreviation MS := (M startup).

Definition on_context (f : producer_context -> producer_context) : MS unit := zoom (modify f).
Definition on_client_context (f : client_context -> client_context) : MS unit :=
  on_context (fun c => set_client (f (client c)) c).

(** ** Options *)

Definition usage {A} : MS A := stop (Exit 1).

(** Split at the first equals sign. *)
Fixpoint split_equals (s : string) : option (string * string) :=
  match s with
  | EmptyString => None
  | String c s =>
      if Ascii.eqb c "=" then Some (EmptyString, s)
      else '(k, v) ← split_equals s; Some (String c k, v)
  end.
Definition parse_config_option (option : string) : outcome (string * string) :=
  match split_equals option with
  | Some kv => Ret kv
  | None => Exit 1
  end.

Definition output_format_name (format : format_t) : string :=
  match format with
  | OUTPUT_FORMAT_AVRO => "Avro"
  | OUTPUT_FORMAT_JSON => "JSON"
  | OUTPUT_FORMAT_UNDEFINED => "undefined (probably a bug)"
  end.

(** What [getopt_long] returns for one option: the character and [optarg]. *)
Record getopt : Type := Getopt { opt_char : Z; optarg : string }.
Definition chr (a : ascii) : Z := Z.of_nat (nat_of_ascii a).
Definition config_help : Z := 1.

Section program.
Context (w : world).

Definition init_schema_registry (url : string) : MS unit :=
  on_context (set_registry (Some (schema_registry_new url (w_registry w)))).

Definition set_output_format (format : string) : MS unit :=
  if String.eqb "avro" format then on_context (set_output_format_field OUTPUT_FORMAT_AVRO)
  else if String.eqb "json" format then on_context (set_output_format_field OUTPUT_FORMAT_JSON)
  else stop (Exit 1).

Definition set_kafka_config (property value : string) : MS unit :=
  if w_kafka_conf_set w property value then
    modify (fun s => Startup (su_producer s) (kafka_conf s ++ [(property, value)]) (topic_conf s))
  else stop (Exit 1).
Definition set_topic_config (property value : string) : MS unit :=
  if w_topic_conf_set w property value then
    modify (fun s => Startup (su_producer s) (kafka_conf s) (topic_conf s ++ [(property, value)]))
  else stop (Exit 1).

Definition parse_option (o : getopt) : MS unit :=
  let c := opt_char o in
  if c =? chr "d" then on_client_context (set_conninfo (Some (optarg o)))
  else if c =? chr "s" then
    on_client_context (fun c => set_repl (set_slot_name (Some (optarg o)) (repl c)) c)
  else if c =? chr "b" then on_context (set_brokers (optarg o))
  else if c =? chr "r" then init_schema_registry (optarg o)
  else if c =? chr "f" then set_output_format (optarg o)
  else if c =? chr "u" then on_client_context (set_allow_unkeyed true)
  else if c =? chr "p" then on_context (set_topic_prefix (Some (optarg o)))
  else if c =? chr "C" then
    kv ← stop (parse_config_option (optarg o)); set_kafka_config (fst kv) (snd kv)
  else if c =? chr "T" then
    kv ← stop (parse_config_option (optarg o)); set_topic_config (fst kv) (snd kv)
  else if c =? config_help then stop (Exit 1)
  else usage.

Fixpoint parse_each (opts : list getopt) : MS unit :=
  match opts with
  | [] => mret ()
  | o :: opts => _ ← parse_option o; parse_each opts
  end.

(** [more]: arguments are left that are not options ([optind < argc]). *)
Definition parse_options (opts : list getopt) (more : bool) : MS unit :=
  _ ← parse_each opts;
  c ← gets su_producer;
  if bool_decide (conninfo (client c) = None) || more then usage
  else if bool_decide (output_format c = OUTPUT_FORMAT_AVRO /\ registry c = None) then
    init_schema_registry DEFAULT_SCHEMA_REGISTRY
  else if bool_decide (output_format c = OUTPUT_FORMAT_JSON /\ registry c <> None) then usage
  else mret ().

(** ** Start-up *)

Definition init_client : client_context :=
  let client := set_allow_unkeyed false (set_app_name (Some APP_NAME) (db_client_new (w_net w) (w_selects w))) in
  set_repl (set_output_plugin (Some OUTPUT_PLUGIN) (set_slot_name (Some DEFAULT_REPLICATION_SLOT) (repl client)))
    client.

Definition zero_mapper : table_mapper := TableMapper None None 0 [] [].

(** The context is zeroed, so the circular buffer is; then the defaults are filled in. *)
Definition init_producer (client : client_context) : outcome startup :=
  let context := ProducerContext client None DEFAULT_BROKER_LIST
      (replicate (Z.to_nat MAX_IN_FLIGHT_TRANSACTIONS) no_transaction) 0 0
      (Kafka [] [] [] []) zero_mapper OUTPUT_FORMAT_AVRO None 0 0 0 in
  match set_topic_config "produce.offset.report" "true" (Startup context [] []) with
  | (Ret _, su) => Ret su
  | (o, _) => cast_outcome o
  end.

Definition start_producer : MS unit :=
  if negb (w_kafka_new w) then stop (Exit 1)
  else
    _ ← on_context (set_kafka (Kafka (fst (w_kafka w)) (snd (w_kafka w)) [] []));
    c ← gets su_producer;
    if w_brokers_add w (brokers c) =? 0 then stop (Exit 1)
    else on_context (set_mapper (table_mapper_new (registry c) (topic_prefix c) (w_topics w))).

(** Everything before Postgres is contacted: the frame reader and the context. *)
Definition set_up (opts : list getopt) (more : bool) : outcome (frame_reader * startup) :=
  match frame_reader_new with
  | Ret r =>
      match init_producer init_client with
      | Ret su =>
          match (_ ← parse_options opts more; start_producer) su with
          | (Ret _, su) => Ret (r, su)
          | (o, _) => cast_outcome o
          end
      | o => cast_outcome o
      end
  | o => cast_outcome o
  end.

(** ** The main loop *)

Context (PQconninfoParse : string -> option (list (string * option string))).
Context (le : bool) (clock : nat -> Z * Z) (L : avro_lib).
(** The callbacks work on a state that holds the producer's context. *)
Context {X : Type} {HX : Has producer_context X} (cbs : callbacks X).
Abbreviation MC := (M (frame_reader * X)).

#[local] Instance Has_client_of : Has client_context X.
Proof.
  refine {| prj := fun x => client (prj x); upd := fun s x => upd (set_client s (prj x)) x |}.
  - intros s x. by rewrite prj_upd.
  - intros x. replace (set_client (client (prj x)) (prj x)) with (prj x) by (by destruct (prj x)).
    apply upd_prj.
  - intros s1 s2 x. by rewrite prj_upd, upd_upd.
Defined.

Definition on_producer {A} (m : MP A) : MC A := zoom (zoom (X := X) m).

(** The macro [ensure]: exit after an error. *)
Definition ensure (m : MC unit) : MC unit :=
  err ← status m;
  if negb (err =? 0) then on_producer (exit_nicely 1) else mret ().

Definition going_on : MC bool :=
  c ← on_producer (gets (fun c => c));
  mret ((0 <=? cl_status (client c)) && (received_shutdown_signal c =? 0)).

(** The body of the loop. *)
Definition main_step : MC unit :=
  _ ← ensure (db_client_poll le clock L cbs);
  st ← on_client (gets cl_status);
  _ ← when (st =? 0) (ensure (on_client db_client_wait));
  on_producer rd_kafka_poll.

(** The first [n] iterations (fewer if the loop ends before). *)
Fixpoint main_steps (n : nat) : MC unit :=
  match n with
  | O => mret ()
  | S n => go ← going_on; if go : bool then _ ← main_step; main_steps n else mret ()
  end.

Definition main_start : MC unit := ensure (db_client_start PQconninfoParse cbs).

(** After the loop; that it would go on means that more iterations are needed. *)
Definition main_end : MC unit :=
  go ← going_on;
  if go : bool then stop Blocked else on_producer (exit_nicely 0).

(** [main] after [set_up], for a loop of at most [n] iterations. *)
Definition main_run (n : nat) : MC unit :=
  _ ← main_start;
  _ ← main_steps n;
  main_end.

(** The rest of [exit_nicely], which the callbacks cannot reach: the frame reader and the
    connections are released. *)
Definition release : MC unit :=
  r ← zoom (gets (fun r : frame_reader => r));
  r ← stop (frame_reader_free r);
  _ ← zoom (modify (fun _ : frame_reader => r));
  on_client db_client_free.

Definition closing (m : MC unit) : MC unit := fun rx =>
  match m rx with
  | (Exit st, rx) => (_ ← release; stop (Exit st)) rx
  | (o, rx) => (o, rx)
  end.

Definition main (n : nat) : MC unit := closing (main_run n).

End program.

(** ** The end *)

Section ending.
Context {X : Type} {HX : Has producer_context X}.

(** The commands that an exit sends. *)
Definition farewell (st : Z) (c : client_context) : list sent :=
  (if taking_snapshot c && negb (st =? 0)
   then [SentQuery ("DROP_REPLICATION_SLOT " +:+ quote (text (slot_name (repl c))))] else []) ++ [SentFinish].

(** Dropping the slot is tried; the result does not matter. *)
Lemma drop_run (c : producer_context) :
  conn_replies (conn (repl (client c))) <> [] ->
  exists err rs, status (on_repl replication_slot_drop) c = (Ret err, set_client (set_repl (set_conn
    (log_sent (SentQuery ("DROP_REPLICATION_SLOT " +:+ quote (text (slot_name (repl (client c)))))) rs)
    (repl (client c))) (client c)) c) /\ conn_sent rs = conn_sent (conn (repl (client c))).
Proof.
  intros Hr. destruct (conn_replies (conn (repl (client c)))) as [|r rs] eqn:E; [done|].
  unfold status, on_repl, zoom, replication_slot_drop, mbind, M_bind, gets, PQexec, exec_command, zoom. simpl. rewrite E. simpl.
  destruct (bool_decide _); simpl; by eexists _, _.
Qed.

Lemma exit_nicely_run {A} st (c : producer_context) m :
  table_mapper_free (mapper c) = Ret m ->
  (taking_snapshot (client c) && negb (st =? 0) = true -> conn_replies (conn (repl (client c))) <> []) ->
  exists rs, exit_nicely (A := A) st c =
      (Exit st, set_mapper m (set_client (set_repl (set_conn rs (repl (client c))) (client c)) c)) /\
    conn_sent rs ++ [SentFinish] = conn_sent (conn (repl (client c))) ++ farewell st (client c).
Proof.
  intros Hm Hr. unfold exit_nicely, farewell. rewrite (bind_Ret (gets client) _ c (client c) c) by done.
  destruct (taking_snapshot (client c) && negb (st =? 0)); cbn [when].
  - destruct (drop_run c (Hr eq_refl)) as (err & rs & Hrun & Hs). rewrite (bind_Ret _ _ _ _ _ (bind_Ret _ _ _ _ _ Hrun)).
    unfold mbind, M_bind, gets, stop. simpl. rewrite Hm. eexists. split; [reflexivity|]. simpl. by rewrite Hs, <- (assoc_L (++)).
  - unfold mbind, M_bind, gets, stop. simpl. rewrite Hm. exists (conn (repl (client c))). split; [|done].
    destruct c as [[? ? ? [] ? ? ? ? ? ?] ? ? ? ? ? ? ? ? ? ? ? ?]; reflexivity.
Qed.

(** Without the mapper there is no exit. *)
Lemma exit_nicely_undef {A} st (c : producer_context) :
  table_mapper_free (mapper c) = Undef ->
  (taking_snapshot (client c) && negb (st =? 0) = true -> conn_replies (conn (repl (client c))) <> []) ->
  fst (exit_nicely (A := A) st c) = Undef.
Proof.
  intros Hm Hr. unfold exit_nicely. rewrite (bind_Ret (gets client) _ c (client c) c) by done.
  destruct (taking_snapshot (client c) && negb (st =? 0)); cbn [when].
  - destruct (drop_run c (Hr eq_refl)) as (err & rs & Hrun & Hs). rewrite (bind_Ret _ _ _ _ _ (bind_Ret _ _ _ _ _ Hrun)).
    unfold mbind, M_bind, gets, stop. simpl. by rewrite Hm.
  - unfold mbind, M_bind, gets, stop. simpl. by rewrite Hm.
Qed.

(** Something that the process holds was released already. *)
Definition dangling (r : frame_reader) (m : table_mapper) : Prop :=
  (exists t, t ∈ m_tables m /\ t_topic t = TopicDangling) \/
  (exists e, e ∈ fr_schemas r /\ c_key_schema e = KeyDangling).
(** Nothing is held: no topic is open, no key schema is referenced. *)
Definition nothing_held (r : frame_reader) (m : table_mapper) : Prop :=
  (forall t n, t ∈ m_tables m -> t_topic t <> TopicOpen n) /\
  (forall e s, e ∈ fr_schemas r -> c_key_schema e <> KeySchema s).

Lemma nothing_held_released r m : nothing_held (reader_released r) (mapper_released m).
Proof.
  split.
  - intros t n (t0 & -> & _)%list_elem_of_fmap. unfold table_released. by destruct (t_topic t0) eqn:E; rewrite ?E.
  - intros e s (e0 & -> & _)%list_elem_of_fmap. unfold entry_released. by destruct (c_key_schema e0) eqn:E; rewrite ?E.
Qed.

(** A mapper is released or holds something released. *)
Lemma mapper_free_cases m :
  (exists t, t ∈ m_tables m /\ t_topic t = TopicDangling) \/ table_mapper_free m = Ret (mapper_released m).
Proof.
  destruct (decide (Exists (fun t => t_topic t = TopicDangling) (m_tables m))) as [H|H].
  - left. by apply list.Exists_exists in H.
  - right. apply table_mapper_free_run, list.Forall_forall. intros t Ht E. apply H, list.Exists_exists. by exists t.
Qed.

(** C29: How the program ends. An exit, with whatever status and from whatever state, closes both
    connections and drops the replication slot exactly if there was an error while the
    snapshot was not complete. It releases every topic and every key schema that the process
    holds, each of them once: nothing is held afterwards, and the behaviour is undefined
    exactly if some topic or key schema had been released before. An error that a step
    reports ends in such an exit, with status 1. If a signal was received, the loop makes no
    further iteration and the process exits with status 0, so that the slot stays, also
    during the snapshot. (The replication connection was opened, and Postgres answers the
    command that drops the slot, in whatever way.) *)
Theorem exit_effects st r (x : X) :
  let c := prj x in
  repl_params (client c) <> [] ->
  (taking_snapshot (client c) && negb (st =? 0) = true -> conn_replies (conn (repl (client c))) <> []) ->
  (dangling r (mapper c) -> fst (closing (on_producer (exit_nicely st)) (r, x)) = Undef) /\
  (~ dangling r (mapper c) -> exists r' x',
     closing (on_producer (exit_nicely st)) (r, x) = (Exit st, (r', x')) /\
     nothing_held r' (mapper (prj x')) /\
     conn_sent (conn (repl (client (prj x')))) = conn_sent (conn (repl (client c))) ++ farewell st (client c) /\
     sql_conn (client (prj x')) = None /\ kafka (prj x') = kafka c) /\
  (forall (m : M (frame_reader * X) unit) rx0 e, e <> 0 -> m rx0 = (Err e, (r, x)) ->
     closing (ensure m) rx0 = closing (on_producer (exit_nicely 1)) (r, x)) /\
  (received_shutdown_signal c <> 0 -> forall le clock L cbs n,
     main_steps le clock L cbs n (r, x) = (Ret tt, (r, x)) /\
     closing main_end (r, x) = closing (on_producer (exit_nicely 0)) (r, x) /\ farewell 0 (client c) = [SentFinish]).
Proof.
  intros c Hp Hr. split; [|split; [|split]].
  - intros Hd. unfold closing, on_producer, zoom. simpl. fold c.
    destruct (mapper_free_cases (mapper c)) as [(t & Ht & Et)|Hm].
    + pose proof (exit_nicely_undef (A := unit) st c (table_mapper_free_dangling _ t Ht Et) Hr) as H.
      destruct (exit_nicely st c) as [o c']. simpl in H. by subst o.
    + destruct Hd as [(t & Ht & Et)|(e & He & Ee)].
      { by rewrite (table_mapper_free_dangling _ t Ht Et) in Hm. }
      destruct (exit_nicely_run (A := unit) st c _ Hm Hr) as (rs & Hrun & _). rewrite Hrun.
      unfold release, mbind, M_bind, gets, stop, zoom. simpl. by rewrite (frame_reader_free_dangling r e He Ee).
  - intros Hd. destruct (mapper_free_cases (mapper c)) as [Ht|Hm]; [by destruct Hd; left|].
    assert (Hfree : frame_reader_free r = Ret (reader_released r)).
    { apply frame_reader_free_run, list.Forall_forall. intros e He Ee. apply Hd. right. by exists e. }
    destruct (exit_nicely_run (A := unit) st c _ Hm Hr) as (rs & Hrun & Hs).
    set (c1 := set_mapper _ _) in *.
    assert (E : on_producer (exit_nicely (A := unit) st) (r, x) = (Exit st, (r, upd c1 x))).
    { unfold on_producer, zoom. simpl. fold c. by rewrite Hrun. }
    assert (Hf : db_client_free (client c1) =
      (Ret tt, set_repl (set_conn (log_sent SentFinish rs) (repl (client c))) (set_sql_conn None (client c)))).
    { unfold db_client_free, mbind, M_bind, gets. simpl. rewrite (bool_decide_eq_true_2 (repl_params (client c) <> [])) by done.
      destruct (client c) as [? ? [sql|] [] ? ? ? ? ? ?]; reflexivity. }
    unfold closing. rewrite E. unfold release, mbind, M_bind, gets, stop, on_client, zoom. simpl. rewrite Hfree. simpl.
    rewrite prj_upd, Hf. eexists _, _. split; [reflexivity|]. rewrite !prj_upd. simpl.
    split; [apply nothing_held_released|]. by rewrite Hs.
  - intros m rx0 e He Hrun. unfold closing, ensure, mbind, M_bind, status. rewrite Hrun. apply Z.eqb_neq in He. by rewrite He.
  - intros Hsig le clock L cbs n. apply Z.eqb_neq in Hsig.
    assert (Hgo : going_on (r, x) = (Ret false, (r, x))).
    { unfold going_on, on_producer, zoom, mbind, M_bind, gets, mret, M_ret. simpl. rewrite upd_prj.
      fold c. by rewrite Hsig, andb_false_r. }
    split; [|split; [|unfold farewell; by rewrite andb_false_r]].
    + destruct n as [|n]; [done|]. simpl. by rewrite (bind_Ret _ _ _ _ _ Hgo).
    + unfold closing, main_end. by rewrite (bind_Ret _ _ _ _ _ Hgo).
Qed.

End ending.

(** ** What the options mean *)

(** The arguments given to an option, and the last of them. *)
Definition args_of (c : Z) (opts : list getopt) : list string :=
  optarg <$> filter (fun o => opt_char o = c) opts.
Definition last_arg (c : Z) (opts : list getopt) : option string := list.last (args_of c opts).
Definition given (c : Z) (opts : list getopt) : bool := bool_decide (args_of c opts <> []).

Definition format_of (s : string) : option format_t :=
  if String.eqb "avro" s then Some OUTPUT_FORMAT_AVRO
  else if String.eqb "json" s then Some OUTPUT_FORMAT_JSON else None.
(** The last format asked for, [f] if there is none. *)
Definition format_asked (f : format_t) (opts : list getopt) : format_t :=
  default f (last_arg (chr "f") opts ≫= format_of).

(** The value of a setting: that of the last option, or the one before. *)
Definition setting {B} (c : Z) (f : string -> B) (before : B) (opts : list getopt) : B :=
  from_option f before (last_arg c opts).

Section options.
Context (w : world).

Definition config_ok (set : string -> string -> bool) (s : string) : bool :=
  match split_equals s with Some (k, v) => set k v | None => false end.
Definition valid_option (o : getopt) : bool :=
  let c := opt_char o in
  if c =? chr "f" then bool_decide (format_of (optarg o) <> None)
  else if c =? chr "C" then config_ok (w_kafka_conf_set w) (optarg o)
  else if c =? chr "T" then config_ok (w_topic_conf_set w) (optarg o)
  else bool_decide (c ∈ [chr "d"; chr "s"; chr "b"; chr "r"; chr "u"; chr "p"]).

(** The state after all the options. *)
Definition settings (opts : list getopt) (su : startup) : startup :=
  let p := su_producer su in let cl := client p in
  Startup
    (ProducerContext
      (ClientContext (setting (chr "d") Some (conninfo cl) opts) (app_name cl) (sql_conn cl)
        (set_slot_name (setting (chr "s") Some (slot_name (repl cl)) opts) (repl cl))
        (given (chr "u") opts || allow_unkeyed cl) (taking_snapshot cl) (cl_status cl) (net cl)
        (selects cl) (repl_params cl))
      (setting (chr "r") (fun url => Some (schema_registry_new url (w_registry w))) (registry p) opts)
      (setting (chr "b") id (brokers p) opts) (xact_list p) (xact_head p) (xact_tail p) (kafka p)
      (mapper p) (format_asked (output_format p) opts)
      (setting (chr "p") Some (topic_prefix p) opts) (errno p) (received_shutdown_signal p)
      (wal_order_warnings p))
    (kafka_conf su ++ omap split_equals (args_of (chr "C") opts))
    (topic_conf su ++ omap split_equals (args_of (chr "T") opts)).

Lemma args_of_cons c o opts :
  args_of c (o :: opts) = (if decide (opt_char o = c) then [optarg o] else []) ++ args_of c opts.
Proof. unfold args_of. rewrite filter_cons. by case_decide. Qed.

Lemma last_app_or {A} (l1 l2 : list A) :
  list.last (l1 ++ l2) = match list.last l2 with Some x => Some x | None => list.last l1 end.
Proof.
  rewrite list.last_app. by destruct (list.last l2).
Qed.

Lemma setting_cons {B} c (f : string -> B) b o opts :
  setting c f b (o :: opts) = setting c f (setting c f b [o]) opts.
Proof.
  unfold setting, last_arg. rewrite !args_of_cons, last_app_or, app_nil_r.
  by destruct (list.last (args_of c opts)).
Qed.

Lemma format_cons f o opts :
  valid_option o = true -> forallb valid_option opts = true ->
  format_asked f (o :: opts) = format_asked (format_asked f [o]) opts.
Proof.
  intros Ho Hopts. unfold format_asked, last_arg. rewrite !args_of_cons, last_app_or, app_nil_r.
  destruct (list.last (args_of (chr "f") opts)) as [s|] eqn:E; [|done]. simpl.
  apply list.last_Some_elem_of in E. unfold args_of in E.
  apply list_elem_of_fmap in E as (o' & -> & Ho'). apply list_elem_of_filter in Ho' as [Hc Hin].
  rewrite forallb_forall in Hopts. apply list_elem_of_In, Hopts in Hin. unfold valid_option in Hin.
  rewrite Hc in Hin. simpl in Hin. apply bool_decide_eq_true in Hin.
  by destruct (format_of (optarg o')).
Qed.

Lemma args_of_one k o : args_of k [o] = if decide (opt_char o = k) then [optarg o] else [].
Proof. by rewrite args_of_cons, app_nil_r. Qed.

Lemma chr_inj a b : chr a = chr b -> a = b.
Proof.
  unfold chr. intros H%Nat2Z.inj. rewrite <- (ascii_nat_embedding a), <- (ascii_nat_embedding b).
  by rewrite H.
Qed.

(** Reduce the tests of one option character against another. *)
Ltac chr_decide :=
  repeat match goal with
  | |- context [decide (chr ?a = chr ?b)] =>
      first [rewrite (decide_True _ _ (P := chr a = chr b)) by done
            |rewrite (decide_False _ _ (P := chr a = chr b)) by (by intros ?%chr_inj)]
  end.

Lemma parse_option_valid o su :
  valid_option o = true -> parse_option w o su = (Ret tt, settings [o] su).
Proof.
  intros Hv. unfold settings, given, setting, format_asked, last_arg. rewrite !args_of_one.
  destruct su as [[[? ? ? [] ? ? ? ? ? ?] ? ? ? ? ? ? ? ? ? ? ? ?] kc tc]. destruct o as [c a].
  unfold parse_option. cbn [opt_char optarg].
  destruct (Z.eqb_spec c (chr "d")) as [->|?]; [chr_decide; simpl; by rewrite !app_nil_r|].
  destruct (Z.eqb_spec c (chr "s")) as [->|?]; [chr_decide; simpl; by rewrite !app_nil_r|].
  destruct (Z.eqb_spec c (chr "b")) as [->|?]; [chr_decide; simpl; by rewrite !app_nil_r|].
  destruct (Z.eqb_spec c (chr "r")) as [->|?]; [chr_decide; simpl; by rewrite !app_nil_r|].
  destruct (Z.eqb_spec c (chr "f")) as [->|?].
  { chr_decide. apply bool_decide_eq_true in Hv. unfold set_output_format, format_of in *.
    cbn -[String.eqb] in *. destruct (String.eqb "avro" a); [by rewrite !app_nil_r|].
    destruct (String.eqb "json" a); [by rewrite !app_nil_r|done]. }
  destruct (Z.eqb_spec c (chr "u")) as [->|?]; [chr_decide; simpl; by rewrite !app_nil_r|].
  destruct (Z.eqb_spec c (chr "p")) as [->|?]; [chr_decide; simpl; by rewrite !app_nil_r|].
  destruct (Z.eqb_spec c (chr "C")) as [->|?].
  { chr_decide. change (config_ok (w_kafka_conf_set w) a = true) in Hv.
    unfold config_ok, parse_config_option, mbind, M_bind, stop in *. simpl.
    destruct (split_equals a) as [[k v]|]; [|done]. unfold set_kafka_config. simpl. rewrite Hv. by rewrite app_nil_r. }
  destruct (Z.eqb_spec c (chr "T")) as [->|?].
  { chr_decide. change (config_ok (w_topic_conf_set w) a = true) in Hv.
    unfold config_ok, parse_config_option, mbind, M_bind, stop in *. simpl.
    destruct (split_equals a) as [[k v]|]; [|done]. unfold set_topic_config. simpl. rewrite Hv. by rewrite app_nil_r. }
  exfalso. unfold valid_option in Hv. cbn [opt_char] in Hv. rewrite !(proj2 (Z.eqb_neq _ _)) in Hv by done.
  apply bool_decide_eq_true in Hv. rewrite !elem_of_cons, elem_of_nil in Hv. by destruct_or?.
Qed.

Lemma parse_option_invalid o su :
  valid_option o = false -> exists su', parse_option w o su = (Exit 1, su').
Proof.
  destruct o as [c a]. unfold valid_option, parse_option. cbn [opt_char optarg]. intros Hv.
  repeat match type of Hv with
  | context [c =? ?k] => destruct (Z.eqb_spec c k) as [->|?]
  end.
  - apply bool_decide_eq_false in Hv. cbn -[String.eqb set_output_format]. unfold set_output_format, format_of in *.
    destruct (String.eqb "avro" a); [by destruct Hv|]. destruct (String.eqb "json" a); [by destruct Hv|].
    by eexists.
  - simpl. unfold config_ok, parse_config_option, mbind, M_bind, stop in *.
    destruct (split_equals a) as [[k v]|]; [|by eexists]. unfold set_kafka_config. simpl. rewrite Hv. by eexists.
  - simpl. unfold config_ok, parse_config_option, mbind, M_bind, stop in *.
    destruct (split_equals a) as [[k v]|]; [|by eexists]. unfold set_topic_config. simpl. rewrite Hv. by eexists.
  - apply bool_decide_eq_false in Hv. rewrite !not_elem_of_cons in Hv. destruct_and?.
    rewrite !(proj2 (Z.eqb_neq c _)) by done. destruct (_ =? _); by eexists.
Qed.

Lemma given_cons c o opts b : given c opts || (given c [o] || b) = given c (o :: opts) || b.
Proof.
  unfold given. rewrite (args_of_cons _ o opts), args_of_one. case_decide; simpl; [|done].
  by rewrite orb_true_r.
Qed.

Lemma settings_cons o opts su :
  valid_option o = true -> forallb valid_option opts = true ->
  settings opts (settings [o] su) = settings (o :: opts) su.
Proof.
  intros Ho Hopts. unfold settings. cbn [su_producer client kafka_conf topic_conf conninfo repl allow_unkeyed
    registry brokers output_format topic_prefix app_name sql_conn taking_snapshot cl_status net selects
    repl_params xact_list xact_head xact_tail kafka mapper errno received_shutdown_signal wal_order_warnings
    set_slot_name slot_name output_plugin snapshot_name conn start_lsn recvd_lsn fsync_lsn last_checkpoint
    r_status ticks].
  rewrite <- !setting_cons, <- format_cons by done.
  rewrite (args_of_cons (chr "C") o opts), (args_of_cons (chr "T") o opts), !args_of_one.
  rewrite !omap_app, !(assoc_L (++)), given_cons. done.
Qed.

Lemma parse_each_spec opts su :
  if forallb valid_option opts then parse_each w opts su = (Ret tt, settings opts su)
  else exists su', parse_each w opts su = (Exit 1, su').
Proof.
  revert su. induction opts as [|o opts IH]; intros su.
  - simpl. destruct su as [[[? ? ? [] ? ? ? ? ? ?] ? ? ? ? ? ? ? ? ? ? ? ?] kc tc]. unfold settings. simpl.
    by rewrite !app_nil_r.
  - simpl. destruct (valid_option o) eqn:Ho; simpl.
    + specialize (IH (settings [o] su)). unfold mbind, M_bind. rewrite parse_option_valid by done.
      destruct (forallb valid_option opts) eqn:Hopts; [|exact IH]. by rewrite IH, settings_cons.
    + destruct (parse_option_invalid o su Ho) as [su' Hsu]. exists su'. unfold mbind, M_bind. by rewrite Hsu.
Qed.

End options.

(** The context that [init_producer] makes. *)
Definition initial_startup (w : world) : startup :=
  Startup (ProducerContext (init_client w) None DEFAULT_BROKER_LIST (replicate 1000 no_transaction) 0 0
             (Kafka [] [] [] []) zero_mapper OUTPUT_FORMAT_AVRO None 0 0 0) []
    [("produce.offset.report", "true")].

Lemma init_producer_inv w su : init_producer w (init_client w) = Ret su -> su = initial_startup w.
Proof.
  unfold init_producer, set_topic_config. destruct (w_topic_conf_set w _ _); [|done]. simpl. by intros [= <-].
Qed.

(** JSON output was asked for together with a schema registry. *)
Definition contradictory (opts : list getopt) : bool :=
  bool_decide (format_asked OUTPUT_FORMAT_AVRO opts = OUTPUT_FORMAT_JSON) && given (chr "r") opts.

Definition accepted (w : world) (opts : list getopt) (more : bool) : bool :=
  forallb (valid_option w) opts && given (chr "d") opts && negb more && negb (contradictory opts).

Lemma given_last c opts : given c opts = true <-> exists a, last_arg c opts = Some a.
Proof.
  unfold given, last_arg. rewrite bool_decide_eq_true. destruct (args_of c opts) as [|x l] eqn:E.
  - split; [done|]. by intros [a Ha].
  - split; [|done]. intros _. destruct (list.last (x :: l)) as [a|] eqn:Hl; [by exists a|].
    by apply list.last_None in Hl.
Qed.

Lemma format_asked_cases opts :
  format_asked OUTPUT_FORMAT_AVRO opts = OUTPUT_FORMAT_AVRO \/
  format_asked OUTPUT_FORMAT_AVRO opts = OUTPUT_FORMAT_JSON.
Proof.
  unfold format_asked. destruct (last_arg _ opts) as [s|]; simpl; [|by left]. unfold format_of.
  destruct (String.eqb "avro" s); [by left|]. destruct (String.eqb "json" s); [by right|by left].
Qed.

(** What the program runs with. *)
Record configured (w : world) (opts : list getopt) (su : startup) : Prop := {
  cfg_conninfo : conninfo (client (su_producer su)) = last_arg (chr "d") opts;
  cfg_slot : slot_name (repl (client (su_producer su))) =
    Some (default DEFAULT_REPLICATION_SLOT (last_arg (chr "s") opts));
  cfg_brokers : brokers (su_producer su) = default DEFAULT_BROKER_LIST (last_arg (chr "b") opts);
  cfg_format : output_format (su_producer su) = format_asked OUTPUT_FORMAT_AVRO opts;
  cfg_registry : registry (su_producer su) =
    if decide (format_asked OUTPUT_FORMAT_AVRO opts = OUTPUT_FORMAT_JSON) then None
    else Some (schema_registry_new (default DEFAULT_SCHEMA_REGISTRY (last_arg (chr "r") opts)) (w_registry w));
  cfg_unkeyed : allow_unkeyed (client (su_producer su)) = given (chr "u") opts;
  cfg_prefix : topic_prefix (su_producer su) = last_arg (chr "p") opts;
  cfg_kafka : kafka_conf su = omap split_equals (args_of (chr "C") opts);
  cfg_topic : topic_conf su =
    ("produce.offset.report", "true") :: omap split_equals (args_of (chr "T") opts);
}.

Lemma settings_configured w opts :
  let su := settings w opts (initial_startup w) in
  conninfo (client (su_producer su)) = last_arg (chr "d") opts /\
  registry (su_producer su) = (fun url => schema_registry_new url (w_registry w)) <$> last_arg (chr "r") opts /\
  output_format (su_producer su) = format_asked OUTPUT_FORMAT_AVRO opts /\
  forall r, (r = if decide (format_asked OUTPUT_FORMAT_AVRO opts = OUTPUT_FORMAT_JSON) then None
    else Some (schema_registry_new (default DEFAULT_SCHEMA_REGISTRY (last_arg (chr "r") opts)) (w_registry w))) ->
    configured w opts (set_su_producer (set_registry r (su_producer su)) su).
Proof.
  cbn. unfold setting.
  split; [by destruct (last_arg (chr "d") opts)|]. split; [by destruct (last_arg (chr "r") opts)|].
  split; [done|]. intros r ->. split; cbn; unfold setting; try done.
  - by destruct (last_arg (chr "d") opts).
  - by destruct (last_arg (chr "s") opts).
  - by rewrite orb_false_r.
  - by destruct (last_arg (chr "p") opts).
Qed.

(** The state after the options, whichever way the registry is decided. *)
Lemma parse_options_spec w opts more :
  let su := settings w opts (initial_startup w) in
  if accepted w opts more then
    exists r, parse_options w opts more (initial_startup w) =
        (Ret tt, set_su_producer (set_registry r (su_producer su)) su) /\
      r = if decide (format_asked OUTPUT_FORMAT_AVRO opts = OUTPUT_FORMAT_JSON) then None
        else Some (schema_registry_new (default DEFAULT_SCHEMA_REGISTRY (last_arg (chr "r") opts)) (w_registry w))
  else exists su', parse_options w opts more (initial_startup w) = (Exit 1, su').
Proof.
  intros su. pose proof (parse_each_spec w opts (initial_startup w)) as Hp.
  destruct (settings_configured w opts) as (Hd & Hr & Hf & _). fold su in Hd, Hr, Hf, Hp. clearbody su.
  unfold parse_options, accepted, mbind, M_bind, gets.
  destruct (forallb (valid_option w) opts); simpl; [|destruct Hp as [su' Hp]; rewrite Hp; by eexists].
  rewrite Hp, Hd, Hf, Hr. unfold contradictory.
  destruct (given (chr "d") opts) eqn:Ed; simpl.
  2:{ destruct (last_arg (chr "d") opts) eqn:El;
        [|rewrite bool_decide_eq_true_2 by done; by eexists].
      assert (given (chr "d") opts = true) by (apply given_last; eauto). congruence. }
  apply given_last in Ed as [url Ed]. rewrite Ed.
  rewrite (bool_decide_eq_false_2 (Some url = None)) by done. destruct more; simpl; [by eexists|].
  assert (Hsu : forall r, registry (su_producer su) = r -> su = set_su_producer (set_registry r (su_producer su)) su).
  { intros r. destruct su as [[] ? ?]. simpl. by intros ->. }
  assert (Hg : given (chr "r") opts = bool_decide (last_arg (chr "r") opts <> None)).
  { destruct (given (chr "r") opts) eqn:Er; symmetry.
    - apply given_last in Er as [a Er]. apply bool_decide_eq_true. congruence.
    - apply bool_decide_eq_false. intros Hn. destruct (last_arg (chr "r") opts) eqn:El; [|done].
      assert (given (chr "r") opts = true) by (apply given_last; eauto). congruence. }
  rewrite Hg. destruct (format_asked_cases opts) as [E|E]; rewrite E;
    destruct (last_arg (chr "r") opts) as [a|] eqn:El; simpl in *.
  - eexists. split; [|done]. unfold mret, M_ret. f_equal. by apply Hsu.
  - eexists. by split.
  - by eexists.
  - exists None. split; [|done]. unfold mret, M_ret. f_equal. by apply Hsu.
Qed.

(** C32: The options do what they say. From the initial context: if every option is valid, a
    connection string is given, no argument is left over and JSON is not combined with a
    registry, then the program runs with the last value given for each setting (all values
    for Kafka properties) and the documented defaults otherwise; with Avro there is always
    a registry, with JSON never. In every other case it exits with status 1. *)
Theorem options_meaning w opts more su0 :
  init_producer w (init_client w) = Ret su0 ->
  if accepted w opts more then
    exists su, parse_options w opts more su0 = (Ret tt, su) /\ configured w opts su
  else exists su, parse_options w opts more su0 = (Exit 1, su).
Proof.
  intros ->%init_producer_inv. pose proof (parse_options_spec w opts more) as H. cbv zeta in H.
  destruct (accepted w opts more); [|exact H]. destruct H as (r & Hrun & Hr).
  eexists. split; [exact Hrun|]. by apply settings_configured.
Qed.

Definition demo_world : world :=
  World [] [] [] ([], []) [] true (fun _ => 1) (fun _ _ => true) (fun _ _ => true).
Definition demo_opts : list getopt :=
  [Getopt (chr "d") "postgres://db"; Getopt (chr "f") "json"; Getopt (chr "C") "a=b=c"; Getopt (chr "s") "one";
   Getopt (chr "f") "avro"].

Lemma options_meaning_witness :
  exists su, parse_options demo_world demo_opts false (initial_startup demo_world) = (Ret tt, su) /\
    configured demo_world demo_opts su.
Proof.
  exact (options_meaning demo_world demo_opts false (initial_startup demo_world) eq_refl).
Defined.

(** A signal during the snapshot. *)
Definition demo_interrupted : producer_context :=
  set_signal 2 (set_mapper sample_updated (set_client
    (set_repl_params [("replication", "database")] (set_taking_snapshot true (init_client demo_world)))
    (su_producer (initial_startup demo_world)))).
(** With a topic and a key schema. *)
Definition demo_reader : frame_reader :=
  FrameReader 16 [ListEntry 16384 (KeySchema SInt) SInt VNull VNull VNull] VNull.
Definition demo_failing : producer_context :=
  set_signal 0 (set_client (set_repl (set_conn
    (PGconn [PGresult PGRES_COMMAND_OK [] 0 0] [] [] [] [] [] []) (repl (client demo_interrupted)))
    (client demo_interrupted)) demo_interrupted).

Lemma exit_effects_witness :
  (exists r' x', closing main_end (demo_reader, demo_interrupted) = (Exit 0, (r', x')) /\
     nothing_held r' (mapper x') /\ conn_sent (conn (repl (client x'))) = [SentFinish]) /\
  (exists r' x', closing (ensure (fail EIO)) (demo_reader, demo_failing) = (Exit 1, (r', x')) /\
     nothing_held r' (mapper x') /\ conn_sent (conn (repl (client x'))) =
       [SentQuery ("DROP_REPLICATION_SLOT " +:+ quote "bottledwater"); SentFinish]).
Proof.
  split.
  - destruct (exit_effects 0 demo_reader demo_interrupted) as (_ & H1 & _ & H2); [done|done|].
    destruct H1 as (r' & x' & Hrun & Hheld & Hlog & _).
    { intros [(t & ->%list_elem_of_singleton & Ht)|(e & ->%list_elem_of_singleton & He)]; done. }
    destruct (H2 ltac:(done) true (fun _ => (0, 0)) ref_lib no_callbacks 0%nat) as (_ & H & _).
    exists r', x'. rewrite H. split; [exact Hrun|]. split; [exact Hheld|exact Hlog].
  - destruct (exit_effects 1 demo_reader demo_failing) as (_ & H1 & H2 & _); [done|done|].
    destruct H1 as (r' & x' & Hrun & Hheld & Hlog & _).
    { intros [(t & ->%list_elem_of_singleton & Ht)|(e & ->%list_elem_of_singleton & He)]; done. }
    exists r', x'. rewrite (H2 (fail EIO) (demo_reader, demo_failing) EIO) by done.
    split; [exact Hrun|]. split; [exact Hheld|exact Hlog].
Defined.

Example demo_settings :
  let su := snd (parse_options demo_world demo_opts false (initial_startup demo_world)) in
  kafka_conf su = [("a", "b=c")] /\ output_format (su_producer su) = OUTPUT_FORMAT_AVRO /\
  slot_name (repl (client (su_producer su))) = Some "one".
Proof. by vm_compute. Qed.

(** ** What set-up leaves *)

Lemma start_producer_inv w su u su' :
  start_producer w su = (Ret u, su') ->
  exists k m, su_producer su' = set_mapper m (set_kafka k (su_producer su)) /\
    k_produced k = [] /\ k_reported k = [].
Proof.
  unfold start_producer. destruct (negb (w_kafka_new w)); [done|]. intros Hrun.
  apply bind_Ret_inv in Hrun as (? & su1 & [= _ <-] & Hrun).
  apply bind_Ret_inv in Hrun as (c & su2 & [= <- <-] & Hrun).
  destruct (_ =? 0); [done|]. injection Hrun as _ <-. by eexists _, _.
Qed.

Lemma set_up_fresh w opts more r su :
  set_up w opts more = Ret (r, su) ->
  frame_reader_new = Ret r /\ fresh_producer (su_producer su) /\
  taking_snapshot (client (su_producer su)) = false.
Proof.
  unfold set_up. destruct frame_reader_new as [r0| | | | |]; try done.
  destruct (init_producer w (init_client w)) as [su0| | | | |] eqn:E0; try done.
  apply init_producer_inv in E0 as ->. pose proof (parse_options_spec w opts more) as H. cbv zeta in H.
  unfold mbind at 1, M_bind. destruct (accepted w opts more); destruct H as [x H].
  2:{ by rewrite H. }
  destruct H as [-> _]. destruct (start_producer w _) as [[] su'] eqn:E; try done. intros [= <- <-].
  apply start_producer_inv in E as (k & m & -> & Hk & Hr). split; [done|]. split; [|done]. by split.
Qed.
