(* ===== verification/Program.v ===== *)
(** * The whole program

    Options, start-up, the connection to Postgres and the main loop, together with the
    producer's callbacks: whatever the servers send and Kafka answers, the guarantees of
    [Delivery] hold in every iteration. The callbacks that a run makes are recorded beside
    its state; the recording changes nothing. *)

From S2P Require Import Prelude Avro AvroBinary Protocol ProtocolClient NetBytes Libpq.
From S2P Require Import Replication Connect Registry TableMapper Json Producer ProducerSafety.
From S2P Require Import Delivery Main.
From Stdlib Require Import Ascii.
Open Scope Z_scope.

(** ** Recording *)

Abbreviation record := (list (Z * event)).
Abbreviation recorded_state := (producer_context * record)%type.

Definition recorded (wal_pos : Z) (e : event) (m : MP unit) : M recorded_state unit := fun x =>
  let '(o, c) := m (fst x) in (o, (c, snd x ++ [(wal_pos, e)])).

Definition recording (cbs : callbacks producer_context) : callbacks recorded_state :=
  let cb w e := recorded w e (notify cbs w e) in {|
    on_begin_txn := Some (fun w xid => cb w (EBegin xid));
    on_commit_txn := Some (fun w xid => cb w (ECommit xid));
    on_table_schema := Some (fun w relid k r => cb w (ESchema relid k r));
    on_insert_row := Some (fun w relid k r => cb w (EInsert relid k r));
    on_update_row := Some (fun w relid k o r => cb w (EUpdate relid k o r));
    on_delete_row := Some (fun w relid k o => cb w (EDelete relid k o));
  |}.

Lemma notify_recording cbs w e : notify (recording cbs) w e = recorded w e (notify cbs w e).
Proof. by destruct e. Qed.

Definition inputs_of (log : record) : list input := (fun we => IEvent (fst we) (snd we)) <$> log.

(** The history that the record starts from: with or without a snapshot. *)
Definition h_zero (snapshot : bool) : history := History [0] snapshot snapshot [].

(** ** Callbacks of the producer return or end the process *)

Lemma no_error_exit {A} status : no_error (exit_nicely (A := A) status).
Proof.
  unfold exit_nicely. apply no_error_bind; [done|intros c]. apply no_error_bind.
  { apply no_error_when, no_error_bind; [apply no_error_status|done]. }
  intros _. apply no_error_bind; [done|]. intros m. apply no_error_bind; [|done]. intros c' e. unfold stop.
  destruct (mapper_free_cases m) as [(t & Ht & Et)| ->]; [by rewrite (table_mapper_free_dangling m t)|done].
Qed.

Lemma no_error_on_repl f : no_error (on_repl (modify f)).
Proof. done. Qed.

Lemma no_error_checkpoint fuel : no_error (checkpoint_loop fuel).
Proof.
  induction fuel as [|fuel IH]; [done|]. simpl. apply no_error_bind; [|by intros [|]].
  unfold checkpoint_step. apply no_error_bind; [done|intros tail]. apply no_error_bind.
  { intros c e. unfold xact_at. by destruct (xact_list c !! _). }
  intros x. destruct (_ && _); [|done]. apply no_error_bind; [done|intros f].
  apply no_error_bind; [by apply no_error_when|intros _]. apply no_error_bind; [done|intros _].
  apply no_error_bind; [by apply no_error_when|intros _]. apply no_error_bind; [done|intros head].
  destruct (_ =? _); [done|]. by apply no_error_bind.
Qed.

Lemma no_error_poll : no_error rd_kafka_poll.
Proof.
  assert (Hd : forall l, no_error (deliver_all l)).
  { induction l as [|[m err] l IH]; [done|]. simpl. apply no_error_bind; [|done].
    unfold deliver, on_deliver_msg. apply no_error_bind; [done|intros k]. destruct (_ !! m); [|done].
    apply no_error_when, no_error_bind; [done|intros _]. destruct (negb _); [apply no_error_exit|].
    apply no_error_bind; [done|intros _; apply no_error_checkpoint]. }
  unfold rd_kafka_poll. apply no_error_bind; [done|intros k]. destruct (k_polls k); [done|].
  apply no_error_bind; [done|intros _]. by apply no_error_bind.
Qed.

Section callbacks.
Context (le : bool) (clock : nat -> Z * Z) (L : avro_lib).
Context (json_dumps : list Z -> option string) (json_loadb : string -> option json).
Abbreviation cbs := (producer_callbacks le clock L json_dumps json_loadb).

Lemma no_error_backpressure : no_error (backpressure le clock).
Proof.
  unfold backpressure. apply no_error_bind; [apply no_error_poll|intros _].
  apply no_error_bind; [done|intros sig]. destruct (negb _); [apply no_error_exit|].
  apply no_error_bind; [apply no_error_status|intros err]. destruct (negb _); [apply no_error_exit|done].
Qed.

Lemma no_error_xact_at i : no_error (xact_at i).
Proof. intros c e. unfold xact_at. by destruct (xact_list c !! _). Qed.

Lemma no_error_send wal_pos relid key val : no_error (send_kafka_msg le clock L wal_pos relid key val).
Proof.
  assert (Hp : forall fuel msg, no_error (produce_loop le clock fuel msg)).
  { induction fuel as [|fuel IH]; intros msg; [done|]. simpl. apply no_error_bind; [|by intros [|]].
    unfold try_produce. apply no_error_bind.
    { unfold rd_kafka_produce. apply no_error_bind; [done|intros k].
      apply no_error_bind; [done|intros _]. destruct (att_accepted _); by apply no_error_bind. }
    intros err. apply no_error_bind; [done|intros e]. destruct (_ =? _).
    - apply no_error_bind; [apply no_error_backpressure|done].
    - destruct (negb _); [apply no_error_exit|done]. }
  unfold send_kafka_msg. apply no_error_bind; [done|intros head].
  apply no_error_bind; [apply no_error_xact_at|intros _]. apply no_error_bind; [done|intros _].
  apply no_error_bind; [done|intros c]. destruct (_ ≫= _) as [table|]; [|apply no_error_exit].
  destruct (encode_msg _ _ _ _ _ _) as [[key' val']| | | | |]; try done; [|apply no_error_exit].
  destruct (t_topic table); [done|apply Hp|done].
Qed.

Lemma no_error_notify w e : no_error (notify cbs w e).
Proof.
  destruct e as [x|x|relid k r|relid k r|relid k o r|relid k o]; simpl.
  - unfold begin_txn. destruct (_ =? _).
    + apply no_error_bind; [done|intros c]. destruct (_ || _); [apply no_error_exit|done].
    + apply no_error_bind; [done|intros polls]. apply no_error_bind.
      { induction polls as [|polls IH]; simpl; (apply no_error_bind; [done|intros full]);
          destruct (negb full); try done. apply no_error_bind; [apply no_error_backpressure|done]. }
      intros _. apply no_error_bind; [done|intros _]. by apply no_error_bind.
  - unfold commit_txn. apply no_error_bind; [done|intros head].
    apply no_error_bind; [apply no_error_xact_at|intros xact]. destruct (negb _); [apply no_error_exit|].
    apply no_error_bind; [done|intros _; apply no_error_checkpoint].
  - unfold table_schema_cb. apply no_error_bind; [|intros [|]; [done|apply no_error_exit]].
    intros c err. unfold zoom.
    assert (Hu : forall m : table_mapper, no_error (table_mapper_update L json_dumps json_loadb relid (avro_schema_name (snd r)) (fst <$> k) (fst r))).
    { intros _. unfold table_mapper_update. apply no_error_bind; [done|intros found]. apply no_error_bind.
      { destruct found; [done|]. unfold table_metadata_new. apply no_error_bind; [done|intros full].
        apply no_error_bind; [by apply no_error_when|intros _]. apply no_error_bind; [done|intros m].
        case_decide; [by apply no_error_bind|done]. }
      intros i. do 2 (apply no_error_bind; [apply no_error_status|intros ?]; destruct (negb _); [done|]).
      apply no_error_bind; [apply no_error_status|intros ?]. by destruct (negb _). }
    specialize (Hu (prj c) (prj c) err). by destruct (table_mapper_update _ _ _ _ _ _ _ _).
  - apply no_error_send.
  - apply no_error_send.
  - destruct k; [apply no_error_send|done].
Qed.

(** ** The invariant of the loop *)

Definition sound (snapshot : bool) (x : recorded_state) : Prop :=
  forall h, h_run (h_zero snapshot) (inputs_of (snd x)) = Some h -> invariant h 0 (fst x).
Abbreviation IX b := (fun rx : frame_reader * recorded_state => sound b (snd rx)).

Lemma sound_notify b w e : maintains (IX b) (zoom (notify (recording cbs) w e)).
Proof.
  intros [r [c log]] Hs. rewrite notify_recording. unfold zoom, recorded. simpl.
  pose proof (no_error_notify w e c) as Hne.
  destruct (notify cbs w e c) as [[[]|err| | | |] c'] eqn:E; simpl in *; try done; [|by destruct (Hne err)].
  intros h Hh. unfold inputs_of in Hh. simpl in Hh. rewrite fmap_app in Hh.
  apply h_run_app in Hh as (h1 & Hh1 & Hh2). cbn [h_run fmap list_fmap fst snd] in Hh2.
  apply bind_Some in Hh2 as (h2 & Est & [= <-]).
  by destruct (run_input_spec le clock L json_dumps json_loadb h1 (IEvent w e) h2 c c' (Hs h1 Hh1) Est E).
Qed.

(** Work on the client that moves neither the position nor the snapshot flag, and tells the
    server no other position. *)
Definition client_frame (v : Z) (b : bool) (c : client_context) : Prop :=
  steady v (repl c) /\ taking_snapshot c = b.
Definition client_keeps {A} (m : M client_context A) : Prop :=
  forall v b, 0 <= v -> preserves (client_frame v b) m.
Definition stream_keeps {A} (m : M replication_stream A) : Prop := forall v, 0 <= v -> preserves (steady v) m.

Lemma client_keeps_sql {A} (m : M pg_conn A) : client_keeps (on_sql m).
Proof. intros v b _ c Hc. unfold on_sql. destruct (sql_conn c); [|done]. by destruct (m p). Qed.

Lemma client_keeps_repl {A} (m : M replication_stream A) : stream_keeps m -> client_keeps (zoom m).
Proof.
  intros Hm v b Hn c [Hv Hb]. specialize (Hm v Hn (repl c) Hv). unfold zoom. simpl.
  by destruct (m (repl c)).
Qed.

Lemma client_keeps_modify f :
  (forall c, repl (f c) = repl c) -> (forall c, taking_snapshot (f c) = taking_snapshot c) ->
  client_keeps (modify f).
Proof. intros Hr Ht v b _. apply preserves_modify. intros c [Hv Hb]. split; by rewrite ?Hr, ?Ht. Qed.

Lemma client_keeps_exec q : client_keeps (exec_sql q).
Proof.
  intros v b Hn. apply preserves_bind; [by apply client_keeps_sql|intros res].
  destruct (bool_decide _); [apply preserves_ret|apply preserves_stop].
Qed.

Lemma stream_keeps_start : stream_keeps replication_stream_start.
Proof.
  intros v Hv. by apply (held_start le), steady_holds.
Qed.

Lemma stream_keeps_work : stream_work le clock (fun A => @stream_keeps A).
Proof.
  pose proof (fun v Hv => held_stream le clock (steady v) (steady_holds le v Hv)) as H.
  split; intros; intros u Hu; by apply (H u Hu).
Qed.

Abbreviation on_cl := (on_client (X := recorded_state) (HX := Has_client_of (HX := Has_fst producer_context record))).

Lemma sound_client {A} b (m : M client_context A) :
  client_keeps m -> preserves (IX b) (on_cl m).
Proof.
  intros Hm [r [c log]] Hs. unfold on_client, zoom. simpl. destruct (m (client c)) as [o cl] eqn:E. intros h Hh.
  simpl in *. destruct (Hs h Hh) as [t Hinv]. destruct (inv_checkpoint _ _ _ _ Hinv) as [Hnn _ _ _ _ _ _ Hto].
  specialize (Hm (fsync c) (taking_snapshot (client c)) Hnn (client c) (conj (conj eq_refl Hto) eq_refl)).
  rewrite E in Hm. destruct Hm as [[Hf Ht] Hb]. exists t. by apply (invariant_ext h t 0 c).
Qed.

Abbreviation Has_cl := (Has_client_of (HX := Has_fst producer_context record)).

Lemma client_keeps_work : client_work (fun A => @client_keeps A).
Proof.
  split.
  - intros v b _. apply preserves_gets.
  - intros A m. apply client_keeps_sql.
  - apply client_keeps_exec.
  - by apply client_keeps_modify.
  - intros f. by apply client_keeps_modify.
  - apply client_keeps_repl, stream_keeps_start.
Qed.

Lemma sound_reader {A} b (m : M frame_reader A) : maintains (IX b) (zoom m).
Proof. apply preserves_maintains. intros [r x] Hx. unfold zoom. simpl. by destruct (m r). Qed.

Lemma sound_poll b : maintains (IX b) (db_client_poll (HX := Has_cl) le clock L (recording cbs)).
Proof.
  apply (db_client_poll_comp le clock L (recording cbs) (fun A => @maintains _ A (IX b)) (fun A => @client_keeps A)
    (fun A => @stream_keeps A)).
  - intros A m. apply sound_reader.
  - intros w e _. apply sound_notify.
  - intros A m Hm. by apply preserves_maintains, sound_client.
  - intros A m Hm. apply preserves_maintains. intros [r [c log]] Hs.
    pose proof (sound_client b (zoom m) (client_keeps_repl m Hm) (r, (c, log)) Hs) as H.
    unfold on_client, on_stream, zoom in *. simpl in *. by destruct (m (repl (client c))).
  - apply client_keeps_work.
  - apply stream_keeps_work.
Qed.

(** ** One iteration *)

Abbreviation on_pr := (on_producer (X := recorded_state) (HX := Has_fst producer_context record)).
Abbreviation ensure_rec := (ensure (X := recorded_state) (HX := Has_fst producer_context record)).

Lemma sound_producer {A} b (m : MP A) :
  (forall h c a c', invariant h 0 c -> m c = (Ret a, c') -> invariant h 0 c') ->
  triple (IX b) (on_pr m) (fun _ => IX b).
Proof.
  intros Hm [r [c log]] a [r' [c' log']] Hs Hrun. unfold on_producer, zoom in Hrun. simpl in Hrun.
  destruct (m c) as [o c1] eqn:E. injection Hrun as -> <- <- <-. intros h Hh. eapply Hm; [by apply Hs|done].
Qed.

Lemma ensure_inv m rx u rx' :
  ensure_rec m rx = (Ret u, rx') -> exists o, m rx = (o, rx') /\ (o = Ret tt \/ o = Err 0).
Proof.
  unfold ensure. intros Hrun. apply bind_Ret_inv in Hrun as (err & rx1 & H1 & H2). unfold status in H1.
  destruct (m rx) as [[[]|e| | | |] rx2]; simplify_eq/=.
  - injection H2 as _ <-. eauto.
  - destruct (Z.eqb_spec err 0) as [->|]; simpl in H2; [injection H2 as _ <-; eauto|].
    unfold on_producer, zoom in H2. simpl in H2. destruct (exit_nicely _ _) as [o c] eqn:E. simplify_eq.
    by destruct (exit_nicely_no_return _ _ _ _ E).
Qed.

Lemma sound_ensure b m : maintains (IX b) m -> triple (IX b) (ensure_rec m) (fun _ => IX b).
Proof.
  intros Hm rx u rx' Hs Hrun. apply ensure_inv in Hrun as (o & Hrun & Ho). specialize (Hm rx Hs).
  rewrite Hrun in Hm. by destruct Ho as [-> | ->].
Qed.

Lemma client_keeps_wait : client_keeps db_client_wait.
Proof.
  intros v b Hn c Hc. unfold db_client_wait. destruct (selects c) as [|[ret errno] rest]; [done|].
  case_decide; [done|]. destruct (ret <? 0); [done|].
  match goal with |- client_frame v b (snd (?m ?s)) =>
    assert (Hm : preserves (client_frame v b) m); [|by apply (Hm s)] end.
  apply preserves_bind.
  { apply client_keeps_repl; [|done]. intros v' Hv'. by apply (held_consume le), steady_holds. }
  intros ok. destruct (negb ok); [apply preserves_stop|]. apply preserves_bind; [apply preserves_gets|].
  intros [sql|]; [|apply preserves_ret]. apply preserves_bind; [by apply client_keeps_sql|].
  intros [|]; [apply preserves_ret|apply preserves_stop].
Qed.

Abbreviation steps_rec := (main_steps (HX := Has_fst producer_context record) le clock L (recording cbs)).
Abbreviation start_rec parse := (main_start (HX := Has_fst producer_context record) parse (recording cbs)).

Lemma sound_step b :
  triple (IX b) (main_step (HX := Has_fst producer_context record) le clock L (recording cbs)) (fun _ => IX b).
Proof.
  unfold main_step. apply triple_bind with (J := fun _ => IX b); [apply sound_ensure, sound_poll|intros _].
  apply triple_bind with (J := fun _ => IX b).
  { apply triple_preserves, sound_client. intros v b' _. apply preserves_gets. }
  intros st. apply triple_bind with (J := fun _ => IX b).
  { apply triple_when; [|done]. intros _. apply sound_ensure, preserves_maintains, sound_client, client_keeps_wait. }
  intros _. apply sound_producer. intros h c a c' Hinv Hrun.
  by destruct (keeps_invariant rd_kafka_poll h c a c' keeps_poll Hinv Hrun).
Qed.

Lemma sound_steps b n : triple (IX b) (steps_rec n) (fun _ => IX b).
Proof.
  induction n as [|n IH]; simpl; [by intros rx u rx' Hs [= _ <-]|].
  apply triple_bind with (J := fun _ => IX b).
  { unfold going_on. apply triple_bind with (J := fun _ => IX b); [|intros c; by intros rx u rx' Hs [= _ <-]].
    apply sound_producer. by intros h c a c' Hinv [= _ <-]. }
  intros [|]; [|by intros rx u rx' Hs [= _ <-]]. apply triple_bind with (J := fun _ => IX b); [apply sound_step|done].
Qed.

(** ** Starting *)

(** Nothing has happened to the producer yet. *)
Definition untouched (rx : frame_reader * recorded_state) : Prop :=
  fresh_producer (fst (snd rx)) /\ snd (snd rx) = [].
(** At most the snapshot has begun. *)
Definition begun (rx : frame_reader * recorded_state) : Prop :=
  fresh_producer (fst (snd rx)) /\
  (snd (snd rx) = [] \/ exists w, snd (snd rx) = [(w, EBegin 0)]).

Definition leads {A} (m : M (frame_reader * recorded_state) A) : Prop :=
  forall s, untouched s -> match fst (m s) with Ret _ | Err _ => begun (snd (m s)) | _ => True end.

Lemma leads_preserves {A} (m : M (frame_reader * recorded_state) A) : preserves untouched m -> leads m.
Proof.
  intros Hm s Hs. destruct (Hm s Hs) as [Hf Hl].
  assert (begun (snd (m s))) by (split; [done|by left]). by destruct (fst (m s)).
Qed.

Lemma leads_bind {A B} (m : M (frame_reader * recorded_state) A) (f : A -> M _ B) :
  preserves untouched m -> (forall a, leads (f a)) -> leads (m ≫= f).
Proof.
  intros Hm Hf s Hs. specialize (Hm s Hs). unfold mbind, M_bind. destruct (m s) as [[] s1]; simpl in *; try done.
  - by apply Hf.
  - destruct Hm as [? ?]. split; [done|by left].
Qed.

Lemma sound_begun r c log : begun (r, (c, log)) -> sound (taking_snapshot (client c)) (c, log).
Proof.
  intros [Hf Hl] h Hh. simpl in *. pose proof (fresh_invariant c Hf) as Hinv.
  destruct Hl as [-> |[w ->]]; [injection Hh as <-; exact Hinv|]. simpl in Hh.
  destruct (decide _) as [Hd|]; [|done]. injection Hh as <-. exact Hinv.
Qed.

(** No position was reached or reported. *)
Definition fresh_stream (v : Z) (s : replication_stream) : Prop := fsync_lsn s = v /\ no_update s.
Definition fsync_frame (v : Z) (c : client_context) : Prop := fresh_stream v (repl c).

Lemma untouched_client {A} (m : M client_context A) :
  (forall v, preserves (fsync_frame v) m) -> preserves untouched (on_cl m).
Proof.
  intros Hm [r [c log]] [[] Hl]. specialize (Hm (fsync c) (client c) (conj eq_refl fresh_told)).
  unfold on_client, zoom. simpl. destruct (m (client c)) as [o cl]. destruct Hm as [Hf Ht]. simpl in *.
  split; [|done]. split; try done. unfold fsync in *. simpl. congruence.
Qed.

Lemma fsync_frame_sql {A} v (m : M pg_conn A) : preserves (fsync_frame v) (on_sql m).
Proof. intros c Hc. unfold on_sql. destruct (sql_conn c); [|done]. by destruct (m p). Qed.
Lemma fsync_frame_next v : preserves (fsync_frame v) next_connection.
Proof. intros c Hc. unfold next_connection. by destruct (net c). Qed.
Lemma fsync_frame_repl {A} v (m : M replication_stream A) :
  preserves (fresh_stream v) m -> preserves (fsync_frame v) (zoom m).
Proof. intros Hm c Hc. specialize (Hm (repl c) Hc). unfold zoom. simpl. by destruct (m (repl c)). Qed.
Lemma fsync_frame_exec v q : preserves (fresh_stream v) (zoom (PQexec q)).
Proof.
  intros s [Hs Hn]. unfold zoom, PQexec, exec_command, no_update in *. simpl.
  destruct (conn_replies (conn s)); (split; [done|]); unfold no_update; simpl; by rewrite existsb_app, Hn.
Qed.
(** A new connection. *)
Lemma fsync_frame_connect {A} v (f : connected -> M client_context A) :
  (forall c b, preserves (fsync_frame v) (f (new_conn c, b))) -> preserves (fsync_frame v) (x ← next_connection; f x).
Proof.
  intros Hf c Hc. unfold mbind, M_bind, next_connection. destruct (net c) as [|[c1 b] rest]; [done|]. by apply Hf.
Qed.

Ltac frame :=
  repeat first
    [ apply preserves_ret | apply preserves_stop | apply preserves_gets | apply fsync_frame_sql
    | apply fsync_frame_exec | (apply fsync_frame_connect; intros ? ?) | (apply preserves_bind; [|intros ?])
    | (apply preserves_modify; intros ? [? ?]; by split) | apply fsync_frame_repl | case_match ].

Lemma start_leads parse :
  leads (db_client_start (HX := Has_cl) parse (recording cbs)).
Proof.
  unfold db_client_start, snapshot_start.
  assert (Hcl : forall A (m : M client_context A), (forall v, preserves (fsync_frame v) m) -> preserves untouched (on_cl m))
    by (intros; by apply untouched_client).
  apply leads_bind; [apply Hcl; intros v; unfold client_connect; frame|intros _].
  apply leads_bind; [apply Hcl; intros v; unfold replication_stream_check; frame|intros _].
  apply leads_bind; [apply Hcl; intros v; unfold replication_slot_exists; frame|intros slot].
  assert (Hsql : forall q, preserves untouched (on_cl (exec_sql q))).
  { intros q. apply Hcl. intros v. unfold exec_sql. frame. }
  destruct slot.
  - apply leads_preserves. apply preserves_bind; [by apply Hcl; intros v; apply preserves_modify|intros _].
    apply preserves_bind; [by apply Hcl; intros v; apply preserves_modify|intros _].
    apply Hcl. intros v. unfold replication_stream_start. frame.
  - apply leads_bind; [by apply Hcl; intros v; apply preserves_modify|intros _].
    apply leads_bind; [apply Hcl; intros v; unfold replication_slot_create; frame|intros _].
    apply leads_bind; [apply Hcl; intros v; frame|intros c].
    destruct (unset _); [apply leads_preserves, preserves_stop|].
    do 3 (apply leads_bind; [apply Hsql|intros _]).
    apply leads_bind; [apply Hcl; intros v; frame|intros [|]]; [|apply leads_preserves, preserves_stop].
    apply leads_bind; [apply Hcl; intros v; frame|intros [|]]; [|apply leads_preserves, preserves_stop].
    intros [r [c' log]] [Hf Hl]. simpl in Hf, Hl. subst log. simpl.
    unfold recorded, zoom. simpl. unfold begin_txn. simpl. unfold mbind, M_bind, gets.
    pose proof (fresh_head _ Hf) as ->. pose proof (fresh_tail _ Hf) as ->. simpl.
    split; [exact Hf|]. right. by eexists.
Qed.

Lemma start_sound parse r c0 u rx :
  fresh_producer c0 -> start_rec parse (r, (c0, [])) = (Ret u, rx) ->
  sound (taking_snapshot (client (fst (snd rx)))) (snd rx).
Proof.
  intros Hf Hrun. unfold main_start in Hrun. apply ensure_inv in Hrun as (o & Hrun & Ho).
  assert (Hu : untouched (r, (c0, []))) by done. pose proof (start_leads parse _ Hu) as H.
  rewrite Hrun in H. destruct rx as [r1 [c1 log1]]. apply (sound_begun r1). by destruct Ho as [-> | ->].
Qed.

(** ** Recording changes nothing *)

(** [m] does what [m'] does, and adds to the record. *)
Definition erases {A} (m : M (frame_reader * recorded_state) A)
  (m' : M (frame_reader * producer_context) A) : Prop :=
  forall r c log, exists more,
    m (r, (c, log)) = let '(o, (r', c')) := m' (r, c) in (o, (r', (c', log ++ more))).

Lemma erases_same {A} (m : M (frame_reader * recorded_state) A) m' :
  (forall r c log, m (r, (c, log)) = let '(o, (r', c')) := m' (r, c) in (o, (r', (c', log)))) ->
  erases m m'.
Proof. intros H r c log. exists []. rewrite app_nil_r. apply H. Qed.

Lemma erases_bind {A B} m m' (f : A -> M (frame_reader * recorded_state) B) f' :
  erases m m' -> (forall a, erases (f a) (f' a)) -> erases (m ≫= f) (m' ≫= f').
Proof.
  intros Hm Hf r c log. destruct (Hm r c log) as [l1 H1]. unfold mbind, M_bind.
  destruct (m' (r, c)) as [o [r1 c1]]. rewrite H1. destruct o; try (by exists l1).
  destruct (Hf a r1 c1 (log ++ l1)) as [l2 H2]. exists (l1 ++ l2). rewrite H2.
  destruct (f' a (r1, c1)) as [? [? ?]]. by rewrite (assoc_L (++)).
Qed.

Lemma erases_ret {A} (a : A) : erases (mret a) (mret a).
Proof. by apply erases_same. Qed.
Lemma erases_stop {A} (o : outcome A) : erases (stop o) (stop o).
Proof. by apply erases_same. Qed.
Lemma erases_status m m' : erases m m' -> erases (status m) (status m').
Proof.
  intros Hm r c log. destruct (Hm r c log) as [l H]. exists l. unfold status.
  destruct (m' (r, c)) as [[] [r1 c1]]; by rewrite H.
Qed.
Lemma erases_when b m m' : erases m m' -> erases (when b m) (when b m').
Proof. destruct b; [done|]. intros _. apply erases_ret. Qed.
Lemma erases_reader {A} (m : M frame_reader A) :
  erases (zoom (H := Has_fst frame_reader recorded_state) m) (zoom (H := Has_fst frame_reader producer_context) m).
Proof. apply erases_same. intros r c log. unfold zoom. simpl. by destruct (m r). Qed.

Abbreviation HI := (Has_refl producer_context).
Abbreviation Has_clI := (Has_client_of (HX := HI)).

Lemma erases_producer {A} (m : MP A) : erases (on_pr m) (on_producer (HX := HI) m).
Proof. apply erases_same. intros r c log. unfold on_producer, zoom. simpl. by destruct (m c). Qed.
Lemma erases_client {A} (m : M client_context A) : erases (on_cl m) (on_client (HX := Has_clI) m).
Proof. apply erases_same. intros r c log. unfold on_client, zoom. simpl. by destruct (m (client c)). Qed.
Lemma erases_stream {A} (m : M replication_stream A) :
  erases (on_stream (HX := Has_stream (HX := Has_cl)) m) (on_stream (HX := Has_stream (HX := Has_clI)) m).
Proof. apply erases_same. intros r c log. unfold on_stream, zoom. simpl. by destruct (m (repl (client c))). Qed.

Lemma erases_event w e :
  erases (zoom (recorded w e (notify cbs w e))) (zoom (notify cbs w e)).
Proof.
  intros r c log. exists [(w, e)]. unfold zoom, recorded. simpl. by destruct (notify cbs w e c).
Qed.

Ltac erase_with known :=
  repeat first
    [ known | apply erases_ret | apply erases_stop | apply erases_reader | apply erases_client
    | apply erases_stream | apply erases_producer | apply erases_status | apply erases_when
    | (apply erases_bind; [|intros ?]) | exact (erases_event _ (EBegin _)) | exact (erases_event _ (ECommit _))
    | exact (erases_event _ (ESchema _ _ _)) | exact (erases_event _ (EInsert _ _ _))
    | exact (erases_event _ (EUpdate _ _ _ _)) | exact (erases_event _ (EDelete _ _ _))
    | match goal with |- erases (match ?x with _ => _ end) _ => destruct x end ].

Lemma erases_parse_frame w buf : erases (parse_frame L (recording cbs) w buf) (parse_frame L cbs w buf).
Proof.
  assert (Hm : forall v i, erases (process_message L (recording cbs) v i w) (process_message L cbs v i w)).
  { intros v i. unfold process_message, process_frame_begin_txn, process_frame_commit_txn,
      process_frame_table_schema, process_frame_insert, process_frame_update, process_frame_delete.
    erase_with ltac:(fail). }
  unfold parse_frame, process_frame. do 3 (apply erases_bind; [apply erases_reader|intros ?]).
  generalize 0%nat. induction a1 as [|n IH]; intros i; [apply erases_ret|]. simpl.
  apply erases_bind; [apply Hm|intros _; apply IH].
Qed.

Lemma erases_poll :
  erases (db_client_poll (HX := Has_cl) le clock L (recording cbs)) (db_client_poll (HX := Has_clI) le clock L cbs).
Proof.
  assert (Ht : forall res n i, erases (snapshot_tuples L (recording cbs) res i n) (snapshot_tuples L cbs res i n)).
  { intros res n. induction n as [|n IH]; intros i; [apply erases_ret|]. simpl.
    apply erases_bind; [|intros _; apply IH]. unfold snapshot_tuple.
    erase_with ltac:(apply erases_parse_frame). }
  unfold db_client_poll, snapshot_poll, replication_stream_poll, parse_message, parse_xlogdata_message.
  erase_with ltac:(first [apply Ht|apply erases_parse_frame]).
Qed.

Lemma erases_start parse :
  erases (start_rec parse) (main_start (HX := HI) parse cbs).
Proof. unfold main_start, ensure, db_client_start, snapshot_start. erase_with ltac:(fail). Qed.

Lemma erases_steps n : erases (steps_rec n) (main_steps (HX := HI) le clock L cbs n).
Proof.
  induction n as [|n IH]; [apply erases_ret|]. simpl. unfold going_on, main_step, ensure.
  erase_with ltac:(first [apply erases_poll|exact IH]).
Qed.

(** ** The program *)

(** Recording is transparent: starting and running any number of iterations with the
    recorded callbacks has the outcome, the final reader and the final context of the
    program itself; only the record is added. *)
Theorem recording_transparent parse n r c :
  exists log,
    (_ ← start_rec parse; steps_rec n) (r, (c, [])) =
    let '(o, (r', c')) :=
      (_ ← main_start (HX := HI) parse cbs; main_steps (HX := HI) le clock L cbs n) (r, c) in
    (o, (r', (c', log))).
Proof.
  destruct (erases_bind _ _ (fun _ => steps_rec n) _ (erases_start parse) (fun _ => erases_steps n) r c [])
    as [log H].
  exists log. exact H.
Qed.

(** C5: At-least-once delivery by the whole program. Take any command line that the program
    accepts, any behaviour of Postgres, the network, the schema registry and Kafka, and any
    number of iterations of the main loop. If the events that were received form a history
    that Postgres can produce, then every message that Kafka has not acknowledged belongs
    to a transaction that is still open or was committed after the program's confirmed
    position [fsync_lsn]; Postgres was never told a higher one, in any status update that was
    put on the connection since it was opened; and if a snapshot was being taken, the flag that makes an exit drop the slot
    is only cleared once the snapshot is committed and acknowledged completely. *)
Theorem program_nothing_lost w opts more r0 su parse n r1 c1 log1 r c log h :
  set_up w opts more = Ret (r0, su) ->
  start_rec parse (r0, (su_producer su, [])) = (Ret tt, (r1, (c1, log1))) ->
  steps_rec n (r1, (c1, log1)) = (Ret tt, (r, (c, log))) ->
  h_run (h_zero (taking_snapshot (client c1))) (inputs_of log) = Some h ->
  nothing_lost h c /\ told_at_most (fsync c) (repl (client c)) /\
  (taking_snapshot (client c1) = true -> taking_snapshot (client c) = false ->
   0 < commit_of h 0 /\ forall m, h_txns h !! m = Some 0%nat -> m ∈ k_reported (kafka c)).
Proof.
  intros Hset Hstart Hsteps Hh. apply set_up_fresh in Hset as (_ & Hfresh & _).
  pose proof (start_sound parse r0 _ _ _ Hfresh Hstart) as Hs1. simpl in Hs1.
  pose proof (sound_steps _ n (r1, (c1, log1)) _ _ Hs1 Hsteps h Hh) as Hinv. simpl in Hinv.
  split; [by apply invariant_nothing_lost|]. split; [by destruct Hinv as (t & [_ _ _ [] _ _])|]. intros Hsnap Hflag. apply invariant_snapshot; [done| |done].
  by rewrite (h_run_snapshot _ _ _ Hh).
Qed.

End callbacks.

(** ** A run *)

(** Postgres has the slot; it streams one transaction in two messages. *)
Definition wal_data (wal_pos : Z) (ms : list message) : copy_result :=
  CopyData ([119] ++ sendint64 true wal_pos ++ sendint64 true 0 ++ sendint64 true 0 ++ enc (frame_value ms)).
Definition demo_pg_sql : pg_conn :=
  PGconn [PGresult PGRES_TUPLES_OK [[Some "0/32"]] 1 0] [] [] [] [] [] [].
Definition demo_pg_repl : pg_conn :=
  PGconn [PGresult PGRES_TUPLES_OK [[Some "sys"; Some "1"; Some "0/0"; Some "db"]] 4 0;
          PGresult PGRES_COPY_BOTH [] 0 0] []
    [wal_data 60 [MBegin 700; MTableSchema 16384 None (schema_text SInt); MInsert 16384 None (enc (VInt 5))];
     wal_data 70 [MCommit 700 0]] [1; 0; 1; 0] [] [] [].
(** The registry gives id 7. Kafka takes the message and acknowledges it in the third poll. *)
Definition run_world : world :=
  World [HttpResponse 0 200 [""]; HttpResponse 0 200 [""]] [(demo_pg_sql, true); (demo_pg_repl, true)] [(0, 0)]
    ([], [PollResult [] None; PollResult [] None; PollResult [(0%nat, 0)] None])
    [] true (fun _ => 1) (fun _ _ => true) (fun _ _ => true).
Definition any_dumps (_ : list Z) : option string := Some "".
Definition id_seven (_ : string) : option json := Some (JObject [("id", JInteger 7)]).
Definition run_opts : list getopt := [Getopt (chr "d") "postgres://db"].

Abbreviation run_cbs := (recording (producer_callbacks true demo_clock ref_lib any_dumps id_seven)).
Definition run_set_up : frame_reader * startup :=
  match set_up run_world run_opts false with
  | Ret x => x
  | _ => (sample_reader, initial_startup run_world)
  end.
Definition run_started : outcome unit * (frame_reader * recorded_state) :=
  main_start (HX := Has_fst producer_context record) sample_parse run_cbs
    (fst run_set_up, (su_producer (snd run_set_up), [])).
Definition run_after (n : nat) : outcome unit * (frame_reader * recorded_state) :=
  main_steps (HX := Has_fst producer_context record) true demo_clock ref_lib run_cbs n (snd run_started).

Lemma run_set_up_ok : set_up run_world run_opts false = Ret (fst run_set_up, snd run_set_up).
Proof. vm_compute. reflexivity. Qed.

Definition started_reader : frame_reader := fst (snd run_started).
Definition started_context : producer_context := fst (snd (snd run_started)).
Definition started_log : record := snd (snd (snd run_started)).
Definition after_reader (n : nat) : frame_reader := fst (snd (run_after n)).
Definition after_context (n : nat) : producer_context := fst (snd (snd (run_after n))).
Definition after_log (n : nat) : record := snd (snd (snd (run_after n))).
Definition after_history (n : nat) : history := default (h_zero false) (h_run (h_zero false) (inputs_of (after_log n))).

Lemma run_started_ok :
  main_start (HX := Has_fst producer_context record) sample_parse run_cbs
    (fst run_set_up, (su_producer (snd run_set_up), [])) =
  (Ret tt, (started_reader, (started_context, started_log))).
Proof. vm_compute. reflexivity. Qed.

Lemma run_after_ok :
  main_steps (HX := Has_fst producer_context record) true demo_clock ref_lib run_cbs 2
    (started_reader, (started_context, started_log)) =
  (Ret tt, (after_reader 2, (after_context 2, after_log 2))).
Proof. vm_compute. reflexivity. Qed.

Lemma run_history_ok :
  h_run (h_zero (taking_snapshot (client started_context))) (inputs_of (after_log 2)) = Some (after_history 2).
Proof. vm_compute. reflexivity. Qed.

(** After two iterations the message is in flight and the position has not moved. *)
Lemma program_nothing_lost_witness : nothing_lost (after_history 2) (after_context 2).
Proof.
  exact (proj1 (program_nothing_lost true demo_clock ref_lib any_dumps id_seven run_world run_opts false
    (fst run_set_up) (snd run_set_up) sample_parse 2 started_reader started_context started_log
    (after_reader 2) (after_context 2) (after_log 2) (after_history 2)
    run_set_up_ok run_started_ok run_after_ok run_history_ok)).
Defined.

Example run_in_flight :
  commit_of (after_history 2) 1 = 70 /\ fsync (after_context 2) = 0 /\
  length (k_produced (kafka (after_context 2))) = 1%nat /\ k_reported (kafka (after_context 2)) = [].
Proof. by vm_compute. Qed.

(** The third iteration gets the acknowledgement and moves the position to the commit. *)
Example run_acknowledged :
  fst (run_after 3) = Ret tt /\ fsync (after_context 3) = 70 /\ k_reported (kafka (after_context 3)) = [0%nat].
Proof. by vm_compute. Qed.
