(* ===== verification/Quiet.v ===== *)
(** * What the producer's callbacks leave alone, and what they hand to Kafka

    The callbacks work on the client only through keepalives and the reported position:
    what the servers have still to say, and the state of the polling, stay as they are.
    Every row event appends one message to what Kafka was handed. *)

From S2P Require Import Prelude Avro AvroBinary Protocol ProtocolClient NetBytes Libpq Replication.
From S2P Require Import Connect Registry TableMapper Json Producer ProducerSafety Delivery Main Program.
Open Scope Z_scope.

(** ** What the callbacks leave alone *)

(** What the servers have still to say, the state of the polling, the output format. *)
Record feed : Type := Feed {
  fd_copies : list copy_result;
  fd_r_status : Z;
  fd_start : Z;
  fd_sql : option pg_conn;
  fd_status : Z;
  fd_format : format_t;
}.
Definition stream_feed (s : replication_stream) : list copy_result * Z * Z :=
  (conn_copies (conn s), r_status s, start_lsn s).
Definition client_feed (fmt : format_t) (c : client_context) : feed :=
  Feed (conn_copies (conn (repl c))) (r_status (repl c)) (start_lsn (repl c)) (sql_conn c) (cl_status c) fmt.
Definition feed_of (c : producer_context) : feed := client_feed (output_format c) (client c).

(** The feed, the messages produced so far and the tables are [f], [l] and [t]. *)
Definition quiet (f : feed) (l : list kafka_msg) (t : table_mapper) (c : producer_context) : Prop :=
  feed_of c = f /\ k_produced (kafka c) = l /\ mapper c = t.
(** So they are when [m] returns; the end of the process, which releases the tables, is
    left out. *)
Definition stays {A} (m : MP A) : Prop := forall f l t, maintains (quiet f l t) m.

Lemma stays_bind {A B} (m : MP A) (f : A -> MP B) :
  stays m -> (forall a, stays (f a)) -> stays (m ≫= f).
Proof. intros Hm Hf fd l t. apply (comp_bind (P := fun A => @maintains _ A (quiet fd l t))); [apply Hm|]. intros a. apply Hf. Qed.
Lemma stays_ret {A} (a : A) : stays (mret a).
Proof. intros f l t. by apply preserves_maintains, preserves_ret. Qed.
Lemma stays_stop {A} (o : outcome A) : stays (stop o).
Proof. intros f l t. by apply preserves_maintains, preserves_stop. Qed.
Lemma stays_gets {A} (g : producer_context -> A) : stays (gets g).
Proof. intros f l t. by apply preserves_maintains, preserves_gets. Qed.
Lemma stays_modify g :
  (forall c, feed_of (g c) = feed_of c) -> (forall c, k_produced (kafka (g c)) = k_produced (kafka c)) ->
  (forall c, mapper (g c) = mapper c) -> stays (modify g).
Proof.
  intros Hf Hk Ht f l t. apply preserves_maintains, preserves_modify. intros c (Hc & Hl & Hm). split_and!; by rewrite ?Hf, ?Hk, ?Ht.
Qed.
Lemma stays_when b (m : MP unit) : stays m -> stays (when b m).
Proof. intros Hm. destruct b; [done|apply stays_ret]. Qed.
Lemma stays_status (m : MP unit) : stays m -> stays (status m).
Proof. intros Hm f l t. apply (comp_status (P := fun A => @maintains _ A (quiet f l t))), Hm. Qed.

Lemma quiet_on_repl {A} (m : M replication_stream A) f l t :
  (forall v, preserves (fun s => stream_feed s = v) m) -> preserves (quiet f l t) (on_repl m).
Proof.
  intros Hm c (Hf & Hl & Ht). specialize (Hm _ (repl (client c)) eq_refl). unfold on_repl, zoom. simpl.
  destruct (m (repl (client c))) as [o s]. simpl in *. split; [|done]. rewrite <- Hf.
  unfold feed_of, client_feed, stream_feed in *. simpl. by injection Hm as -> -> ->.
Qed.

Lemma stays_on_repl {A} (m : M replication_stream A) :
  (forall v, preserves (fun s => stream_feed s = v) m) -> stays (on_repl m).
Proof. intros Hm f l t. by apply preserves_maintains, quiet_on_repl. Qed.

(** Work on the connection that reads no stream data. *)
Lemma stream_conn {A} v (m : M pg_conn A) :
  (forall l, preserves (fun c => conn_copies c = l) m) -> preserves (fun s => stream_feed s = v) (zoom m).
Proof.
  intros Hm s Hs. specialize (Hm _ (conn s) eq_refl). unfold zoom. simpl. destruct (m (conn s)) as [o c].
  simpl in *. rewrite <- Hs. unfold stream_feed. simpl. by rewrite Hm.
Qed.
Lemma copies_exec q l : preserves (fun c => conn_copies c = l) (PQexec q).
Proof. intros c Hc. unfold PQexec, exec_command. by destruct (conn_replies c). Qed.
Lemma copies_flush l : preserves (fun c => conn_copies c = l) PQflush.
Proof. intros c Hc. unfold PQflush, next_put. by destruct (conn_puts c). Qed.
Lemma copies_put buf l : preserves (fun c => conn_copies c = l) (PQputCopyData buf).
Proof.
  unfold PQputCopyData. apply preserves_bind; [apply copies_flush|intros r].
  apply preserves_bind; [apply preserves_when; intros _; by apply preserves_modify|intros _; apply preserves_ret].
Qed.

Ltac stay :=
  repeat first
    [ apply stays_ret | apply stays_stop | apply stays_gets | (apply stays_bind; [|intros ?])
    | apply stays_when | apply stays_status | (by apply stays_modify) | case_match ].
Ltac stream_stay :=
  repeat first
    [ apply preserves_ret | apply preserves_stop | apply preserves_gets | (apply preserves_bind; [|intros ?])
    | (apply preserves_when; intros _) | (apply preserves_modify; by intros ? <-)
    | (apply stream_conn; intros ?; first [apply copies_exec|apply copies_put|apply copies_flush]) | case_match ].

Section stays.
Context (le : bool) (clock : nat -> Z * Z) (L : avro_lib).
Context (json_dumps : list Z -> option string) (json_loadb : string -> option json).
Abbreviation cbs := (producer_callbacks le clock L json_dumps json_loadb).

Lemma stream_stay_keepalive v :
  preserves (fun s => stream_feed s = v) (replication_stream_keepalive le clock).
Proof. unfold replication_stream_keepalive, current_time, send_checkpoint. stream_stay. Qed.

Lemma stays_exit {A} status : stays (exit_nicely (A := A) status).
Proof.
  intros f l t c _. pose proof (exit_nicely_no_return (A := A) status c) as H1.
  pose proof (no_error_exit (A := A) status c) as H2. destruct (exit_nicely status c) as [[] c']; try done.
  - by destruct (H1 a c').
  - by destruct (H2 e).
Qed.
Lemma stays_xact_at i : stays (xact_at i).
Proof. intros f l t c Hc. unfold xact_at. by destruct (xact_list c !! _). Qed.
Lemma stays_checkpoint : stays maybe_checkpoint.
Proof.
  unfold maybe_checkpoint. generalize (Z.to_nat MAX_IN_FLIGHT_TRANSACTIONS). intros fuel.
  induction fuel as [|fuel IH]; simpl; [apply stays_stop|].
  apply stays_bind; [|intros [|]; [done|apply stays_ret]]. unfold checkpoint_step.
  apply stays_bind; [apply stays_gets|intros tail]. apply stays_bind; [apply stays_xact_at|intros x].
  destruct (_ && _); stay.
Qed.

Lemma stays_poll : stays rd_kafka_poll.
Proof.
  assert (Hd : forall l, stays (deliver_all l)).
  { induction l as [|[m err] l IH]; simpl; [apply stays_ret|]. apply stays_bind; [|done].
    unfold deliver, on_deliver_msg. apply stays_bind; [apply stays_gets|intros k].
    destruct (k_produced k !! m); [|apply stays_ret]. apply stays_when, stays_bind; [by apply stays_modify|intros _].
    destruct (negb _); [apply stays_exit|]. apply stays_bind; [by apply stays_modify|intros _; apply stays_checkpoint]. }
  intros f l t c Hc. unfold rd_kafka_poll. rewrite (bind_Ret (gets kafka) _ c (kafka c) c) by done.
  destruct (k_polls (kafka c)) as [|r rest]; [exact Hc|].
  assert (Hk : stays (_ ← deliver_all (reports r);
    modify (fun c => set_signal (default (received_shutdown_signal c) (poll_signal r)) c))).
  { apply stays_bind; [apply Hd|intros _]. stay. }
  rewrite (bind_Ret (modify _) _ c tt _ eq_refl). by apply Hk.
Qed.

Lemma stays_backpressure : stays (backpressure le clock).
Proof.
  unfold backpressure. apply stays_bind; [apply stays_poll|intros _]. apply stays_bind; [apply stays_gets|intros sig].
  destruct (negb _); [apply stays_exit|].
  apply stays_bind; [apply stays_status, stays_on_repl, stream_stay_keepalive|intros err].
  destruct (negb _); [apply stays_exit|apply stays_ret].
Qed.

Lemma stays_wait fuel : stays (wait_not_full le clock fuel).
Proof.
  induction fuel as [|fuel IH]; simpl; (apply stays_bind; [apply stays_gets|intros full]);
    destruct (negb full); try apply stays_ret; [apply stays_stop|].
  apply stays_bind; [apply stays_backpressure|done].
Qed.

(** Transactions concern neither tables nor messages. *)
Lemma stays_begin w x : stays (begin_txn le clock w x).
Proof.
  unfold begin_txn. destruct (x =? 0).
  - apply stays_bind; [apply stays_gets|intros c1]. destruct (_ || _); [apply stays_exit|apply stays_ret].
  - apply stays_bind; [apply stays_gets|intros polls]. apply stays_bind; [apply stays_wait|intros _]. stay.
Qed.
Lemma stays_commit w x : stays (commit_txn w x).
Proof.
  unfold commit_txn. apply stays_bind; [apply stays_gets|intros head].
  apply stays_bind; [apply stays_xact_at|intros xact]. destruct (negb _); [apply stays_exit|].
  apply stays_bind; [by apply stays_modify|intros _; apply stays_checkpoint].
Qed.

(** ** One message for a row *)

(** The row of an event, as it goes into a message: relation, key and value. *)
Definition event_row (e : event) : option (Z * option (list Z) * option (list Z)) :=
  match e with
  | EInsert relid k r | EUpdate relid k _ r => Some (relid, fst <$> k, Some (fst r))
  | EDelete relid (Some k) _ => Some (relid, Some (fst k), None)
  | _ => None
  end.

(** The schemas that were announced last for a relation. *)
Definition schema_of (relid : Z) (we : Z * event) : option (option schema_arg * schema_arg) :=
  match snd we with
  | ESchema r k s => if r =? relid then Some (k, s) else None
  | _ => None
  end.
Definition announced (log : record) (relid : Z) : option (option schema_arg * schema_arg) :=
  list.last (omap (schema_of relid) log).

(** An event that is neither a schema nor a row. *)
Lemma notify_stays w e c c' :
  (forall relid, schema_of relid (w, e) = None) -> event_row e = None -> notify cbs w e c = (Ret tt, c') ->
  feed_of c' = feed_of c /\ k_produced (kafka c') = k_produced (kafka c) /\ mapper c' = mapper c.
Proof.
  intros Hno Hrow Hrun. assert (Hs : stays (notify cbs w e)).
  { destruct e as [x|x|relid k r| | |relid [k|] o]; try done; [apply stays_begin|apply stays_commit| |apply stays_ret].
    specialize (Hno relid). unfold schema_of in Hno. simpl in Hno. by rewrite Z.eqb_refl in Hno. }
  pose proof (Hs (feed_of c) (k_produced (kafka c)) (mapper c) c ltac:(done)) as H. by rewrite Hrun in H.
Qed.

Context (pre : option string) (plain : bool).

(** The metadata of a table for which the schemas [a] were announced: its name, the topic
    of that name, with the prefix; and, when there is no registry ([plain]), the schemas. *)
Definition describes (a : option schema_arg * schema_arg) (topic : string) (t : table_metadata) : Prop :=
  t_name t = Some (avro_schema_name (snd (snd a))) /\ t_topic t = TopicOpen topic /\
  topic_name_for pre (avro_schema_name (snd (snd a))) = Ret topic /\
  (plain = true -> parsed L (fst <$> fst a) (t_key_schema t) /\ parsed L (Some (fst (snd a))) (t_row_schema t)).

(** The messages that an event stands for, after the events [past]: none, or one to the
    topic of the row's table as it was announced, with the key and the value in the output
    format. *)
Definition event_messages (fmt : format_t) (past : record) (we : Z * event) (ms : list kafka_msg) : Prop :=
  match event_row (snd we) with
  | None => ms = []
  | Some (relid, key_bin, val_bin) =>
      exists a table topic key val xact,
        announced past relid = Some a /\ t_relid table = relid /\ describes a topic table /\
        encode_msg le L fmt table key_bin val_bin = Ret (key, val) /\
        ms = [KafkaMsg topic key val (MsgEnvelope (fst we) relid xact)]
  end.

Inductive messages_of (fmt : format_t) : record -> record -> list kafka_msg -> Prop :=
| messages_nil past : messages_of fmt past [] []
| messages_cons past we log ms msgs :
    event_messages fmt past we ms -> messages_of fmt (past ++ [we]) log msgs ->
    messages_of fmt past (we :: log) (ms ++ msgs).

Lemma messages_app fmt past l1 m1 l2 m2 :
  messages_of fmt past l1 m1 -> messages_of fmt (past ++ l1) l2 m2 -> messages_of fmt past (l1 ++ l2) (m1 ++ m2).
Proof.
  induction 1 as [past|past we log ms msgs Hwe _ IH]; intros H2; simpl; [by rewrite app_nil_r in H2|].
  rewrite <- (assoc_L (++)). constructor; [done|]. apply IH. by rewrite <- (assoc_L (++)).
Qed.

(** The tables after the events [log], with room for more. *)
Record tables_ok (room : nat) (log : record) (m : table_mapper) : Prop := {
  tables_mapper : mapper_ok m;
  tables_room : Z.of_nat (length (m_tables m)) + Z.of_nat room < 2 ^ 29;
  tables_prefix : m_topic_prefix m = pre;
  tables_plain : plain = true -> m_registry m = None;
  tables_announced relid t : entry_of m relid = Some t ->
    exists a topic, announced log relid = Some a /\ describes a topic t;
}.

Lemma announced_snoc log w e relid :
  announced (log ++ [(w, e)]) relid = match schema_of relid (w, e) with Some a => Some a | None => announced log relid end.
Proof.
  unfold announced. rewrite omap_app. simpl. destruct (schema_of relid (w, e)); simpl.
  - by rewrite list.last_snoc.
  - by rewrite app_nil_r.
Qed.

Lemma tables_fewer room room' log m : (room' <= room)%nat -> tables_ok room log m -> tables_ok room' log m.
Proof. intros Hle [H1 H2 H3 H4 H5]. split; [done|lia|done|done|done]. Qed.

Lemma tables_same room log w e m :
  (forall relid, schema_of relid (w, e) = None) -> tables_ok room log m -> tables_ok room (log ++ [(w, e)]) m.
Proof.
  intros He [H1 H2 H3 H4 H5]. split; [done..|]. intros relid t Ht. rewrite announced_snoc, He. by apply H5.
Qed.

Lemma tables_other room log w e m :
  (forall relid, schema_of relid (w, e) = None) -> tables_ok (S room) log m -> tables_ok room (log ++ [(w, e)]) m.
Proof.
  intros He Ht. apply tables_same; [done|]. by eapply tables_fewer; [|exact Ht]; lia.
Qed.

Lemma produce_quiet f l t msg :
  triple (quiet f l t) (rd_kafka_produce msg)
    (fun err c => quiet f (if decide (err = 0) then l ++ [msg] else l) t c).
Proof.
  intros c err c' (Hf & Hl & Ht) Hrun. unfold rd_kafka_produce, gets, mbind, M_bind, modify in Hrun.
  destruct (att_accepted _); injection Hrun as <- <-;
    (split; [done|]); (split; [|done]); simpl; by rewrite Hl.
Qed.

Lemma produce_loop_quiet fuel f l t msg :
  triple (quiet f l t) (produce_loop le clock fuel msg) (fun _ => quiet f (l ++ [msg]) t).
Proof.
  induction fuel as [|fuel IH]; [by apply triple_stop|]. simpl.
  apply triple_bind with (J := fun b : bool => quiet f (if b then l ++ [msg] else l) t).
  - unfold try_produce. eapply triple_bind; [apply produce_quiet|intros err].
    eapply triple_bind; [apply triple_preserves, preserves_gets|intros e]. destruct (e =? ENOBUFS).
    + eapply triple_bind; [apply triple_maintains, stays_backpressure|intros []].
      intros c b c' Hc [= <- <-]. revert Hc. case_decide as Hd; destruct (Z.eqb_spec err 0); by intros ?.
    + destruct (Z.eqb_spec err 0) as [->|Herr]; simpl; [|apply triple_exit].
      by intros c b c' Hc [= <- <-].
  - intros [|]; [by intros c [] c' Hc [= <-]|apply IH].
Qed.

Lemma send_quiet room log w relid key_bin val_bin c c' :
  tables_ok room log (mapper c) ->
  send_kafka_msg le clock L w relid key_bin val_bin c = (Ret tt, c') ->
  feed_of c' = feed_of c /\ mapper c' = mapper c /\
  exists a table topic key val xact,
    announced log relid = Some a /\ t_relid table = relid /\ describes a topic table /\
    encode_msg le L (output_format c) table key_bin val_bin = Ret (key, val) /\
    k_produced (kafka c') = k_produced (kafka c) ++ [KafkaMsg topic key val (MsgEnvelope w relid xact)].
Proof.
  intros Htabs Hrun. unfold send_kafka_msg in Hrun.
  apply bind_Ret_inv in Hrun as (head & c1 & [= <- <-] & Hrun).
  apply bind_Ret_inv in Hrun as (x & c1 & Hat & Hrun). unfold xact_at in Hat.
  destruct (xact_list c !! _) as [x'|]; simplify_eq.
  apply bind_Ret_inv in Hrun as ([] & c2 & [= <-] & Hrun).
  apply bind_Ret_inv in Hrun as (c3 & c4 & [= <- <-] & Hrun). cbn [mapper output_format set_xact_list kafka] in Hrun.
  destruct (table_mapper_lookup relid (mapper c1) ≫= _) as [table|] eqn:Htab;
    [|by apply exit_nicely_no_return in Hrun].
  destruct (encode_msg le L (output_format c1) table key_bin val_bin) as [[key val]| | | | |] eqn:Henc;
    try done; try (by apply exit_nicely_no_return in Hrun).
  destruct (t_topic table) as [|topic|] eqn:Htop; try done.
  eapply (produce_loop_quiet _ (feed_of c1) (k_produced (kafka c1)) (mapper c1)) in Hrun as (Hf & Hp & Hm); [|done].
  destruct (tables_announced _ _ _ Htabs relid table Htab) as (a & topic' & Ha & Hd).
  assert (topic' = topic) as -> by (destruct Hd as (_ & Hd & _); congruence).
  assert (Hr : t_relid table = relid).
  { apply entry_of_Some in Htab as [? _]; [done|]. apply (tables_mapper _ _ _ Htabs). }
  split; [done|]. split; [done|]. by exists a, table, topic, key, val, (xact_head c1).
Qed.

(** The text of a schema that cannot be parsed is an error. *)
Context (Hparse : forall json n, avro_schema_from_json_length L json n <> Err 0).

Lemma schema_quiet room log w relid key row c c' :
  tables_ok (S room) log (mapper c) ->
  table_schema_cb L json_dumps json_loadb w relid key row c = (Ret tt, c') ->
  feed_of c' = feed_of c /\ k_produced (kafka c') = k_produced (kafka c) /\
  tables_ok room (log ++ [(w, ESchema relid key row)]) (mapper c').
Proof.
  intros [H1 H2 H3 H4 H5] Hrun. unfold table_schema_cb in Hrun. apply bind_Ret_inv in Hrun as (got & c1 & Hup & Hrun).
  unfold zoom in Hup. simpl in Hup. destruct (table_mapper_update _ _ _ _ _ _ _ (mapper c)) as [o m'] eqn:E.
  injection Hup as -> <-. destruct got as [i|]; [|by apply exit_nicely_no_return in Hrun]. injection Hrun as <-.
  apply mapper_update_spec in E as (Hok & Hpre & Hlen & Hother & t & n & _ & Ht & Hname & Htop & Hfor & Hplain);
    [|done|done|lia].
  split; [done|]. split; [done|]. simpl. split; [done|lia|congruence|by intros Hp; apply Hplain, H4|].
  intros r t' Ht'. rewrite announced_snoc. unfold schema_of. simpl.
  destruct (Z.eqb_spec relid r) as [<-|Hne].
  - assert (t' = t) as -> by congruence. exists (key, row), n. split; [done|]. split; [done|]. split; [done|].
    split; [by rewrite <- H3|]. intros Hp. destruct (Hplain (H4 Hp)) as (_ & ? & ?). done.
  - rewrite Hother in Ht' by done. by apply H5.
Qed.

Lemma notify_quiet room log w e c c' :
  tables_ok (S room) log (mapper c) -> notify cbs w e c = (Ret tt, c') ->
  feed_of c' = feed_of c /\ tables_ok room (log ++ [(w, e)]) (mapper c') /\
  exists ms, event_messages (output_format c) log (w, e) ms /\ k_produced (kafka c') = k_produced (kafka c) ++ ms.
Proof.
  intros Htabs.
  assert (Hnone : forall m : MP unit, stays m -> (forall relid, schema_of relid (w, e) = None) -> m c = (Ret tt, c') ->
    feed_of c' = feed_of c /\ tables_ok room (log ++ [(w, e)]) (mapper c') /\
    exists ms, ms = [] /\ k_produced (kafka c') = k_produced (kafka c) ++ ms).
  { intros m Hm He Hrun. destruct (maintains_Ret _ _ _ _ _ (Hm (feed_of c) (k_produced (kafka c)) (mapper c)) ltac:(done) Hrun) as (Hf & Hp & Ht).
    split; [done|]. rewrite Ht. split; [by apply tables_other|].
    exists []. by rewrite app_nil_r. }
  assert (Hsend : forall relid key_bin val_bin, (forall relid, schema_of relid (w, e) = None) ->
    send_kafka_msg le clock L w relid key_bin val_bin c = (Ret tt, c') ->
    feed_of c' = feed_of c /\ tables_ok room (log ++ [(w, e)]) (mapper c') /\
    exists ms, (exists a table topic key val xact,
        announced log relid = Some a /\ t_relid table = relid /\ describes a topic table /\
        encode_msg le L (output_format c) table key_bin val_bin = Ret (key, val) /\
        ms = [KafkaMsg topic key val (MsgEnvelope w relid xact)]) /\
      k_produced (kafka c') = k_produced (kafka c) ++ ms).
  { intros relid kb vb He Hrun.
    apply (send_quiet _ _ _ _ _ _ _ _ Htabs) in Hrun as (Hf & Hm & a & t & topic & key & val & x & Ha & Hr & Hd & Henc & Hp).
    split; [done|]. rewrite Hm. split; [by apply tables_other|]. eexists. split; [by exists a, t, topic, key, val, x|done]. }
  destruct e as [x|x|relid k r|relid k r|relid k o r|relid k o]; unfold event_messages; simpl.
  - apply Hnone; [apply stays_begin|done].
  - apply Hnone; [apply stays_commit|done].
  - intros Hrun. apply (schema_quiet room log) in Hrun as (Hf & Hp & Ht); [|done].
    split; [done|]. split; [done|]. exists []. by rewrite app_nil_r.
  - by apply Hsend.
  - by apply Hsend.
  - destruct k as [k|]; [by apply Hsend|apply Hnone; [apply stays_ret|done]].
Qed.

(** All events of a frame, recorded. *)
Lemma notify_all_recorded w es : forall room c log x',
  tables_ok (length es + room) log (mapper c) -> notify_all (recording cbs) w es (c, log) = (Ret tt, x') ->
  let new := (fun e => (w, e)) <$> es in
  snd x' = log ++ new /\ feed_of (fst x') = feed_of c /\ tables_ok room (log ++ new) (mapper (fst x')) /\
  exists msgs, messages_of (output_format c) log new msgs /\
    k_produced (kafka (fst x')) = k_produced (kafka c) ++ msgs.
Proof.
  induction es as [|e es IH]; intros room c log x' Ht Hrun.
  - injection Hrun as <-. simpl in *. rewrite !app_nil_r. split; [done|]. split; [done|]. split; [done|]. exists [].
    split; [constructor|]. by rewrite app_nil_r.
  - cbn [notify_all] in Hrun. apply bind_Ret_inv in Hrun as ([] & x1 & H1 & Hrun).
    rewrite notify_recording in H1. unfold recorded in H1. simpl in H1.
    destruct (notify cbs w e c) as [o c1] eqn:E. injection H1 as -> <-.
    destruct (notify_quiet (length es + room) log w e c c1 Ht E) as (Hf & Ht1 & ms & Hms & Hp).
    destruct (IH room c1 (log ++ [(w, e)]) x' Ht1 Hrun) as (Hl & Hf' & Ht' & msgs & Hmsgs & Hp').
    assert (Hfmt : output_format c1 = output_format c) by (by injection Hf). rewrite Hfmt in Hmsgs.
    rewrite <- !(assoc_L (++)) in *. split; [done|]. split; [congruence|]. split; [done|].
    exists (ms ++ msgs). split; [by constructor|]. by rewrite Hp', Hp, <- (assoc_L (++)).
Qed.

(** The recorded callbacks return or end the process. *)
Lemma notify_all_no_error w es : no_error (notify_all (recording cbs) w es).
Proof.
  induction es as [|e es IH]; [done|]. simpl. apply no_error_bind; [|done]. rewrite notify_recording.
  intros [c log] err. unfold recorded. simpl. pose proof (no_error_notify le clock L json_dumps json_loadb w e c err) as H.
  by destruct (notify cbs w e c).
Qed.

End stays.
