(* ===== verification/Liveness.v ===== *)
(** * The callbacks return

    When Kafka takes and, in time, acknowledges what it is given, and the server accepts the
    status updates, every callback and every poll returns, whatever the history so far: the
    loops that wait end, the buffer gets room, and when everything is acknowledged between
    transactions everything is checkpointed. *)

From S2P Require Import Prelude Avro AvroBinary Protocol ProtocolClient NetBytes Libpq Replication.
From S2P Require Import Connect Registry TableMapper Json Producer ProducerSafety Delivery Main Program.
From S2P Require Import Quiet.
Open Scope Z_scope.

(** ** Surroundings that work *)

(** Kafka takes a message, or its queue is full. *)
Definition willing (a : attempt) : Prop :=
  if att_accepted a then att_errno a <> ENOBUFS else att_errno a = ENOBUFS.

(** Kafka's service: how many polls an acknowledgement may be delayed, and for how many
    messages. *)
Record service : Type := Service { svc_delay : nat; svc_messages : nat }.

(** Polls that report no failure and acknowledge every message in time: each of the messages
    is reported by one of any [svc_delay] + 1 polls in a row. (A report of a message that was
    not produced yet, or was reported before, is ignored, so nothing is asked of polls
    before the message is produced, nor after it is acknowledged.) *)
Definition good_poll (p : poll_result) : Prop :=
  Forall (fun r => snd r = 0) (reports p) /\ poll_signal p = None.
Definition reported_in (m : nat) (k : nat) (polls : list poll_result) : Prop :=
  exists j p, (j < k)%nat /\ polls !! j = Some p /\ (m, 0) ∈ reports p.
Record prompt (n : service) (polls : list poll_result) : Prop := {
  prompt_good : Forall good_poll polls;
  prompt_acks m i : (m < svc_messages n)%nat -> (i + svc_delay n < length polls)%nat ->
    reported_in m (S (svc_delay n)) (drop i polls);
}.

Lemma prompt_tail n p polls : prompt n (p :: polls) -> prompt n polls.
Proof.
  intros [Hg Ha]. apply list.Forall_cons in Hg as [_ Hg]. split; [done|]. intros m i Hm Hi.
  apply (Ha m (S i)); simpl; [done|lia].
Qed.

(** The connection will take [n] status updates. *)
Fixpoint sendable (n : nat) (puts : list Z) : Prop :=
  match n with
  | O => True
  | S n => match puts with put :: flush :: puts => 0 < put /\ flush = 0 /\ sendable n puts | _ => False end
  end.

Lemma sendable_less n n' puts : (n' <= n)%nat -> sendable n puts -> sendable n' puts.
Proof.
  revert n' puts. induction n as [|n IH]; intros [|n'] puts Hle H; try done; [lia|].
  destruct puts as [|put [|flush puts]]; try done. destruct H as (? & ? & H). split; [done|]. split; [done|].
  apply IH; [lia|done].
Qed.

(** What the client's surroundings will do apart from the status updates: how waits end, and
    flags and answers on the two connections. *)
Record outlook : Type := Outlook {
  ol_selects : list (Z * Z);
  ol_flags : list bool;
  ol_replies : list pg_result;
  ol_sql : option (list bool * list pg_result);
}.
Definition outlook_of (c : client_context) : outlook :=
  Outlook (selects c) (conn_flags (conn (repl c))) (conn_replies (conn (repl c)))
    ((fun s => (conn_flags s, conn_replies s)) <$> sql_conn c).

(** For [u] more polls and [v] more status updates: [n] bounds the number of messages, [e]
    is the outlook. A full queue costs a poll and an update each time. *)
Record ready (n : service) (u v : nat) (e : outlook) (c : producer_context) : Prop := {
  ready_attempts : Forall willing (k_attempts (kafka c));
  ready_polls : prompt n (k_polls (kafka c));
  ready_many : (u + length (k_attempts (kafka c)) <= length (k_polls (kafka c)))%nat;
  ready_signal : received_shutdown_signal c = 0;
  ready_puts : sendable (v + length (k_attempts (kafka c))) (conn_puts (conn (repl (client c))));
  ready_outlook : outlook_of (client c) = e;
}.

Lemma ready_less n u u' v v' e c :
  (u' <= u)%nat -> (v' <= v)%nat -> ready n u v e c -> ready n u' v' e c.
Proof.
  intros Hu Hv []. split; try done; [lia|]. eapply sendable_less; [|done]. lia.
Qed.

Lemma ready_ext n u v e c c' :
  k_attempts (kafka c') = k_attempts (kafka c) -> k_polls (kafka c') = k_polls (kafka c) ->
  received_shutdown_signal c' = received_shutdown_signal c ->
  conn (repl (client c')) = conn (repl (client c)) -> selects (client c') = selects (client c) ->
  sql_conn (client c') = sql_conn (client c) -> ready n u v e c -> ready n u v e c'.
Proof.
  intros E1 E2 E3 E4 E5 E6 []. split; rewrite ?E1, ?E2, ?E3, ?E4; try done.
  unfold outlook_of in *. by rewrite E4, E5, E6.
Qed.

(** The transaction that is open has id [x]. *)
Definition head_xid (c : producer_context) : option Z := xid <$> xact_list c !! Z.to_nat (xact_head c).

(** The invariant; between transactions the checkpoint is as far as it can be. *)
Definition settled (h : history) (extra : nat) (c : producer_context) : Prop :=
  exists t, invariant_at h t extra c /\ (h_open h = false -> stopped h t c).

Record alive (h : history) (extra : nat) (x : Z) (n : service) (u v : nat)
  (e : outlook) (c : producer_context) : Prop := {
  alive_settled : settled h extra c;
  alive_xid : head_xid c = Some x;
  alive_ready : ready n u v e c;
}.

Lemma alive_less h extra x n u u' v v' e c :
  (u' <= u)%nat -> (v' <= v)%nat -> alive h extra x n u v e c -> alive h extra x n u' v' e c.
Proof. intros Hu Hv []. split; [done|done|by eapply ready_less]. Qed.

Definition all_acked (c : producer_context) : Prop :=
  forall m, (m < length (k_produced (kafka c)))%nat -> m ∈ k_reported (kafka c).

(** The next [k] polls will acknowledge what is not acknowledged yet. *)
Definition owing (k : nat) (kf : kafka_t) : Prop :=
  forall m, (m < length (k_produced kf))%nat -> m ∈ k_reported kf \/ reported_in m k (k_polls kf).

Lemma owing_none c : owing 0 (kafka c) -> all_acked c.
Proof. intros H m Hm. destruct (H m Hm) as [|(j & p & Hj & _)]; [done|lia]. Qed.

Lemma alive_owing h extra x n u v e c :
  (length (h_txns h) <= svc_messages n)%nat -> (S (svc_delay n) <= u)%nat -> alive h extra x n u v e c ->
  owing (S (svc_delay n)) (kafka c).
Proof.
  intros Hn Hu [(t & Hinv & _) _ [_ Hp Hm _ _ _]] m Hlt. right. apply (prompt_acks _ _ Hp m 0); [|simpl; lia].
  pose proof (del_length _ _ _ (inv_delivery _ _ _ _ Hinv)). lia.
Qed.

(** ** Polls *)

Lemma checkpoint_client x y z :
  preserves (fun c => conn (repl (client c)) = x /\ selects (client c) = y /\ sql_conn (client c) = z) maybe_checkpoint.
Proof.
  unfold maybe_checkpoint. generalize (Z.to_nat MAX_IN_FLIGHT_TRANSACTIONS). intros fuel.
  induction fuel as [|fuel IH]; simpl; [apply preserves_stop|].
  apply preserves_bind; [|intros [|]; [done|apply preserves_ret]]. unfold checkpoint_step.
  apply preserves_bind; [apply preserves_gets|intros tail].
  apply preserves_bind; [intros c Hc; unfold xact_at; by destruct (xact_list c !! _)|intros xt].
  destruct (_ && _); [|apply preserves_ret].
  apply preserves_bind; [apply preserves_gets|intros f].
  apply preserves_bind; [apply preserves_when; intros _; by apply preserves_modify|intros _].
  apply preserves_bind; [by intros c Hc|intros _].
  apply preserves_bind; [apply preserves_when; intros _; by intros c Hc|intros _].
  apply preserves_bind; [apply preserves_gets|intros hd].
  destruct (tail =? hd); [apply preserves_ret|].
  apply preserves_bind; [by apply preserves_modify|intros _; apply preserves_ret].
Qed.

(** The loop ends settled. *)
Lemma checkpoint_alive h t extra x n u v e c :
  invariant_at h t extra c -> head_xid c = Some x -> ready n u v e c ->
  exists c', maybe_checkpoint c = (Ret tt, c') /\ alive h extra x n u v e c' /\ same_kafka c c'.
Proof.
  intros Hinv Hx Hr. destruct (maybe_checkpoint_spec h t extra c Hinv) as (t' & c' & Hrun & Hinv' & _ & Hstop & Hsame & _).
  exists c'. split; [done|]. split; [|done]. pose proof Hsame as (Hk & _ & Hl & Hh & _ & Hs & He).
  pose proof (checkpoint_client (conn (repl (client c))) (selects (client c)) (sql_conn (client c)) c ltac:(done)) as (Hc & Hsel & Hsql).
  rewrite Hrun in Hc, Hsel, Hsql. simpl in *. split.
  - exists t'. by split.
  - unfold head_xid in *. by rewrite Hl, Hh.
  - eapply ready_ext; [..|exact Hr]; by rewrite ?Hk.
Qed.

(** What a poll leaves alone, and that it forgets no acknowledgement. *)
Definition polled (c c' : producer_context) : Prop :=
  k_produced (kafka c') = k_produced (kafka c) /\ k_attempts (kafka c') = k_attempts (kafka c) /\
  forall m, m ∈ k_reported (kafka c) -> m ∈ k_reported (kafka c').

Lemma polled_refl c : polled c c.
Proof. by split. Qed.
Lemma polled_trans c1 c2 c3 : polled c1 c2 -> polled c2 c3 -> polled c1 c3.
Proof. intros (?&?&?) (?&?&?). split; [congruence|]. split; [congruence|auto]. Qed.
#[local] Hint Resolve polled_refl : core.

Lemma deliver_alive h extra x n u v e m c :
  alive h extra x n u v e c ->
  exists c', deliver m 0 c = (Ret tt, c') /\ alive h extra x n u v e c' /\ polled c c' /\
    ((m < length (k_produced (kafka c)))%nat -> m ∈ k_reported (kafka c')) /\ k_polls (kafka c') = k_polls (kafka c).
Proof.
  intros Ha. pose proof Ha as [(t & Hinv & _) Hx Hr]. unfold deliver, mbind, M_bind, gets.
  destruct (k_produced (kafka c) !! m) as [msg|] eqn:Hmsg.
  2:{ exists c. split; [done|]. split; [done|]. split; [by split|]. apply lookup_ge_None in Hmsg. split; [lia|done]. }
  unfold in_flight. rewrite bool_decide_eq_true_2 by (by eapply lookup_lt_Some). simpl.
  destruct (decide (m ∈ k_reported (kafka c))) as [Hin|Hrep].
  { rewrite bool_decide_eq_true_2 by done. by exists c. }
  rewrite bool_decide_eq_false_2 by done. simpl. unfold modify, on_deliver_msg, update_xact. simpl.
  pose proof (acknowledge_invariant h t extra c m msg Hinv Hmsg Hrep) as Hack.
  destruct (checkpoint_alive h t extra x n u v e _ Hack) as (c' & Hrun & Ha' & Hsame).
  - unfold head_xid, acknowledge in *. simpl. apply fmap_Some in Hx as (y & Hy & ->).
    destruct (decide (Z.to_nat (env_xact (k_envelope msg)) = Z.to_nat (xact_head c))) as [E|E].
    + by rewrite E, list_lookup_alter_eq, Hy.
    + by rewrite list_lookup_alter_ne, Hy.
  - by eapply ready_ext; [..|exact Hr].
  - exists c'. split; [exact Hrun|]. split; [done|]. destruct Hsame as (Hk & _). unfold polled. rewrite Hk. simpl.
    split; [split; [done|split; [done|by right]]|split; [by left|done]].
Qed.

Lemma deliver_all_alive h extra x n u v e l : forall c,
  Forall (fun r => snd r = 0) l -> alive h extra x n u v e c ->
  exists c', deliver_all l c = (Ret tt, c') /\ alive h extra x n u v e c' /\ polled c c' /\
    (forall m, (m, 0) ∈ l -> (m < length (k_produced (kafka c)))%nat -> m ∈ k_reported (kafka c')) /\
    k_polls (kafka c') = k_polls (kafka c).
Proof.
  induction l as [|[m err] l IH]; intros c Hl Ha; simpl.
  - exists c. split; [done|]. split; [done|]. split; [by split|]. split; [by intros m ?%elem_of_nil|done].
  - apply list.Forall_cons in Hl as [Herr Hl]. simpl in Herr. subst err.
    destruct (deliver_alive h extra x n u v e m c Ha) as (c1 & H1 & Ha1 & Hpol1 & Hm & E1).
    destruct (IH c1 Hl Ha1) as (c2 & H2 & Ha2 & Hpol2 & Hall & E2). exists c2.
    split; [by rewrite (bind_Ret _ _ _ _ _ H1)|]. split; [done|]. split; [by eapply polled_trans|].
    destruct Hpol1 as (Hp1 & _), Hpol2 as (_ & _ & Hr2). split; [|congruence].
    intros m' [[= ->]|Hin]%elem_of_cons Hlt; [by apply Hr2, Hm|]. apply Hall; [done|]. by rewrite Hp1.
Qed.

(** A poll acknowledges what it was to acknowledge. *)
Lemma poll_alive h extra x n u v e c :
  alive h extra x n (S u) v e c ->
  exists c', rd_kafka_poll c = (Ret tt, c') /\ alive h extra x n u v e c' /\ polled c c' /\
    forall k, owing (S k) (kafka c) -> owing k (kafka c').
Proof.
  intros Ha. pose proof Ha as [(t & Hinv & Hst) Hx [R1 R2 R3 R4 R5 R6]].
  unfold rd_kafka_poll. rewrite (bind_Ret (gets kafka) _ c (kafka c) c) by done.
  destruct (k_polls (kafka c)) as [|p rest] eqn:Ep; [simpl in R3; lia|].
  pose proof (prompt_tail _ _ _ R2) as R2'. destruct R2 as [[(Hok & Hsig) _]%list.Forall_cons _].
  set (c0 := set_kafka (Kafka (k_attempts (kafka c)) rest (k_produced (kafka c)) (k_reported (kafka c))) c).
  rewrite (bind_Ret (modify _) _ c tt c0) by done.
  assert (Ha0 : alive h extra x n u v e c0).
  { split; [exists t; split; [by apply (invariant_ext h t extra c)|done]|done|].
    split; try done. simpl in *. lia. }
  destruct (deliver_all_alive h extra x n u v e (reports p) c0 Hok Ha0) as (c1 & H1 & Ha1 & (Hp1 & Hq1 & Hr1) & Hall & Epolls).
  exists c1. rewrite (bind_Ret _ _ _ _ _ H1). unfold modify. rewrite Hsig. simpl.
  split; [by destruct c1|]. split; [done|]. split; [by split|].
  intros k Hk m Hm. rewrite Hp1 in Hm. simpl in Hm. destruct (Hk m Hm) as [Hin|(j & q & Hj & Hq & Hin)]; [left; by apply Hr1|].
  rewrite Ep in Hq. destruct j as [|j]; simpl in Hq; [injection Hq as <-; left; by apply Hall|].
  right. exists j, q. split; [lia|]. by rewrite Epolls.
Qed.

(** ** Status updates *)

(** Sending changes nothing else. *)
Definition same_stream (s s' : replication_stream) : Prop :=
  fsync_lsn s' = fsync_lsn s /\ conn_flags (conn s') = conn_flags (conn s) /\
  conn_replies (conn s') = conn_replies (conn s) /\
  (0 <= fsync_lsn s -> told_at_most (fsync_lsn s) s -> told_at_most (fsync_lsn s) s').

Section live.
Context (le : bool) (clock : nat -> Z * Z) (L : avro_lib).
Context (json_dumps : list Z -> option string) (json_loadb : string -> option json).
Abbreviation cbs := (producer_callbacks le clock L json_dumps json_loadb).

Lemma update_sent now v s :
  sendable (S v) (conn_puts (conn s)) ->
  exists s', send_checkpoint le now s = (Ret tt, s') /\ sendable v (conn_puts (conn s')) /\ same_stream s s'.
Proof.
  simpl. destruct (conn_puts (conn s)) as [|put [|flush puts]] eqn:Ep; try done. intros (Hput & -> & Hv).
  unfold send_checkpoint, PQputCopyData, PQflush, next_put, when, gets, zoom, mbind, M_bind. simpl. rewrite Ep.
  rewrite (proj2 (Z.ltb_lt 0 put)) by done. simpl. destruct (Z.leb_spec put 0); [lia|]. simpl.
  eexists. split; [reflexivity|]. split; [done|]. split_and!; [done..|]. intros Hn Ht.
  refine (proj2 (steady_holds le (fsync_lsn s) Hn s _ _ (conj eq_refl Ht))). do 3 (split; [done|]). eexists. split; [reflexivity|].
  intros buf [= ->]%list_elem_of_singleton. by exists now.
Qed.

Lemma current_time_run s : exists now, current_time clock s = (Ret now, tick s).
Proof. unfold current_time, mbind, M_bind, gets, modify. destruct (clock (ticks s)). by eexists. Qed.

Lemma keepalive_sent v s :
  sendable (S v) (conn_puts (conn s)) ->
  exists s', replication_stream_keepalive le clock s = (Ret tt, s') /\ sendable v (conn_puts (conn s')) /\
    same_stream s s'.
Proof.
  intros Hs. pose proof (sendable_less (S v) v _ ltac:(lia) Hs) as Hv.
  unfold replication_stream_keepalive. rewrite (bind_Ret (gets recvd_lsn) _ s (recvd_lsn s) s) by done.
  destruct (negb _); [|by exists s]. cbn [when]. destruct (current_time_run s) as [now Hnow]. rewrite (bind_Ret _ _ _ _ _ Hnow).
  rewrite (bind_Ret (gets last_checkpoint) _ (tick s) (last_checkpoint s) (tick s)) by done.
  destruct (_ <? _); cbn [when].
  - destruct (update_sent now v (tick s) Hs)
      as (s' & Hrun & Hp & Hsame). exists s'. by split.
  - exists (tick s). by split.
Qed.

Lemma load32_total (l : list Z) : length l = 4%nat -> exists v, load32 le l = Some v.
Proof. destruct l as [|? [|? [|? [|? []]]]]; intros H; try discriminate H. by eexists. Qed.
Lemma recvint64_total (l : list Z) : (8 <= length l)%nat -> exists v, recvint64 le l = Some v.
Proof.
  intros Hl. unfold recvint64. destruct (load32_total (take 4 l)) as [h ->]; [rewrite length_take; lia|].
  destruct (load32_total (take 4 (drop 4 l))) as [l32 ->]; [rewrite length_take, length_drop; lia|]. by eexists.
Qed.

(** A complete keepalive message. *)
Lemma message_sent v c buf s :
  (17 <= length buf)%nat -> sendable (S v) (conn_puts (conn s)) ->
  exists s', parse_keepalive_message le clock (c :: buf) s = (Ret tt, s') /\ sendable v (conn_puts (conn s')) /\
    same_stream s s'.
Proof.
  intros Hlen Hs. unfold parse_keepalive_message.
  destruct (Z.ltb_spec (Z.of_nat (length (c :: buf))) (1 + 8 + 8 + 1)) as [H|_]; [simpl in H; lia|].
  rewrite skipn_cons, drop_0. destruct (recvint64_total buf) as [wal ->]; [lia|].
  destruct (lookup_lt_is_Some_2 (c :: buf) 17) as [reply ->]; [simpl; lia|].
  set (s1 := set_recvd_lsn (Z.max (u64 wal) (recvd_lsn s)) s).
  rewrite (bind_Ret (modify _) _ s tt s1) by done.
  pose proof (sendable_less (S v) v _ ltac:(lia) Hs) as Hv. unfold when. destruct (negb _); [|by exists s1].
  destruct (current_time_run s1) as [now Hnow]. rewrite (bind_Ret _ _ _ _ _ Hnow).
  destruct (update_sent now v (tick s1) Hs)
    as (s' & Hrun & Hp & Hsame). by exists s'.
Qed.

(** Work on the stream, for a producer that is alive. *)
Lemma on_repl_alive {A} (m : M replication_stream A) a h extra x n u v v' e c s' :
  m (repl (client c)) = (Ret a, s') -> same_stream (repl (client c)) s' ->
  sendable (v + length (k_attempts (kafka c))) (conn_puts (conn s')) ->
  alive h extra x n u v' e c ->
  on_repl m c = (Ret a, set_client (set_repl s' (client c)) c) /\
  alive h extra x n u v e (set_client (set_repl s' (client c)) c).
Proof.
  intros Hrun (Hf & Hfl & Hre & Hto) Hp [(t & Hinv & Hst) Hx [R1 R2 R3 R4 R5 R6]].
  split; [unfold on_repl, zoom; simpl; by rewrite Hrun|]. split.
  - exists t. split; [by apply (invariant_ext h t extra c)|].
    intros Ho. destruct (Hst Ho) as (y & Hy & H). exists y. split; [done|]. unfold fsync in *. simpl. by rewrite Hf.
  - done.
  - split; try done. unfold outlook_of in *. simpl. by rewrite Hfl, Hre.
Qed.

Lemma keepalive_alive h extra x n u v e c :
  alive h extra x n u (S v) e c ->
  exists c', on_repl (replication_stream_keepalive le clock) c = (Ret tt, c') /\ alive h extra x n u v e c' /\
    kafka c' = kafka c.
Proof.
  intros Ha. pose proof (ready_puts _ _ _ _ _ (alive_ready _ _ _ _ _ _ _ _ Ha)) as Hp.
  destruct (keepalive_sent (v + length (k_attempts (kafka c))) (repl (client c)) Hp) as (s' & Hrun & Hp' & Hsame).
  edestruct @on_repl_alive as [H1 H2]; [exact Hrun|exact Hsame|exact Hp'|exact Ha|].
  eexists. split; [exact H1|]. by split.
Qed.

(** Backpressure costs a poll and an update. *)
Lemma backpressure_alive h extra x n u v e c :
  alive h extra x n (S u) (S v) e c ->
  exists c', backpressure le clock c = (Ret tt, c') /\ alive h extra x n u v e c' /\ polled c c' /\
    forall k, owing (S k) (kafka c) -> owing k (kafka c').
Proof.
  intros Ha. destruct (poll_alive h extra x n u (S v) e c Ha) as (c1 & H1 & Ha1 & Hp1 & Howing).
  destruct (keepalive_alive h extra x n u v e c1 Ha1) as (c2 & H2 & Ha2 & Ek).
  exists c2. unfold backpressure. rewrite (bind_Ret _ _ _ _ _ H1).
  rewrite (bind_Ret (gets received_shutdown_signal) _ c1 0 c1)
    by (unfold gets; by rewrite (ready_signal _ _ _ _ _ (alive_ready _ _ _ _ _ _ _ _ Ha1))).
  simpl. rewrite (bind_Ret _ _ _ _ _ (status_Ret _ _ _ H2)). simpl. split; [done|]. split; [done|].
  unfold polled. by rewrite Ek.
Qed.

(** ** Transactions *)

(** Between transactions, with everything acknowledged, the window is the last transaction,
    and its position was reported. *)
Lemma window_closed h extra c t :
  invariant_at h t extra c -> stopped h t c -> h_open h = false -> all_acked c ->
  t = current h /\ fsync c = commit_of h (current h).
Proof.
  intros Hinv (y & Hy & Hstop) Ho Hack. pose proof Hinv as [Hwf Hr Hd _ He _].
  destruct (ring_slot _ _ _ _ Hr t) as (y' & Hy' & Hcom & Hpend & Hxid).
  { pose proof (ring_window _ _ _ _ Hr). lia. }
  assert (y' = y) as -> by congruence.
  destruct Hstop as [Hinc|[-> Hf]]; [exfalso|split; [done|by rewrite Hf, Hcom]].
  destruct extra as [|extra]; [|by rewrite (He ltac:(done)) in Ho].
  assert (Hu : unacked h (k_reported (kafka c)) t = 0%nat).
  { destruct (waiting h (k_reported (kafka c)) t) as [|m l] eqn:E; [by unfold unacked; rewrite E|].
    assert (Hm : m ∈ waiting h (k_reported (kafka c)) t) by (rewrite E; by left).
    apply elem_of_waiting in Hm as [Hm Hno]. destruct Hno. apply Hack.
    rewrite <- (del_length _ _ _ Hd). by eapply lookup_lt_Some. }
  assert (Hcl : closed h t).
  { pose proof (ring_window _ _ _ _ Hr). unfold closed. destruct (decide (t = current h)); [by right|left; lia]. }
  unfold complete in Hinc. rewrite Hpend, Hu in Hinc.
  replace (if decide (t = current h) then 0%nat else 0%nat) with 0%nat in Hinc by (by case_decide).
  simpl in Hinc. rewrite Hcom in Hinc. apply orb_false_iff in Hinc as [Hc0 Hx0].
  apply Z.ltb_ge in Hc0. apply Z.eqb_neq in Hx0.
  destruct (decide (t = 0%nat)) as [->|Hne]; [by destruct Hx0; apply Hxid|].
  pose proof (wf_committed _ Hwf t Hcl (or_introl Hne)). lia.
Qed.

Lemma not_full h t extra c : invariant_at h t extra c -> t = current h -> xact_list_full c = false.
Proof.
  intros Hinv ->. unfold xact_list_full. apply Z.eqb_neq.
  rewrite (ring_head _ _ _ _ (inv_ring _ _ _ _ Hinv)), (ring_tail _ _ _ _ (inv_ring _ _ _ _ Hinv)).
  change MAX_IN_FLIGHT_TRANSACTIONS with 1000. pose proof (slot_lt (current h)).
  intros E. destruct (decide (slot (current h) = 999%nat)) as [E9|Hlt].
  - rewrite E9 in E. vm_compute in E. done.
  - rewrite Z.mod_small in E by lia. lia.
Qed.

(** While the buffer is full, everything that was produced gets acknowledged. *)
Lemma wait_alive h x n u v e k : forall c fuel,
  (k <= fuel)%nat -> h_open h = false -> alive h 0 x n (k + u) (k + v) e c -> owing k (kafka c) ->
  exists c', wait_not_full le clock fuel c = (Ret tt, c') /\ alive h 0 x n u v e c' /\ xact_list_full c' = false.
Proof.
  induction k as [|k IH]; intros c fuel Hf Ho Ha Howe.
  - pose proof Ha as [(t & Hinv & Hst) _ _].
    destruct (window_closed h 0 c t Hinv (Hst Ho) Ho (owing_none c Howe)) as [Ht _].
    pose proof (not_full h t 0 c Hinv Ht) as Hfull. exists c.
    by destruct fuel; simpl; unfold mbind, M_bind, gets; rewrite Hfull.
  - destruct fuel as [|fuel]; [lia|]. cbn [wait_not_full].
    rewrite (bind_Ret (gets _) _ c (xact_list_full c) c) by done. destruct (xact_list_full c) eqn:Hfull; cbn [negb].
    + destruct (backpressure_alive h 0 x n (k + u) (k + v) e c Ha) as (c1 & H1 & Ha1 & _ & Howe1).
      destruct (IH c1 fuel ltac:(lia) Ho Ha1 (Howe1 k Howe)) as (c2 & H2 & Hc2). exists c2.
      by rewrite (bind_Ret _ _ _ _ _ H1).
    + exists c. split; [done|]. split; [|done]. eapply alive_less; [| |exact Ha]; lia.
Qed.

(** A transaction begins, if need be after waiting for as long as acknowledgements take. *)
Lemma begin_alive h x0 x n u v e w c :
  alive h 0 x0 n (S (svc_delay n) + u) (S (svc_delay n) + v) e c -> (length (h_txns h) <= svc_messages n)%nat ->
  h_open h = false -> x <> 0 ->
  exists c', begin_txn le clock w x c = (Ret tt, c') /\ alive (h_begin h) 0 x n u v e c'.
Proof.
  intros Ha0 Hn Ho Hx. unfold begin_txn. destruct (Z.eqb_spec x 0); [done|].
  rewrite (bind_Ret (gets _) _ c (length (k_polls (kafka c))) c) by done.
  pose proof (ready_many _ _ _ _ _ (alive_ready _ _ _ _ _ _ _ _ Ha0)) as Hmany.
  pose proof (alive_owing h 0 x0 n (S (svc_delay n) + u) _ e c Hn ltac:(lia) Ha0) as Howe.
  destruct (wait_alive h x0 n u v e (S (svc_delay n)) c (length (k_polls (kafka c))) ltac:(lia) Ho Ha0 Howe) as (c1 & H1 & [(t & Hinv & Hst) _ Hr] & Hfull).
  rewrite (bind_Ret _ _ _ _ _ H1). clear dependent c. rename c1 into c.
  eexists. split; [reflexivity|]. split.
  - exists t. split; [|done]. by apply (begin_invariant h t c x).
  - unfold head_xid. simpl. rewrite list_lookup_alter_eq.
    destruct (lookup_lt_is_Some_2 (xact_list c) (Z.to_nat ((xact_head c + 1) mod MAX_IN_FLIGHT_TRANSACTIONS))) as [y Hy].
    { rewrite (ring_length _ _ _ _ (inv_ring _ _ _ _ Hinv)). change MAX_IN_FLIGHT_TRANSACTIONS with 1000.
      pose proof (Z.mod_pos_bound (xact_head c + 1) 1000 ltac:(lia)). lia. }
    by rewrite Hy.
  - by eapply ready_ext; [..|exact Hr].
Qed.

Lemma commit_alive h x n u v e w c :
  alive h 0 x n u v e c -> h_open h = true -> 0 < w -> (forall tid, (tid < current h)%nat -> commit_of h tid < w) ->
  exists c', commit_txn w x c = (Ret tt, c') /\ alive (h_commit w h) 0 x n u v e c' /\ polled c c'.
Proof.
  intros [(t & Hinv & _) Hx Hr] Ho Hw Hlast. unfold commit_txn.
  rewrite (bind_Ret (gets xact_head) _ c (xact_head c) c) by done.
  pose proof Hx as Hx'. unfold head_xid in Hx'. apply fmap_Some in Hx' as (y & Hy & Hyx).
  rewrite (bind_Ret (xact_at _) _ c y c) by (unfold xact_at; by rewrite Hy).
  rewrite Hyx, Z.eqb_refl. cbn [negb].
  rewrite (bind_Ret (update_xact _ _) _ c tt
    (set_xact_list (alter (fun x => TransactionInfo (xid x) (recvd_events x) (pending_events x) w)
       (Z.to_nat (xact_head c)) (xact_list c)) c)) by done.
  pose proof (commit_invariant h t c w Hinv Ho Hw Hlast) as H1.
  destruct (checkpoint_alive _ _ 0 x n u v e _ H1) as (c' & Hrun & Ha & Hsame).
  - unfold head_xid. simpl. by rewrite list_lookup_alter_eq, Hy, Hyx.
  - by eapply ready_ext; [..|exact Hr].
  - exists c'. split; [exact Hrun|]. rewrite Hyx in Ha. split; [done|]. destruct Hsame as (Hk & _). unfold polled. by rewrite Hk.
Qed.

(** ** Rows *)

(** A call of [rd_kafka_produce]. *)
Definition attempted (msg : kafka_msg) (a : attempt) (c : producer_context) : producer_context :=
  set_kafka (Kafka (tail (k_attempts (kafka c))) (k_polls (kafka c))
    (k_produced (kafka c) ++ (if att_accepted a then [msg] else [])) (k_reported (kafka c)))
    (set_errno (att_errno a) c).
Definition next_attempt (c : producer_context) : attempt :=
  default (Attempt true 0) (head (k_attempts (kafka c))).

Lemma produce_run msg c :
  rd_kafka_produce msg c =
    (Ret (if att_accepted (next_attempt c) then 0 else -1), attempted msg (next_attempt c) c).
Proof.
  unfold rd_kafka_produce, attempted, mbind, M_bind, gets, modify. simpl. fold (next_attempt c).
  destruct (att_accepted _); [done|by rewrite app_nil_r].
Qed.

Lemma next_willing c : Forall willing (k_attempts (kafka c)) ->
  willing (next_attempt c) /\ Forall willing (tail (k_attempts (kafka c))) /\
  (length (tail (k_attempts (kafka c))) <= length (k_attempts (kafka c)))%nat /\
  (att_accepted (next_attempt c) = false ->
    S (length (tail (k_attempts (kafka c)))) = length (k_attempts (kafka c))).
Proof.
  unfold next_attempt. destruct 1; simpl; split_and!; try done. lia.
Qed.

Lemma produce_alive fuel h x n u v e msg : forall c,
  (length (k_attempts (kafka c)) < fuel)%nat ->
  alive h 1 x n u v e c -> env_xact (k_envelope msg) = xact_head c ->
  exists c', produce_loop le clock fuel msg c = (Ret tt, c') /\ alive (with_message (current h) h) 0 x n u v e c'.
Proof.
  induction fuel as [|fuel IH]; intros c Hf Ha Henv; [lia|]. cbn [produce_loop]. unfold try_produce.
  pose proof Ha as [(t & Hinv & _) Hx [R1 R2 R3 R4 R5 R6]].
  assert (Ho : h_open h = true) by (by apply (inv_extra _ _ _ _ Hinv)).
  destruct (next_willing c R1) as (Ha0 & Hrest & Hlen & Hrej). pose proof (produce_run msg c) as Hrun.
  set (c1 := attempted msg (next_attempt c) c) in *.
  assert (Hinv' : invariant_at h t 1 (set_errno (att_errno (next_attempt c)) c)) by (by apply (invariant_ext h t 1 c)).
  unfold willing in Ha0. destruct (att_accepted (next_attempt c)) eqn:Eacc.
  - exists c1. split.
    + unfold mbind, M_bind. rewrite Hrun. unfold gets. simpl.
      destruct (Z.eqb_spec (att_errno (next_attempt c)) ENOBUFS); done.
    + split; [|done|split; try done; [simpl; lia|eapply sendable_less; [|exact R5]; simpl; lia]].
      exists t. split; [|by intros Hcl; simpl in Hcl; rewrite Ho in Hcl].
      pose proof (produce_invariant h t _ msg (tail (k_attempts (kafka c))) Hinv' Henv) as H.
      unfold c1, attempted. by rewrite Eacc.
  - specialize (Hrej eq_refl).
    assert (Ha1 : alive h 1 x n (S u) (S v) e c1).
    { split; [|done|].
      - exists t. split; [|intros Hcl; by rewrite Ho in Hcl]. apply (invariant_ext h t 1 c); try done.
        simpl. by rewrite Eacc, app_nil_r.
      - split; try done; [simpl; lia|]. apply (sendable_less (v + length (k_attempts (kafka c)))); [simpl; lia|done]. }
    destruct (backpressure_alive h 1 x n u v e c1 Ha1) as (c2 & Hbp & Ha2 & (_ & Hatt & _) & _).
    destruct (IH c2) as (c3 & Hrun' & Ha3); [rewrite Hatt; simpl; lia|done| |].
    { rewrite Henv. pose proof Ha2 as [(t2 & Hinv2 & _) _ _].
      by rewrite (ring_head _ _ _ _ (inv_ring _ _ _ _ Hinv)), (ring_head _ _ _ _ (inv_ring _ _ _ _ Hinv2)). }
    exists c3. split; [|done]. unfold mbind, M_bind. rewrite Hrun. unfold gets. simpl. rewrite Ha0. simpl.
    unfold mbind, M_bind. by rewrite Hbp.
Qed.

(** A row of a table whose topic is open. *)
Lemma send_alive h x n u v e w relid key_bin val_bin table topic kv c :
  alive h 0 x n u v e c -> h_open h = true ->
  Z.of_nat (length (filter (fun u => u = current h) (h_txns h))) + 1 < 2 ^ 31 ->
  (table_mapper_lookup relid (mapper c) ≫= (fun i => m_tables (mapper c) !! i)) = Some table ->
  t_topic table = TopicOpen topic -> encode_msg le L (output_format c) table key_bin val_bin = Ret kv ->
  exists c', send_kafka_msg le clock L w relid key_bin val_bin c = (Ret tt, c') /\
    alive (with_message (current h) h) 0 x n u v e c'.
Proof.
  intros [(t & Hinv & _) Hx Hr] Ho Hrows Htab Htop Henc. destruct kv as [key val]. unfold send_kafka_msg.
  rewrite (bind_Ret (gets xact_head) _ c (xact_head c) c) by done.
  pose proof Hx as Hx'. unfold head_xid in Hx'. apply fmap_Some in Hx' as (y & Hy & Hyx).
  rewrite (bind_Ret (xact_at _) _ c y c) by (unfold xact_at; by rewrite Hy).
  set (c1 := set_xact_list (alter (fun x => TransactionInfo (xid x) (s32 (recvd_events x + 1))
       (s32 (pending_events x + 1)) (commit_lsn x)) (Z.to_nat (xact_head c)) (xact_list c)) c).
  rewrite (bind_Ret (update_xact _ _) _ c tt c1) by done.
  rewrite (bind_Ret (gets _) _ c1 c1 c1) by done. cbn [mapper output_format c1 set_xact_list] in *.
  rewrite Htab, Henc, Htop.
  destruct (produce_alive (S (length (k_attempts (kafka c)))) h x n u v e
    (KafkaMsg topic key val (MsgEnvelope w relid (xact_head c))) c1) as (c' & Hrun & Ha); [simpl; lia| |done|].
  - split.
    + exists t. split; [by apply count_invariant|]. intros Hcl. by rewrite Ho in Hcl.
    + unfold head_xid. simpl. by rewrite list_lookup_alter_eq, Hy, Hyx.
    + by eapply ready_ext; [..|exact Hr].
  - by exists c'.
Qed.

(** ** Schemas *)

(** The registry answers with an id. *)
Definition good_response (r : http_response) : Prop :=
  curl_result r = 0 /\ resp_code r = 200 /\
  exists j id, json_loadb (resp_body r) = Some j /\ json_object_get j "id" = Some (JInteger id).

(** The registry at [base] will answer [k] requests. *)
Definition answers (base : string) (k : nat) (r : option schema_registry) : Prop :=
  match r with
  | Some r => registry_url r = base /\ Forall good_response (responses r) /\ (k <= length (responses r))%nat
  | None => True
  end.
(** Every topic can be opened, and there are answers for [s] tables. *)
Definition accommodates (base : string) (s : nat) (m : table_mapper) : Prop :=
  Forall (eq true) (m_opens m) /\ answers base (2 * s) (m_registry m).

(** A schema text that can be parsed and, unless there is no registry ([plain]), sent to it. *)
Definition postable (plain : bool) (base topic : string) (is_key : bool) (js : option (list Z)) : Prop :=
  match js with
  | Some text =>
      (plain = false ->
       Z.of_nat (String.length (request_url base topic is_key)) < URL_BUFFER /\ json_dumps text <> None) /\
      exists s, avro_schema_from_json_length L (text ++ [0]) (Z.of_nat (length text)) = Ret s
  | None => True
  end.

Lemma request_alive base topic is_key js k r :
  postable false base topic is_key js -> answers base (S k) (Some r) ->
  exists id r', schema_registry_request json_dumps json_loadb topic is_key js r = (Ret id, r') /\ answers base k (Some r').
Proof.
  intros Hp (Hu & Hg & Hl). unfold schema_registry_request.
  destruct js as [[|b text]|]; [exists None, r; (split; [done|]; split; [done|]; split; [done|lia])| |
    exists None, r; (split; [done|]; split; [done|]; split; [done|lia])].
  destruct Hp as (Hp & _). destruct (Hp eq_refl) as [Hlen Hd]. rewrite (bind_Ret (gets registry_url) _ r base r) by (by rewrite <- Hu).
  destruct (Z.leb_spec URL_BUFFER (Z.of_nat (String.length (request_url base topic is_key)))); [lia|].
  destruct (json_dumps (b :: text)) as [body|]; [|done].
  destruct (responses r) as [|x xs] eqn:Ex; [simpl in Hl; lia|].
  apply list.Forall_cons in Hg as [(H1 & H2 & j & id & H3 & H4) Hg].
  unfold curl_easy_perform, mbind, M_bind. rewrite Ex. unfold stop, registry_parse_response.
  rewrite H1, H3, H2, H4. simpl. eexists _, _. split; [reflexivity|]. split; [done|]. split; [done|].
  simpl in *. lia.
Qed.

Lemma update_schema_alive plain base topic is_key js k i t m :
  m_tables m !! i = Some t -> t_topic t = TopicOpen topic -> (plain = true -> m_registry m = None) ->
  postable plain base topic is_key js -> answers base (S k) (m_registry m) ->
  exists m', table_metadata_update_schema L json_dumps json_loadb i is_key js m = (Ret tt, m') /\
    answers base k (m_registry m') /\ m_opens m' = m_opens m.
Proof.
  intros Ht Htop Hplain Hp Hans. unfold table_metadata_update_schema.
  rewrite (bind_Ret (table_at i) _ m t m) by (unfold table_at; by rewrite Ht).
  rewrite (bind_Ret (gets _) _ m m m) by done.
  assert (Hreg : exists id m1,
    (match m_registry m with
     | Some _ =>
        match t_topic t with
        | TopicOpen name =>
            got ← on_registry None (schema_registry_request json_dumps json_loadb name is_key js);
            let schema_id := default TABLE_MAPPER_SCHEMA_ID_MISSING got in
            _ ← update_table i (table_metadata_set_schema_id is_key schema_id);
            mret schema_id
        | _ => stop Undef
        end
     | None => mret TABLE_MAPPER_SCHEMA_ID_MISSING
     end : M table_mapper Z) m = (Ret id, m1) /\ answers base k (m_registry m1) /\ m_opens m1 = m_opens m).
  { destruct (m_registry m) as [r|] eqn:Er; [|by exists TABLE_MAPPER_SCHEMA_ID_MISSING, m; rewrite Er].
    rewrite Htop. destruct plain; [by specialize (Hplain eq_refl)|].
    destruct (request_alive base topic is_key js k r Hp Hans) as (id & r' & Hr & Ha).
    unfold mbind, M_bind, on_registry. rewrite Er, Hr. eexists _, _. split; [reflexivity|]. by split. }
  destruct Hreg as (id & m1 & H1 & Ha & Ho). rewrite (bind_Ret _ _ _ _ _ H1).
  unfold when. destruct (_ || _); [|by exists m1].
  destruct js as [text|].
  - destruct Hp as (_ & s & Hs).
    rewrite (bind_Ret _ _ m1 (Some s) m1) by (unfold mbind, M_bind, stop; by rewrite Hs).
    eexists. split; [reflexivity|]. by split.
  - eexists. split; [reflexivity|]. by split.
Qed.

Lemma update_topic_alive i name topic t m :
  m_tables m !! i = Some t -> topic_ok (m_topic_prefix m) t -> Forall (eq true) (m_opens m) ->
  topic_name_for (m_topic_prefix m) name = Ret topic ->
  exists m', table_metadata_update_topic i name m = (Ret tt, m') /\ Forall (eq true) (m_opens m').
Proof.
  intros Ht Hok Ho Hn.
  assert (Hopen : forall m1, m_opens m1 = m_opens m -> m_topic_prefix m1 = m_topic_prefix m ->
    exists m', open_topic i name m1 = (Ret tt, m') /\ Forall (eq true) (m_opens m')).
  { intros m1 E1 E2. unfold open_topic, update_table, rd_kafka_topic_new, mbind, M_bind, modify, gets, stop. simpl.
    rewrite E1, E2, Hn. destruct (m_opens m) as [|b bs]; [eexists; split; [reflexivity|]; simpl; by rewrite E1|].
    apply list.Forall_cons in Ho as [<- Ho]. eexists. by split. }
  unfold table_metadata_update_topic.
  rewrite (bind_Ret (table_at i) _ m t m) by (unfold table_at; by rewrite Ht).
  unfold topic_ok in Hok. destruct (t_topic t); [by apply Hopen| |done].
  destruct (bool_decide _); [by exists m|]. by apply Hopen.
Qed.

Lemma entry_alive relid m :
  mapper_ok m -> Z.of_nat (length (m_tables m)) < 2 ^ 29 ->
  exists i m1, (match table_mapper_lookup relid m with Some i => mret i | None => table_metadata_new relid end
   : M table_mapper nat) m = (Ret i, m1) /\ m_opens m1 = m_opens m.
Proof.
  intros (Hcap & Hlen & _) Hsmall. destruct (table_mapper_lookup relid m) as [i|]; [by exists i, m|].
  unfold table_metadata_new, mbind, M_bind, gets, modify, when.
  destruct (Z.eqb_spec (Z.of_nat (length (m_tables m))) (m_capacity m)) as [E|E]; simpl.
  - rewrite decide_True; [by eexists _, _|]. rewrite s32_small; lia.
  - rewrite decide_True; [by eexists _, _|]. lia.
Qed.

(** A table is announced. *)
Lemma mapper_alive plain base s relid name topic key row m :
  mapper_ok m -> (plain = true -> m_registry m = None) -> Z.of_nat (length (m_tables m)) < 2 ^ 29 -> accommodates base (S s) m ->
  topic_name_for (m_topic_prefix m) name = Ret topic ->
  postable plain base topic true key -> postable plain base topic false (Some row) ->
  exists i m', table_mapper_update L json_dumps json_loadb relid name key row m = (Ret (Some i), m') /\
    accommodates base s m'.
Proof.
  intros Hok Hplain Hsmall [Ho Hans] Hn Hk Hr. unfold table_mapper_update.
  rewrite (bind_Ret (gets _) _ m (table_mapper_lookup relid m) m) by done.
  destruct (entry_alive relid m Hok Hsmall) as (i & m1 & H1 & Ho1). rewrite (bind_Ret _ _ _ _ _ H1).
  destruct (entry_for_spec relid m i m1 Hok Hsmall H1) as (t1 & Ht1 & _ & Hok1 & Hreg1 & Hpre1 & _).
  assert (Htop1 : topic_ok (m_topic_prefix m1) t1).
  { destruct Hok1 as (_ & _ & _ & Hall). by eapply Forall_lookup_1 in Hall. }
  rewrite <- Hpre1 in Hn. rewrite <- Ho1 in Ho.
  destruct (update_topic_alive i name topic t1 m1 Ht1 Htop1 Ho Hn) as (m2 & H2 & Ho2).
  rewrite (bind_Ret _ _ _ _ _ (status_Ret _ _ _ H2)). cbn [negb Z.eqb].
  destruct (update_topic_spec i name m1 m2 t1 Ht1 Htop1 H2) as (t2 & topic' & Ht2 & Htop2 & _ & Hn' & _ & _ & _ & _ & Hreg2).
  assert (topic' = topic) as -> by congruence. rewrite <- Hreg1, <- Hreg2 in Hans.
  replace (2 * S s)%nat with (S (S (2 * s))) in Hans by lia.
  destruct (update_schema_alive plain base topic true key _ i t2 m2 Ht2 Htop2
    ltac:(intros E; rewrite Hreg2, Hreg1; auto) Hk Hans) as (m3 & H3 & Hans3 & Ho3).
  rewrite (bind_Ret _ _ _ _ _ (status_Ret _ _ _ H3)). cbn [negb Z.eqb].
  destruct (update_schema_spec L json_dumps json_loadb i true key m2 m3 t2 Ht2 H3) as (t3 & Ht3 & Htop3 & _ & Hs3).
  destruct (update_schema_alive plain base topic false (Some row) _ i t3 m3 Ht3 ltac:(congruence)
    ltac:(intros E; apply Hs3; rewrite Hreg2, Hreg1; auto) Hr Hans3) as (m4 & H4 & Hans4 & Ho4).
  rewrite (bind_Ret _ _ _ _ _ (status_Ret _ _ _ H4)). simpl.
  exists i, m4. split; [done|]. split; [congruence|done].
Qed.

(** ** Events *)

Context (base : string) (fmt : format_t) (pre : option string) (plain : bool).
(** The text of a schema that cannot be parsed is an error. *)
Context (Hparse : forall json n, avro_schema_from_json_length L json n <> Err 0).

(** The id of the current transaction after an event; a commit is for the current one. *)
Definition xid_step (x : Z) (e : event) : option Z :=
  match e with
  | EBegin y => Some y
  | ECommit y => if y =? x then Some x else None
  | _ => Some x
  end.

(** The history and the transaction id after a record; [None] if Postgres never gives it. *)
Definition play (hx : history * Z) (we : Z * event) : option (history * Z) :=
  h ← h_step (fst hx) (IEvent (fst we) (snd we)); x ← xid_step (snd hx) (snd we); Some (h, x).
Lemma play_inv hx w e hx' :
  play hx (w, e) = Some hx' -> h_step (fst hx) (IEvent w e) = Some (fst hx') /\ xid_step (snd hx) e = Some (snd hx').
Proof.
  unfold play. cbn [fst snd]. destruct (h_step _ _) as [h|]; [|done]. cbn [mbind option_bind].
  destruct (xid_step _ _) as [x|]; [|done]. by intros [= <-].
Qed.
Fixpoint plays (hx : history * Z) (log : record) : option (history * Z) :=
  match log with
  | [] => Some hx
  | we :: log => hx' ← play hx we; plays hx' log
  end.

Definition schema_count (e : event) : nat := match e with ESchema _ _ _ => 1%nat | _ => 0%nat end.

(** The table of a row was announced, and its key and value can be put in the output format. *)
Definition sendable_row (past : record) (relid : Z) (key_bin val_bin : option (list Z)) : Prop :=
  exists a, announced past relid = Some a /\
    forall topic table, describes L pre plain a topic table ->
      exists kv, encode_msg le L fmt table key_bin val_bin = Ret kv.

(** What makes an event acceptable after the events [past]: a table's schemas can be posted
    to its topic, a row can be sent. *)
Definition acceptable (past : record) (e : event) : Prop :=
  match e with
  | ESchema _ key row =>
      exists topic, topic_name_for pre (avro_schema_name (snd row)) = Ret topic /\
        postable plain base topic true (fst <$> key) /\ postable plain base topic false (Some (fst row))
  | _ => match event_row e with
         | Some (relid, key_bin, val_bin) => sendable_row past relid key_bin val_bin
         | None => True
         end
  end.

(** Every table that was announced has an entry. *)
Definition entries_known (log : record) (m : table_mapper) : Prop :=
  forall relid, announced log relid <> None -> is_Some (entry_of m relid).

Lemma entries_known_other log w e m :
  (forall relid, schema_of relid (w, e) = None) -> entries_known log m -> entries_known (log ++ [(w, e)]) m.
Proof. intros He H relid. rewrite announced_snoc, He. apply H. Qed.

(** What a callback needs: the invariants of the producer and its tables, and the
    surroundings. [s] more tables may be announced. *)
Record working (hx : history * Z) (n : service) (u v s room : nat) (e : outlook)
  (log : record) (c : producer_context) : Prop := {
  working_alive : alive (fst hx) 0 (snd hx) n u v e c;
  working_tables : tables_ok L pre plain room log (mapper c);
  working_entries : entries_known log (mapper c);
  working_room : accommodates base s (mapper c);
  working_format : output_format c = fmt;
}.

Lemma row_alive hx n u v s room e log w relid key_bin val_bin h' c :
  working hx n u v s room e log c -> sendable_row log relid key_bin val_bin -> h_row (fst hx) = Some h' ->
  exists c', send_kafka_msg le clock L w relid key_bin val_bin c = (Ret tt, c') /\ alive h' 0 (snd hx) n u v e c' /\
    mapper c' = mapper c.
Proof.
  intros [Ha Ht He _ Hf] (a0 & Hann & Henc) Hrow. unfold h_row in Hrow. case_decide as Hd; [|done]. destruct Hd as [Ho Hr].
  injection Hrow as <-.
  destruct (He relid ltac:(congruence)) as [table Htab].
  pose proof (tables_announced _ _ _ _ _ _ Ht relid table Htab) as (a & topic & Hann' & Hd).
  assert (a0 = a) as -> by congruence. destruct (Henc _ _ Hd) as [kv Hkv]. destruct Hd as (_ & Htop & _).
  edestruct (send_alive (fst hx) (snd hx) n u v e w relid key_bin val_bin table topic) as (c' & Hrun & Ha');
    [done|done|done|exact Htab|done|by rewrite Hf|].
  exists c'. split; [done|]. split; [done|].
  by destruct (send_quiet le clock L pre plain room log w relid key_bin val_bin c c' Ht Hrun) as (_ & Hm & _).
Qed.

Lemma schema_alive hx n u v s room e log w relid key row c :
  working hx n u v (S s) (S room) e log c -> acceptable log (ESchema relid key row) ->
  exists c', table_schema_cb L json_dumps json_loadb w relid key row c = (Ret tt, c') /\
    alive (fst hx) 0 (snd hx) n u v e c' /\ accommodates base s (mapper c') /\
    entries_known (log ++ [(w, ESchema relid key row)]) (mapper c').
Proof.
  intros [[(t & Hinv & Hst) Hx Hr] Ht He Hac _] (topic & Hn & Hk & Hrow). pose proof Ht as [H1 H2 H3 H4 _].
  rewrite <- H3 in Hn.
  destruct (mapper_alive plain base s relid _ topic (fst <$> key) (fst row) (mapper c) H1 H4 ltac:(lia) Hac Hn Hk Hrow)
    as (i & m' & Hrun & Hac').
  exists (set_mapper m' c). unfold table_schema_cb. split.
  { unfold mbind, M_bind, zoom. simpl. by rewrite Hrun. }
  split; [split; [exists t; split; [by apply (invariant_ext (fst hx) t 0 c)|done]|done|by eapply ready_ext; [..|exact Hr]]|].
  split; [done|]. intros r. simpl. rewrite announced_snoc. unfold schema_of. simpl.
  apply mapper_update_spec in Hrun as (_ & _ & _ & Hother & t' & topic' & _ & Ht' & _); [|exact Hparse|done|lia].
  destruct (Z.eqb_spec relid r) as [<-|Hne]; [by rewrite Ht'|]. rewrite Hother by done. apply He.
Qed.

(** A transaction that begins may have to wait for acknowledgements. *)
Definition opening (e : event) : bool := match e with EBegin x => negb (x =? 0) | _ => false end.
Definition waiting_time (n : service) (e : event) : nat := if opening e then S (svc_delay n) else 0%nat.

Lemma begin_event_alive hx hx' n u v e w y c :
  alive (fst hx) 0 (snd hx) n (waiting_time n (EBegin y) + u) (waiting_time n (EBegin y) + v) e c ->
  play hx (w, EBegin y) = Some hx' -> (length (h_txns (fst hx)) <= svc_messages n)%nat ->
  exists c', begin_txn le clock w y c = (Ret tt, c') /\ alive (fst hx') 0 (snd hx') n u v e c' /\ mapper c' = mapper c.
Proof.
  intros Ha Hplay Hn. apply play_inv in Hplay as [Hstep Hxid]. destruct hx as [h x], hx' as [h' x'].
  cbn [fst snd] in *. unfold waiting_time in Ha. simpl in Hstep, Hxid, Ha. injection Hxid as <-. destruct (Z.eqb_spec y 0) as [->|Hy].
  - rewrite decide_True in Hstep by done. case_decide as Hd; [|done]. injection Hstep as <-. destruct Hd as (Hc & _ & _).
    pose proof Ha as [(t & Hinv & _) Hx _]. pose proof (inv_ring _ _ _ _ Hinv) as Hr.
    pose proof (ring_window _ _ _ _ Hr) as Hwin. unfold current in Hwin. rewrite Hc in Hwin. simpl in Hwin.
    assert (t = 0%nat) as -> by lia. unfold begin_txn, mbind, M_bind, gets. simpl.
    rewrite (ring_head _ _ _ _ Hr), (ring_tail _ _ _ _ Hr). unfold current. rewrite Hc. simpl.
    exists c. split; [done|]. split; [|done].
    destruct (ring_slot _ _ _ _ Hr 0%nat) as (z & Hz & _ & _ & Hz0); [lia|].
    unfold head_xid in Hx. rewrite (ring_head _ _ _ _ Hr), Nat2Z.id in Hx. unfold current in Hx. rewrite Hc in Hx.
    cbn [length pred] in Hx. rewrite Hz in Hx. injection Hx as <-. by rewrite (proj2 Hz0 eq_refl) in Ha.
  - rewrite decide_False in Hstep by done. destruct (h_open h) eqn:Ho; [done|]. injection Hstep as <-.
    destruct (begin_alive h x y n u v e w c Ha Hn Ho Hy) as (c' & Hrun & Ha').
    exists c'. split; [done|]. split; [done|].
    by destruct (notify_stays le clock L json_dumps json_loadb w (EBegin y) c c') as (_ & _ & Hm).
Qed.

Lemma commit_event_alive hx hx' n u v e w y c :
  alive (fst hx) 0 (snd hx) n u v e c -> play hx (w, ECommit y) = Some hx' ->
  exists c', commit_txn w y c = (Ret tt, c') /\ alive (fst hx') 0 (snd hx') n u v e c' /\ mapper c' = mapper c.
Proof.
  intros Ha Hplay. apply play_inv in Hplay as [Hstep Hxid]. destruct hx as [h x], hx' as [h' x'].
  cbn [fst snd] in *. simpl in Hstep, Hxid.
  destruct (Z.eqb_spec y x) as [->|]; [|done]. injection Hxid as <-. case_decide as Hd; [|done]. injection Hstep as <-.
  destruct Hd as (Ho & Hpos & Hall).
  destruct (commit_alive h x n u v e w c Ha Ho Hpos) as (c' & Hrun & Ha' & _).
  { intros tid Htid. rewrite Forall_lookup in Hall. unfold commit_of.
    destruct (lookup_lt_is_Some_2 (h_commits h) tid) as [l Hl]; [unfold current in Htid; lia|].
    rewrite Hl. simpl. apply (Hall tid). by rewrite lookup_take_lt. }
  exists c'. split; [done|]. split; [done|].
  by destruct (notify_stays le clock L json_dumps json_loadb w (ECommit x) c c') as (_ & _ & Hm).
Qed.

Lemma notify_alive hx hx' n u v s room e log w ev c :
  working hx n (waiting_time n ev + u) (waiting_time n ev + v) (schema_count ev + s) (S room) e log c ->
  play hx (w, ev) = Some hx' -> acceptable log ev -> (length (h_txns (fst hx)) <= svc_messages n)%nat ->
  exists c', notify cbs w ev c = (Ret tt, c') /\ alive (fst hx') 0 (snd hx') n u v e c' /\
    accommodates base s (mapper c') /\ entries_known (log ++ [(w, ev)]) (mapper c').
Proof.
  intros Hw Hplay Hacc Hn. pose proof Hw as [Ha Ht He Hac Hf]. pose proof Hplay as [Hstep Hxid]%play_inv.
  assert (Hsame : forall c', mapper c' = mapper c -> (forall r, schema_of r (w, ev) = None) -> schema_count ev = 0%nat ->
    accommodates base s (mapper c') /\ entries_known (log ++ [(w, ev)]) (mapper c')).
  { intros c' -> Hno E. rewrite E in Hac. split; [done|]. by apply entries_known_other. }
  assert (Hrow : forall relid kb vb, (forall r, schema_of r (w, ev) = None) -> sendable_row log relid kb vb ->
    h_row (fst hx) = Some (fst hx') -> snd hx' = snd hx -> schema_count ev = 0%nat -> waiting_time n ev = 0%nat ->
    exists c', send_kafka_msg le clock L w relid kb vb c = (Ret tt, c') /\ alive (fst hx') 0 (snd hx') n u v e c' /\
      accommodates base s (mapper c') /\ entries_known (log ++ [(w, ev)]) (mapper c')).
  { intros relid kb vb Hno Hann Hr -> E E2. rewrite E2 in Hw. destruct (row_alive hx n u v _ _ e log w relid kb vb (fst hx') c Hw Hann Hr)
      as (c' & Hrun & Ha' & Hm). exists c'. split; [done|]. split; [done|]. by apply Hsame. }
  destruct hx as [h x], hx' as [h' x']. cbn [fst snd] in *.
  destruct ev as [y|y|relid k r|relid k r|relid k o r|relid k o]; simpl in Hstep, Hxid, Hac, Hacc |- *.
  - destruct (begin_event_alive (h, x) (h', x') n u v e w y c Ha Hplay Hn) as (c' & Hrun & Ha' & Hm).
    exists c'. split; [done|]. split; [done|]. by apply Hsame.
  - destruct (commit_event_alive (h, x) (h', x') n u v e w y c Ha Hplay) as (c' & Hrun & Ha' & Hm).
    exists c'. split; [done|]. split; [done|]. by apply Hsame.
  - injection Hxid as <-. injection Hstep as <-.
    by apply (schema_alive (h, x) n u v s room e log w relid k r c Hw Hacc).
  - injection Hxid as <-. by apply Hrow.
  - injection Hxid as <-. by apply Hrow.
  - injection Hxid as <-. destruct k as [k|]; [by apply Hrow|]. injection Hstep as <-.
    exists c. split; [done|]. split; [done|]. by apply Hsame.
Qed.

Fixpoint all_acceptable (past log : record) : Prop :=
  match log with
  | [] => True
  | we :: log => acceptable past (snd we) /\ all_acceptable (past ++ [we]) log
  end.
Definition schemas_in (log : record) : nat := sum_list (schema_count ∘ snd <$> log).

Lemma all_acceptable_app past l1 l2 :
  all_acceptable past (l1 ++ l2) <-> all_acceptable past l1 /\ all_acceptable (past ++ l1) l2.
Proof.
  revert past. induction l1 as [|we l1 IH]; intros past; simpl; [rewrite app_nil_r; tauto|].
  rewrite IH, <- (assoc_L (++)). simpl. tauto.
Qed.

Lemma plays_app hx l1 l2 hx2 :
  plays hx (l1 ++ l2) = Some hx2 -> exists hx1, plays hx l1 = Some hx1 /\ plays hx1 l2 = Some hx2.
Proof.
  revert hx. induction l1 as [|we l1 IH]; intros hx H; simpl in *; [eauto|].
  destruct (play hx we) as [hx'|]; simpl in *; [|done]. by apply IH.
Qed.

(** The history only grows. *)
Lemma play_txns hx we hx' :
  play hx we = Some hx' -> (length (h_txns (fst hx)) <= length (h_txns (fst hx')))%nat.
Proof.
  destruct we as [w e]. intros [H _]%play_inv.
  assert (Hrow : h_row (fst hx) = Some (fst hx') -> (length (h_txns (fst hx)) <= length (h_txns (fst hx')))%nat).
  { unfold h_row. case_decide; [|done]. intros [= <-]. simpl. rewrite length_app. lia. }
  destruct e as [x|x|relid k r|relid k r|relid k o r|relid [k|] o]; simpl in H; auto;
    try destruct (h_open (fst hx)); repeat case_decide; try discriminate H;
    apply (inj Some) in H; rewrite <- H; simpl; lia.
Qed.
Lemma plays_txns hx log hx' :
  plays hx log = Some hx' -> (length (h_txns (fst hx)) <= length (h_txns (fst hx')))%nat.
Proof.
  revert hx. induction log as [|we log IH]; intros hx H; simpl in H; [by injection H as <-|].
  destruct (play hx we) as [hx1|] eqn:E; simpl in H; [|done]. etrans; [by eapply play_txns|by apply IH].
Qed.

Definition waiting_times (n : service) (es : list event) : nat := sum_list (waiting_time n <$> es).

(** All events of a frame. *)
Lemma notify_all_alive n u v e w es : forall hx hx' s room log c,
  working hx n (waiting_times n es + u) (waiting_times n es + v) (schemas_in ((fun e => (w, e)) <$> es) + s) (length es + room) e log c ->
  plays hx ((fun e => (w, e)) <$> es) = Some hx' -> all_acceptable log ((fun e => (w, e)) <$> es) ->
  (length (h_txns (fst hx')) <= svc_messages n)%nat ->
  exists c', notify_all (recording cbs) w es (c, log) = (Ret tt, (c', log ++ ((fun e => (w, e)) <$> es))) /\
    alive (fst hx') 0 (snd hx') n u v e c' /\ accommodates base s (mapper c') /\
    entries_known (log ++ ((fun e => (w, e)) <$> es)) (mapper c').
Proof.
  induction es as [|ev es IH]; intros hx hx' s room log c Hw Hplays Hacc Hn.
  - injection Hplays as <-. exists c. simpl. rewrite app_nil_r. by destruct Hw.
  - cbn [fmap list_fmap plays] in Hplays. destruct (play hx (w, ev)) as [hx1|] eqn:Hplay; [|done].
    cbn [mbind option_bind] in Hplays. destruct Hacc as [Hacc1 Hacc].
    pose proof (plays_txns _ _ _ Hplays) as Hmono. pose proof (play_txns _ _ _ Hplay) as Hmono1.
    cbn [fmap list_fmap] in Hw. unfold schemas_in, waiting_times in Hw. simpl in Hw.
    rewrite <- !Nat.add_assoc in Hw.
    edestruct (notify_alive hx hx1 n _ _ _ _ e log w ev c Hw Hplay Hacc1) as (c1 & Hrun & Ha1 & Hac1 & He1); [lia|].
    destruct (notify_quiet le clock L json_dumps json_loadb pre plain Hparse (length es + room) log w ev c c1
      (working_tables _ _ _ _ _ _ _ _ _ Hw) Hrun) as (Hfeed & Ht1 & _).
    assert (Hf1 : output_format c1 = fmt).
    { rewrite <- (working_format _ _ _ _ _ _ _ _ _ Hw). by injection Hfeed. }
    destruct (IH hx1 hx' s room (log ++ [(w, ev)]) c1) as (c2 & Hrun2 & Ha2 & Hac2 & He2); try done.
    rewrite <- (assoc_L (++)) in Hrun2, He2. exists c2. split; [|done].
    cbn [notify_all]. rewrite notify_recording. rewrite (bind_Ret _ _ _ tt (c1, log ++ [(w, ev)])); [exact Hrun2|].
    unfold recorded. simpl. by rewrite Hrun.
Qed.

End live.
