(* ===== verification/Pipeline.v ===== *)
(** * From Postgres to Kafka

    The initial snapshot arrives as rows of a query, the plugin's frames as WAL data on the
    replication connection, with keepalive messages and pauses in between; the main loop
    polls them. Every event of the exported rows and of the plugin's calls reaches its
    callback once and in order, and every row becomes one message. *)

From S2P Require Import Prelude Avro AvroBinary IoUtil Protocol Oid2Avro Sample SchemaCache.
From S2P Require Import ProtocolServer LogDecoder ProtocolClient EndToEnd Snapshot NetBytes Libpq.
From S2P Require Import Replication Connect Registry TableMapper Json Producer ProducerSafety Delivery.
From S2P Require Import Main Program Quiet.
Open Scope Z_scope.

(** ** What arrives *)

(** For a list of frames with their positions: each frame in a WAL data message (whose
    other two numbers are arbitrary), with keepalive messages and pauses in between. *)
Definition wal_message (server_le : bool) (wal_pos : Z) (walend sendtime : list Z) (frame : list Z) : copy_result :=
  CopyData ([119] ++ sendint64 server_le (s64 wal_pos) ++ walend ++ sendtime ++ frame).

Inductive stream_of (server_le : bool) : list (Z * list Z) -> list copy_result -> Prop :=
| stream_end : stream_of server_le [] []
| stream_data w frame walend sendtime fs cps :
    is_u64 w -> frame <> [] -> length walend = 8%nat -> length sendtime = 8%nat -> stream_of server_le fs cps ->
    stream_of server_le ((w, frame) :: fs) (wal_message server_le w walend sendtime frame :: cps)
| stream_keepalive buf fs cps :
    stream_of server_le fs cps -> stream_of server_le fs (CopyData (107 :: buf) :: cps)
| stream_pause fs cps : stream_of server_le fs cps -> stream_of server_le fs (CopyNone :: cps).

(** For the frames of the export: at each poll the connection is busy, or has a result
    with some of the rows, or has none left. *)
Inductive turn : Type :=
| TBusy
| TRows (res : pg_result)
| TEnd.
Definition turn_busy (t : turn) : bool := match t with TBusy => true | _ => false end.
Definition turn_result (t : turn) : option (option pg_result) :=
  match t with TBusy => None | TRows res => Some (Some res) | TEnd => Some None end.

Inductive export_of : list (list Z) -> list turn -> Prop :=
| export_end : export_of [] [TEnd]
| export_busy fs ts : export_of fs ts -> export_of fs (TBusy :: ts)
| export_rows res fs1 fs ts :
    PQresultStatus res = PGRES_SINGLE_TUPLE \/ PQresultStatus res = PGRES_TUPLES_OK ->
    frame_rows res fs1 -> export_of fs ts -> export_of (fs1 ++ fs) (TRows res :: ts).

(** The events of frames with the positions they came at. *)
Fixpoint stamped (fs : list (Z * list Z)) (ess : list (list event)) : record :=
  match fs, ess with
  | (w, _) :: fs, es :: ess => ((fun e => (w, e)) <$> es) ++ stamped fs ess
  | _, _ => []
  end.
(** Exported rows have position 0. *)
Abbreviation exported fs := (map (pair 0) fs).

(** The client streams: [cps] is what the server will send. *)
Definition at_stream (cps : list copy_result) (f : feed) : Prop :=
  fd_copies f = cps /\ 0 <= fd_r_status f /\ fd_sql f = None /\ 0 <= fd_status f.

(** The client reads the snapshot: what the SQL connection will do, what the stream will
    send afterwards, and where it starts. *)
Definition at_sql (busy : list bool) (results : list (option pg_result)) (cps : list copy_result) (start : Z)
  (f : feed) : Prop :=
  (exists sql, fd_sql f = Some sql /\ conn_busy sql = busy /\ conn_results sql = results) /\
  fd_copies f = cps /\ 0 <= fd_r_status f /\ 0 <= fd_status f /\ fd_start f = start.
Definition at_export (ts : list turn) : list copy_result -> Z -> feed -> Prop :=
  at_sql (turn_busy <$> ts) (omap turn_result ts).

Section loop.
Context (le : bool) (clock : nat -> Z * Z) (L : avro_lib) {HL : AvroConforms L}.
Context (json_dumps : list Z -> option string) (json_loadb : string -> option json).
(** What Kafka was handed before, the output format, the topic prefix, and whether there is
    no registry. *)
Context (p0 : list kafka_msg) (fmt : format_t) (pre : option string) (plain : bool).
Context (Hparse : forall json n, avro_schema_from_json_length L json n <> Err 0).
Abbreviation cbs := (producer_callbacks le clock L json_dumps json_loadb).
Abbreviation state := (frame_reader * recorded_state)%type.
Abbreviation HX := (Has_fst producer_context record).
Abbreviation Has_cl := (Has_client_of (HX := HX)).
Abbreviation on_cl := (on_client (HX := Has_cl)).
Abbreviation on_st := (on_stream (HX := Has_stream (HX := Has_cl))).

(** ** The loop between two polls

    What the client knows, how many frames it may still get, what was recorded and
    produced, what is still to come. *)
Record stage (k : knowledge) (n : nat) (log : record) (F : feed -> Prop) (rx : state) : Prop := {
  stage_knows : knows (fst rx) k;
  stage_room : Z.of_nat (length (fr_schemas (fst rx))) + 3 * Z.of_nat n < 2 ^ 29;
  stage_log : snd (snd rx) = log;
  stage_feed : F (feed_of (fst (snd rx)));
  stage_format : output_format (fst (snd rx)) = fmt;
  stage_tables : tables_ok L pre plain (3 * n) log (mapper (fst (snd rx)));
  stage_messages : exists msgs, messages_of le L pre plain fmt [] log msgs /\
    k_produced (kafka (fst (snd rx))) = p0 ++ msgs;
}.

Lemma stage_mono k n log (F F' : feed -> Prop) rx :
  (forall f, F f -> F' f) -> stage k n log F rx -> stage k n log F' rx.
Proof. intros H []. split; auto. Qed.

(** A fact about the state before. *)
Lemma returns_assume {A} (I : state -> Prop) (X : Prop) (m : M state A) Q E :
  (forall s, I s -> X) -> (X -> returns I m Q E) -> returns I m Q E.
Proof. intros HX Hm s Hs. by apply (Hm (HX s Hs)). Qed.

Lemma stage_quiet k n log F r c log' c' :
  stage k n log F (r, (c, log')) -> quiet (feed_of c) (k_produced (kafka c)) (mapper c) c' ->
  stage k n log F (r, (c', log')).
Proof.
  intros [H1 H2 H3 H4 H5 H6 H7] (Hf & Hp & Ht). simpl in *.
  split; [done|done|done| | | |]; cbn [fst snd]; [by rewrite Hf| |by rewrite Ht|by rewrite Hp].
  injection Hf; congruence.
Qed.

Lemma stage_producer {A} k n log F (m : MP A) :
  stays m -> maintains (stage k n log F) (on_producer (HX := HX) m).
Proof.
  intros Hm [r [c log']] Hs. pose proof (Hm (feed_of c) (k_produced (kafka c)) (mapper c) c ltac:(done)) as H.
  unfold on_producer, zoom. simpl. destruct (m c) as [[] c']; try done; by apply (stage_quiet k n log F r c).
Qed.

Lemma stage_client {A} k n log F (m : M client_context A) Q E :
  returns (fun cl => F (client_feed fmt cl)) m (fun a cl => Q a (client_feed fmt cl))
    (fun e cl => E e (client_feed fmt cl)) ->
  returns (stage k n log F) (on_cl m) (fun a => stage k n log (Q a)) (fun e => stage k n log (E e)).
Proof.
  intros Hm [r [c log']] [H1 H2 H3 H4 H5 H6 H7]. simpl in *. unfold feed_of in H4. simpl in H4. rewrite H5 in H4.
  specialize (Hm (client c) H4). unfold on_client, zoom. simpl.
  destruct (m (client c)) as [[] cl]; try done; (split; [done|done|done| |done|done|done]); cbn [fst snd]; unfold feed_of; simpl;
    by rewrite H5.
Qed.

(** Without errors. *)
Lemma stage_client_ok {A} k n log F (m : M client_context A) Q E :
  returns (fun cl => F (client_feed fmt cl)) m (fun a cl => Q a (client_feed fmt cl)) (fun _ _ => False) ->
  returns (stage k n log F) (on_cl m) (fun a => stage k n log (Q a)) E.
Proof.
  intros Hm. apply (returns_weaken (stage k n log F) _ _ (fun a => stage k n log (Q a)) _ (fun _ => stage k n log (fun _ => False)));
    [done|done|by intros e rx []|by apply (stage_client k n log F m Q (fun _ _ => False))].
Qed.
Lemma stage_stream_ok {A} k n log F (m : M replication_stream A) Q E :
  returns (fun cl => F (client_feed fmt cl)) (zoom m) (fun a cl => Q a (client_feed fmt cl)) (fun _ _ => False) ->
  returns (stage k n log F) (on_st m) (fun a => stage k n log (Q a)) E.
Proof.
  intros Hm rx Hs. pose proof (stage_client_ok k n log F (zoom m) Q E Hm rx Hs) as H.
  destruct rx as [r [c log']]. unfold on_client, on_stream, zoom in *. simpl in *.
  by destruct (m (repl (client c))).
Qed.

Lemma stage_stays {A} k n log F (m : M replication_stream A) :
  (forall v, preserves (fun s => stream_feed s = v) m) -> preserves (stage k n log F) (on_st m).
Proof.
  intros Hm [r [c log']] Hs. pose proof (quiet_on_repl m (feed_of c) (k_produced (kafka c)) (mapper c) Hm c ltac:(done)) as H.
  unfold on_repl, on_stream, zoom in *. simpl in *. destruct (m (repl (client c))).
  by apply (stage_quiet k n log F r c).
Qed.

(** ** Frames *)

(** A frame: all its events, or the end of the process. *)
Lemma stage_frame k n log F w ms es k' :
  Forall wf_message ms -> (length ms <= 3)%nat -> msg_events L k ms es k' ->
  returns (stage k (S n) log F) (parse_frame L (recording cbs) w (frame_bytes L ms))
    (fun _ => stage k' n (log ++ ((fun e => (w, e)) <$> es)) F) (fun _ _ => False).
Proof.
  intros Hwf Hlen Hes [r [c log']] [H1 H2 H3 H4 H5 H6 (msgs & Hmsgs & Hp)]. simpl in H1, H2, H3, H5, H6. subst log'.
  destruct (parse_frame_spec L (recording cbs) w ms es k k' r (c, log) Hwf H1 ltac:(lia) Hes) as (r' & Hrun & Hend).
  unfold frame_bytes. rewrite Hrun. unfold after.
  pose proof (notify_all_no_error le clock L json_dumps json_loadb w es (c, log)) as Hne.
  destruct (notify_all (recording cbs) w es (c, log)) as [o x'] eqn:E. simpl in Hne |- *.
  destruct o as [[]|err| | | |]; try done; [|by destruct (Hne err)].
  destruct (Hend eq_refl) as [Hk Hl]. pose proof (msg_events_length L _ _ _ _ Hes) as Hes_len.
  assert (Ht : tables_ok L pre plain (length es + 3 * n) log (mapper c)) by (eapply tables_fewer; [|exact H6]; lia).
  destruct (notify_all_recorded le clock L json_dumps json_loadb pre plain Hparse w es (3 * n) c log x' Ht E)
    as (Hlog & Hf & Ht' & msgs' & Hmsgs' & Hp').
  assert (Hfmt : output_format (fst x') = fmt) by (injection Hf; congruence). rewrite H5 in Hmsgs'.
  split; [done|simpl; lia|done| |done|done|]; cbn [fst snd] in *; [by rewrite Hf|].
  exists (msgs ++ msgs'). split; [by apply messages_app|]. by rewrite Hp', Hp, (assoc_L (++)).
Qed.

Lemma stage_frames fs : forall ess k k' n log F,
  frames_events L k fs ess k' ->
  returns (stage k (length fs + n) log F) (parse_frames L (recording cbs) (exported fs))
    (fun _ => stage k' n (log ++ stamped (exported fs) ess) F) (fun _ _ => False).
Proof.
  induction fs as [|f fs IH]; intros ess k k' n log F Hf.
  - inversion Hf; subst. intros rx Hs. simpl. by rewrite app_nil_r.
  - inversion Hf as [|? ms es k1 ? ess' ? Hme Hwf Hlen Hf' Eq]; subst. simpl.
    eapply returns_bind; [by apply stage_frame|intros ?]. rewrite (assoc_L (++)). by apply IH.
Qed.

(** One event that is not part of a frame. *)
Lemma stage_event k n log F w e :
  (forall relid, schema_of relid (w, e) = None) -> event_row e = None ->
  returns (stage k n log F) (zoom (notify (recording cbs) w e))
    (fun _ => stage k n (log ++ [(w, e)]) F) (fun _ _ => False).
Proof.
  intros Hno Hrow [r [c log']] [H1 H2 H3 H4 H5 H6 (msgs & Hmsgs & Hp)]. simpl in *. subst log'.
  pose proof (no_error_notify le clock L json_dumps json_loadb w e c) as Hne.
  rewrite notify_recording. unfold zoom, recorded. simpl.
  destruct (notify cbs w e c) as [o c'] eqn:E. simpl in *. destruct o as [[]|err| | | |]; try done; [|by destruct (Hne err)].
  destruct (notify_stays le clock L json_dumps json_loadb w e c c' Hno Hrow E) as (Hf & Hp' & Ht).
  split; [done|done|done| | | |]; cbn [fst snd] in *; [by rewrite Hf|injection Hf; congruence| |].
  - rewrite Ht. by apply tables_same.
  - exists (msgs ++ []). split; [|by rewrite Hp', Hp, app_nil_r]. apply messages_app; [done|].
    apply (messages_cons _ _ _ _ _ _ _ _ [] []); [|constructor]. unfold event_messages. simpl. by rewrite Hrow.
Qed.

(** ** Polling the stream *)

Abbreviation poll_stream := (replication_stream_poll (HX := Has_stream (HX := Has_cl)) le clock L (recording cbs)).

(** A poll takes the next thing from the connection, then sets the status. *)
Lemma stage_taken {A} k n log cp cps (m : copy_result -> M state A) Q E :
  returns (stage k n log (at_stream cps)) (m cp) Q E ->
  returns (stage k n log (at_stream (cp :: cps)))
    (x ← on_st (zoom PQgetCopyData); m x) Q E.
Proof.
  intros Hm. eapply returns_bind.
  - apply (stage_stream_ok k n log _ _ (fun cp' f => cp' = cp /\ at_stream cps f)).
        intros cl (Hc & H). unfold zoom. simpl in *. unfold PQgetCopyData. rewrite Hc. by split.
  - intros cp'. apply returns_assume with (X := cp' = cp); [by intros rx [_ _ _ [-> _] _ _ _]|intros ->].
    eapply returns_weaken; [|done|done|exact Hm]. intros rx. apply stage_mono. by intros f [].
Qed.

Lemma stage_marked {A} k n log cps v (m : M state A) Q E :
  0 <= v -> returns (stage k n log (at_stream cps)) m Q E ->
  returns (stage k n log (at_stream cps)) (_ ← on_st (modify (set_r_status v)); m) Q E.
Proof.
  intros Hv Hm. eapply returns_bind; [|intros ?; exact Hm].
  apply (stage_stream_ok k n log _ _ (fun _ => at_stream cps)).
  intros cl (H1 & H2 & H3 & H4). by split_and!.
Qed.

Lemma stage_keepalive k n log F :
  let J := stage k n log F in returns J (on_st (replication_stream_keepalive le clock)) (fun _ => J) (fun _ => J).
Proof. apply returns_preserves, stage_stays, stream_stay_keepalive. Qed.

(** WAL data: the frame is processed. *)
Lemma poll_data k n log cps w walend sendtime ms es k' server_le :
  is_u64 w -> frame_bytes L ms <> [] -> length walend = 8%nat -> length sendtime = 8%nat ->
  Forall wf_message ms -> (length ms <= 3)%nat -> msg_events L k ms es k' ->
  let J := stage k' n (log ++ ((fun e => (w, e)) <$> es)) (at_stream cps) in
  returns (stage k (S n) log (at_stream (wal_message server_le w walend sendtime (frame_bytes L ms) :: cps)))
    poll_stream (fun _ => J) (fun _ => J).
Proof.
  intros Hw Hne Hwe Hst Hwf Hlen Hes J. unfold replication_stream_poll.
  apply stage_taken. unfold wal_message. simpl app. apply stage_marked; [done|].
  eapply returns_bind with (Q := fun _ => J); [|intros ?; apply stage_keepalive].
  unfold parse_message. simpl Z.eqb. cbv iota. unfold parse_xlogdata_message.
  assert (Hbytes : (1 <= length (frame_bytes L ms))%nat) by (destruct (frame_bytes L ms); simpl; [done|lia]).
  replace (_ <? _) with false; [|symmetry; apply Z.ltb_ge; simpl length; rewrite !length_app, length_sendint64, Hwe, Hst; unfold hdrlen; lia].
  rewrite skipn_cons, drop_0. rewrite recv_sendint64 by apply s64_range. rewrite (u64_s64 w) by done.
  replace (drop _ _) with (frame_bytes L ms).
  2:{ change (Z.to_nat hdrlen) with 25%nat. cbn [drop skipn].
      rewrite drop_app_ge, length_sendint64 by (rewrite length_sendint64; lia).
      rewrite drop_app_ge, Hwe by lia. rewrite drop_app_ge, Hst by lia. done. }
  eapply returns_bind with (Q := fun _ => J).
  { apply (returns_status _ _ J), stage_frame; done. }
  intros err. eapply returns_bind with (Q := fun _ => J).
  { apply returns_no_error; [|done]. apply stage_stays. intros v. stream_stay. }
  intros ?. destruct (err =? 0); [apply (returns_ret tt (fun _ => J))|apply (returns_fail err _ (fun _ => J))].
Qed.

(** A keepalive message or nothing: the positions may be reported. *)
Lemma poll_other k n log cps buf :
  let J := stage k n log (at_stream cps) in
  returns (stage k n log (at_stream (CopyData (107 :: buf) :: cps))) poll_stream (fun _ => J) (fun _ => J).
Proof.
  intros J. unfold replication_stream_poll. apply stage_taken, stage_marked; [done|].
  eapply returns_bind with (Q := fun _ => J); [|intros ?; apply stage_keepalive].
  apply returns_preserves. unfold parse_message. simpl Z.eqb. cbv iota. apply stage_stays. intros v.
  unfold parse_keepalive_message, current_time, send_checkpoint. stream_stay.
Qed.
Lemma poll_pause k n log cps :
  let J := stage k n log (at_stream cps) in
  returns (stage k n log (at_stream (CopyNone :: cps))) poll_stream (fun _ => J) (fun _ => J).
Proof.
  intros J. unfold replication_stream_poll. apply stage_taken, stage_marked; [done|]. apply stage_keepalive.
Qed.

(** ** Polling the client *)

Abbreviation poll_client := (db_client_poll (HX := Has_cl) le clock L (recording cbs)).

(** The client as it is. *)
Lemma stage_get {A} k n log F (m : client_context -> M state A) Q E :
  (forall cl, F (client_feed fmt cl) -> returns (stage k n log F) (m cl) Q E) ->
  returns (stage k n log F) (cl ← on_cl (gets (fun c => c)); m cl) Q E.
Proof.
  intros Hm. eapply returns_bind.
  - apply (stage_client_ok k n log _ _ (fun cl f => F f /\ F (client_feed fmt cl))).
        by intros cl H.
  - intros cl. apply returns_assume with (X := F (client_feed fmt cl)); [by intros rx [_ _ _ [_ ?] _ _ _]|intros H].
    eapply returns_weaken; [|done|done|exact (Hm cl H)]. intros rx. apply stage_mono. by intros f [].
Qed.

Lemma poll_streaming k n log cps k' n' log' cps' :
  let J := stage k' n' log' (at_stream cps') in
  returns (stage k n log (at_stream cps)) poll_stream (fun _ => J) (fun _ => J) ->
  returns (stage k n log (at_stream cps)) poll_client (fun _ => J) (fun _ => J).
Proof.
  intros J Hp. unfold db_client_poll. apply stage_get. intros cl (_ & _ & Hsql & _). simpl in Hsql. rewrite Hsql.
  eapply returns_bind; [exact Hp|]. intros ?.
  apply (stage_client_ok k' n' log' _ _ (fun _ => at_stream cps')).
  intros cl' (H1 & H2 & H3 & H4). simpl in *. unfold at_stream. simpl. by split_and!.
Qed.

(** ** Polling the export *)

(** Error codes are not 0. *)
Abbreviation nonzero := (fun (e : Z) (_ : state) => e <> 0).

(** A call whose answer is known. *)
Lemma stage_sql {A B} k n log busy results busy' results' cps start (m : M pg_conn A) a (f : A -> M state B) Q E :
  (forall sql, conn_busy sql = busy -> conn_results sql = results -> exists sql',
    m sql = (Ret a, sql') /\ conn_busy sql' = busy' /\ conn_results sql' = results') ->
  returns (stage k n log (at_sql busy' results' cps start)) (f a) Q E ->
  returns (stage k n log (at_sql busy results cps start)) (x ← on_cl (on_sql m); f x) Q E.
Proof.
  intros Hm Hf. eapply returns_bind.
  - apply (stage_client_ok k n log _ _ (fun x fd => x = a /\ at_sql busy' results' cps start fd)).
    intros cl [(sql & Hsql & Hb & Hr) H]. simpl in *. unfold on_sql. rewrite Hsql.
    destruct (Hm sql Hb Hr) as (sql' & -> & Hb' & Hr'). split; [done|]. split; [by exists sql'|done].
  - intros x. apply returns_assume with (X := x = a); [by intros rx [_ _ _ [-> _] _ _ _]|intros ->].
    eapply returns_weaken; [|done|done|exact Hf]. intros rx. apply stage_mono. by intros fd [].
Qed.

(** A statement that succeeds. *)
Lemma stage_exec k n log busy results cps start q :
  returns (stage k n log (at_sql busy results cps start)) (on_cl (exec_sql q))
    (fun _ => stage k n log (at_sql busy results cps start)) nonzero.
Proof.
  intros [r [c log']] [H1 H2 H3 H4 H5 H6 H7]. destruct H4 as [(sql & Hsql & Hb & Hr) H]. simpl in *.
  unfold on_client, zoom, exec_sql, on_sql, mbind, M_bind. simpl. rewrite Hsql. unfold PQexec, exec_command.
  destruct (conn_replies sql) as [|res rs]; [done|]. destruct (bool_decide _); [|done].
  split; try done. split; [|done]. by eexists.
Qed.

Lemma stage_status k n log busy results cps start v E :
  0 <= v ->
  returns (stage k n log (at_sql busy results cps start)) (on_cl (modify (set_cl_status v)))
    (fun _ => stage k n log (at_sql busy results cps start)) E.
Proof.
  intros Hv. apply (stage_client_ok k n log _ _ (fun _ => at_sql busy results cps start)).
  intros cl (H1 & H2 & H3 & H4 & H5). by split_and!.
Qed.

(** A poll starts by asking whether there is a result. *)
Lemma poll_export {A} k n log t ts cps start (m : bool -> M state A) (m' : M state A) Q E :
  returns (stage k n log (at_sql (turn_busy <$> ts) (omap turn_result (t :: ts)) cps start)) (m (turn_busy t)) Q E ->
  returns (stage k n log (at_export (t :: ts) cps start))
    (c ← on_cl (gets (fun c => c));
     match sql_conn c with Some _ => x ← on_cl (on_sql PQisBusy); m x | None => m' end) Q E.
Proof.
  intros Hm. apply stage_get. intros cl [(sql & Hsql & _) _]. simpl in Hsql. rewrite Hsql.
  eapply stage_sql; [|exact Hm]. intros sql' Hb Hr. unfold PQisBusy. rewrite Hb. simpl. by eexists.
Qed.

Lemma poll_busy k n log ts cps start :
  let J := stage k n log (at_export ts cps start) in
  returns (stage k n log (at_export (TBusy :: ts) cps start)) poll_client (fun _ => J) nonzero.
Proof. intros J. apply poll_export. simpl. by apply stage_status. Qed.

(** The next result. *)
Lemma stage_result {A} k n log busy r rs cps start (m : option pg_result -> M state A) Q E :
  returns (stage k n log (at_sql busy rs cps start)) (m r) Q E ->
  returns (stage k n log (at_sql busy (r :: rs) cps start)) (x ← on_cl (on_sql PQgetResult); m x) Q E.
Proof.
  apply stage_sql. intros sql Hb Hr. unfold PQgetResult. rewrite Hr. by eexists.
Qed.

Lemma poll_rows k n log res fs ess k' ts cps start :
  PQresultStatus res = PGRES_SINGLE_TUPLE \/ PQresultStatus res = PGRES_TUPLES_OK ->
  frame_rows res fs -> frames_events L k fs ess k' ->
  let J := stage k' n (log ++ stamped (exported fs) ess) (at_export ts cps start) in
  returns (stage k (length fs + n) log (at_export (TRows res :: ts) cps start)) poll_client (fun _ => J) nonzero.
Proof.
  intros Hst (Hn & Hfmt & Hrows) Hf J. apply poll_export. simpl. unfold at_export.
  eapply returns_bind with (Q := fun _ => J).
  { unfold snapshot_poll. apply stage_result. rewrite bool_decide_eq_true_2 by done. simpl.
    intros rx Hs. rewrite (List.Forall2_length Hrows), (snapshot_tuples_run L (recording cbs) res 0 fs rx Hn Hfmt Hrows).
    pose proof (stage_frames fs ess k k' n log _ Hf rx Hs) as H. by destruct (parse_frames _ _ _ rx) as [[] ?]. }
  intros ?. eapply returns_bind; [by apply stage_status|intros ?]. apply stage_get.
  intros cl [(sql & Hsql & _) _]. simpl in Hsql. rewrite Hsql. apply (returns_ret tt (fun _ => J)).
Qed.

(** The end of the export: the snapshot's transaction is committed and the stream starts. *)
Lemma poll_end k n log cps start :
  let J := stage k n (log ++ [(start, ECommit 0)]) (at_stream cps) in
  returns (stage k n log (at_export [TEnd] cps start)) poll_client (fun _ => J) nonzero.
Proof.
  intros J. apply poll_export. simpl.
  eapply returns_bind with (Q := fun _ => J).
  { unfold snapshot_poll. apply stage_result. eapply returns_bind; [apply stage_exec|intros ?].
    eapply returns_bind with (Q := fun _ => stage k n log (fun f => at_stream cps f /\ fd_start f = start)).
    - apply (stage_client_ok k n log _ _ (fun _ f => at_stream cps f /\ fd_start f = start)).
      intros cl (_ & H2 & H3 & H4 & H5). simpl in *. by split.
    - intros ?. apply stage_get. intros cl [_ Hstart]. simpl in Hstart. rewrite Hstart.
      intros rx Hs. pose proof (stage_event k n log _ start (ECommit 0) (fun _ => eq_refl) eq_refl rx Hs) as H.
      change (call _ _ rx) with (zoom (notify (recording cbs) start (ECommit 0)) rx).
      destruct (zoom _ rx) as [[] rx']; try done. revert H. apply stage_mono. by intros f []. }
  intros ?. eapply returns_bind with (Q := fun _ => J).
  { apply (stage_client_ok k n _ _ _ (fun _ => at_stream cps)). intros cl (H1 & H2 & H3 & H4). by split_and!. }
  intros ?. apply stage_get. intros cl (_ & _ & Hsql & _). simpl in Hsql. rewrite Hsql.
  (* starting the stream *)
  intros rx Hs. pose proof (stage_stays k n (log ++ [(start, ECommit 0)]) (at_stream cps) replication_stream_start
    ltac:(intros v; unfold replication_stream_start; stream_stay) rx Hs) as H.
  destruct rx as [r [c log']]. unfold on_client, on_stream, zoom in *. simpl in *.
  unfold replication_stream_start, mbind, M_bind, gets, zoom in *. simpl in *.
  unfold PQexec, exec_command in *. destruct (conn_replies _); [done|]. by destruct (bool_decide _).
Qed.

(** ** One iteration *)

Abbreviation step_rec := (main_step (HX := HX) le clock L (recording cbs)).
Abbreviation steps_rec := (main_steps (HX := HX) le clock L (recording cbs)).

Lemma ensure_stage I m (J : state -> Prop) :
  returns I m (fun _ => J) (fun e s => e = 0 -> J s) -> triple I (ensure (HX := HX) m) (fun _ => J).
Proof.
  intros Hm rx u rx' Hs Hrun. apply ensure_inv in Hrun as (o & Hrun & Ho). specialize (Hm rx Hs).
  rewrite Hrun in Hm. destruct Ho as [-> | ->]; auto.
Qed.

(** Waiting reads nothing. *)
Definition waits (F : feed -> Prop) : Prop :=
  (forall f, F f -> 0 <= fd_status f) /\
  forall cl, F (client_feed fmt cl) -> F (client_feed fmt (snd (db_client_wait cl))).

Lemma waits_stream cps : waits (at_stream cps).
Proof.
  split; [by intros f (_ & _ & _ & ?)|]. intros cl (H1 & H2 & Hsql & H3). simpl in Hsql.
  unfold db_client_wait. destruct (selects cl) as [|[ret errno] rest]; [done|].
  case_decide; [done|]. destruct (ret <? 0); [done|].
  unfold zoom, mbind, M_bind. simpl. unfold PQconsumeInput, next_flag.
  destruct (conn_flags _) as [|[|] flags]; [done| |done]. simpl. by rewrite Hsql.
Qed.

Lemma waits_export ts cps start : waits (at_export ts cps start).
Proof.
  split; [by intros f (_ & _ & _ & ? & _)|]. intros cl Hcl. pose proof Hcl as [(sql & Hsql & Hb & Hr) H]. simpl in Hsql.
  unfold db_client_wait. destruct (selects cl) as [|[ret errno] rest]; [done|].
  case_decide; [done|]. destruct (ret <? 0); [done|].
  unfold zoom, mbind, M_bind. simpl. unfold PQconsumeInput, next_flag.
  destruct (conn_flags _) as [|[|] flags]; [done| |done]. simpl. rewrite Hsql. unfold on_sql. simpl. rewrite Hsql.
  destruct (conn_flags sql) as [|[|] flags']; (split; [by eexists|done]).
Qed.

(** The iteration after the poll of the client. *)
Abbreviation step_rest := (st ← on_cl (gets cl_status); _ ← when (st =? 0) (ensure (HX := HX) (on_cl db_client_wait));
  on_producer (HX := HX) rd_kafka_poll).

Lemma rest_stage k n log F :
  waits F -> let J := stage k n log F in triple J step_rest (fun _ => J).
Proof.
  intros [_ Hw] J. apply triple_bind with (J := fun _ => J).
  { intros rx st rx' Hs Hrun. pose proof (stage_get (A := unit) k n log F (fun _ => mret ()) (fun _ => J) (fun _ => J)
      (fun cl _ => returns_ret tt (fun _ => J) _) rx Hs) as H.
    destruct rx as [r [c log0]]. unfold on_client, zoom, gets, mbind, M_bind in *. simpl in *. by injection Hrun as <- <-. }
  intros st. apply triple_bind with (J := fun _ => J).
  { apply triple_when; [|done]. intros _. apply ensure_stage.
    eapply returns_weaken; [| | |apply (stage_client k n log F _ (fun _ => F) (fun _ => F))]; [done|done|done|].
    intros cl Hcl. specialize (Hw cl Hcl). by destruct (db_client_wait cl) as [[] ?]. }
  intros ?. apply triple_maintains, stage_producer, stays_poll.
Qed.

Lemma step_stage k n log F k' n' log' F' :
  waits F' ->
  let J := stage k' n' log' F' in
  returns (stage k n log F) poll_client (fun _ => J) (fun e s => e = 0 -> J s) ->
  triple (stage k n log F) step_rec (fun _ => J).
Proof.
  intros Hw J Hp. unfold main_step.
  apply triple_bind with (J := fun _ => J); [by apply ensure_stage|intros ?]. by apply rest_stage.
Qed.

(** While no signal arrives, the loop goes on. *)
Lemma steps_go k n log F m rx rx' :
  (forall f, F f -> 0 <= fd_status f) -> stage k n log F rx -> steps_rec (S m) rx = (Ret tt, rx') ->
  received_shutdown_signal (fst (snd rx')) = 0 ->
  exists rx1, step_rec rx = (Ret tt, rx1) /\ steps_rec m rx1 = (Ret tt, rx').
Proof.
  intros HF Hs Hrun Hsig. cbn [main_steps] in Hrun. apply bind_Ret_inv in Hrun as (go & rx1 & Hg & Hrun).
  pose proof (HF _ (stage_feed _ _ _ _ _ Hs)) as Hst. destruct rx as [r [c log0]]. simpl in Hst.
  injection Hg as <- <-. simpl in Hrun. rewrite (proj2 (Z.leb_le _ _) Hst) in Hrun. simpl in Hrun.
  destruct (Z.eqb_spec (received_shutdown_signal c) 0) as [_|Hne]; [|injection Hrun as <-; done].
  apply bind_Ret_inv in Hrun as ([] & rx2 & H1 & H2). by exists rx2.
Qed.

Lemma steps_next k n log F k' n' log' F' m rx rx' :
  waits F -> waits F' -> stage k n log F rx ->
  (let J := stage k' n' log' F' in returns (stage k n log F) poll_client (fun _ => J) (fun e s => e = 0 -> J s)) ->
  steps_rec (S m) rx = (Ret tt, rx') -> received_shutdown_signal (fst (snd rx')) = 0 ->
  exists rx1, stage k' n' log' F' rx1 /\ steps_rec m rx1 = (Ret tt, rx').
Proof.
  intros [HF _] HF' Hs Hp Hrun Hsig. destruct (steps_go _ _ _ _ _ _ _ HF Hs Hrun Hsig) as (rx1 & H1 & H2).
  exists rx1. split; [|done]. by eapply (step_stage k n log F).
Qed.

(** ** The loop *)

Lemma polls_stream k n log cps k' n' log' cps' :
  let J := stage k' n' log' (at_stream cps') in
  returns (stage k n log (at_stream cps)) poll_stream (fun _ => J) (fun _ => J) ->
  returns (stage k n log (at_stream cps)) poll_client (fun _ => J) (fun e s => e = 0 -> J s).
Proof. intros J Hp%poll_streaming rx Hs. specialize (Hp rx Hs). by destruct (poll_client rx) as [[] ?]. Qed.

Lemma stream_steps server_le fs cps : stream_of server_le fs cps ->
  forall ess k k' log tail rx rx',
  frames_events L k (snd <$> fs) ess k' -> stage k (length fs) log (at_stream (cps ++ tail)) rx ->
  steps_rec (length cps) rx = (Ret tt, rx') -> received_shutdown_signal (fst (snd rx')) = 0 ->
  stage k' 0 (log ++ stamped fs ess) (at_stream tail) rx'.
Proof.
  induction 1 as [|w frame walend sendtime fs cps Hw Hne Hwe Hst Hstr IH|buf fs cps Hstr IH|fs cps Hstr IH];
    intros ess k k' log tail rx rx' Hf Hs Hrun Hsig.
  - injection Hrun as <-. inversion Hf; subst. simpl. by rewrite app_nil_r.
  - inversion Hf as [|? ms es k1 ? ess' ? Hme Hwf Hlen Hf' Eq]; subst.
    edestruct steps_next as (rx1 & H1 & H2);
      [apply waits_stream|apply waits_stream|exact Hs|by eapply polls_stream, poll_data|exact Hrun|done|].
    cbn [stamped]. rewrite (assoc_L (++)). by eapply IH.
  - edestruct steps_next as (rx1 & H1 & H2);
      [apply waits_stream|apply waits_stream|exact Hs|apply polls_stream, poll_other|exact Hrun|done|]. by eapply IH.
  - edestruct steps_next as (rx1 & H1 & H2);
      [apply waits_stream|apply waits_stream|exact Hs|apply polls_stream, poll_pause|exact Hrun|done|]. by eapply IH.
Qed.

(** However far the loop comes, also when a signal ends it: some of the frames were taken. *)
Lemma steps_or_stop k n log F k' n' log' F' m rx rx' :
  waits F -> waits F' -> stage k n log F rx ->
  (let J := stage k' n' log' F' in returns (stage k n log F) poll_client (fun _ => J) (fun e s => e = 0 -> J s)) ->
  steps_rec (S m) rx = (Ret tt, rx') ->
  rx' = rx \/ exists rx1, stage k' n' log' F' rx1 /\ steps_rec m rx1 = (Ret tt, rx').
Proof.
  intros [HF _] HF' Hs Hp Hrun. cbn [main_steps] in Hrun. apply bind_Ret_inv in Hrun as (go & rx1 & Hg & Hrun).
  assert (rx1 = rx) as -> by (destruct rx as [r [c l]]; by injection Hg as _ <-).
  destruct go; [right|left; by injection Hrun as <-].
  apply bind_Ret_inv in Hrun as ([] & rx1 & H1 & H2). exists rx1. split; [|done]. by eapply (step_stage k n log F).
Qed.

(** Some of the frames [fs], with their events [ess], were taken since [log]. *)
Definition partly (fs : list (Z * list Z)) (ess : list (list event)) (log : record) (tail : list copy_result)
  (rx : state) : Prop :=
  exists fs1 fs2 ess1 ess2 k cps, fs = fs1 ++ fs2 /\ ess = ess1 ++ ess2 /\ length fs1 = length ess1 /\
    stage k (length fs2) (log ++ stamped fs1 ess1) (at_stream (cps ++ tail)) rx.
Lemma partly_none k fs ess log cps tail rx :
  stage k (length fs) log (at_stream (cps ++ tail)) rx -> partly fs ess log tail rx.
Proof. intros Hs. exists [], fs, [], ess, k, cps. simpl. by rewrite app_nil_r. Qed.

Lemma stream_some server_le fs cps : stream_of server_le fs cps ->
  forall m ess k k' log tail rx rx',
  (m <= length cps)%nat -> frames_events L k (snd <$> fs) ess k' ->
  stage k (length fs) log (at_stream (cps ++ tail)) rx -> steps_rec m rx = (Ret tt, rx') ->
  partly fs ess log tail rx'.
Proof.
  intros Hstr. induction Hstr as [|w frame walend sendtime fs cps Hw Hne Hwe Hst Hstr IH|buf fs cps Hstr IH|fs cps Hstr IH];
    intros m ess k k' log tail rx rx' Hm Hf Hs Hrun; pose proof (partly_none _ _ ess _ _ _ _ Hs) as Hnone;
    (destruct m as [|m]; [by injection Hrun as <-|]); simpl in Hm; [lia|..].
  - inversion Hf as [|? ms es k1 ? ess' ? Hme Hwf Hlen Hf' Eq]; subst.
    edestruct steps_or_stop as [->|(rx1 & H1 & H2)];
      [apply waits_stream|apply waits_stream|exact Hs|by eapply polls_stream, poll_data|exact Hrun|done|].
    destruct (IH m ess' k1 k' _ tail rx1 rx' ltac:(lia) Hf' H1 H2) as (fs1 & fs2 & ess1 & ess2 & k2 & cps2 & -> & -> & Hl & Hs').
    eexists (_ :: fs1), fs2, (es :: ess1), ess2, k2, cps2. split; [reflexivity|]. split; [done|]. split; [simpl; congruence|].
    cbn [stamped]. by rewrite (assoc_L (++)).
  - edestruct steps_or_stop as [->|(rx1 & H1 & H2)];
      [apply waits_stream|apply waits_stream|exact Hs|apply polls_stream, poll_other|exact Hrun|done|].
    eapply (IH m); [lia|exact Hf|exact H1|exact H2].
  - edestruct steps_or_stop as [->|(rx1 & H1 & H2)];
      [apply waits_stream|apply waits_stream|exact Hs|apply polls_stream, poll_pause|exact Hrun|done|].
    eapply (IH m); [lia|exact Hf|exact H1|exact H2].
Qed.

Lemma stamped_app fs1 fs2 ess1 ess2 :
  length fs1 = length ess1 -> stamped (fs1 ++ fs2) (ess1 ++ ess2) = stamped fs1 ess1 ++ stamped fs2 ess2.
Proof.
  revert ess1. induction fs1 as [|[w f] fs1 IH]; intros [|es ess1] Hl; simplify_eq/=; [done|].
  rewrite IH by done. by rewrite (assoc_L (++)).
Qed.

Lemma export_steps fs ts : export_of fs ts ->
  forall ess k k' n log cps start m rx rx',
  frames_events L k fs ess k' -> stage k (length fs + n) log (at_export ts cps start) rx ->
  steps_rec (length ts + m) rx = (Ret tt, rx') -> received_shutdown_signal (fst (snd rx')) = 0 ->
  exists rx1, stage k' n (log ++ stamped (exported fs) ess ++ [(start, ECommit 0)]) (at_stream cps) rx1 /\
    steps_rec m rx1 = (Ret tt, rx').
Proof.
  assert (Hweak : forall k n log ts cps start (J : state -> Prop),
    returns (stage k n log (at_export ts cps start)) poll_client (fun _ => J) nonzero ->
    returns (stage k n log (at_export ts cps start)) poll_client (fun _ => J) (fun e s => e = 0 -> J s)).
  { intros k n log ts0 cps start J Hp rx Hs. specialize (Hp rx Hs). by destruct (poll_client rx) as [[] ?]. }
  induction 1 as [|fs ts Hts IH|res fs1 fs ts Hst Hrows Hts IH]; intros ess k k' n log cps start m rx rx' Hf Hs Hrun Hsig.
  - inversion Hf; subst. simpl. edestruct steps_next as (rx1 & H1 & H2);
      [apply waits_export|apply waits_stream|exact Hs|apply Hweak, poll_end|exact Hrun|done|]. by exists rx1.
  - edestruct steps_next as (rx1 & H1 & H2);
      [apply waits_export|apply waits_export|exact Hs|apply Hweak, poll_busy|exact Hrun|done|]. by eapply IH.
  - apply frames_events_app_inv in Hf as (ess1 & ess2 & k1 & -> & Hf1 & Hf2).
    rewrite length_app, <- Nat.add_assoc in Hs. edestruct steps_next as (rx1 & H1 & H2);
      [apply waits_export|apply waits_export|exact Hs|by eapply Hweak, poll_rows|exact Hrun|done|].
    destruct (IH _ _ _ _ _ _ _ _ _ _ Hf2 H1 H2 Hsig) as (rx2 & Hs2 & Hrun2). exists rx2. split; [|done].
    rewrite map_app, stamped_app.
    + by rewrite <- !(assoc_L (++)) in *.
    + rewrite length_map. clear -Hf1. induction Hf1; simpl; congruence.
Qed.

End loop.

(** ** Theorems *)

Section pipeline.
Context (le : bool) (clock : nat -> Z * Z) (L : avro_lib) (P : pg_lib).
Context {HL : AvroConforms L} {HP : PgConforms P}.
Context (json_dumps : list Z -> option string) (json_loadb : string -> option json).
Abbreviation cbs := (producer_callbacks le clock L json_dumps json_loadb).
Abbreviation steps_rec := (main_steps (HX := Has_fst producer_context record) le clock L (recording cbs)).
(** The text of a schema that cannot be parsed is an error. *)
Context (Hparse : forall json n, avro_schema_from_json_length L json n <> Err 0).

(** The frames of plugin calls that all returned. *)
Lemma plugin_frames l s0 s' :
  Forall (call_ok L P) l -> output_avro_startup = Ret s0 -> plugin_calls L P l s0 = (Ret tt, s') ->
  exists ess k', calls_events L P ∅ l ess k' /\ frames_events L ∅ (snd s') ess k' /\ length (snd s') = length l.
Proof.
  intros Hl Hs0 Hcalls. assert (s0 = (frame_value [], schema_cache_new, [])) as -> by (by injection Hs0).
  destruct (plugin_calls_spec L P l (frame_value []) schema_cache_new [] Hl (frame_value_reset []) empty_cache_ok)
    as (o & s1 & ran & fs & ess & k' & Hrun1 & Hout & Hend & Hce & Hfe).
  rewrite Hcalls in Hrun1. injection Hrun1 as <- <-.
  destruct Hend as [[_ ->]|(?&?&?&?&_)]; [|done]. simpl in Hout. rewrite Hout.
  unfold known, schema_cache_new in Hce, Hfe. rewrite fmap_empty in Hce, Hfe.
  exists ess, k'. split; [done|]. split; [done|].
  transitivity (length ess); [clear -Hfe; induction Hfe; simpl; lia|].
  symmetry. clear -Hce. induction Hce; simpl; lia.
Qed.

Lemma calls_events_app l1 : forall k l2 ess k', calls_events L P k (l1 ++ l2) ess k' ->
  exists ess1 ess2 k1, ess = ess1 ++ ess2 /\ calls_events L P k l1 ess1 k1 /\ calls_events L P k1 l2 ess2 k' /\
    length ess1 = length l1.
Proof.
  induction l1 as [|x l1 IH]; intros k l2 ess k' H.
  - exists [], ess, k. split; [done|]. split; [constructor|done].
  - inversion H as [|? ? es k1 ? ess' ? Hx Hl]; subst. destruct (IH _ _ _ _ Hl) as (ess1 & ess2 & k2 & -> & H1 & H2 & H3).
    exists (es :: ess1), ess2, k2. split; [done|]. split; [by econstructor|]. split; [done|simpl; congruence].
Qed.

(** Some of the frames are the frames of some of the calls. *)
Lemma calls_taken (wals : list Z) (fs : list (list Z)) l z1 z2 ess1 ess2 k' :
  zip wals fs = z1 ++ z2 -> length z1 = length ess1 -> length wals = length l -> length fs = length l ->
  calls_events L P ∅ l (ess1 ++ ess2) k' ->
  exists j k1, (j <= length l)%nat /\ z1 = zip (take j wals) (take j fs) /\ calls_events L P ∅ (take j l) ess1 k1.
Proof.
  intros Hz Hl Hw Hf Hce. set (j := length z1) in *.
  assert (Hj : (j <= length l)%nat) by (apply (f_equal length) in Hz; rewrite length_zip, length_app in Hz; lia).
  rewrite <- (take_drop j l) in Hce. apply calls_events_app in Hce as (e1 & e2 & k1 & He & H1 & _ & Hle).
  rewrite length_take in Hle. apply app_inj_1 in He as [-> _]; [|lia].
  exists j, k1. split; [done|]. split; [|done].
  apply (f_equal (take j)) in Hz. rewrite (take_app_length' z1 z2 j) in Hz by done. clearbody j. subst z1.
  by rewrite zip_with_take.
Qed.

(** A record without schemas and rows. *)
Definition quiet_log (log : record) : Prop :=
  Forall (fun we => (forall relid, schema_of relid we = None) /\ event_row (snd we) = None) log.

Lemma quiet_messages fmt pre plain log : forall past, quiet_log log -> messages_of le L pre plain fmt past log [].
Proof.
  induction log as [|we log IH]; intros past Hq; [constructor|]. apply list.Forall_cons in Hq as [[_ Hrow] Hq].
  apply (messages_cons _ _ _ _ _ _ we log [] []); [|by apply IH]. unfold event_messages. by rewrite Hrow.
Qed.

Lemma quiet_announced log relid : quiet_log log -> announced log relid = None.
Proof.
  unfold announced. intros Hq. replace (omap (schema_of relid) log) with (@nil (option schema_arg * schema_arg)); [done|].
  induction Hq as [|we log [Hno _] _ IH]; [done|]. simpl. by rewrite Hno.
Qed.

(** A fresh reader and no table known. *)
Lemma stage_initial r0 c0 log0 n F registry pre opens :
  frame_reader_new = Ret r0 -> 3 * Z.of_nat n < 2 ^ 29 -> F (feed_of c0) ->
  mapper c0 = table_mapper_new registry pre opens -> quiet_log log0 ->
  stage le L (k_produced (kafka c0)) (output_format c0) pre (bool_decide (registry = None)) ∅ n log0 F (r0, (c0, log0)).
Proof.
  intros Hr0 Hn HF Hmap Hq. destruct frame_reader_new_knows as (r0' & Hr0' & Hk & Hnil). assert (r0' = r0) as -> by congruence.
  split; [done| |done|done|done| |].
  - cbn [fst]. rewrite Hnil. simpl length. lia.
  - cbn [fst snd]. rewrite Hmap. split; simpl; [|lia|done|by intros ?%bool_decide_eq_true|done].
    split_and!; try done; constructor.
  - exists []. split; [by apply quiet_messages|]. by rewrite app_nil_r.
Qed.

(** C3: From Postgres to Kafka. Postgres makes any sequence of calls of the output plugin and
    sends the frames, at any positions and with any keepalive messages and pauses in
    between; the program, streaming, polls at most as often as something arrives. Whenever
    it has got so far or a signal has ended the loop, the callbacks were run for exactly
    the events of the first calls, in order and with the positions of their frames:
    transactions, schemas when they are new, and the changed rows translated to Avro; Kafka
    was handed exactly one message for every row event (none for a deletion without key), in
    that order: to the topic of the table name announced last, with the prefix if there is
    one, and with the key and row in the output format; and the frame reader can be
    released. If everything was polled and there was no signal, these are all the calls,
    and nothing that arrived is left. *)
Theorem postgres_to_kafka l s0 s' wals server_le cps tail registry pre opens r0 c0 n r c log :
  Forall (call_ok L P) l -> 3 * Z.of_nat (length l) < 2 ^ 29 ->
  output_avro_startup = Ret s0 -> plugin_calls L P l s0 = (Ret tt, s') ->
  length wals = length l -> stream_of server_le (zip wals (snd s')) cps ->
  frame_reader_new = Ret r0 -> at_stream (cps ++ tail) (feed_of c0) ->
  mapper c0 = table_mapper_new registry pre opens ->
  (n <= length cps)%nat -> steps_rec n (r0, (c0, [])) = (Ret tt, (r, (c, log))) ->
  exists j ess k' msgs,
    calls_events L P ∅ (take j l) ess k' /\ log = stamped (zip (take j wals) (take j (snd s'))) ess /\
    messages_of le L pre (bool_decide (registry = None)) (output_format c0) [] log msgs /\
    k_produced (kafka c) = k_produced (kafka c0) ++ msgs /\ frame_reader_free r = Ret (reader_released r) /\
    (n = length cps -> received_shutdown_signal c = 0 -> j = length l /\ at_stream tail (feed_of c)).
Proof.
  intros Hl Hlen Hs0 Hcalls Hw Hstr Hr0 Hfeed Hmap Hn Hrun.
  destruct (plugin_frames l s0 s' Hl Hs0 Hcalls) as (ess & k' & Hce & Hfe & Hlens).
  assert (Hsnd : snd <$> zip wals (snd s') = snd s') by (apply snd_zip; lia).
  pose proof (stage_initial r0 c0 [] (length (zip wals (snd s'))) _ _ _ _ Hr0 ltac:(rewrite length_zip; lia) Hfeed Hmap
    (List.Forall_nil _)) as Hs.
  rewrite <- Hsnd in Hfe. destruct (decide (n = length cps /\ received_shutdown_signal c = 0)) as [[-> Hsig]|Hno].
  - pose proof (stream_steps le clock L json_dumps json_loadb _ _ _ _ Hparse server_le _ _ Hstr ess ∅ k' [] tail _ _
      Hfe Hs Hrun Hsig) as [Hk' _ Hlog Ht _ _ (msgs & Hmsgs & Hp)].
    simpl in *. exists (length l), ess, k', msgs. subst log. rewrite !take_ge by lia.
    do 4 (split; [done|]). split; [by apply frame_reader_free_ok, Hk'|done].
  - destruct (stream_some le clock L json_dumps json_loadb _ _ _ _ Hparse server_le _ _ Hstr n ess ∅ k' [] tail _ _
      Hn Hfe Hs Hrun) as (z1 & z2 & ess1 & ess2 & k1 & cps2 & Hz & -> & Hlz & [Hk1 _ Hlog _ _ _ (msgs & Hmsgs & Hp)]).
    destruct (calls_taken wals (snd s') l z1 z2 ess1 ess2 k' Hz Hlz Hw Hlens Hce) as (j & k2 & Hj & -> & Hce1).
    simpl in *. exists j, ess1, k2, msgs. subst log.
    do 4 (split; [done|]). split; [by apply frame_reader_free_ok, Hk1|]. intros En Hsig. by destruct Hno.
Qed.

(** C4: A first run. The program reads the snapshot and then streams. The export function of
    the server returns the frames of all tables; they arrive as rows of results, however
    they are grouped and delayed; then the frames of the plugin's calls arrive on the
    replication connection, as in [postgres_to_kafka]. If the program is not ended meanwhile, the callbacks
    were run for exactly one insertion for every exported row, at position 0, with each
    table's schemas before its first row; then for the commit of the snapshot, at the
    position where the slot starts; then for exactly the events of the plugin's calls.
    Kafka was handed one message for every row event, in that order and as described
    there. *)
Theorem snapshot_then_stream cat (Q : spi P) allow_unkeyed rows plan x0 x1 fs x' ts
  l s0 s' wals server_le cps tail start registry pre opens r0 c0 r c log :
  spi_table_list P Q = inr rows -> Forall2 (row_table cat) rows (map fst plan) ->
  NoDup (map Snapshot.t_relid (map fst plan)) -> allow_unkeyed = true \/ Forall keyed (map fst plan) ->
  Forall (table_exportable L P cat Q) plan ->
  new_export_state P = Ret x0 -> export_first_call P cat Q allow_unkeyed x0 = (Ret tt, x1) ->
  export_all L P cat Q (S (total_rows P plan)) [] x1 = (Ret fs, x') -> export_of fs ts ->
  Forall (call_ok L P) l -> 3 * Z.of_nat (total_rows P plan + length l) < 2 ^ 29 ->
  output_avro_startup = Ret s0 -> plugin_calls L P l s0 = (Ret tt, s') ->
  length wals = length l -> stream_of server_le (zip wals (snd s')) cps ->
  frame_reader_new = Ret r0 -> at_export ts (cps ++ tail) start (feed_of c0) ->
  mapper c0 = table_mapper_new registry pre opens ->
  steps_rec (length ts + length cps) (r0, (c0, [])) = (Ret tt, (r, (c, log))) -> received_shutdown_signal c = 0 ->
  exists tess k1 ess k2 msgs,
    tables_events L P cat ∅ plan tess k1 /\ calls_events L P ∅ l ess k2 /\
    log = stamped (exported fs) tess ++ [(start, ECommit 0)] ++ stamped (zip wals (snd s')) ess /\
    messages_of le L pre (bool_decide (registry = None)) (output_format c0) [] log msgs /\
    k_produced (kafka c) = k_produced (kafka c0) ++ msgs /\
    at_stream tail (feed_of c) /\ frame_reader_free r = Ret (reader_released r).
Proof.
  intros Hq Hrows Hnd Hkeys Hex Hx0 Hx1 Hfs Hts Hl Hlen Hs0 Hcalls Hw Hstr Hr0 Hfeed Hmap Hrun Hsig.
  destruct (export_frames L P cat Q allow_unkeyed rows plan Hq Hrows Hnd Hkeys Hex)
    as (x0' & x1' & fs' & x2 & tess & k1 & E0 & E1 & _ & E3 & _ & Hfl & Hte & Hfe1).
  assert (fs' = fs) as -> by congruence.
  destruct (plugin_frames l s0 s' Hl Hs0 Hcalls) as (ess & k2 & Hce & Hfe2 & Hlens).
  assert (Hsnd : snd <$> zip wals (snd s') = snd s') by (apply snd_zip; lia).
  assert (Hzip : length (zip wals (snd s')) = length l) by (rewrite length_zip; lia).
  pose proof (stage_initial r0 c0 [] (length fs + length (zip wals (snd s'))) _ _ _ _ Hr0 ltac:(lia) Hfeed Hmap
    (List.Forall_nil _)) as Hs.
  destruct (export_steps le clock L json_dumps json_loadb _ _ _ _ Hparse fs ts Hts tess ∅ k1 _ [] _ start _ _ _ Hfe1 Hs Hrun Hsig)
    as (rx1 & Hs1 & Hrun1).
  destruct (frames_events_mono L _ _ _ _ k1 Hfe2 (map_empty_subseteq _)) as (K & _ & Hfe2').
  pose proof (stream_steps le clock L json_dumps json_loadb _ _ _ _ Hparse server_le _ _ Hstr ess k1 K _ tail _ _
    ltac:(by rewrite Hsnd) Hs1 Hrun1 Hsig) as [Hk' _ Hlog Ht _ _ (msgs & Hmsgs & Hp)].
  cbn [fst snd app] in *. rewrite <- (assoc_L (++)) in Hlog, Hmsgs. exists tess, k1, ess, k2, msgs. subst log.
  do 6 (split; [done|]). by apply frame_reader_free_ok, Hk'.
Qed.

End pipeline.

(** ** A run *)

(** The sample calls; the frames arrive with a keepalive message and a pause in between. *)
Definition flow_frames : list (list Z) :=
  match output_avro_startup with
  | Ret s0 => snd (snd (plugin_calls ref_lib sample_pg sample_calls s0))
  | _ => []
  end.
Definition flow_zeros : list Z := replicate 8 0.
Definition flow_wals : list Z := [60; 61; 62; 63; 70].
Definition flow_copies : list copy_result :=
  let data w f := wal_message true w flow_zeros flow_zeros f in
  match zip_with data flow_wals flow_frames with
  | d :: ds => d :: CopyData (107 :: replicate 17 0) :: CopyNone :: ds
  | [] => []
  end.
(** The program as it is after its start, with this stream. *)
Definition flow_context : producer_context :=
  let c := started_context in
  let s := repl (client c) in
  set_client (set_selects [(0, 0)] (set_repl (set_conn (PGconn [] [] flow_copies [] [] [] []) s) (client c))) c.
Definition flow_after : outcome unit * (frame_reader * recorded_state) :=
  main_steps (HX := Has_fst producer_context record) true demo_clock ref_lib run_cbs (length flow_copies)
    (started_reader, (flow_context, [])).
Definition flow_reader : frame_reader := fst (snd flow_after).
Definition flow_end : producer_context := fst (snd (snd flow_after)).
Definition flow_log : record := snd (snd (snd flow_after)).

(** Four messages: the insertion, the update that changes the key (a deletion and an
    insertion), the deletion. *)
Example flow_messages :
  (fun m => (k_key m, bool_decide (k_val m = None))) <$> k_produced (kafka flow_end) =
    [(Some (prefix_bytes 7 ++ [2; 14]), false); (Some (prefix_bytes 7 ++ [2; 14]), true);
     (Some (prefix_bytes 7 ++ [2; 16]), false); (Some (prefix_bytes 7 ++ [2; 16]), true)].
Proof. vm_compute. reflexivity. Qed.

(** Any five frames that are not empty. *)
Lemma flow_stream_of f1 f2 f3 f4 f5 :
  let data w f := wal_message true w flow_zeros flow_zeros f in
  Forall (fun f => f <> []) [f1; f2; f3; f4; f5] ->
  stream_of true [(60, f1); (61, f2); (62, f3); (63, f4); (70, f5)]
    [data 60 f1; CopyData (107 :: replicate 17 0); CopyNone; data 61 f2; data 62 f3; data 63 f4; data 70 f5].
Proof.
  intros data. rewrite !list.Forall_cons. intros (? & ? & ? & ? & ? & _).
  apply stream_data; [done..|]. apply stream_keepalive, stream_pause.
  do 4 (apply stream_data; [done..|]). apply stream_end.
Qed.

Lemma flow_stream : stream_of true (zip flow_wals flow_frames) flow_copies.
Proof.
  pose proof (flow_stream_of (flow_frames !!! 0%nat) (flow_frames !!! 1%nat) (flow_frames !!! 2%nat)
    (flow_frames !!! 3%nat) (flow_frames !!! 4%nat)) as H.
  vm_compute in H |- *. apply H. repeat constructor; done.
Qed.

Lemma ref_parse json n : avro_schema_from_json_length ref_lib json n <> Err 0.
Proof. simpl. unfold text_schema. by case_match. Qed.

Lemma postgres_to_kafka_witness :
  exists j ess k' msgs, calls_events ref_lib sample_pg ∅ (take j sample_calls) ess k' /\
    flow_log = stamped (zip (take j flow_wals) (take j flow_frames)) ess /\
    messages_of true ref_lib None false OUTPUT_FORMAT_AVRO [] flow_log msgs /\
    k_produced (kafka flow_end) = msgs.
Proof.
  destruct (postgres_to_kafka true demo_clock ref_lib sample_pg any_dumps id_seven ref_parse sample_calls
    (frame_value [], schema_cache_new, [])
    (snd (plugin_calls ref_lib sample_pg sample_calls (frame_value [], schema_cache_new, [])))
    flow_wals true flow_copies [] (m_registry (mapper flow_context)) None [] started_reader flow_context
    (length flow_copies) flow_reader flow_end flow_log) as (j & ess & k' & msgs & H1 & H2 & H3 & H4 & _ & _);
    [apply sample_calls_ok|by vm_compute|done|by vm_compute|done|exact flow_stream|by vm_compute
    |by vm_compute|by vm_compute|done|by vm_compute|].
  exists j, ess, k', msgs. split; [done|]. split; [done|]. split; [exact H3|exact H4].
Defined.

(** A first run: the snapshot has two rows, then the same stream. *)
Definition text_of_bytes (l : list Z) : string :=
  foldr (fun b s => String (Ascii.ascii_of_nat (Z.to_nat b)) s) EmptyString l.
Definition first_export : export_state sample_pg :=
  match new_export_state sample_pg with
  | Ret x0 => snd (export_first_call sample_pg sample_catalog sample_spi false x0)
  | _ => ExportState sample_pg [] 0 (frame_value [], ∅) ([], []) []
  end.
Definition first_frames : list (list Z) :=
  match fst (export_all ref_lib sample_pg sample_catalog sample_spi 3 [] first_export) with Ret fs => fs | _ => [] end.
(** The rows come one by one, after a pause, followed by an empty result. *)
Definition first_result (f : list Z) : pg_result := PGresult PGRES_SINGLE_TUPLE [[Some (text_of_bytes f)]] 1 1.
Definition first_turns : list turn :=
  TBusy :: map (fun f => TRows (first_result f)) first_frames ++ [TRows (PGresult PGRES_TUPLES_OK [] 1 1); TEnd].
Definition first_context : producer_context :=
  let c := flow_context in
  let sql := PGconn [ok_result] (omap turn_result first_turns) [] [] (turn_busy <$> first_turns) [] [] in
  let repl_conn := PGconn [PGresult PGRES_COPY_BOTH [] 0 0] [] flow_copies [] [] [] [] in
  set_mapper (set_m_registry (Some (schema_registry_new "" (replicate 4 (HttpResponse 0 200 [""])))) (mapper c))
    (set_client (set_selects [(0, 0); (0, 0)] (set_taking_snapshot true (set_sql_conn (Some sql)
      (set_repl (set_start_lsn 50 (set_conn repl_conn (repl (client c)))) (client c))))) c).
Definition first_after : outcome unit * (frame_reader * recorded_state) :=
  main_steps (HX := Has_fst producer_context record) true demo_clock ref_lib run_cbs
    (length first_turns + length flow_copies) (started_reader, (first_context, [])).
Definition first_reader : frame_reader := fst (snd first_after).
Definition first_end : producer_context := fst (snd (snd first_after)).
Definition first_log : record := snd (snd (snd first_after)).

(** The two rows of the snapshot, then the four messages of the stream. *)
Example first_messages :
  (fun m => (env_wal_pos (k_envelope m), k_key m)) <$> k_produced (kafka first_end) =
    [(0, Some (prefix_bytes 7 ++ [2; 2])); (0, Some (prefix_bytes 7 ++ [2; 4]));
     (61, Some (prefix_bytes 7 ++ [2; 14])); (62, Some (prefix_bytes 7 ++ [2; 14]));
     (62, Some (prefix_bytes 7 ++ [2; 16])); (63, Some (prefix_bytes 7 ++ [2; 16]))].
Proof. vm_compute. reflexivity. Qed.

(** Any two frames. *)
Lemma first_turns_of f1 f2 :
  bytes_of_string (text_of_bytes f1) = f1 -> bytes_of_string (text_of_bytes f2) = f2 ->
  export_of [f1; f2] [TBusy; TRows (first_result f1); TRows (first_result f2);
    TRows (PGresult PGRES_TUPLES_OK [] 1 1); TEnd].
Proof.
  intros H1 H2. assert (Hrow : forall f, bytes_of_string (text_of_bytes f) = f -> frame_rows (first_result f) [f]).
  { intros f Hf. split; [done|]. split; [done|]. constructor; [|constructor]. by eexists. }
  apply export_busy. apply (export_rows _ [f1]); [by left|by apply Hrow|].
  apply (export_rows _ [f2]); [by left|by apply Hrow|]. apply (export_rows _ []); [by right|by repeat split|].
  apply export_end.
Qed.

Lemma first_turns_export : export_of first_frames first_turns.
Proof.
  pose proof (first_turns_of (first_frames !!! 0%nat) (first_frames !!! 1%nat) ltac:(by vm_compute) ltac:(by vm_compute)) as H.
  vm_compute in H |- *. exact H.
Qed.

Lemma outcome_pair {A B} (p : outcome A * B) a : fst p = Ret a -> p = (Ret a, snd p).
Proof. destruct p. by intros [= ->]. Qed.

Lemma first_export_ok :
  export_first_call sample_pg sample_catalog sample_spi false
    (ExportState sample_pg [] 0 (frame_value [], ∅) ([], []) []) = (Ret tt, first_export).
Proof. apply (outcome_pair _ tt). by vm_compute. Qed.
Lemma first_frames_ok :
  export_all ref_lib sample_pg sample_catalog sample_spi 3 [] first_export =
  (Ret first_frames, snd (export_all ref_lib sample_pg sample_catalog sample_spi 3 [] first_export)).
Proof. apply (outcome_pair _ first_frames). by vm_compute. Qed.
Lemma flow_frames_ok :
  plugin_calls ref_lib sample_pg sample_calls (frame_value [], schema_cache_new, []) =
  (Ret tt, snd (plugin_calls ref_lib sample_pg sample_calls (frame_value [], schema_cache_new, []))).
Proof. vm_compute. reflexivity. Qed.
Lemma first_reads : at_export first_turns (flow_copies ++ []) 50 (feed_of first_context).
Proof. rewrite app_nil_r. split; [eexists; split; [reflexivity|done]|]. by vm_compute. Qed.
Lemma first_runs :
  main_steps (HX := Has_fst producer_context record) true demo_clock ref_lib run_cbs
    (length first_turns + length flow_copies) (started_reader, (first_context, [])) =
  (Ret tt, (first_reader, (first_end, first_log))).
Proof. vm_compute. reflexivity. Qed.

Lemma snapshot_then_stream_witness :
  exists tess k1 ess k2 msgs, tables_events ref_lib sample_pg sample_catalog ∅ [(sample_export, sample_cursor)] tess k1 /\
    calls_events ref_lib sample_pg ∅ sample_calls ess k2 /\
    first_log = stamped (exported first_frames) tess ++ [(50, ECommit 0)] ++ stamped (zip flow_wals flow_frames) ess /\
    messages_of true ref_lib None false OUTPUT_FORMAT_AVRO [] first_log msgs /\
    k_produced (kafka first_end) = msgs.
Proof.
  destruct (snapshot_then_stream true demo_clock ref_lib sample_pg any_dumps id_seven ref_parse sample_catalog sample_spi false
    [sample_catalog_row] [(sample_export, sample_cursor)]
    (ExportState sample_pg [] 0 (frame_value [], ∅) ([], []) []) first_export first_frames
    (snd (export_all ref_lib sample_pg sample_catalog sample_spi 3 [] first_export)) first_turns sample_calls
    (frame_value [], schema_cache_new, [])
    (snd (plugin_calls ref_lib sample_pg sample_calls (frame_value [], schema_cache_new, [])))
    flow_wals true flow_copies [] 50 (m_registry (mapper first_context)) None [] started_reader first_context
    first_reader first_end first_log)
    as (tess & k1 & ess & k2 & msgs & H1 & H2 & H3 & H4 & H5 & _);
    [done|apply sample_row_table|apply NoDup_singleton|right; apply Forall_singleton; by eexists
    |apply Forall_singleton, sample_exportable|done|exact first_export_ok|exact first_frames_ok
    |exact first_turns_export|apply sample_calls_ok|by vm_compute|done|exact flow_frames_ok|done
    |exact flow_stream|by vm_compute|exact first_reads|by vm_compute|exact first_runs|by vm_compute|].
  exists tess, k1, ess, k2, msgs. split; [done|]. split; [done|]. split; [exact H3|]. split; [exact H4|exact H5].
Defined.
