(* ===== verification/Progress.v ===== *)
(** * The loop goes on

    In surroundings that work, every iteration of the main loop returns, and at the end of
    what Postgres sends everything has been acknowledged and the flushed position is that of
    the last commit. *)

From S2P Require Import Prelude Avro AvroBinary IoUtil Protocol Oid2Avro Sample SchemaCache.
From S2P Require Import ProtocolServer LogDecoder ProtocolClient EndToEnd Snapshot NetBytes Libpq.
From S2P Require Import Replication Connect Registry TableMapper Json Producer ProducerSafety Delivery.
From S2P Require Import Main Program Quiet Liveness Pipeline.
Open Scope Z_scope.

(** ** Surroundings that work *)

(** A wait that ends without an error: at a timeout, a signal, or when data arrives. *)
Definition waitable (s : Z * Z) : Prop := fst s = 0 \/ (fst s < 0 /\ snd s = EINTR) \/ 0 < fst s.

(** The next [w] waits end so, and reading from the connections succeeds. *)
Record patient (w : nat) (o : outlook) : Prop := {
  patient_selects : Forall waitable (ol_selects o);
  patient_many : (w <= length (ol_selects o))%nat;
  patient_flags : Forall (eq true) (ol_flags o);
  patient_reads : (w <= length (ol_flags o))%nat;
  patient_sql fl rp : ol_sql o = Some (fl, rp) -> Forall (eq true) fl /\ (w <= length fl)%nat;
}.

(** The answers to commands that are left on the two connections. *)
Definition heard (o : outlook) : list pg_result * option (list pg_result) := (ol_replies o, snd <$> ol_sql o).

(** A keepalive message is complete. *)
Definition complete_copy (cp : copy_result) : Prop :=
  match cp with CopyData (107 :: buf) => (17 <= length buf)%nat | _ => True end.

Section progress.
Context (le : bool) (clock : nat -> Z * Z) (L : avro_lib) {HL : AvroConforms L}.
Context (json_dumps : list Z -> option string) (json_loadb : string -> option json).
Context (p0 : list kafka_msg) (fmt : format_t) (pre : option string) (plain : bool) (base : string) (N : service).
Context (Hparse : forall json n, avro_schema_from_json_length L json n <> Err 0).
Abbreviation cbs := (producer_callbacks le clock L json_dumps json_loadb).
Abbreviation state := (frame_reader * recorded_state)%type.
Abbreviation HX := (Has_fst producer_context record).
Abbreviation Has_cl := (Has_client_of (HX := HX)).
Abbreviation on_cl := (on_client (HX := Has_cl)).
Abbreviation on_st := (on_stream (HX := Has_stream (HX := Has_cl))).
Abbreviation stage := (stage le L p0 fmt pre plain).
Abbreviation acceptable_log := (all_acceptable le L json_dumps base fmt pre plain).

(** Between two iterations: [R] holds of the answers that are left, the next [j] polls
    acknowledge everything. *)
Definition rested (j : nat) (R : list pg_result * option (list pg_result) -> Prop) (e : outlook) (kf : kafka_t) : Prop :=
  R (heard e) /\ owing j kf.
(** It is so after the next poll. *)
Definition resting (j : nat) (R : list pg_result * option (list pg_result) -> Prop) (e : outlook) (kf : kafka_t) : Prop :=
  R (heard e) /\ (j = svc_delay N \/ owing (S j) kf).

(** The producer is alive for [w] more waits and [v] more polls and updates, [O] holds
    of its outlook and of Kafka; [s] more tables may be announced. Acknowledgements take
    [svc_delay] polls more. *)
Record live (hx : history * Z) (w v s : nat) (O : outlook -> kafka_t -> Prop) (rx : state) : Prop := {
  live_alive : exists e, patient w e /\ O e (kafka (fst (snd rx))) /\
    alive (fst hx) 0 (snd hx) N (v + svc_delay N) v e (fst (snd rx));
  live_entries : entries_known (snd (snd rx)) (mapper (fst (snd rx)));
  live_room : accommodates json_loadb base s (mapper (fst (snd rx)));
}.

(** The state of the loop, and that it can go on. *)
Definition both (k : knowledge) (n : nat) (log : record) (F : feed -> Prop) (hx : history * Z) (w v s : nat)
  (O : outlook -> kafka_t -> Prop) (rx : state) : Prop := live hx w v s O rx /\ stage k n log F rx.

(** ** Work on the stream *)

Lemma on_st_run {A} (m : M replication_stream A) r c log :
  on_st m (r, (c, log)) = let '(o, c') := on_repl m c in (o, (r, (c', log))).
Proof. unfold on_stream, on_repl, zoom. simpl. by destruct (m (repl (client c))). Qed.

Lemma live_stream {A} (I : replication_stream -> Prop) (m : M replication_stream A) (Q : A -> Prop) hx w v v' s O :
  (v' <= v)%nat ->
  (forall st j, I st -> sendable (v + j) (conn_puts (conn st)) -> exists a st', m st = (Ret a, st') /\ Q a /\
     same_stream st st' /\ sendable (v' + j) (conn_puts (conn st'))) ->
  total (fun rx => live hx w v s O rx /\ I (repl (client (fst (snd rx))))) (on_st m)
    (fun a rx => live hx w v' s O rx /\ Q a).
Proof.
  intros Hv Hm [r [c log]] [[(e & Hpt & HO & Ha) He Hr] HI]. simpl in *.
  destruct (Hm (repl (client c)) (length (k_attempts (kafka c))) HI) as (a & st' & Hrun & HQ & Hsame & Hs).
  { apply (ready_puts _ _ _ _ _ (alive_ready _ _ _ _ _ _ _ _ Ha)). }
  destruct (on_repl_alive m a (fst hx) 0 (snd hx) N (v + svc_delay N) v' v e c st' Hrun Hsame) as [H1 H2]; [done..|].
  exists a. eexists. rewrite on_st_run, H1. split; [done|]. split; [|done]. split; [|done|done].
  exists e. split; [done|]. split; [done|]. eapply alive_less; [| |exact H2]; lia.
Qed.

(** With what is known about the stage before and after. *)
Lemma both_stream {A} (I : replication_stream -> Prop) (m : M replication_stream A) (Q : A -> Prop) k n log F k' n' log' F'
  hx w v v' s O E :
  (v' <= v)%nat -> (forall rx, stage k n log F rx -> I (repl (client (fst (snd rx))))) ->
  (forall st j, I st -> sendable (v + j) (conn_puts (conn st)) -> exists a st', m st = (Ret a, st') /\ Q a /\
     same_stream st st' /\ sendable (v' + j) (conn_puts (conn st'))) ->
  returns (stage k n log F) (on_st m) (fun _ => stage k' n' log' F') E ->
  total (both k n log F hx w v s O) (on_st m) (fun a rx => both k' n' log' F' hx w v' s O rx /\ Q a).
Proof.
  intros Hv HI Hm Hr rx [Hl Hs]. destruct (live_stream I m Q hx w v v' s O Hv Hm rx) as (a & rx' & Hrun & Hl' & HQ); [auto|].
  specialize (Hr rx Hs). rewrite Hrun in Hr. exists a, rx'. split; [done|]. split; [by split|done].
Qed.

(** Changes of the stream that concern neither the connection nor the position. *)
Lemma both_modify k n log F F' hx w v s O f :
  (forall st, same_stream st (f st) /\ conn_puts (conn (f st)) = conn_puts (conn st)) ->
  (forall cl, F (client_feed fmt cl) -> F' (client_feed fmt (set_repl (f (repl cl)) cl))) ->
  total (both k n log F hx w v s O) (on_st (modify f)) (fun _ => both k n log F' hx w v s O).
Proof.
  intros Hf HF. eapply total_weaken; [done| |apply (both_stream (fun _ => True) (modify f) (fun _ => True) k n log F k n log F'
    hx w v v s O (fun _ _ => True))].
  - by intros a rx [H _].
  - done.
  - done.
  - intros st j _ Hs. exists tt, (f st). destruct (Hf st) as [H1 H2]. rewrite H2. by split.
  - eapply stage_stream_ok with (Q := fun _ => F'). intros cl Hcl. by apply HF.
Qed.

Lemma both_keepalive k n log F hx w v s O :
  total (both k n log F hx w (S v) s O) (on_st (replication_stream_keepalive le clock))
    (fun _ => both k n log F hx w v s O).
Proof.
  eapply total_weaken; [done| |apply (both_stream (fun _ => True) _ (fun _ => True) k n log F k n log F
    hx w (S v) v s O (fun _ => stage k n log F))].
  - by intros a rx [H _].
  - lia.
  - done.
  - intros st j _ Hs. destruct (keepalive_sent le clock (v + j) st Hs) as (st' & Hrun & Hs' & Hsame). by exists tt, st'.
  - apply returns_preserves, stage_stays, stream_stay_keepalive.
Qed.

(** The next thing on the connection. *)
Lemma both_taken k n log cp cps hx w v s O :
  total (both k n log (at_stream (cp :: cps)) hx w v s O) (on_st (zoom PQgetCopyData))
    (fun x rx => both k n log (at_stream cps) hx w v s O rx /\ x = cp).
Proof.
  apply (both_stream (fun st => conn_copies (conn st) = cp :: cps) _ (fun x => x = cp) k n log (at_stream (cp :: cps)) k n log
    (at_stream cps) hx w v v s O (fun _ _ => True)); [done|..].
  - intros rx Hs. by destruct (stage_feed _ _ _ _ _ _ _ _ _ _ _ Hs).
  - intros st j Hc Hs. unfold zoom. simpl. unfold PQgetCopyData. rewrite Hc. by eexists _, _.
  - eapply stage_stream_ok with (Q := fun _ => at_stream cps).
    intros cl (Hc & H). unfold zoom. simpl in *. unfold PQgetCopyData. rewrite Hc. by split.
Qed.

(** ** Frames *)

(** The events [es] of a frame come at position [wal]; a transaction opens only with the
    first. *)
Definition opens_first (es : list event) : Prop := Forall (fun e => opening e = false) (tail es).
Lemma waiting_none es : Forall (fun e => opening e = false) es -> waiting_times N es = 0%nat.
Proof. induction 1 as [|e es He _ IH]; [done|]. unfold waiting_times, waiting_time in *. simpl. by rewrite He. Qed.
Lemma waiting_first es : opens_first es -> (waiting_times N es <= S (svc_delay N))%nat.
Proof.
  destruct es as [|e es]; intros H%waiting_none; [unfold waiting_times; simpl; lia|].
  change (waiting_time N e + waiting_times N es <= S (svc_delay N))%nat. simpl in H. rewrite H.
  unfold waiting_time. destruct (opening e); lia.
Qed.
Abbreviation at_wal wal es := ((fun e => (wal, e)) <$> es : record).

Lemma both_frame k n log F hx hx' w v s O P wal ms es k' :
  Forall wf_message ms -> (length ms <= 3)%nat -> msg_events L k ms es k' ->
  plays hx (at_wal wal es) = Some hx' -> acceptable_log log (at_wal wal es) ->
  (forall e kf, O e kf -> P e) -> (length (h_txns (fst hx')) <= svc_messages N)%nat ->
  total (both k (S n) log F hx w (waiting_times N es + v) (schemas_in (at_wal wal es) + s) O) (parse_frame L (recording cbs) wal (frame_bytes L ms))
    (fun _ => both k' n (log ++ at_wal wal es) F hx' w v s (fun e _ => P e)).
Proof.
  intros Hwf Hlen Hes Hplays Hacc HP HN [r [c log0]] [[(e & Hpt & HO & Ha) He Hr] Hs].
  pose proof (stage_frame le clock L json_dumps json_loadb p0 fmt pre plain Hparse k n log F wal ms es k'
    Hwf Hlen Hes (r, (c, log0)) Hs) as Hst.
  pose proof Hs as [H1 H2 H3 H4 H5 H6 _]. simpl in *. subst log0.
  destruct (parse_frame_spec L (recording cbs) wal ms es k k' r (c, log) Hwf H1 ltac:(lia) Hes) as (r' & Hrun & _).
  pose proof (msg_events_length L _ _ _ _ Hes) as Hes_len.
  destruct (notify_all_alive le clock L json_dumps json_loadb base fmt pre plain Hparse N (v + svc_delay N) v e wal es hx hx' s (3 * n) log c)
    as (c' & Hnot & Ha' & Hr' & He'); try done.
  { split; [by rewrite Nat.add_assoc| |done|done|done]. eapply tables_fewer; [|exact H6]. lia. }
  unfold frame_bytes in *. rewrite Hrun in Hst |- *. unfold after in *. rewrite Hnot in Hst |- *. simpl in Hst |- *.
  exists tt. eexists. split; [done|]. split; [|done]. split; [exists e; by eauto|done|done].
Qed.

(** ** Polling the stream *)

Abbreviation poll_stream := (replication_stream_poll (HX := Has_stream (HX := Has_cl)) le clock L (recording cbs)).

Lemma total_taken {A} k n log cp cps hx w v s O (f : copy_result -> M state A) K :
  total (both k n log (at_stream cps) hx w v s O) (f cp) K ->
  total (both k n log (at_stream (cp :: cps)) hx w v s O) (x ← on_st (zoom PQgetCopyData); f x) K.
Proof.
  intros Hf. eapply total_bind; [apply both_taken|intros x].
  apply total_assume with (X := x = cp); [by intros rx [_ H]|intros ->].
  eapply total_weaken; [|done|exact Hf]. by intros rx [H _].
Qed.

Lemma total_marked {A} k n log cps hx w v s O z (m : M state A) K :
  0 <= z -> total (both k n log (at_stream cps) hx w v s O) m K ->
  total (both k n log (at_stream cps) hx w v s O) (_ ← on_st (modify (set_r_status z)); m) K.
Proof.
  intros Hz Hm. eapply total_bind; [|intros ?; exact Hm]. apply both_modify; [done|].
  intros cl (E1 & E2 & E3 & E4). by split_and!.
Qed.

Lemma live_data k n log cps hx hx' w v s O P wal walend sendtime ms es k' server_le :
  is_u64 wal -> frame_bytes L ms <> [] -> length walend = 8%nat -> length sendtime = 8%nat ->
  Forall wf_message ms -> (length ms <= 3)%nat -> msg_events L k ms es k' ->
  plays hx (at_wal wal es) = Some hx' -> acceptable_log log (at_wal wal es) ->
  (forall e kf, O e kf -> P e) -> (length (h_txns (fst hx')) <= svc_messages N)%nat ->
  total (both k (S n) log (at_stream (wal_message server_le wal walend sendtime (frame_bytes L ms) :: cps)) hx w
      (waiting_times N es + S v)
      (schemas_in (at_wal wal es) + s) O)
    poll_stream (fun _ => both k' n (log ++ at_wal wal es) (at_stream cps) hx' w v s (fun e _ => P e)).
Proof.
  intros Hw Hne Hwe Hst Hwf Hlen Hes Hplays Hacc HP HN. unfold replication_stream_poll.
  apply total_taken. unfold wal_message. simpl app. apply total_marked; [done|].
  eapply total_bind with (Q := fun _ => both k' n (log ++ at_wal wal es) (at_stream cps) hx' w (S v) s (fun e _ => P e));
    [|intros _; apply both_keepalive].
  unfold parse_message. simpl Z.eqb. cbv iota. unfold parse_xlogdata_message.
  assert (Hbytes : (1 <= length (frame_bytes L ms))%nat) by (destruct (frame_bytes L ms); simpl; [done|lia]).
  replace (_ <? _) with false; [|symmetry; apply Z.ltb_ge; simpl length; rewrite !length_app, length_sendint64, Hwe, Hst; unfold hdrlen; lia].
  rewrite skipn_cons, drop_0. rewrite recv_sendint64 by apply s64_range. rewrite (u64_s64 wal) by done.
  replace (drop _ _) with (frame_bytes L ms).
  2:{ change (Z.to_nat hdrlen) with 25%nat. cbn [drop skipn].
      rewrite drop_app_ge, length_sendint64 by (rewrite length_sendint64; lia).
      rewrite drop_app_ge, Hwe by lia. rewrite drop_app_ge, Hst by lia. done. }
  set (J := both k' n (log ++ at_wal wal es) (at_stream cps) hx' w (S v) s (fun e _ => P e)).
  eapply total_bind with (Q := fun err rx => err = 0 /\ J rx).
  { apply total_status, (total_weaken (both k (S n) log (at_stream cps) hx w (waiting_times N es + S v) (schemas_in (at_wal wal es) + s) O) _ _ (fun _ => J));
      [done|by intros a rx H|by apply both_frame]. }
  intros err. apply total_assume with (X := err = 0); [by intros rx [? _]|intros ->].
  eapply total_bind with (Q := fun _ => J).
  { apply (total_weaken J _ _ (fun _ => J)); [by intros rx [_ H]|done|]. by apply both_modify. }
  intros _. apply (total_ret tt (fun _ => J)).
Qed.

Lemma live_pause k n log cps hx w v s O :
  total (both k n log (at_stream (CopyNone :: cps)) hx w (S v) s O) poll_stream
    (fun _ => both k n log (at_stream cps) hx w v s O).
Proof.
  unfold replication_stream_poll.
  apply total_taken, total_marked; [done|]. apply both_keepalive.
Qed.

(** A complete keepalive message, with or without a reply. *)
Lemma live_keepalive k n log cps hx w v s O buf :
  (17 <= length buf)%nat ->
  total (both k n log (at_stream (CopyData (107 :: buf) :: cps)) hx w (S (S v)) s O) poll_stream
    (fun _ => both k n log (at_stream cps) hx w v s O).
Proof.
  intros Hbuf. unfold replication_stream_poll.
  apply total_taken, total_marked; [done|].
  eapply total_bind with (Q := fun _ => both k n log (at_stream cps) hx w (S v) s O); [|intros _; apply both_keepalive].
  unfold parse_message. simpl Z.eqb. cbv iota.
  eapply total_weaken; [done| |apply (both_stream (fun _ => True) _ (fun _ => True) k n log (at_stream cps) k n log (at_stream cps)
    hx w (S (S v)) (S v) s O (fun _ => stage k n log (at_stream cps)))].
  - by intros a rx [H _].
  - lia.
  - done.
  - intros st j _ Hs. destruct (message_sent le clock (S v + j) 107 buf st Hbuf Hs) as (st' & Hrun & Hs' & Hsame). by exists tt, st'.
  - apply returns_preserves, stage_stays. intros y. unfold parse_keepalive_message, current_time, send_checkpoint. stream_stay.
Qed.

(** ** One iteration *)

Abbreviation poll_client := (db_client_poll (HX := Has_cl) le clock L (recording cbs)).
Abbreviation step_rec := (main_step (HX := HX) le clock L (recording cbs)).
Abbreviation steps_rec := (main_steps (HX := HX) le clock L (recording cbs)).
Abbreviation step_rest := (st ← on_cl (gets cl_status); _ ← when (st =? 0) (ensure (HX := HX) (on_cl db_client_wait));
  on_producer (HX := HX) rd_kafka_poll).

Lemma on_client_run {A} (m : M client_context A) r c log :
  on_cl m (r, (c, log)) = let '(o, cl) := m (client c) in (o, (r, (set_client cl c, log))).
Proof. unfold on_client, zoom. simpl. by destruct (m (client c)). Qed.

Lemma on_producer_run {A} (m : MP A) r c log :
  on_producer (HX := HX) m (r, (c, log)) = let '(o, c') := m c in (o, (r, (c', log))).
Proof. unfold on_producer, zoom. simpl. by destruct (m c). Qed.

Lemma patient_less w e : patient (S w) e -> patient w e.
Proof.
  intros [H1 H2 H3 H4 H5]. split; try done; [lia|lia|]. intros fl rp E. destruct (H5 fl rp E). split; [done|lia].
Qed.

(** A wait ends. *)
Lemma wait_patient w cl :
  patient (S w) (outlook_of cl) ->
  exists cl', db_client_wait cl = (Ret tt, cl') /\ patient w (outlook_of cl') /\
    conn_puts (conn (repl cl')) = conn_puts (conn (repl cl)) /\ fsync_lsn (repl cl') = fsync_lsn (repl cl) /\
    taking_snapshot cl' = taking_snapshot cl /\ heard (outlook_of cl') = heard (outlook_of cl) /\
    forall b, told_at_most b (repl cl) -> told_at_most b (repl cl').
Proof.
  intros Hp. pose proof (patient_less w _ Hp) as [L1 L2 L3 L4 L5]. destruct Hp as [H1 H2 H3 H4 H5]. simpl in *.
  unfold db_client_wait, heard. destruct (selects cl) as [|[ret errno] rest] eqn:Es; [simpl in H2; lia|].
  apply list.Forall_cons in H1 as [Hw H1]. unfold waitable in Hw. simpl in Hw, H2, L2.
  case_decide as Hd.
  { eexists. split; [reflexivity|]. split; [|by simpl; destruct (sql_conn cl)]. split; simpl; try done. lia. }
  destruct (Z.ltb_spec ret 0); [lia|]. unfold zoom, mbind, M_bind, PQconsumeInput, next_flag, gets. simpl.
  destruct (conn_flags (conn (repl cl))) as [|b flags] eqn:Ef; [simpl in H4; lia|].
  apply list.Forall_cons in H3 as [<- H3]. simpl in *.
  destruct (sql_conn cl) as [sql|] eqn:Esql.
  - destruct (H5 _ _ eq_refl) as [H6 H7]. unfold on_sql, set_selects. simpl. rewrite Esql. simpl.
    unfold PQconsumeInput, next_flag.
    destruct (conn_flags sql) as [|b fl] eqn:Efl; [simpl in H7; lia|]. apply list.Forall_cons in H6 as [<- H6]. simpl in *.
    eexists. split; [reflexivity|]. split; [|by cbn; rewrite ?Esql]. split; simpl; try done; try lia.
    intros ? ? [= <- <-]. split; [done|lia].
  - eexists. split; [reflexivity|]. split; [|by cbn; rewrite ?Esql]. split; simpl; try done; try lia.
    by rewrite Esql.
Qed.

Lemma ready_client n u v e c cl e' :
  conn_puts (conn (repl cl)) = conn_puts (conn (repl (client c))) -> outlook_of cl = e' ->
  ready n u v e c -> ready n u v e' (set_client cl c).
Proof. intros E1 E2 []. split; try done. simpl. by rewrite E1. Qed.

Lemma settled_client h extra c cl :
  fsync_lsn (repl cl) = fsync_lsn (repl (client c)) -> taking_snapshot cl = taking_snapshot (client c) ->
  (forall b, told_at_most b (repl (client c)) -> told_at_most b (repl cl)) ->
  settled h extra c -> settled h extra (set_client cl c).
Proof.
  intros E E2 Hto (t & Hinv & Hst). exists t. split; [apply (invariant_ext h t extra c); unfold fsync; auto|].
  intros Ho. destruct (Hst Ho) as (y & Hy & H). exists y. split; [done|]. unfold fsync in *. simpl. by rewrite E.
Qed.

Lemma ensure_run (m : M state unit) rx rx' : m rx = (Ret tt, rx') -> ensure (HX := HX) m rx = (Ret tt, rx').
Proof. intros Hm. unfold ensure. by rewrite (bind_Ret (status m) _ rx 0 rx' (status_Ret _ _ _ Hm)). Qed.

(** Waiting, and polling Kafka. *)
Lemma live_rest hx w v s O j R rx :
  (length (h_txns (fst hx)) <= svc_messages N)%nat -> (forall e kf, O e kf -> resting j R e kf) ->
  live hx (S w) (S v) s O rx ->
  exists rx', step_rest rx = (Ret tt, rx') /\ live hx w v s (rested j R) rx'.
Proof.
  intros HN HR. destruct rx as [r [c log]]. intros [(e & Hpt & HO & Ha) He Hr]. simpl in *. apply HR in HO as [HO Hj].
  assert (Hwait : exists c1 e1, when (cl_status (client c) =? 0) (ensure (HX := HX) (on_cl db_client_wait))
      (r, (c, log)) = (Ret tt, (r, (c1, log))) /\ patient w e1 /\ alive (fst hx) 0 (snd hx) N (S v + svc_delay N) (S v) e1 c1 /\
      mapper c1 = mapper c /\ heard e1 = heard e /\ kafka c1 = kafka c).
  { destruct (cl_status (client c) =? 0); [|exists c, e; split; [done|]; split; [by apply patient_less|done]].
    destruct Ha as [Hs Hx Hrd]. pose proof (ready_outlook _ _ _ _ _ Hrd) as <-.
    destruct (wait_patient w (client c) Hpt) as (cl & Hrun & Hpt' & Hputs & Hf & Hts & Hh & Hto).
    exists (set_client cl c), (outlook_of cl). split; [|split; [done|]; split; [|by split]].
    - cbn [when]. apply ensure_run. by rewrite on_client_run, Hrun.
    - split; [by apply settled_client|done|by eapply ready_client]. }
  destruct Hwait as (c1 & e1 & Hrun & Hpt1 & Ha1 & Hm & Hh & Hk1).
  destruct (poll_alive (fst hx) 0 (snd hx) N (v + svc_delay N) (S v) e1 c1 Ha1) as (c2 & Hpoll & Ha2 & _ & Hack).
  assert (Hm2 : mapper c2 = mapper c).
  { rewrite <- Hm. by destruct (maintains_Ret _ _ _ _ _ (stays_poll (feed_of c1) (k_produced (kafka c1)) (mapper c1)) ltac:(done) Hpoll) as (_ & _ & H). }
  exists (r, (c2, log)). split.
  - rewrite (bind_Ret (on_cl _) _ (r, (c, log)) (cl_status (client c)) (r, (c, log))) by (rewrite on_client_run; by destruct c).
    by rewrite (bind_Ret _ _ _ _ _ Hrun), on_producer_run, Hpoll.
  - split; simpl; [|by rewrite Hm2..]. exists e1. split; [done|]. split; [|by eapply alive_less; [| |exact Ha2]; lia].
    split; [by rewrite Hh|]. apply Hack. destruct Hj as [->|Hj]; [|by rewrite Hk1].
    eapply alive_owing; [exact HN| |exact Ha1]. lia.
Qed.

(** The status of the poll is stored; the client looks at itself first. *)
Lemma total_get {A} k n log F hx w v s O (m : client_context -> M state A) Q :
  (forall cl, F (client_feed fmt cl) -> total (both k n log F hx w v s O) (m cl) Q) ->
  total (both k n log F hx w v s O) (cl ← on_cl (gets (fun c => c)); m cl) Q.
Proof.
  intros Hm [r [c log0]] H. pose proof H as [_ Hs]. pose proof (stage_feed _ _ _ _ _ _ _ _ _ _ _ Hs) as Hf.
  pose proof (stage_format _ _ _ _ _ _ _ _ _ _ _ Hs) as Hfmt. simpl in Hf, Hfmt. unfold feed_of in Hf. rewrite Hfmt in Hf.
  destruct (Hm (client c) Hf (r, (c, log0)) H) as (a & rx & Hrun & HQ). exists a, rx. split; [|done].
  rewrite (bind_Ret (on_cl _) _ _ (client c) (r, (c, log0))); [done|]. rewrite on_client_run. by destruct c.
Qed.

(** The answers to commands may be used up. *)
Definition fewer (e e' : outlook) : Prop :=
  ol_selects e' = ol_selects e /\ ol_flags e' = ol_flags e /\
  forall fl rp, ol_sql e' = Some (fl, rp) -> exists rp', ol_sql e = Some (fl, rp').
Lemma fewer_refl e : fewer e e.
Proof. split; [done|]. split; [done|]. by eauto. Qed.
Lemma patient_fewer w e e' : fewer e e' -> patient w e -> patient w e'.
Proof.
  intros (E1 & E2 & E3) [H1 H2 H3 H4 H5]. split; rewrite ?E1, ?E2; try done.
  intros fl rp E. destruct (E3 fl rp E) as [rp' E']. by apply (H5 fl rp').
Qed.

(** Work of the client. *)
Lemma both_client {A} (m : M client_context A) a k n log F F' hx w v s O O' :
  (forall cl kf, F (client_feed fmt cl) -> O (outlook_of cl) kf -> exists cl', m cl = (Ret a, cl') /\
     F' (client_feed fmt cl') /\ O' (outlook_of cl') kf /\ fewer (outlook_of cl) (outlook_of cl') /\
     conn_puts (conn (repl cl')) = conn_puts (conn (repl cl)) /\ fsync_lsn (repl cl') = fsync_lsn (repl cl) /\
     taking_snapshot cl' = taking_snapshot cl /\
     forall b, told_at_most b (repl cl) -> told_at_most b (repl cl')) ->
  total (both k n log F hx w v s O) (on_cl m) (fun x rx => both k n log F' hx w v s O' rx /\ x = a).
Proof.
  intros Hm [r [c log0]] [[(e & Hpt & HO & [Hset Hx Hrd]) He Hr] Hs].
  pose proof (stage_feed _ _ _ _ _ _ _ _ _ _ _ Hs) as Hf. pose proof (stage_format _ _ _ _ _ _ _ _ _ _ _ Hs) as Hfmt.
  simpl in *. unfold feed_of in Hf. rewrite Hfmt in Hf. rewrite <- (ready_outlook _ _ _ _ _ Hrd) in *.
  destruct (Hm (client c) (kafka c) Hf HO) as (cl' & Hrun & HF & HO' & Hfew & E1 & E2 & E3 & E4).
  pose proof (stage_client le L p0 fmt pre plain k n log (fun f => f = client_feed fmt (client c))
    (fun cl => (Ret a, cl')) (fun _ => F') (fun _ _ => True) (fun _ _ => HF) (r, (c, log0))) as Hst.
  exists a, (r, (set_client cl' c, log0)). rewrite on_client_run in *. rewrite Hrun. split; [done|].
  split; [|done]. split.
  - split; [|done|done]. exists (outlook_of cl'). split; [by eapply patient_fewer|]. split; [done|].
    split; [by apply settled_client|done|by eapply ready_client].
  - apply Hst. destruct Hs. split; try done. simpl. unfold feed_of. by rewrite Hfmt.
Qed.

(** Changes of the client's own state. *)
Lemma both_client_modify k n log F F' hx w v s O f :
  (forall cl, conn (repl (f cl)) = conn (repl cl) /\ fsync_lsn (repl (f cl)) = fsync_lsn (repl cl) /\
     outlook_of (f cl) = outlook_of cl /\ taking_snapshot (f cl) = taking_snapshot cl) ->
  (forall cl, F (client_feed fmt cl) -> F' (client_feed fmt (f cl))) ->
  total (both k n log F hx w v s O) (on_cl (modify f)) (fun _ => both k n log F' hx w v s O).
Proof.
  intros Hf HF. eapply total_weaken; [done| |apply (both_client (modify f) tt k n log F F' hx w v s O O)].
  - by intros [] rx [H _].
  - intros cl kf Hcl HO. destruct (Hf cl) as (E1 & E2 & E3 & E4). exists (f cl). rewrite E3. split; [done|].
    split; [by apply HF|]. split; [done|]. split; [apply fewer_refl|]. unfold told_at_most. by rewrite E1.
Qed.

(** Work whose result is known. *)
Lemma total_client {A B} (m : M client_context A) a (g : A -> M state B) k n log F F' hx w v s O O' Q :
  (forall cl kf, F (client_feed fmt cl) -> O (outlook_of cl) kf -> exists cl', m cl = (Ret a, cl') /\
     F' (client_feed fmt cl') /\ O' (outlook_of cl') kf /\ fewer (outlook_of cl) (outlook_of cl') /\
     conn_puts (conn (repl cl')) = conn_puts (conn (repl cl)) /\ fsync_lsn (repl cl') = fsync_lsn (repl cl) /\
     taking_snapshot cl' = taking_snapshot cl /\
     forall b, told_at_most b (repl cl) -> told_at_most b (repl cl')) ->
  total (both k n log F' hx w v s O') (g a) Q ->
  total (both k n log F hx w v s O) (x ← on_cl m; g x) Q.
Proof.
  intros Hm Hg. eapply total_bind; [by eapply both_client|]. intros x.
  apply total_assume with (X := x = a); [by intros rx [_ ?]|intros ->]. eapply total_weaken; [|done|exact Hg]. by intros rx [].
Qed.

Lemma live_streaming k n log cps hx w v s O k' n' log' cps' hx' v' s' O' :
  total (both k n log (at_stream cps) hx w v s O) poll_stream (fun _ => both k' n' log' (at_stream cps') hx' w v' s' O') ->
  total (both k n log (at_stream cps) hx w v s O) poll_client (fun _ => both k' n' log' (at_stream cps') hx' w v' s' O').
Proof.
  intros Hp. unfold db_client_poll. apply total_get. intros cl (_ & _ & Hsql & _). simpl in Hsql. rewrite Hsql.
  eapply total_bind; [exact Hp|]. intros ?.
  apply both_client_modify; [done|]. intros cl' (H1 & H2 & H3 & H4). simpl in *. by split_and!.
Qed.

Lemma live_step k n log F hx w v s O k' n' log' F' hx' v' s' O' j R :
  (forall e kf, O' e kf -> resting j R e kf) -> waits fmt F' -> (length (h_txns (fst hx')) <= svc_messages N)%nat ->
  total (both k n log F hx (S w) v s O) poll_client (fun _ => both k' n' log' F' hx' (S w) (S v') s' O') ->
  total (both k n log F hx (S w) v s O) step_rec (fun _ => both k' n' log' F' hx' w v' s' (rested j R)).
Proof.
  intros HR HF HN Hp rx H. destruct (Hp rx H) as ([] & rx1 & Hrun & Hl & Hs).
  destruct (live_rest hx' w v' s' O' j R rx1 HN HR Hl) as (rx2 & Hrest & Hl2).
  exists tt, rx2. split.
  - unfold main_step. by rewrite (bind_Ret _ _ _ _ _ (ensure_run _ _ _ Hrun)).
  - split; [done|]. by apply (rest_stage le L p0 fmt pre plain k' n' log' F' HF rx1 tt rx2 Hs).
Qed.

Lemma live_next k n log F hx w v s O k' n' log' F' hx' v' s' O' j R m (Q : state -> Prop) :
  (forall e kf, O' e kf -> resting j R e kf) ->
  waits fmt F -> waits fmt F' -> (length (h_txns (fst hx')) <= svc_messages N)%nat ->
  total (both k n log F hx (S w) v s O) poll_client (fun _ => both k' n' log' F' hx' (S w) (S v') s' O') ->
  total (both k' n' log' F' hx' w v' s' (rested j R)) (steps_rec m) (fun _ => Q) ->
  total (both k n log F hx (S w) v s O) (steps_rec (S m)) (fun _ => Q).
Proof.
  intros HR [HF _] HF' HN Hp Hm rx H. destruct (live_step _ _ _ _ _ _ _ _ _ _ _ _ _ _ _ _ _ _ _ HR HF' HN Hp rx H) as ([] & rx1 & H1 & HJ).
  destruct (Hm rx1 HJ) as ([] & rx2 & H2 & HQ). exists tt, rx2. split; [|done]. cbn [main_steps].
  destruct H as [[(e & _ & _ & Ha) _ _] Hs]. pose proof (ready_signal _ _ _ _ _ (alive_ready _ _ _ _ _ _ _ _ Ha)) as Hsig.
  pose proof (HF _ (stage_feed _ _ _ _ _ _ _ _ _ _ _ Hs)) as Hst. destruct rx as [r [c log0]]. simpl in Hsig, Hst.
  rewrite (bind_Ret going_on _ _ true (r, (c, log0))).
  - by rewrite (bind_Ret _ _ _ _ _ H1).
  - unfold going_on. rewrite (bind_Ret (on_producer _) _ _ c (r, (c, log0))) by (by rewrite on_producer_run).
    rewrite Hsig, (proj2 (Z.leb_le _ _) Hst). done.
Qed.

(** ** The loop *)

Lemma both_mono k n log F hx w v v' s O rx :
  (v' <= v)%nat -> both k n log F hx w v s O rx -> both k n log F hx w v' s O rx.
Proof.
  intros Hv [[(e & Hpt & HO & [H1 H2 H3]) He Hr] Hs]. split; [|done]. split; [|done|done]. exists e. split; [done|].
  split; [done|]. split; [done|done|]. eapply ready_less; [| |exact H3]; lia.
Qed.

Lemma total_mono {A} k n log F hx w v v' s O (m : M state A) Q :
  (v' <= v)%nat -> total (both k n log F hx w v' s O) m Q -> total (both k n log F hx w v s O) m Q.
Proof. intros Hv Hm. eapply total_weaken; [|done|exact Hm]. intros rx. by apply both_mono. Qed.

Lemma schemas_in_app l1 l2 : schemas_in (l1 ++ l2) = (schemas_in l1 + schemas_in l2)%nat.
Proof. unfold schemas_in. by rewrite fmap_app, sum_list_with_app. Qed.

(** What arrives at once costs at most: an update that the server asks for or a wait in
    [begin_txn], an update of the loop, and a poll. *)
Definition per_turn : nat := 3 + svc_delay N.

(** The loop reads what arrives and comes to the next iteration. *)
Lemma stream_live server_le fs cps : stream_of server_le fs cps -> Forall complete_copy cps ->
  forall ess k k' log tail hx hx' w v s m Q,
  frames_events L k (snd <$> fs) ess k' -> plays hx (stamped fs ess) = Some hx' ->
  acceptable_log log (stamped fs ess) -> Forall opens_first ess -> (length (h_txns (fst hx')) <= svc_messages N)%nat ->
  total (both k' 0 (log ++ stamped fs ess) (at_stream tail) hx' w v s (rested (svc_delay N) (fun _ => True)))
    (steps_rec m) (fun _ => Q) ->
  total (both k (length fs) log (at_stream (cps ++ tail)) hx (length cps + w) (per_turn * length cps + v)
      (schemas_in (stamped fs ess) + s) (rested (svc_delay N) (fun _ => True)))
    (steps_rec (length cps + m)) (fun _ => Q).
Proof.
  induction 1 as [|wal frame walend sendtime fs cps Hw Hne Hwe Hst Hstr IH|buf fs cps Hstr IH|fs cps Hstr IH];
    intros Hcc ess k k' log tail hx hx' w v s m Q Hf Hplays Hacc Hopen HN Hm.
  - inversion Hf; subst. injection Hplays as <-. simpl in *. by rewrite app_nil_r, Nat.mul_0_r in *.
  - apply list.Forall_cons in Hcc as [_ Hcc].
    inversion Hf as [|? ms es k1 ? ess' ? Hme Hwf Hlen Hf' Eq]; subst.
    apply list.Forall_cons in Hopen as [Ho1 Hopen]. cbn [stamped] in *.
    apply plays_app in Hplays as (hx1 & Hp1 & Hp2).
    apply (all_acceptable_app le L json_dumps json_loadb base fmt pre plain) in Hacc as [Ha1 Ha2].
    pose proof (plays_txns _ _ _ Hp2) as Hmono. rewrite schemas_in_app, <- Nat.add_assoc.
    apply (total_mono _ _ _ _ _ _ _ (waiting_times N es + S (S (per_turn * length cps + v)))).
    { pose proof (waiting_first es Ho1). unfold per_turn. simpl. lia. }
    eapply live_next with (j := svc_delay N) (R := fun _ => True) (O' := fun _ _ => True);
      [by intros; split; [|left]|apply waits_stream|apply waits_stream| | |].
    3:{ rewrite (assoc_L (++)) in Hm. by eapply (IH Hcc _ _ _ _ _ _ _ _ _ _ _ _ Hf' Hp2 Ha2 Hopen HN Hm). }
    { lia. }
    apply live_streaming. apply (live_data _ _ _ _ _ _ _ _ _ _ (fun _ => True)); try done. lia.
  - apply list.Forall_cons in Hcc as [Hc Hcc].
    apply (total_mono _ _ _ _ _ _ _ (S (S (S (per_turn * length cps + v))))); [unfold per_turn; simpl; lia|].
    pose proof (plays_txns _ _ _ Hplays).
    eapply live_next with (R := fun _ => True); [|apply waits_stream|apply waits_stream| |apply live_streaming, live_keepalive|exact (IH Hcc _ _ _ _ _ _ _ _ _ _ _ _ Hf Hplays Hacc Hopen HN Hm)]; [|lia|done].
    by intros e kf _; split; [|left].
  - apply list.Forall_cons in Hcc as [_ Hcc].
    apply (total_mono _ _ _ _ _ _ _ (S (S (per_turn * length cps + v)))); [unfold per_turn; simpl; lia|].
    pose proof (plays_txns _ _ _ Hplays).
    eapply live_next with (R := fun _ => True); [|apply waits_stream|apply waits_stream| |apply live_streaming, live_pause|exact (IH Hcc _ _ _ _ _ _ _ _ _ _ _ _ Hf Hplays Hacc Hopen HN Hm)]; [|lia].
    by intros e kf _; split; [|left].
Qed.

(** During pauses the outstanding acknowledgements come in. *)
Lemma pauses_live R j : forall k n log tail hx w v s m Q,
  (length (h_txns (fst hx)) <= svc_messages N)%nat ->
  total (both k n log (at_stream tail) hx w v s (rested 0 R)) (steps_rec m) (fun _ => Q) ->
  total (both k n log (at_stream (replicate j CopyNone ++ tail)) hx (j + w) (2 * j + v) s (rested j R))
    (steps_rec (j + m)) (fun _ => Q).
Proof.
  induction j as [|j IH]; intros k n log tail hx w v s m Q HN Hm; [done|].
  apply (total_mono _ _ _ _ _ _ _ (S (S (2 * j + v)))); [lia|].
  eapply live_next with (j := j) (R := R); [|apply waits_stream|apply waits_stream|done
    |apply live_streaming, live_pause|by apply IH].
  intros e kf [HR Howe]. split; [done|by right].
Qed.

End progress.
