(* ===== verification/Calls.v ===== *)
(** * What Postgres calls

    The conditions under which everything arrives, in terms of the tables that are exported
    and the calls that Postgres makes of the plugin: transactions in order, topics that can
    be named, rows that can be put in the output format. From them follows what the loop
    needs to know of the events. *)

From S2P Require Import Prelude Avro AvroBinary IoUtil Protocol Oid2Avro Sample SchemaCache.
From S2P Require Import ProtocolServer LogDecoder ProtocolClient EndToEnd Snapshot NetBytes Libpq.
From S2P Require Import Replication Connect Registry TableMapper Json Producer ProducerSafety Delivery.
From S2P Require Import Main Program Quiet Liveness Pipeline Progress.
Open Scope Z_scope.

Section calls.
Context (le : bool) (L : avro_lib) (P : pg_lib) {HL : AvroConforms L}.
Context (json_dumps : list Z -> option string) (json_loadb : string -> option json).
(** The registry, the output format (JSON only without a registry) and the topic prefix. *)
Context (base : string) (fmt : format_t) (pre : option string) (plain : bool).
Context (Hfmt : fmt = OUTPUT_FORMAT_AVRO \/ (fmt = OUTPUT_FORMAT_JSON /\ plain = true)).
Abbreviation acceptable := (acceptable le L json_dumps base fmt pre plain).
Abbreviation acceptable_log := (all_acceptable le L json_dumps base fmt pre plain).

(** ** Tables and rows *)

(** The topic can be named after the table, and its schemas can be sent to the registry. *)
Definition welcome (cat : catalog) (rel : relation) : Prop :=
  let rs := schema_for_table_row cat rel in
  exists topic, topic_name_for pre (avro_schema_name rs) = Ret topic /\
    (plain = false ->
     (forall is_key, Z.of_nat (String.length (request_url base topic is_key)) < URL_BUFFER) /\
     json_dumps (schema_json L rs) <> None /\
     forall ks, schema_for_table_key cat rel = Ret (Some ks) -> json_dumps (schema_json L ks) <> None).

(** Values have a JSON text, if that is the output format. *)
Definition renders (v : value_arg) : Prop :=
  fmt = OUTPUT_FORMAT_JSON -> exists text, avro_value_to_json L (snd v) = Ret text.
Definition event_renders (e : event) : Prop :=
  match e with
  | EInsert _ k r | EUpdate _ k _ r => (forall x, k = Some x -> renders x) /\ renders r
  | EDelete _ k _ => forall x, k = Some x -> renders x
  | _ => True
  end.

(** The events of a call apart from schemas. *)
Definition call_body (x : pg_call P) : list event :=
  match x with
  | PBegin _ xid => [EBegin xid]
  | PCommit _ xid _ => [ECommit xid]
  | PChange _ cat rel c => row_events L P cat rel c
  end.
Definition call_welcome (x : pg_call P) : Prop :=
  match x with PChange _ cat rel _ => welcome cat rel | _ => True end /\ Forall event_renders (call_body x).

(** The transactions that calls at these positions make: [None] if Postgres never makes
    them in this order. *)
Fixpoint calls_play (hx : history * Z) (wals : list Z) (l : list (pg_call P)) : option (history * Z) :=
  match wals, l with
  | w :: wals, x :: l => hx' ← plays hx ((fun e => (w, e)) <$> call_body x); calls_play hx' wals l
  | _, _ => Some hx
  end.

(** ** Acceptable events *)

(** The tables known to the frame reader were announced to the producer. *)
Definition told (k : knowledge) (log : record) : Prop :=
  forall relid ks rs, k !! relid = Some (ks, rs) ->
    announced log relid = Some (schema_arg_of L <$> ks, schema_arg_of L rs) /\
    valid_schema rs = true /\ forall s, ks = Some s -> valid_schema s = true.

Lemma told_nothing log : told ∅ log.
Proof. intros relid ks rs H. by rewrite lookup_empty in H. Qed.

(** Schemas are welcome whatever came before. *)
Definition announces (e : event) : Prop :=
  match e with ESchema _ _ _ => forall past, acceptable past e | _ => True end.

Lemma parsed_schema s o : valid_schema s = true -> parsed L (Some (schema_json L s)) o -> o = Some s.
Proof. intros Hv (s' & Hs & ->). rewrite conf_schema_from_json in Hs by done. by injection Hs as ->. Qed.

(** Key or value of a row, decoded and rendered. *)
Lemma rendered so s v :
  valid_schema s = true -> parsed L (Some (schema_json L s)) so -> has_schema s v -> renders (value_arg_of L v) ->
  fmt = OUTPUT_FORMAT_JSON -> exists text, avro_bin_to_json L so (Some (encode L v)) = Ret (Some text).
Proof.
  intros Hv Hp Hs Hr E. rewrite (parsed_schema s so Hv Hp). destruct (Hr E) as [text Ht]. exists text.
  by apply avro_bin_to_json_spec.
Qed.

(** A row of a known table can be sent. *)
Lemma row_sendable k log relid ks rs kv vv :
  told k log -> k !! relid = Some (ks, rs) -> opt_has_schema ks kv -> opt_has_schema (Some rs) vv ->
  (forall v, kv = Some v -> renders (value_arg_of L v)) -> (forall v, vv = Some v -> renders (value_arg_of L v)) ->
  sendable_row le L fmt pre plain log relid (encode L <$> kv) (encode L <$> vv).
Proof.
  intros Ht Hk Hks Hrs Hrk Hrv. destruct (Ht relid ks rs Hk) as (Hann & Hvr & Hvk). eexists. split; [exact Hann|].
  intros topic table (_ & _ & _ & Hp). unfold encode_msg. destruct Hfmt as [->|[E Hplain]]; [by eexists|].
  destruct (Hp Hplain) as [Hpk Hpr]. rewrite E. simpl in Hpk, Hpr.
  assert (Hkey : exists o, avro_bin_to_json L (t_key_schema table) (encode L <$> kv) = Ret o).
  { destruct kv as [v|]; [|by exists None]. destruct Hks as (s & -> & Hs).
    destruct (rendered (t_key_schema table) s v (Hvk s eq_refl) Hpk Hs (Hrk v eq_refl) E) as [text Htext]. by exists (Some text). }
  assert (Hrow : exists o, avro_bin_to_json L (t_row_schema table) (encode L <$> vv) = Ret o).
  { destruct vv as [v|]; [|by exists None]. destruct Hrs as (s & [= <-] & Hs).
    destruct (rendered (t_row_schema table) rs v Hvr Hpr Hs (Hrv v eq_refl) E) as [text Htext]. by exists (Some text). }
  destruct Hkey as [ko Hko], Hrow as [ro Hro]. unfold json_encode_msg. rewrite Hko, Hro. by eexists.
Qed.

Lemma told_other k log we : (forall relid, schema_of relid we = None) -> told k log -> told k (log ++ [we]).
Proof. intros Hno Ht relid ks rs Hk. destruct we as [w e]. rewrite announced_snoc, Hno. by apply Ht. Qed.

Lemma event_admissible k m e k' w log :
  msg_event L k m e k' -> announces e -> event_renders e -> told k log ->
  acceptable log e /\ told k' (log ++ [(w, e)]).
Proof.
  intros He Hann Hren Ht. destruct He as [xid|xid lsn|relid ks rs _ Hvk Hvr|relid ks rs kv rv Hk Hks Hrs
    |relid ks rs kv ov rv Hk Hks _ Hrs|relid ks rs kv ov Hk Hks _].
  - split; [done|by apply told_other].
  - split; [done|by apply told_other].
  - split; [apply Hann|]. intros r ks' rs' Hr. rewrite announced_snoc. unfold schema_of. simpl.
    destruct (Z.eqb_spec relid r) as [->|Hne].
    + rewrite lookup_insert_eq in Hr. injection Hr as <- <-. done.
    + rewrite lookup_insert_ne in Hr by done. by apply Ht.
  - split; [|by apply told_other]. destruct Hren as [H1 H2]. unfold Liveness.acceptable. simpl.
    rewrite <- option_fmap_compose. apply (row_sendable k log relid ks rs kv (Some rv)); try done.
    + by eexists.
    + intros v ->. by apply H1.
    + by intros v [= <-].
  - split; [|by apply told_other]. destruct Hren as [H1 H2]. unfold Liveness.acceptable. simpl.
    rewrite <- option_fmap_compose. apply (row_sendable k log relid ks rs kv (Some rv)); try done.
    + by eexists.
    + intros v ->. by apply H1.
    + by intros v [= <-].
  - split; [|by apply told_other]. destruct kv as [v|]; [|done].
    apply (row_sendable k log relid ks rs (Some v) None); try done. intros v' [= <-]. by apply Hren.
Qed.

Lemma events_admissible k ms es k' : msg_events L k ms es k' -> Forall announces es -> Forall event_renders es ->
  forall w log, told k log ->
  acceptable_log log ((fun e => (w, e)) <$> es) /\ told k' (log ++ ((fun e => (w, e)) <$> es)).
Proof.
  induction 1 as [k|k m e k1 ms es k2 He Hes IH]; intros Hann Hren w log Ht; [simpl; by rewrite app_nil_r|].
  apply list.Forall_cons in Hann as [Ha1 Hann]. apply list.Forall_cons in Hren as [Hr1 Hren].
  destruct (event_admissible k m e k1 w log He Ha1 Hr1 Ht) as [H1 H2].
  destruct (IH Hann Hren w (log ++ [(w, e)]) H2) as [H3 H4]. rewrite <- (assoc_L (++)) in H4. done.
Qed.

Lemma frames_admissible k fs ess k' : frames_events L k fs ess k' ->
  Forall (Forall announces) ess -> Forall (Forall event_renders) ess ->
  forall pfs log, snd <$> pfs = fs -> told k log ->
  acceptable_log log (stamped pfs ess) /\ told k' (log ++ stamped pfs ess).
Proof.
  induction 1 as [k|k ms es k1 fs ess k2 Hes _ _ Hf IH]; intros Hann Hren [|[w f] pfs] log E Ht; try done.
  { simpl. by rewrite app_nil_r. }
  injection E as _ E. apply list.Forall_cons in Hann as [Ha1 Hann]. apply list.Forall_cons in Hren as [Hr1 Hren].
  destruct (events_admissible k ms es k1 Hes Ha1 Hr1 w log Ht) as [H1 H2]. cbn [stamped].
  destruct (IH Hann Hren pfs _ E H2) as [H3 H4]. rewrite <- (assoc_L (++)) in H4. split; [|done].
  by apply (all_acceptable_app le L json_dumps json_loadb base fmt pre plain).
Qed.

(** ** Shapes of events *)

(** What is known of the events of a frame: the schemas are welcome, the rows can be rendered,
    a transaction opens only with the first, and at most one table is announced. *)
Record good_frame (es : list event) : Prop := {
  good_announces : Forall announces es;
  good_renders : Forall event_renders es;
  good_opens : opens_first es;
  good_schemas : (sum_list (schema_count <$> es) <= 1)%nat;
}.

Lemma good_schemas_in pfs : forall ess, Forall good_frame ess -> (schemas_in (stamped pfs ess) <= length ess)%nat.
Proof.
  induction pfs as [|[w f] pfs IH]; intros [|es ess] Hg; simpl; try (unfold schemas_in; simpl; lia).
  apply list.Forall_cons in Hg as [Hg1 Hg]. rewrite schemas_in_app. pose proof (IH ess Hg).
  pose proof (good_schemas _ Hg1) as H1. unfold schemas_in at 1. rewrite <- list_fmap_compose. simpl.
  change (schema_count ∘ snd ∘ (fun e => (w, e))) with schema_count. lia.
Qed.

Lemma good_announced ess : Forall good_frame ess -> Forall (Forall announces) ess.
Proof. intros H. eapply List.Forall_impl; [|exact H]. by intros es []. Qed.
Lemma good_rendered ess : Forall good_frame ess -> Forall (Forall event_renders) ess.
Proof. intros H. eapply List.Forall_impl; [|exact H]. by intros es []. Qed.
Lemma good_opened ess : Forall good_frame ess -> Forall opens_first ess.
Proof. intros H. eapply List.Forall_impl; [|exact H]. by intros es []. Qed.

(** Such frames can go through the loop. *)
Lemma good_admissible k pfs ess k' log :
  frames_events L k (snd <$> pfs) ess k' -> Forall good_frame ess -> told k log ->
  acceptable_log log (stamped pfs ess) /\ told k' (log ++ stamped pfs ess).
Proof. intros Hf Hg. eapply frames_admissible; [exact Hf|by apply good_announced|by apply good_rendered|done]. Qed.

(** Changed rows. *)
Definition is_row (e : event) : Prop :=
  match e with EInsert _ _ _ | EUpdate _ _ _ _ | EDelete _ _ _ => True | _ => False end.

Lemma announces_schema cat rel ks :
  rel_sendable L cat rel -> welcome cat rel -> schema_for_table_key cat rel = Ret ks ->
  announces (ESchema (rd_id rel) (schema_arg_of L <$> ks) (schema_arg_of L (schema_for_table_row cat rel))).
Proof.
  intros [[Hvr _] Hvk] (topic & Hn & Hreg) Hks past. exists topic. split; [done|].
  assert (Hpost : forall is_key s, valid_schema s = true -> (plain = false -> json_dumps (schema_json L s) <> None) ->
    postable L json_dumps plain base topic is_key (Some (schema_json L s))).
  { intros is_key s Hv Hjs. split; [|exists s; by apply conf_schema_from_json]. intros E. destruct (Hreg E) as (Hu & _). auto. }
  split; [|apply Hpost; [done|by intros E; destruct (Hreg E) as (_ & ? & _)]].
  destruct ks as [s|]; [|done]. apply Hpost; [by apply Hvk|]. intros E. destruct (Hreg E) as (_ & _ & Hd). by apply Hd.
Qed.

(** A table's events: its schemas, if they are new or have changed, and rows. *)
Lemma table_good cat rel k k' es body :
  rel_sendable L cat rel -> welcome cat rel -> schema_events L cat rel k k' es ->
  Forall is_row body -> Forall event_renders body ->
  good_frame (es ++ body) /\ Forall (fun e => opening e = false) (es ++ body) /\
  forall w hx, plays hx ((fun e => (w, e)) <$> (es ++ body)) = plays hx ((fun e => (w, e)) <$> body).
Proof.
  intros Hsend Hwel (ks & Hks & _ & Hes) Hrow Hren.
  assert (Hann : Forall announces body) by (eapply List.Forall_impl; [|exact Hrow]; by intros []).
  assert (Hop : Forall (fun e => opening e = false) body) by (eapply List.Forall_impl; [|exact Hrow]; by intros []).
  assert (Hsch : sum_list (schema_count <$> body) = 0%nat).
  { clear -Hrow. induction Hrow as [|e body He _ IH]; [done|]. destruct e; try done; exact IH. }
  assert (Htail : forall l : list event, Forall (fun e => opening e = false) l -> opens_first l).
  { intros l Hl. unfold opens_first. by inversion Hl. }
  destruct Hes as [[-> _]| ->].
  - split; [split; [done|done|by apply Htail|rewrite app_nil_l, Hsch; lia]|done].
  - pose proof (announces_schema cat rel ks Hsend Hwel Hks) as H1.
    split; [split; [by constructor|by constructor|done|change (1 + sum_list (schema_count <$> body) <= 1)%nat; lia]|].
    split; [by constructor|]. by intros w [].
Qed.

Lemma row_events_rows cat rel c : Forall is_row (row_events L P cat rel c).
Proof. unfold row_events. repeat case_match; repeat constructor. Qed.

Lemma plays_bind hx l1 l2 : plays hx (l1 ++ l2) = plays hx l1 ≫= fun hx1 => plays hx1 l2.
Proof. revert hx. induction l1 as [|we l1 IH]; intros hx; simpl; [done|]. destruct (play hx we); simpl; auto. Qed.

Lemma call_good k x es k1 : call_events L P k x es k1 -> call_ok L P x -> call_welcome x ->
  good_frame es /\ forall w hx, plays hx ((fun e => (w, e)) <$> es) = plays hx ((fun e => (w, e)) <$> call_body x).
Proof.
  intros Hx Hok [Hwel Hren]. destruct Hx as [xid|xid lsn|cat rel c es k' Hse].
  - split; [|done]. split; [by repeat constructor..|simpl; lia].
  - split; [|done]. split; [by repeat constructor..|simpl; lia].
  - destruct Hok as (_ & Hsend & _).
    destruct (table_good cat rel k k' es (row_events L P cat rel c) Hsend Hwel Hse (row_events_rows cat rel c) Hren) as (H1 & _ & H2).
    split; [done|exact H2].
Qed.

Lemma calls_good k l ess k' : calls_events L P k l ess k' -> Forall (call_ok L P) l -> Forall call_welcome l ->
  Forall good_frame ess /\ length ess = length l /\
  forall wals fs hx, length wals = length l -> length fs = length l ->
    plays hx (stamped (zip wals fs) ess) = calls_play hx wals l.
Proof.
  induction 1 as [k|k x es k1 l ess k2 Hx Hl IH]; intros Hok Hwel.
  { split; [done|]. split; [done|]. by intros [|w wals] [|f fs] hx Hw Hf. }
  apply list.Forall_cons in Hok as [Hok1 Hok]. apply list.Forall_cons in Hwel as [Hwel1 Hwel].
  destruct (call_good k x es k1 Hx Hok1 Hwel1) as [H1 H2]. destruct (IH Hok Hwel) as (H3 & H4 & H5).
  split; [by constructor|]. split; [simpl; congruence|].
  intros [|w wals] [|f fs] hx Hw Hf; try done. injection Hw as Hw. injection Hf as Hf. cbn [zip_with stamped calls_play].
  rewrite plays_bind, H2. destruct (plays hx _) as [hx1|]; [by apply H5|done].
Qed.

(** ** What the snapshot holds *)

(** The history during the snapshot, after [n] rows. *)
Definition snapshot_history (n : nat) : history := History [0] true true (replicate n 0%nat).

Lemma play_exported n rel cat desc t :
  Z.of_nat n + 1 < 2 ^ 31 ->
  play (snapshot_history n, 0) (0, snapshot_row_event L P cat rel desc t) = Some (snapshot_history (n + 1), 0).
Proof.
  intros Hn. unfold play, snapshot_row_event. simpl. unfold h_row. rewrite decide_True.
  - simpl. unfold with_message, snapshot_history. simpl. by rewrite replicate_add.
  - split; [done|]. simpl. pose proof (length_filter (fun u => u = 0%nat) (replicate n 0%nat)) as Hl.
    rewrite length_replicate in Hl. change (current _) with 0%nat. lia.
Qed.

(** The tables of the export are welcome, and their rows can be rendered. *)
Definition plan_welcome (cat : catalog) (tc : export_table * (tupdesc * list (list (option (Datum P))))) : Prop :=
  let '(t, (desc, rows)) := tc in
  welcome cat (t_rel t) /\ Forall (fun row => event_renders (snapshot_row_event L P cat (t_rel t) desc row)) rows.

(** The rows of one table. *)
Lemma rows_good cat rel desc k rows ess k' : rows_events L P cat rel desc k rows ess k' ->
  rel_sendable L cat rel -> welcome cat rel ->
  Forall (fun row => event_renders (snapshot_row_event L P cat rel desc row)) rows ->
  Forall good_frame ess /\ Forall (Forall (fun e => opening e = false)) ess /\ length ess = length rows /\
  forall fs n, length fs = length rows -> Z.of_nat (n + length rows) < 2 ^ 31 ->
     plays (snapshot_history n, 0) (stamped (exported fs) ess) = Some (snapshot_history (n + length rows), 0).
Proof.
  induction 1 as [k|k es k1 t rows ess k2 Hse Hre IH]; intros Hsend Hwel Hren.
  { split; [done|]. split; [done|]. split; [done|]. intros [|f fs] n; [|done]. simpl. by rewrite Nat.add_0_r. }
  apply list.Forall_cons in Hren as [Hr1 Hren]. set (ev := snapshot_row_event L P cat rel desc t) in *.
  destruct (table_good cat rel k k1 es [ev] Hsend Hwel Hse) as (H1 & H2 & H3); [by repeat constructor|by constructor|].
  destruct (IH Hsend Hwel Hren) as (H4 & H5 & H6 & H7).
  split; [by constructor|]. split; [by constructor|]. split; [simpl; congruence|].
  intros [|f fs] n Hl Hn; [done|]. injection Hl as Hl. cbn [map stamped length] in *.
  rewrite plays_bind, H3. cbn [fmap list_fmap plays]. unfold ev. rewrite play_exported by lia.
  cbn [mbind option_bind]. rewrite H7 by lia. do 3 f_equal. lia.
Qed.

(** All tables. *)
Lemma tables_good cat Q k plan tess k' : tables_events L P cat k plan tess k' ->
  Forall (table_exportable L P cat Q) plan -> Forall (plan_welcome cat) plan ->
  Forall good_frame tess /\ Forall (Forall (fun e => opening e = false)) tess /\ length tess = total_rows P plan /\
  forall fs n, length fs = total_rows P plan -> Z.of_nat (n + total_rows P plan) < 2 ^ 31 ->
     plays (snapshot_history n, 0) (stamped (exported fs) tess) = Some (snapshot_history (n + total_rows P plan), 0).
Proof.
  induction 1 as [k|k t desc rows ess1 k1 plan ess2 k2 Hre Hte IH]; intros Hex Hwel.
  { split; [done|]. split; [done|]. split; [done|]. intros [|f fs] n; [|done]. simpl. unfold total_rows. simpl.
    by rewrite Nat.add_0_r. }
  apply list.Forall_cons in Hex as [(_ & _ & Hsend & _) Hex]. apply list.Forall_cons in Hwel as [[Hwel1 Hren1] Hwel].
  change (total_rows P ((t, (desc, rows)) :: plan)) with (length rows + total_rows P plan)%nat.
  destruct (rows_good cat (t_rel t) desc k rows ess1 k1 Hre Hsend Hwel1 Hren1) as (H1 & H2 & H3 & H4).
  destruct (IH Hex Hwel) as (H5 & H6 & H7 & H8).
  split; [by apply Forall_app|]. split; [by apply Forall_app|]. split; [rewrite length_app; lia|].
  intros fs n Hl Hn. rewrite <- (take_drop (length rows) fs), map_app, stamped_app
    by (rewrite length_map, length_take; lia).
  rewrite plays_bind, H4 by (rewrite ?length_take; lia). cbn [mbind option_bind].
  rewrite H8 by (rewrite ?length_drop; lia). do 3 f_equal. lia.
Qed.

End calls.
