(* ===== verification/Arrival.v ===== *)
(** * Everything arrives

    When the surroundings work, the program does not stop: it reads the snapshot, then what
    is streamed, hands Kafka one message for every row, and has the position of the last
    commit as flushed position in the end. The theorems are about the calls that Postgres makes of the plugin and about
    what the surroundings do, not about what the program returns. *)

From S2P Require Import Prelude Avro AvroBinary IoUtil Protocol Oid2Avro Sample SchemaCache.
From S2P Require Import ProtocolServer LogDecoder ProtocolClient EndToEnd Snapshot NetBytes Libpq.
From S2P Require Import Replication Connect Registry TableMapper Json Producer ProducerSafety Delivery.
From S2P Require Import Main Program Quiet Liveness Pipeline Progress Calls.
Open Scope Z_scope.

Section export.
Context (le : bool) (clock : nat -> Z * Z) (L : avro_lib) {HL : AvroConforms L}.
Context (json_dumps : list Z -> option string) (json_loadb : string -> option json).
Context (p0 : list kafka_msg) (fmt : format_t) (pre : option string) (plain : bool) (base : string) (N : service).
Context (Hparse : forall json n, avro_schema_from_json_length L json n <> Err 0).
Abbreviation cbs := (producer_callbacks le clock L json_dumps json_loadb).
Abbreviation state := (frame_reader * recorded_state)%type.
Abbreviation HX := (Has_fst producer_context record).
Abbreviation Has_cl := (Has_client_of (HX := HX)).
Abbreviation on_cl := (on_client (HX := Has_cl)).
Abbreviation on_st := (on_stream (HX := Has_stream (HX := Has_cl))).
Abbreviation both := (both le L json_loadb p0 fmt pre plain base N).
Abbreviation acceptable_log := (all_acceptable le L json_dumps base fmt pre plain).
Abbreviation poll_client := (db_client_poll (HX := Has_cl) le clock L (recording cbs)).
Abbreviation steps_rec := (main_steps (HX := HX) le clock L (recording cbs)).

(** ** Polling the export *)

Lemma total_sql {A B} (m : M pg_conn A) a (g : A -> M state B) k n log busy results busy' results' cps start hx w v s O Q :
  (forall sql, conn_busy sql = busy -> conn_results sql = results -> exists sql',
     m sql = (Ret a, sql') /\ conn_busy sql' = busy' /\ conn_results sql' = results' /\
     conn_flags sql' = conn_flags sql /\ conn_replies sql' = conn_replies sql) ->
  total (both k n log (at_sql busy' results' cps start) hx w v s O) (g a) Q ->
  total (both k n log (at_sql busy results cps start) hx w v s O) (x ← on_cl (on_sql m); g x) Q.
Proof.
  intros Hm. apply total_client. intros cl kf [(sql & Hsql & Hb & Hr) H] HO. simpl in Hsql.
  destruct (Hm sql Hb Hr) as (sql' & Hrun & Hb' & Hr' & Hf & Hre).
  exists (set_sql_conn (Some sql') cl). unfold on_sql. rewrite Hsql, Hrun. split; [done|].
  assert (E : outlook_of (set_sql_conn (Some sql') cl) = outlook_of cl).
  { unfold outlook_of. simpl. rewrite Hsql. simpl. by rewrite Hf, Hre. }
  rewrite E. split; [split; [by exists sql'|done]|]. split; [done|]. split; [apply fewer_refl|done].
Qed.

(** A poll starts by asking whether there is a result. *)
Lemma total_busy {A} t ts (m : bool -> M state A) (m' : M state A) k n log cps start hx w v s O Q :
  total (both k n log (at_sql (turn_busy <$> ts) (omap turn_result (t :: ts)) cps start) hx w v s O) (m (turn_busy t)) Q ->
  total (both k n log (at_export (t :: ts) cps start) hx w v s O)
    (c ← on_cl (gets (fun c => c));
     match sql_conn c with Some _ => x ← on_cl (on_sql PQisBusy); m x | None => m' end) Q.
Proof.
  intros Hm. apply total_get. intros cl [(sql & Hsql & _) _]. simpl in Hsql. rewrite Hsql.
  eapply total_sql; [|exact Hm]. intros sql' Hb Hr. unfold PQisBusy. rewrite Hb. simpl. by eexists.
Qed.

Lemma total_result {A} r rs (g : option pg_result -> M state A) k n log busy cps start hx w v s O Q :
  total (both k n log (at_sql busy rs cps start) hx w v s O) (g r) Q ->
  total (both k n log (at_sql busy (r :: rs) cps start) hx w v s O) (x ← on_cl (on_sql PQgetResult); g x) Q.
Proof. apply total_sql. intros sql Hb Hr. unfold PQgetResult. rewrite Hr. by eexists. Qed.

Lemma live_status z k n log busy results cps start hx w v s O :
  0 <= z -> total (both k n log (at_sql busy results cps start) hx w v s O) (on_cl (modify (set_cl_status z)))
    (fun _ => both k n log (at_sql busy results cps start) hx w v s O).
Proof. intros Hz. apply both_client_modify; [done|]. intros cl (H1 & H2 & H3 & H4 & H5). by split_and!. Qed.

Lemma live_busy k n log ts cps start hx w v s O :
  total (both k n log (at_export (TBusy :: ts) cps start) hx w v s O) poll_client
    (fun _ => both k n log (at_export ts cps start) hx w v s O).
Proof. apply total_busy. simpl. by apply live_status. Qed.

(** Frames that open no transaction. *)
Lemma both_frames P fs : forall ess k k' n log F hx hx' w v s,
  frames_events L k fs ess k' -> plays hx (stamped (exported fs) ess) = Some hx' ->
  acceptable_log log (stamped (exported fs) ess) -> Forall (Forall (fun e => opening e = false)) ess ->
  (length (h_txns (fst hx')) <= svc_messages N)%nat ->
  total (both k (length fs + n) log F hx w v (schemas_in (stamped (exported fs) ess) + s) (fun e _ => P e))
    (parse_frames L (recording cbs) (exported fs))
    (fun _ => both k' n (log ++ stamped (exported fs) ess) F hx' w v s (fun e _ => P e)).
Proof.
  induction fs as [|f fs IH]; intros ess k k' n log F hx hx' w v s Hf Hplays Hacc Hopen HN.
  - inversion Hf; subst. injection Hplays as <-. intros rx Hs. exists tt, rx. simpl. by rewrite app_nil_r.
  - inversion Hf as [|? ms es k1 ? ess' ? Hme Hwf Hlen Hf' Eq]; subst.
    apply list.Forall_cons in Hopen as [Ho1 Hopen]. cbn [map stamped] in *.
    apply plays_app in Hplays as (hx1 & Hp1 & Hp2).
    apply (all_acceptable_app le L json_dumps json_loadb base fmt pre plain) in Hacc as [Ha1 Ha2].
    pose proof (plays_txns _ _ _ Hp2) as Hmono. rewrite schemas_in_app, <- Nat.add_assoc, (assoc_L (++)).
    cbn [parse_frames]. eapply total_bind; [|intros ?; by apply IH].
    change v with (0 + v)%nat. rewrite <- (waiting_none N es Ho1) at 1.
    apply both_frame with (ms := ms); try done. lia.
Qed.

Lemma live_rows P res fs ess k k' n log ts cps start hx hx' w v s :
  PQresultStatus res = PGRES_SINGLE_TUPLE \/ PQresultStatus res = PGRES_TUPLES_OK ->
  frame_rows res fs -> frames_events L k fs ess k' -> plays hx (stamped (exported fs) ess) = Some hx' ->
  acceptable_log log (stamped (exported fs) ess) -> Forall (Forall (fun e => opening e = false)) ess ->
  (length (h_txns (fst hx')) <= svc_messages N)%nat ->
  total (both k (length fs + n) log (at_export (TRows res :: ts) cps start) hx w v
      (schemas_in (stamped (exported fs) ess) + s) (fun e _ => P e)) poll_client
    (fun _ => both k' n (log ++ stamped (exported fs) ess) (at_export ts cps start) hx' w v s (fun e _ => P e)).
Proof.
  intros Hst (Hn & Hfmt & Hrows) Hf Hplays Hacc Hopen HN. apply total_busy. simpl. unfold at_export.
  set (J := both k' n (log ++ stamped (exported fs) ess) (at_sql (turn_busy <$> ts) (omap turn_result ts) cps start)
    hx' w v s (fun e _ => P e)).
  eapply total_bind with (Q := fun _ => J).
  { unfold snapshot_poll. apply total_result. rewrite bool_decide_eq_true_2 by done. simpl.
    intros rx Hs. rewrite (List.Forall2_length Hrows), (snapshot_tuples_run L (recording cbs) res 0 fs rx Hn Hfmt Hrows).
    by apply (both_frames P fs ess k k' n log _ hx hx' w v s). }
  intros ?. eapply total_bind; [by apply live_status|intros ?]. apply total_get.
  intros cl [(sql & Hsql & _) _]. simpl in Hsql. rewrite Hsql. apply (total_ret tt (fun _ => J)).
Qed.

(** ** The end of the export *)

(** The commands to come are answered: COMMIT, then START_REPLICATION. *)
Definition streams (replies : list pg_result) : Prop :=
  exists r rs, replies = r :: rs /\ PQresultStatus r = PGRES_COPY_BOTH.
Definition commands_answered (hd : list pg_result * option (list pg_result)) : Prop :=
  streams (fst hd) /\ exists r rs, snd hd = Some (r :: rs) /\ PQresultStatus r = PGRES_COMMAND_OK.

(** The commit of the snapshot. *)
Lemma live_commit k n log F w v s hx hx' P start :
  play hx (start, ECommit 0) = Some hx' ->
  total (both k n log F hx w v s (fun e _ => P e)) (zoom (notify (recording cbs) start (ECommit 0)))
    (fun _ => both k n (log ++ [(start, ECommit 0)]) F hx' w v s (fun e _ => P e)).
Proof.
  intros Hplay [r [c log0]] [[(e & Hpt & HO & Ha) He Hr] Hs].
  pose proof (stage_event le clock L json_dumps json_loadb p0 fmt pre plain k n log F start (ECommit 0)
    (fun _ => eq_refl) eq_refl (r, (c, log0)) Hs) as Hst.
  destruct (commit_event_alive le clock L json_dumps json_loadb hx hx' N (v + svc_delay N) v e start 0 c Ha Hplay) as (c' & Hrun & Ha' & Hm).
  assert (Hz : zoom (notify (recording cbs) start (ECommit 0)) (r, (c, log0)) =
    (Ret tt, (r, (c', log0 ++ [(start, ECommit 0)])))).
  { rewrite notify_recording. unfold zoom, recorded. simpl. by rewrite Hrun. }
  rewrite Hz in Hst |- *. exists tt. eexists. split; [reflexivity|]. split; [|done].
  split; simpl in *; rewrite ?Hm; [by exists e|by apply entries_known_other|done].
Qed.

Lemma live_end k n log cps start hx hx' w v s :
  play hx (start, ECommit 0) = Some hx' ->
  total (both k n log (at_export [TEnd] cps start) hx w v s (fun e _ => commands_answered (heard e))) poll_client
    (fun _ => both k n (log ++ [(start, ECommit 0)]) (at_stream cps) hx' w v s (fun _ _ => True)).
Proof.
  intros Hplay. apply total_busy. simpl.
  set (O1 := fun (e : outlook) (_ : kafka_t) => streams (ol_replies e)).
  set (J := both k n (log ++ [(start, ECommit 0)]) (at_stream cps) hx' w v s O1).
  eapply total_bind with (Q := fun _ => J).
  { unfold snapshot_poll. apply total_result.
    apply total_client with (a := tt) (O' := O1) (F' := at_sql [] [] cps start).
    { intros cl kf [(sql & Hsql & Hb & Hr) H] (Hs1 & rep & reps & Hrep & Hok). unfold heard in *. simpl in Hsql, Hs1, Hrep.
      rewrite Hsql in Hrep. injection Hrep as Hrep. unfold exec_sql, on_sql, mbind, M_bind, PQexec, exec_command.
      rewrite Hsql, Hrep. unfold stop. rewrite bool_decide_eq_true_2 by done.
      eexists. split; [reflexivity|]. split; [split; [by eexists|done]|]. split; [done|]. split; [|done].
      split; [done|]. split; [done|]. simpl. intros fl rp [= <- <-]. rewrite Hsql. by eexists. }
    apply total_client with (a := tt) (O' := O1) (F' := fun f => at_stream cps f /\ fd_start f = start).
    { intros cl kf (_ & H2 & H3 & H4 & H5) HO. eexists. split; [reflexivity|]. split; [by split|]. split; [done|]. split; [|done].
      split; [done|]. by split. }
    apply total_get. intros cl [_ Hstart]. simpl in Hstart. rewrite Hstart.
    change (call _ _) with (zoom (H := Has_snd frame_reader recorded_state) (notify (recording cbs) start (ECommit 0))).
    eapply total_weaken; [done| |by apply (live_commit k n log _ w v s hx hx' (fun e => streams (ol_replies e)))].
    intros ? rx [Hl Hs]. split; [done|]. revert Hs. apply stage_mono. by intros f []. }
  intros ?. eapply total_bind with (Q := fun _ => J).
  { apply both_client_modify; [done|]. intros cl (H1 & H2 & H3 & H4). by split_and!. }
  intros ?. apply total_get. intros cl (_ & _ & Hsql & _). simpl in Hsql. rewrite Hsql.
  eapply total_weaken; [done| |apply both_client with (a := tt)].
  - intros ? rx [H _]. exact H.
  - intros cl' kf H (rep & reps & Hrep & Hok). simpl in Hrep.
    unfold zoom, replication_stream_start, mbind, M_bind, gets, zoom, PQexec, exec_command. simpl. rewrite Hrep.
    simpl. rewrite bool_decide_eq_true_2 by done. eexists. split; [reflexivity|]. split; [done|]. split; [done|].
    split; [split; [done|]; split; [done|]; simpl; eauto|]. do 3 (split; [done|]). intros b Hb.
    eapply told_log; [reflexivity|done|exact Hb].
Qed.

(** ** The loop *)

Lemma total_outlook {A} k n log F hx w v s (O O' : outlook -> kafka_t -> Prop) (m : M state A) Q :
  (forall e kf, O e kf -> O' e kf) -> total (both k n log F hx w v s O') m Q -> total (both k n log F hx w v s O) m Q.
Proof.
  intros HO Hm. eapply total_weaken; [|done|exact Hm].
  intros rx [[(e & Hpt & H & Ha) He Hr] Hs]. split; [|done]. split; [|done|done]. exists e. auto.
Qed.

Lemma export_live fs ts : export_of fs ts ->
  forall ess k k' n log cps start hx hx1 hx' w v s m (Q : state -> Prop),
  frames_events L k fs ess k' -> plays hx (stamped (exported fs) ess) = Some hx1 ->
  play hx1 (start, ECommit 0) = Some hx' -> acceptable_log log (stamped (exported fs) ess) ->
  Forall (Forall (fun e => opening e = false)) ess -> (length (h_txns (fst hx')) <= svc_messages N)%nat ->
  total (both k' n (log ++ stamped (exported fs) ess ++ [(start, ECommit 0)]) (at_stream cps) hx' w v s
    (rested (svc_delay N) (fun _ => True))) (steps_rec m) (fun _ => Q) ->
  total (both k (length fs + n) log (at_export ts cps start) hx (length ts + w) (length ts + v)
    (schemas_in (stamped (exported fs) ess) + s) (rested (svc_delay N) commands_answered)) (steps_rec (length ts + m)) (fun _ => Q).
Proof.
  induction 1 as [|fs ts Hts IH|res fs1 fs ts Hst Hrows Hts IH];
    intros ess k k' n log cps start hx hx1 hx' w v s m Q Hf Hplays Hcommit Hacc Hopen HN Hm.
  - inversion Hf; subst. injection Hplays as <-. simpl in *.
    eapply live_next with (R := fun _ => True); [by intros; split; [|left]|apply waits_export|apply waits_stream|exact HN| |exact Hm].
    eapply total_outlook; [|by apply live_end]. by intros e kf [].
  - pose proof (plays_txns _ _ _ Hplays). pose proof (play_txns _ _ _ Hcommit).
    simpl. eapply live_next with (R := commands_answered); [|apply waits_export|apply waits_export| | |].
    4:{ by apply (IH ess k k' n log cps start hx hx1 hx' w v s m Q). }
    2:{ lia. }
    2:{ eapply total_weaken; [done| |apply live_busy]. intros ? rx Hrx. exact Hrx. }
    by intros e kf []; split; [|left].
  - apply frames_events_app_inv in Hf as (ess1 & ess2 & k1 & -> & Hf1 & Hf2).
    assert (Hl : length (exported fs1) = length ess1) by (rewrite length_map; clear -Hf1; induction Hf1; simpl; congruence).
    rewrite map_app, stamped_app in * by done.
    apply plays_app in Hplays as (hx2 & Hp1 & Hp2).
    apply (all_acceptable_app le L json_dumps json_loadb base fmt pre plain) in Hacc as [Ha1 Ha2]. apply Forall_app in Hopen as [Ho1 Ho2].
    pose proof (plays_txns _ _ _ Hp2) as Hmono1. pose proof (play_txns _ _ _ Hcommit) as Hmono2.
    rewrite schemas_in_app, <- Nat.add_assoc, length_app, <- Nat.add_assoc. simpl.
    eapply live_next with (R := commands_answered); [|apply waits_export|apply waits_export| | |].
    4:{ eapply IH; try done. by rewrite <- !(assoc_L (++)) in *. }
    3:{ eapply total_outlook; [|apply live_rows with (P := fun e => commands_answered (heard e)); try done; lia]. by intros e kf []. }
    + by intros e kf HR; split; [|left].
    + lia.
Qed.

End export.

(** ** Theorems *)

Section arrival.
Context (le : bool) (clock : nat -> Z * Z) (L : avro_lib) (P : pg_lib).
Context {HL : AvroConforms L} {HP : PgConforms P}.
Context (json_dumps : list Z -> option string) (json_loadb : string -> option json).
Abbreviation cbs := (producer_callbacks le clock L json_dumps json_loadb).
Abbreviation steps_rec := (main_steps (HX := Has_fst producer_context record) le clock L (recording cbs)).
Context (Hparse : forall json n, avro_schema_from_json_length L json n <> Err 0).
(** The registry, the output format (JSON only without a registry) and the topic prefix. *)
Context (base : string) (fmt : format_t) (pre : option string) (plain : bool).
Context (Hformat : fmt = OUTPUT_FORMAT_AVRO \/ (fmt = OUTPUT_FORMAT_JSON /\ plain = true)).
Abbreviation acceptable_log := (all_acceptable le L json_dumps base fmt pre plain).
Abbreviation good_frame := (good_frame le L json_dumps base fmt pre plain).
Abbreviation call_welcome := (call_welcome L P json_dumps base fmt pre plain).
Abbreviation plan_welcome := (plan_welcome L P json_dumps base fmt pre plain).

(** The surroundings work, for [iterations] of the loop and [tables] announcements of a
    table: Kafka takes messages (at times its queue is full) and acknowledges them in time,
    with service [n]; the connections take status updates; waits end without error and
    reading succeeds; topics can be opened; the registry at [base], if there is one, answers
    with ids. *)
Record works (n : service) (tables iterations : nat) (c : producer_context) : Prop := {
  works_ready : ready n (per_turn n * iterations + svc_delay n) (per_turn n * iterations) (outlook_of (client c)) c;
  works_patient : patient iterations (outlook_of (client c));
  works_tables : accommodates json_loadb base tables (mapper c);
}.

Lemma answers_less k k' r : (k' <= k)%nat -> answers json_loadb base k r -> answers json_loadb base k' r.
Proof. intros Hk. destruct r as [r|]; [|done]. intros (? & ? & ?). split; [done|]. split; [done|]. lia. Qed.
Lemma accommodates_less s s' m : (s' <= s)%nat -> accommodates json_loadb base s m -> accommodates json_loadb base s' m.
Proof. intros Hs [H1 H2]. split; [done|]. eapply answers_less; [|exact H2]. lia. Qed.

(** The producer starts alive. *)
Lemma live_initial n s iterations R r0 c0 log0 registry opens :
  quiet_log log0 -> fresh_producer c0 -> mapper c0 = table_mapper_new registry pre opens ->
  works n s iterations c0 -> R (heard (outlook_of (client c0))) ->
  live json_loadb base n (h_initial c0, 0) iterations (per_turn n * iterations) s (rested (svc_delay n) R) (r0, (c0, log0)).
Proof.
  intros Hq Hfresh Hmap [Hr Hpt Ht] HR. split; simpl; [|intros relid H; by rewrite quiet_announced in H|done].
  exists (outlook_of (client c0)). split; [done|].
  split; [split; [done|intros m Hm; rewrite (fresh_produced _ Hfresh) in Hm; simpl in Hm; lia]|].
  destruct (fresh_invariant c0 Hfresh) as (t & Hinv). split; [|by unfold head_xid; rewrite (fresh_ring _ Hfresh), (fresh_head _ Hfresh)|done].
  exists t. split; [done|]. intros _. pose proof (ring_window _ _ _ _ (inv_ring _ _ _ _ Hinv)) as Hw.
  unfold current in Hw. simpl in Hw. assert (t = 0%nat) as -> by lia.
  exists no_transaction. rewrite (fresh_ring _ Hfresh). split; [done|]. right. by rewrite (fresh_fsync _ Hfresh).
Qed.

(** What holds when all has arrived: one message for every row event of the record [log],
    all of them acknowledged; the flushed position, which status updates carry, is that of the
    last commit of [h]; if there was a snapshot, an exit would no longer drop the slot;
    nothing is left to read but [tail]; the program is still running, and the reader can be
    released. *)
Record finished (tail : list copy_result) (h : history) (log : record)
  (r : frame_reader) (c : producer_context) : Prop := {
  fin_messages : messages_of le L pre plain fmt [] log (k_produced (kafka c));
  fin_acked : all_acked c;
  fin_reported : fsync c = commit_of h (current h);
  fin_snapshot : h_snapshot h = true -> taking_snapshot (client c) = false;
  fin_read : at_stream tail (feed_of c);
  fin_running : received_shutdown_signal c = 0;
  fin_reader : frame_reader_free r = Ret (reader_released r);
}.

Lemma both_finished n hx w v s k log tail rx :
  both le L json_loadb [] fmt pre plain base n k 0 log (at_stream tail) hx w v s (rested 0 (fun _ => True)) rx ->
  h_open (fst hx) = false ->
  exists r c, rx = (r, (c, log)) /\ finished tail (fst hx) log r c.
Proof.
  destruct rx as [r [c log']]. intros [[(e & _ & [_ Hack] & [(t & Hinv & Hst) _ Hr]) _ _] [Hk _ Hlog Hf _ _ (msgs & Hm & Hp)]] Ho.
  simpl in *. subst log' msgs. exists r, c. split; [done|].
  destruct (window_closed _ _ _ _ Hinv (Hst Ho) Ho (owing_none c Hack)) as [_ Hfs].
  pose proof (owing_none c Hack) as Hacked. split; [done|done|done| |done|by destruct Hr|by apply frame_reader_free_ok, Hk].
  intros Hs. apply (ck_cleared _ _ _ (inv_checkpoint _ _ _ _ Hinv)); [right|done]. rewrite Hfs.
  by apply (wf_committed _ (inv_wf _ _ _ _ Hinv)); [right|right].
Qed.

(** The calls of the plugin and their frames: what the loop needs. *)
Lemma calls_arrive l s0 s' wals :
  Forall (call_ok L P) l -> output_avro_startup = Ret s0 -> plugin_calls L P l s0 = (Ret tt, s') ->
  length wals = length l -> Forall call_welcome l ->
  exists ess k', calls_events L P ∅ l ess k' /\ frames_events L ∅ (snd <$> zip wals (snd s')) ess k' /\
    length (zip wals (snd s')) = length l /\ Forall good_frame ess /\
    (schemas_in (stamped (zip wals (snd s')) ess) <= length l)%nat /\
    forall hx, plays hx (stamped (zip wals (snd s')) ess) = calls_play L P hx wals l.
Proof.
  intros Hl Hs0 Hcalls Hw Hwel.
  destruct (plugin_frames L P l s0 s' Hl Hs0 Hcalls) as (ess & k' & Hce & Hfe & Hlens).
  destruct (calls_good le L P json_dumps base fmt pre plain ∅ l ess k' Hce Hl Hwel) as (Hg & Hess & Hp).
  exists ess, k'. rewrite snd_zip, length_zip by lia. split_and!; try done; [lia| |by intros hx; apply Hp].
  rewrite <- Hess. by eapply good_schemas_in.
Qed.

Lemma enough_turns n a : (per_turn n * a + (2 * svc_delay n + 0) <= per_turn n * (a + (svc_delay n + 0)))%nat.
Proof. unfold per_turn. nia. Qed.

(** The stream, then pauses until everything is acknowledged. *)
Lemma stream_run n server_le fs cps : stream_of server_le fs cps -> Forall complete_copy cps ->
  forall ess k k' log tail hx hx' w v s u,
  frames_events L k (snd <$> fs) ess k' -> plays hx (stamped fs ess) = Some hx' ->
  acceptable_log log (stamped fs ess) -> Forall good_frame ess -> (length (h_txns (fst hx')) <= svc_messages n)%nat ->
  (per_turn n * length cps + (2 * svc_delay n + v) <= u)%nat ->
  total (both le L json_loadb [] fmt pre plain base n k (length fs) log
      (at_stream (cps ++ replicate (svc_delay n) CopyNone ++ tail)) hx (length cps + (svc_delay n + w)) u
      (schemas_in (stamped fs ess) + s) (rested (svc_delay n) (fun _ => True)))
    (steps_rec (length cps + svc_delay n))
    (fun _ => both le L json_loadb [] fmt pre plain base n k' 0 (log ++ stamped fs ess) (at_stream tail) hx' w v s
      (rested 0 (fun _ => True))).
Proof.
  intros Hstr Hcc ess k k' log tail hx hx' w v s u Hf Hp Ha Hg Hn Hu. eapply total_mono; [exact Hu|].
  apply (stream_live le clock L json_dumps json_loadb [] fmt pre plain base n Hparse server_le fs cps Hstr Hcc ess k k' log
    (replicate (svc_delay n) CopyNone ++ tail) hx hx' (svc_delay n + w) (2 * svc_delay n + v) s (svc_delay n) _ Hf Hp Ha);
    [by eapply good_opened|done|].
  match goal with |- total _ _ (fun _ => ?Q) => pose proof (pauses_live le clock L json_dumps json_loadb [] fmt pre plain base n
    (fun _ => True) (svc_delay n) k' 0 (log ++ stamped fs ess) tail hx' w v s 0 Q Hn) as H end.
  rewrite Nat.add_0_r in H. apply H.
  intros rx Hrx. by exists tt, rx.
Qed.

(** A restart. Postgres makes any sequence of calls of the output plugin, in transactions
    that are all committed in the end, and the frames arrive as in [postgres_to_kafka];
    the program streams, and its surroundings work. Then the loop comes through: every
    iteration returns, the callbacks are run for exactly the events of the calls, Kafka is
    handed exactly one message for every row event and has acknowledged them all (after as
    many more iterations as an acknowledgement may be late), and the flushed position, which
    status updates carry, is that of the last commit. *)
Lemma everything_streamed n l s0 s' wals server_le cps tail registry opens r0 c0 log0 h x :
  Forall (call_ok L P) l -> 3 * Z.of_nat (length l) < 2 ^ 29 ->
  output_avro_startup = Ret s0 -> plugin_calls L P l s0 = (Ret tt, s') ->
  length wals = length l -> stream_of server_le (zip wals (snd s')) cps -> Forall complete_copy cps ->
  calls_play L P (h_initial c0, 0) wals l = Some (h, x) -> h_open h = false ->
  Forall call_welcome l ->
  frame_reader_new = Ret r0 -> quiet_log log0 -> fresh_producer c0 -> output_format c0 = fmt ->
  plain = bool_decide (registry = None) ->
  mapper c0 = table_mapper_new registry pre opens ->
  at_stream (cps ++ replicate (svc_delay n) CopyNone ++ tail) (feed_of c0) ->
  (length (h_txns h) <= svc_messages n)%nat -> works n (length l) (length cps + svc_delay n) c0 ->
  exists r c log ess k',
    steps_rec (length cps + svc_delay n) (r0, (c0, log0)) = (Ret tt, (r, (c, log))) /\
    calls_events L P ∅ l ess k' /\ log = log0 ++ stamped (zip wals (snd s')) ess /\
    finished tail h log r c.
Proof.
  intros Hl Hlen Hs0 Hcalls Hw Hstr Hcc Hplay Hopen Hwel Hr0 Hq Hfresh Hfmt Hplain Hmap Hfeed Hmsgs Hworks.
  destruct (calls_arrive l s0 s' wals Hl Hs0 Hcalls Hw Hwel) as (ess & k' & Hce & Hfe & Hzip & Hgood & Hsch & Hplays).
  destruct (good_admissible le L json_dumps json_loadb base fmt pre plain Hformat ∅ _ ess k' log0 Hfe Hgood (told_nothing L log0)) as [Hacc _].
  pose proof (stage_initial le L r0 c0 log0 (length (zip wals (snd s'))) _ _ _ _ Hr0 ltac:(lia) Hfeed Hmap Hq) as Hs.
  rewrite Hfmt, <- Hplain, (fresh_produced _ Hfresh) in Hs. rewrite <- Hplays in Hplay.
  assert (Hworks' : works n (schemas_in (stamped (zip wals (snd s')) ess) + 0) (length cps + (svc_delay n + 0)) c0).
  { destruct Hworks. rewrite !Nat.add_0_r. split; [done|done|by eapply accommodates_less]. }
  pose proof (live_initial n _ _ (fun _ => True) r0 c0 log0 registry opens Hq Hfresh Hmap Hworks' I) as Hlive.
  destruct (stream_run n server_le _ cps Hstr Hcc ess ∅ k' log0 tail (h_initial c0, 0) (h, x) 0 0 0
    (per_turn n * (length cps + (svc_delay n + 0))) Hfe Hplay Hacc Hgood Hmsgs (enough_turns n _) (r0, (c0, log0)))
    as ([] & rx & Hrun & Hend); [by split|].
  destruct (both_finished _ _ _ _ _ _ _ _ _ Hend Hopen) as (r & c & -> & Hfin).
  by exists r, c, (log0 ++ stamped (zip wals (snd s')) ess), ess, k'.
Qed.

(** The rows of the export. *)
Lemma plan_arrives cat (Q : spi P) allow_unkeyed rows plan x0 x1 fs x' :
  spi_table_list P Q = inr rows -> Forall2 (row_table cat) rows (map fst plan) ->
  NoDup (map Snapshot.t_relid (map fst plan)) -> allow_unkeyed = true \/ Forall keyed (map fst plan) ->
  Forall (table_exportable L P cat Q) plan ->
  new_export_state P = Ret x0 -> export_first_call P cat Q allow_unkeyed x0 = (Ret tt, x1) ->
  export_all L P cat Q (S (total_rows P plan)) [] x1 = (Ret fs, x') ->
  Forall (plan_welcome cat) plan -> Z.of_nat (total_rows P plan) < 2 ^ 31 ->
  exists tess k1, tables_events L P cat ∅ plan tess k1 /\ frames_events L ∅ fs tess k1 /\
    length fs = total_rows P plan /\ Forall good_frame tess /\ Forall (Forall (fun e => opening e = false)) tess /\
    (schemas_in (stamped (exported fs) tess) <= total_rows P plan)%nat /\
    plays (snapshot_history 0, 0) (stamped (exported fs) tess) = Some (snapshot_history (total_rows P plan), 0).
Proof.
  intros Hq Hrows Hnd Hkeys Hex Hx0 Hx1 Hfs Hwel Hn.
  destruct (export_frames L P cat Q allow_unkeyed rows plan Hq Hrows Hnd Hkeys Hex)
    as (x0' & x1' & fs' & x2 & tess & k1 & E0 & E1 & _ & E3 & _ & Hfl & Hte & Hfe1).
  assert (fs' = fs) as -> by congruence.
  destruct (tables_good le L P json_dumps base fmt pre plain cat Q ∅ plan tess k1 Hte Hex Hwel) as (Hg & Ho & Htl & Hp).
  exists tess, k1. split_and!; try done; [|by apply (Hp fs 0%nat)]. rewrite <- Htl. by eapply good_schemas_in.
Qed.

Lemma snd_exported (fs : list (list Z)) : snd <$> (exported fs : list (Z * list Z)) = fs.
Proof. induction fs as [|f fs IH]; [done|]. simpl. by f_equal. Qed.

(** A first run: the snapshot as in [snapshot_then_stream], then the stream as in
    [everything_streamed]. The surroundings work, and the commands that end the snapshot and
    start the stream succeed. Then the loop comes through both: the callbacks are run for
    one insertion for every exported row, at position 0, then for the commit of the
    snapshot, then for the events of the calls; Kafka has acknowledged one message for
    every row event, and the flushed position is that of the last commit. *)
Lemma everything_arrives n cat (Q : spi P) allow_unkeyed rows plan x0 x1 fs x' ts
  l s0 s' wals server_le cps tail start registry opens r0 c0 log0 h x :
  spi_table_list P Q = inr rows -> Forall2 (row_table cat) rows (map fst plan) ->
  NoDup (map Snapshot.t_relid (map fst plan)) -> allow_unkeyed = true \/ Forall keyed (map fst plan) ->
  Forall (table_exportable L P cat Q) plan ->
  new_export_state P = Ret x0 -> export_first_call P cat Q allow_unkeyed x0 = (Ret tt, x1) ->
  export_all L P cat Q (S (total_rows P plan)) [] x1 = (Ret fs, x') -> export_of fs ts ->
  Forall (call_ok L P) l -> 3 * Z.of_nat (total_rows P plan + length l) < 2 ^ 29 ->
  output_avro_startup = Ret s0 -> plugin_calls L P l s0 = (Ret tt, s') ->
  length wals = length l -> stream_of server_le (zip wals (snd s')) cps -> Forall complete_copy cps ->
  0 < start -> calls_play L P (h_commit start (snapshot_history (total_rows P plan)), 0) wals l = Some (h, x) ->
  h_open h = false ->
  Forall (plan_welcome cat) plan ->
  Forall call_welcome l ->
  frame_reader_new = Ret r0 -> quiet_log log0 -> fresh_producer c0 -> taking_snapshot (client c0) = true ->
  output_format c0 = fmt -> plain = bool_decide (registry = None) ->
  mapper c0 = table_mapper_new registry pre opens ->
  at_export ts (cps ++ replicate (svc_delay n) CopyNone ++ tail) start (feed_of c0) ->
  commands_answered (heard (outlook_of (client c0))) -> (length (h_txns h) <= svc_messages n)%nat ->
  works n (total_rows P plan + length l) (length ts + (length cps + svc_delay n)) c0 ->
  exists r c log tess k1 ess k2,
    steps_rec (length ts + (length cps + svc_delay n)) (r0, (c0, log0)) = (Ret tt, (r, (c, log))) /\
    tables_events L P cat ∅ plan tess k1 /\ calls_events L P ∅ l ess k2 /\
    log = (log0 ++ stamped (exported fs) tess ++ [(start, ECommit 0)]) ++ stamped (zip wals (snd s')) ess /\
    finished tail h log r c.
Proof.
  intros Hq Hrows Hnd Hkeys Hex Hx0 Hx1 Hfs Hts Hl Hlen Hs0 Hcalls Hw Hstr Hcc Hstart Hplay Hopen Hwelp Hwel Hr0 Hlog0 Hfresh Hsnap
    Hfmt Hplain Hmap Hfeed Hcmd Hmsgs Hworks.
  destruct (plan_arrives cat Q allow_unkeyed rows plan x0 x1 fs x' Hq Hrows Hnd Hkeys Hex Hx0 Hx1 Hfs Hwelp ltac:(lia))
    as (tess & k1 & Hte & Hfe1 & Hfl & Hg1 & Ho1 & Hsch1 & Hp1).
  set (log1 := log0 ++ stamped (exported fs) tess ++ [(start, ECommit 0)]).
  destruct (calls_arrive l s0 s' wals Hl Hs0 Hcalls Hw Hwel) as (ess & k2 & Hce & Hfe2 & Hzip & Hg2 & Hsch2 & Hp2).
  destruct (frames_events_mono L _ _ _ _ k1 Hfe2 (map_empty_subseteq _)) as (K & _ & Hfe2').
  destruct (good_admissible le L json_dumps json_loadb base fmt pre plain Hformat ∅ (exported fs) tess k1 log0) as [Ha1 Htold];
    [by rewrite snd_exported|done|apply told_nothing|].
  destruct (good_admissible le L json_dumps json_loadb base fmt pre plain Hformat k1 _ ess K log1 Hfe2' Hg2) as [Ha2 _].
  { unfold log1. rewrite (assoc_L (++)). by apply told_other. }
  set (committed := (h_commit start (snapshot_history (total_rows P plan)), 0)) in *.
  assert (Hcommit : play (snapshot_history (total_rows P plan), 0) (start, ECommit 0) = Some committed).
  { unfold play. simpl. by rewrite decide_True. }
  pose proof (stage_initial le L r0 c0 log0 (length fs + length (zip wals (snd s'))) _ _ _ _ Hr0 ltac:(lia) Hfeed Hmap Hlog0) as Hs.
  rewrite Hfmt, <- Hplain, (fresh_produced _ Hfresh) in Hs.
  set (s := (schemas_in (stamped (exported fs) tess) + (schemas_in (stamped (zip wals (snd s')) ess) + 0))%nat).
  assert (Hworks' : works n s (length ts + (length cps + (svc_delay n + 0))) c0).
  { destruct Hworks. rewrite !Nat.add_0_r in *. split; [done|done|]. eapply accommodates_less; [|done]. unfold s. lia. }
  pose proof (live_initial n _ _ commands_answered r0 c0 log0 registry opens Hlog0 Hfresh Hmap Hworks' Hcmd) as Hlive.
  replace (h_initial c0) with (snapshot_history 0) in Hlive by (unfold h_initial; by rewrite Hsnap).
  rewrite <- Hp2 in Hplay.
  set (v := (per_turn n * (length cps + (svc_delay n + 0)))%nat).
  pose proof (plays_txns _ _ _ Hplay) as Hmono.
  edestruct (export_live le clock L json_dumps json_loadb [] fmt pre plain base n Hparse
    fs ts Hts tess ∅ k1 (length (zip wals (snd s'))) log0 (cps ++ replicate (svc_delay n) CopyNone ++ tail) start
    (snapshot_history 0, 0) (snapshot_history (total_rows P plan), 0) committed (length cps + (svc_delay n + 0)) v
    (schemas_in (stamped (zip wals (snd s')) ess) + 0) (length cps + svc_delay n)) as ([] & rx & Hrun & Hend);
    [done|exact Hp1|exact Hcommit|done|done|by etrans; [exact Hmono|]| | |].
  { apply (stream_run n server_le _ cps Hstr Hcc ess k1 K log1 tail committed (h, x) 0 0 0 v Hfe2' Hplay Ha2 Hg2 Hmsgs).
    apply enough_turns. }
  { eapply both_mono; [|split; [exact Hlive|exact Hs]]. unfold v, per_turn. nia. }
  destruct (both_finished _ _ _ _ _ _ _ _ _ Hend Hopen) as (r & c & -> & Hfin).
  by exists r, c, (log1 ++ stamped (zip wals (snd s')) ess), tess, k1, ess, k2.
Qed.

End arrival.
