(* ===== verification/Launch.v ===== *)
(** * The program from its start

    [main]: the options are read, the client connects, and creates the replication slot
    and takes the snapshot, or resumes at the slot that exists; then the loop runs. When
    the world works, everything that Postgres sends arrives. *)

From S2P Require Import Prelude Avro AvroBinary IoUtil Protocol Oid2Avro Sample SchemaCache.
From S2P Require Import ProtocolServer LogDecoder ProtocolClient EndToEnd Snapshot NetBytes Libpq.
From S2P Require Import Replication Connect Registry TableMapper Json Producer ProducerSafety Delivery.
From S2P Require Import Main Program Quiet Liveness Pipeline Progress Calls Arrival.
From Stdlib Require Import Ascii.
Open Scope Z_scope.

(** ** What the server answers *)

(** IDENTIFY_SYSTEM. *)
Definition identified (r : pg_result) : Prop :=
  PQresultStatus r = PGRES_TUPLES_OK /\ PQntuples r = 1 /\ 4 <= PQnfields r /\ is_Some (PQgetfield r 0 3).
(** The query for the slot: there is none, or it is kept at a position. *)
Definition no_slot (r : pg_result) : Prop := PQresultStatus r = PGRES_TUPLES_OK /\ PQntuples r = 0.
Definition slot_at (start : Z) (r : pg_result) : Prop :=
  PQresultStatus r = PGRES_TUPLES_OK /\ 0 < PQntuples r /\
  exists lsn, PQgetfield r 0 0 = Some lsn /\ parse_lsn lsn = Some start.
(** CREATE_REPLICATION_SLOT: the position, and the name of the snapshot. *)
Definition created (start : Z) (r : pg_result) : Prop :=
  PQresultStatus r = PGRES_TUPLES_OK /\ PQntuples r = 1 /\ PQnfields r = 4 /\
  exists lsn name, PQgetfield r 0 1 = Some lsn /\ parse_lsn lsn = Some start /\
    PQgetfield r 0 2 = Some name /\ unset (Some name) = false.
(** Other commands. *)
Definition done_ok (r : pg_result) : Prop := PQresultStatus r = PGRES_COMMAND_OK.

(** A connection after a command, with the replies that are left. *)
Definition answered (s : sent) (rs : list pg_result) (c : pg_conn) : pg_conn :=
  log_sent s (PGconn rs (conn_results c) (conn_copies c) (conn_puts c) (conn_busy c) (conn_flags c) (conn_sent c)).
Lemma exec_command_run s r rs c : conn_replies c = r :: rs -> exec_command s c = (Ret r, answered s rs c).
Proof. unfold exec_command. by intros ->. Qed.

Section start.
Context (PQconninfoParse : string -> option (list (string * option string))).

(** The client is configured, and both connections can be made. *)
Record connects (c : client_context) (sql rpl : pg_conn) : Prop := {
  cn_conninfo : unset (conninfo c) = false;
  cn_app_name : unset (app_name c) = false;
  cn_slot : unset (slot_name (repl c)) = false;
  cn_plugin : unset (output_plugin (repl c)) = false;
  cn_parse : is_Some (PQconninfoParse (text (conninfo c)));
  cn_net : exists rest, net c = (sql, true) :: (rpl, true) :: rest;
  cn_new : conn_sent sql = [] /\ conn_sent rpl = [];
}.

Lemma new_conn_id c : conn_sent c = [] -> new_conn c = c.
Proof. intros H. destruct c. unfold new_conn. simpl in *. by rewrite H. Qed.

Lemma connect_run c sql rpl : connects c sql rpl ->
  exists rest params, client_connect PQconninfoParse c =
    (Ret tt, set_repl (set_conn rpl (repl c)) (set_net rest (set_repl_params params
      (set_net ((rpl, true) :: rest) (set_sql_conn (Some sql) c))))).
Proof.
  intros [H1 H2 _ _ [opts H3] [rest H4] [H5 H6]]. unfold client_connect, mbind, M_bind, gets. rewrite H1, H2.
  unfold next_connection. rewrite H4. simpl. rewrite H3. simpl. rewrite !new_conn_id by done. by eexists _, _.
Qed.

Lemma check_run s r rs :
  conn_replies (conn s) = r :: rs -> identified r ->
  replication_stream_check s = (Ret tt, set_conn (answered (SentQuery "IDENTIFY_SYSTEM") rs (conn s)) s).
Proof.
  intros Hr (H1 & H2 & H3 & [v H4]). unfold replication_stream_check.
  rewrite (bind_Ret (zoom _) _ s r (set_conn (answered (SentQuery "IDENTIFY_SYSTEM") rs (conn s)) s)).
  - rewrite bool_decide_eq_true_2, H2, H4 by done. simpl. by rewrite (proj2 (Z.ltb_ge _ _) H3).
  - unfold zoom. simpl. unfold PQexec. by rewrite (exec_command_run _ r rs).
Qed.

Definition slot_query (c : client_context) : sent :=
  SentParams "SELECT restart_lsn FROM pg_replication_slots where slot_name = $1" [text (slot_name (repl c))].

Lemma slot_query_run {A} c sql r rs (f : pg_result -> M client_context A) :
  sql_conn c = Some sql -> conn_replies sql = r :: rs -> 
  (res ← on_sql (PQexecParams "SELECT restart_lsn FROM pg_replication_slots where slot_name = $1"
                   [text (slot_name (repl c))]); f res) c =
  f r (set_sql_conn (Some (answered (slot_query c) rs sql)) c).
Proof.
  intros Hsql Hr. apply bind_Ret. unfold on_sql. rewrite Hsql. unfold PQexecParams. by rewrite (exec_command_run _ r rs).
Qed.

Lemma no_slot_run c sql r rs :
  unset (slot_name (repl c)) = false -> sql_conn c = Some sql -> conn_replies sql = r :: rs -> no_slot r ->
  replication_slot_exists c = (Ret false, set_sql_conn (Some (answered (slot_query c) rs sql)) c).
Proof.
  intros Hslot Hsql Hr [H1 H2]. unfold replication_slot_exists. rewrite (bind_Ret (gets _) _ c c c), Hslot by done.
  rewrite (slot_query_run c sql r rs) by done. by rewrite bool_decide_eq_true_2, H2.
Qed.

Lemma slot_at_run c sql r rs start :
  unset (slot_name (repl c)) = false -> sql_conn c = Some sql -> conn_replies sql = r :: rs -> slot_at start r ->
  replication_slot_exists c =
    (Ret true, set_repl (set_start_lsn start (repl c)) (set_sql_conn (Some (answered (slot_query c) rs sql)) c)).
Proof.
  intros Hslot Hsql Hr (H1 & H2 & lsn & H3 & H4). unfold replication_slot_exists.
  rewrite (bind_Ret (gets _) _ c c c), Hslot by done.
  rewrite (slot_query_run c sql r rs) by done.
  by rewrite bool_decide_eq_true_2, (proj2 (Z.ltb_lt _ _) H2), H3, H4.
Qed.

Lemma create_run s r rs start :
  unset (slot_name s) = false -> unset (output_plugin s) = false -> conn_replies (conn s) = r :: rs -> created start r ->
  exists name rpl, replication_slot_create s =
      (Ret tt, set_snapshot_name (Some name) (set_start_lsn start (set_conn rpl s))) /\
    unset (Some name) = false /\ exists q, rpl = answered (SentQuery q) rs (conn s).
Proof.
  intros Hslot Hplug Hr (H1 & H2 & H3 & lsn & name & H4 & H5 & H6 & H7). unfold replication_slot_create.
  rewrite (bind_Ret (gets _) _ s s s), Hslot, Hplug by done.
  match goal with |- context [PQexec ?t] => set (q := t) end. exists name, (answered (SentQuery q) rs (conn s)). split; [|by split; [|eexists]].
  rewrite (bind_Ret (zoom _) _ s r (set_conn (answered (SentQuery q) rs (conn s)) s)).
  - by rewrite bool_decide_eq_true_2, H2, H3, H4, H6, H5.
  - unfold zoom. simpl. unfold PQexec. by rewrite (exec_command_run _ r rs).
Qed.

Lemma exec_sql_run c sql q r rs :
  sql_conn c = Some sql -> conn_replies sql = r :: rs -> done_ok r ->
  exec_sql q c = (Ret tt, set_sql_conn (Some (answered (SentQuery q) rs sql)) c).
Proof.
  intros Hsql Hr Hok. unfold exec_sql. rewrite (bind_Ret (on_sql _) _ c r (set_sql_conn (Some (answered (SentQuery q) rs sql)) c)).
  - by rewrite bool_decide_eq_true_2.
  - unfold on_sql. rewrite Hsql. unfold PQexec. by rewrite (exec_command_run _ r rs).
Qed.

(** ** The start of the client

    The state afterwards, for connections that are left as [sql] and [rpl]. *)
Record started (c : client_context) (start : Z) (snapshot : bool) (sql : option pg_conn) (rpl : pg_conn)
  (c1 : client_context) : Prop := {
  st_sql : sql_conn c1 = sql;
  st_conn : conn (repl c1) = rpl;
  st_start : start_lsn (repl c1) = start;
  st_snapshot : taking_snapshot c1 = snapshot;
  st_selects : selects c1 = selects c;
  st_status : cl_status c1 = cl_status c;
  st_r_status : r_status (repl c1) = r_status (repl c);
  st_fsync : fsync_lsn (repl c1) = fsync_lsn (repl c);
  st_told : no_update (repl c1);
}.
(** The replies and flags are used up to here, the rest is as it was. *)
Definition left_with (replies : list pg_result) (flags : list bool) (c c1 : pg_conn) : Prop :=
  conn_replies c1 = replies /\ conn_flags c1 = flags /\ conn_results c1 = conn_results c /\
  conn_copies c1 = conn_copies c /\ conn_puts c1 = conn_puts c /\ conn_busy c1 = conn_busy c.

Context (cbs : callbacks recorded_state).
Abbreviation HX := (Has_fst producer_context record).
Abbreviation Has_cl := (Has_client_of (HX := HX)).
Abbreviation on_cl := (on_client (HX := Has_cl)).
Abbreviation start_client := (db_client_start (HX := Has_cl) PQconninfoParse cbs).

Lemma on_client_bind {A B} (m : M client_context A) a cl (f : A -> M (frame_reader * recorded_state) B) r c log :
  m (client c) = (Ret a, cl) -> (x ← on_cl m; f x) (r, (c, log)) = f a (r, (set_client cl c, log)).
Proof. intros Hm. apply bind_Ret. by rewrite on_client_run, Hm. Qed.

Lemma on_stream_bind {A B} (m : M replication_stream A) a s (f : A -> M (frame_reader * recorded_state) B) r c log :
  m (repl (client c)) = (Ret a, s) ->
  (x ← on_cl (zoom m); f x) (r, (c, log)) = f a (r, (set_client (set_repl s (client c)) c, log)).
Proof. intros Hm. apply on_client_bind. unfold zoom. simpl. by rewrite Hm. Qed.

(** The snapshot's transaction is opened and the export is asked for. *)
Lemma snapshot_start_run c sql r1 r2 r3 rs fl r pc log :
  unset (snapshot_name (repl c)) = false -> sql_conn c = Some sql -> conn_replies sql = r1 :: r2 :: r3 :: rs ->
  conn_flags sql = true :: true :: fl -> done_ok r1 -> done_ok r2 -> done_ok r3 -> client pc = c ->
  exists sql', snapshot_start (HX := Has_cl) cbs (r, (pc, log)) =
      call (on_begin_txn cbs) (fun f => f (start_lsn (repl c)) 0) (r, (set_client (set_sql_conn (Some sql') c) pc, log)) /\
    left_with rs fl sql sql'.
Proof.
  intros Hname Hsql Hr Hf H1 H2 H3 <-. eexists. split.
  - unfold snapshot_start. replace (r, (pc, log)) with (r, (set_client (client pc) pc, log)) by (by destruct pc).
    etrans; [by apply (on_client_bind _ (client pc) (client pc))|]. cbv beta. rewrite Hname.
    etrans; [eapply on_client_bind, exec_sql_run; [exact Hsql|exact Hr|exact H1]|]. cbv beta.
    etrans; [eapply on_client_bind, exec_sql_run; [reflexivity|reflexivity|exact H2]|]. cbv beta.
    etrans; [eapply on_client_bind, exec_sql_run; [reflexivity|reflexivity|exact H3]|]. cbv beta.
    etrans; [apply (on_client_bind _ true); unfold on_sql, PQsendQueryParams, mbind, M_bind, modify, next_flag; simpl;
      rewrite Hf; reflexivity|]. cbn [negb]. cbv iota.
    etrans; [apply (on_client_bind _ true); reflexivity|]. reflexivity.
  - by split_and!.
Qed.

(** No slot: it is created, and the export begins. *)
Lemma first_start pc log sql rpl id q cr b1 b2 b3 sqls rpls fl start r :
  connects (client pc) sql rpl -> conn_replies rpl = id :: cr :: rpls -> conn_replies sql = q :: b1 :: b2 :: b3 :: sqls ->
  conn_flags sql = true :: true :: fl -> identified id -> no_slot q -> created start cr ->
  done_ok b1 -> done_ok b2 -> done_ok b3 ->
  exists c1 sql1 rpl1, start_client (r, (pc, log)) =
      call (on_begin_txn cbs) (fun f => f start 0) (r, (set_client c1 pc, log)) /\
    started (client pc) start true (Some sql1) rpl1 c1 /\
    left_with sqls fl sql sql1 /\ left_with rpls (conn_flags rpl) rpl rpl1.
Proof.
  intros Hcn Hrpl Hsql Hfl Hid Hq Hcr H1 H2 H3. destruct (connect_run _ _ _ Hcn) as (rest & params & Hc).
  set (s1 := set_conn (answered (SentQuery "IDENTIFY_SYSTEM") (cr :: rpls) rpl) (repl (client pc))).
  destruct (create_run s1 cr rpls start (cn_slot _ _ _ Hcn) (cn_plugin _ _ _ Hcn) eq_refl Hcr)
    as (name & rpl1 & Hcreate & Hname & qc & ->).
  assert (Hrun : exists c1, start_client (r, (pc, log)) = snapshot_start (HX := Has_cl) cbs (r, (set_client c1 pc, log)) /\
    sql_conn c1 = Some (answered (slot_query (client pc)) (b1 :: b2 :: b3 :: sqls) sql) /\
    repl c1 = set_snapshot_name (Some name) (set_start_lsn start (set_conn (answered (SentQuery qc) rpls (conn s1)) s1)) /\
    taking_snapshot c1 = true /\ selects c1 = selects (client pc) /\ cl_status c1 = cl_status (client pc)).
  { eexists. split.
    - unfold db_client_start. etrans; [apply on_client_bind; exact Hc|]. cbv beta.
      etrans; [eapply on_stream_bind, check_run; [exact Hrpl|exact Hid]|]. cbv beta.
      etrans; [eapply on_client_bind, no_slot_run; [exact (cn_slot _ _ _ Hcn)|reflexivity|exact Hsql|exact Hq]|]. cbv iota beta.
      etrans; [by apply (on_client_bind (modify (set_taking_snapshot true)) tt)|]. cbv beta.
      etrans; [eapply (on_stream_bind _ tt); exact Hcreate|]. cbv beta. reflexivity.
    - by split_and!. }
  destruct Hrun as (c1 & -> & E1 & E2 & E3 & E4 & E5).
  destruct (snapshot_start_run c1 (answered (slot_query (client pc)) (b1 :: b2 :: b3 :: sqls) sql) b1 b2 b3 sqls fl r (set_client c1 pc) log) as (sql1 & Hrun & Hleft); try done.
  { by rewrite E2. }
  rewrite E2 in Hrun. exists (set_sql_conn (Some sql1) c1), sql1, (answered (SentQuery qc) rpls (conn s1)).
  split; [exact Hrun|]. split.
  { split; simpl; rewrite ?E2; try done. unfold no_update. simpl. by rewrite (proj2 (cn_new _ _ _ Hcn)). } split; [exact Hleft|]. by split_and!.
Qed.

(** The slot exists: the stream resumes. *)
Lemma resumed_start pc log sql rpl id q go sqls rpls start r :
  connects (client pc) sql rpl -> conn_replies rpl = id :: go :: rpls -> conn_replies sql = q :: sqls ->
  identified id -> slot_at start q -> PQresultStatus go = PGRES_COPY_BOTH ->
  exists c1 rpl1, start_client (r, (pc, log)) = (Ret tt, (r, (set_client c1 pc, log))) /\
    started (client pc) start false None rpl1 c1 /\ left_with rpls (conn_flags rpl) rpl rpl1.
Proof.
  intros Hcn Hrpl Hsql Hid Hq Hgo. destruct (connect_run _ _ _ Hcn) as (rest & params & Hc).
  eexists _, _. split.
  - unfold db_client_start. etrans; [apply on_client_bind; exact Hc|]. cbv beta.
    etrans; [eapply on_stream_bind, check_run; [exact Hrpl|exact Hid]|]. cbv beta.
    etrans; [eapply on_client_bind, slot_at_run; [exact (cn_slot _ _ _ Hcn)|reflexivity|exact Hsql|exact Hq]|]. cbv iota beta.
    etrans; [by apply (on_client_bind close_sql tt)|]. cbv beta.
    etrans; [by apply (on_client_bind (modify (set_taking_snapshot false)) tt)|]. cbv beta.
    rewrite on_client_run. unfold zoom, replication_stream_start, mbind, M_bind, gets, zoom, PQexec, exec_command. simpl.
    rewrite bool_decide_eq_true_2 by done. reflexivity.
  - split; [split; try done|by split_and!]. unfold no_update. simpl. by rewrite (proj2 (cn_new _ _ _ Hcn)).
Qed.

End start.

(** ** What the set-up leaves *)

(** The state before Postgres is contacted. *)
Record set_up_for (w : world) (r : frame_reader) (c : producer_context) : Prop := {
  su_reader : frame_reader_new = Ret r;
  su_fresh : fresh_producer c;
  su_kafka : kafka c = Kafka (fst (w_kafka w)) (snd (w_kafka w)) [] [];
  su_mapper : mapper c = table_mapper_new (registry c) (topic_prefix c) (w_topics w);
  su_selects : selects (client c) = w_selects w;
  su_signal : received_shutdown_signal c = 0;
  su_statuses : cl_status (client c) = 0 /\ r_status (repl (client c)) = 0;
  su_format : output_format c = OUTPUT_FORMAT_AVRO \/
    (output_format c = OUTPUT_FORMAT_JSON /\ bool_decide (registry c = None) = true);
}.

Lemma start_producer_run w su u su' :
  start_producer w su = (Ret u, su') ->
  let c := su_producer su in
  su_producer su' = set_mapper (table_mapper_new (registry c) (topic_prefix c) (w_topics w))
    (set_kafka (Kafka (fst (w_kafka w)) (snd (w_kafka w)) [] []) c).
Proof.
  unfold start_producer. destruct (negb (w_kafka_new w)); [done|]. intros Hrun.
  apply bind_Ret_inv in Hrun as (? & su1 & [= _ <-] & Hrun).
  apply bind_Ret_inv in Hrun as (c & su2 & [= <- <-] & Hrun).
  destruct (_ =? 0); [done|]. by injection Hrun as _ <-.
Qed.

Lemma set_up_state w opts more r su : set_up w opts more = Ret (r, su) -> set_up_for w r (su_producer su).
Proof.
  intros Hset. pose proof (set_up_fresh w opts more r su Hset) as (_ & Hfresh & _). revert Hset.
  unfold set_up. destruct frame_reader_new as [r0| | | | |] eqn:Er; try done.
  destruct (init_producer w (init_client w)) as [su0| | | | |] eqn:E0; try done.
  apply init_producer_inv in E0 as ->. pose proof (parse_options_spec w opts more) as H. cbv zeta in H.
  unfold mbind at 1, M_bind. destruct (accepted w opts more); destruct H as [x H].
  2:{ by rewrite H. }
  destruct H as [-> Hreg]. destruct (start_producer w _) as [[] su'] eqn:E; try done. intros [= <- <-].
  pose proof (start_producer_run _ _ _ _ E) as Hsu. cbv zeta in Hsu. split; try done; rewrite Hsu; try done.
  destruct (settings_configured w opts) as (_ & _ & Hf & _). cbn -[settings] in Hf |- *. rewrite Hf, Hreg.
  destruct (format_asked_cases opts) as [->| ->]; [by left|by right].
Qed.

(** ** A world that works *)

(** Surroundings that work, for [iterations] of the loop and [tables] announcements: Kafka
    takes messages (at times its queue is full) and acknowledges them, with service [n],
    for as many polls as the loop may make; waits end without error and reading succeeds; the
    replication connection [rpl] takes status updates; topics can be opened; the registry
    at [base], if there is one, answers with ids. *)
Record obliging (json_loadb : string -> option json) (w : world) (c : producer_context) (base : string)
  (n : service) (tables iterations : nat) (rpl : pg_conn) : Prop := {
  ob_attempts : Forall willing (fst (w_kafka w));
  ob_polls : prompt n (snd (w_kafka w));
  ob_many : (per_turn n * iterations + svc_delay n + length (fst (w_kafka w)) <= length (snd (w_kafka w)))%nat;
  ob_selects : Forall waitable (w_selects w);
  ob_waits : (iterations <= length (w_selects w))%nat;
  ob_puts : sendable (per_turn n * iterations + length (fst (w_kafka w))) (conn_puts rpl);
  ob_flags : Forall (eq true) (conn_flags rpl);
  ob_reads : (iterations <= length (conn_flags rpl))%nat;
  ob_topics : Forall (eq true) (w_topics w);
  ob_registry : answers json_loadb base (2 * tables) (registry c);
}.

Lemma obliging_less json_loadb w c base n tables tables' iterations rpl :
  (tables' <= tables)%nat -> obliging json_loadb w c base n tables iterations rpl ->
  obliging json_loadb w c base n tables' iterations rpl.
Proof. intros Ht []. split; try done. eapply answers_less; [|done]. lia. Qed.

(** Postgres has no slot: it creates one at [start], exports the snapshot, and streams. *)
Record serves_snapshot (start : Z) (iterations : nat) (sql rpl : pg_conn) : Prop := {
  ss_sql : exists q b1 b2 b3 commit rest, conn_replies sql = q :: b1 :: b2 :: b3 :: commit :: rest /\
    no_slot q /\ done_ok b1 /\ done_ok b2 /\ done_ok b3 /\ done_ok commit;
  ss_flags : exists fl, conn_flags sql = true :: true :: fl /\ Forall (eq true) fl /\ (iterations <= length fl)%nat;
  ss_rpl : exists id slot go rest, conn_replies rpl = id :: slot :: go :: rest /\
    identified id /\ created start slot /\ PQresultStatus go = PGRES_COPY_BOTH;
}.
(** Postgres has the slot, at [start], and streams. *)
Record serves_stream (start : Z) (sql rpl : pg_conn) : Prop := {
  sv_sql : exists q rest, conn_replies sql = q :: rest /\ slot_at start q;
  sv_rpl : exists id go rest, conn_replies rpl = id :: go :: rest /\ identified id /\ PQresultStatus go = PGRES_COPY_BOTH;
}.

Section launch.
Context (PQconninfoParse : string -> option (list (string * option string))).
Context (le : bool) (clock : nat -> Z * Z) (L : avro_lib) (P : pg_lib).
Context {HL : AvroConforms L} {HP : PgConforms P}.
Context (json_dumps : list Z -> option string) (json_loadb : string -> option json).
Abbreviation cbs := (producer_callbacks le clock L json_dumps json_loadb).
Abbreviation HX := (Has_fst producer_context record).
Abbreviation start_rec := (main_start (HX := HX) PQconninfoParse (recording cbs)).
Abbreviation steps_rec := (main_steps (HX := HX) le clock L (recording cbs)).
Context (Hparse : forall json n, avro_schema_from_json_length L json n <> Err 0).

(** What depends on the registry at [base], the output format and the topic prefix that the
    program was started with. *)
Abbreviation for_run f c base := (f json_dumps base (output_format c) (topic_prefix c) (bool_decide (registry c = None))) (only parsing).
Abbreviation plan_can_go c base := (for_run (plan_welcome L P) c base).
Abbreviation calls_can_go c base := (for_run (call_welcome L P) c base).
Abbreviation arrived c := (finished le L (output_format c) (topic_prefix c) (bool_decide (registry c = None))).

(** After the start the surroundings still work. *)
Lemma obliging_works w r c base n tables iterations sqls rpl rpls fl start snapshot sql1 rpl1 c1 :
  set_up_for w r c -> obliging json_loadb w c base n tables iterations rpl ->
  started (client c) start snapshot sql1 rpl1 c1 -> left_with rpls (conn_flags rpl) rpl rpl1 ->
  (forall s, sql1 = Some s -> left_with sqls fl s s /\ Forall (eq true) fl /\ (iterations <= length fl)%nat) ->
  works json_loadb base n tables iterations (set_client c1 c).
Proof.
  intros [Hr Hfresh Hk Hm Hs Hsig _ _] [O1 O2 O3 O4 O5 O6 O7 O8 O9 O10] [S1 S2 S3 S4 S5 S6 S7 S8] (L1 & L2 & _ & _ & L3 & _) Hsql.
  rewrite Hs in S5. split.
  - split; simpl; rewrite ?Hk; simpl; try done. by rewrite S2, L3.
  - split; simpl; rewrite ?S5, ?S2, ?L2; try done.
    intros f rp E. rewrite S1 in E. destruct sql1 as [s|]; [|done]. injection E as <- <-.
    by destruct (Hsql s eq_refl) as ((_ & -> & _) & ?).
  - simpl. rewrite Hm. by split.
Qed.

Lemma started_fresh c start snapshot sql1 rpl1 c1 :
  fresh_producer c -> started (client c) start snapshot sql1 rpl1 c1 -> fresh_producer (set_client c1 c).
Proof. intros [] []. split; try done. unfold fsync in *. simpl. by rewrite st_fsync0. Qed.

(** The begin callback of the snapshot changes nothing. *)
Lemma snapshot_begun start r c log :
  xact_head c = 0 -> xact_tail c = 0 ->
  call (on_begin_txn (recording cbs)) (fun f => f start 0) (r, (c, log)) = (Ret tt, (r, (c, log ++ [(start, EBegin 0)]))).
Proof.
  intros Hh Ht. change (call _ _) with (zoom (H := Has_snd frame_reader recorded_state) (notify (recording cbs) start (EBegin 0))).
  rewrite notify_recording. unfold zoom, recorded. simpl. unfold begin_txn, mbind, M_bind, gets. simpl. by rewrite Hh, Ht.
Qed.

(** C1: The first run of the program. The command line is accepted, Postgres can be reached
    and has no slot: the program creates the slot and reads the snapshot that belongs to it,
    whose frames arrive as rows of results, however they are grouped and delayed; then the
    plugin's frames are streamed, among keepalive messages and pauses, for any calls that
    Postgres makes, in transactions that are all committed in the end; and then nothing for
    [d] iterations. If the surroundings work (Kafka takes messages, its queue being full at
    times, and acknowledges each at the next poll or one of the [d] polls after it; commands
    succeed; waits end and status updates are sent; the registry answers), then the start
    succeeds and every iteration of the loop returns, and afterwards: the callbacks were run
    for exactly one insertion for every exported row, between the begin and the commit of
    the snapshot, and for exactly the events of the calls, in order; Kafka was handed one
    message for every row event, as [messages_of] describes, and has acknowledged them all;
    the flushed position, which status updates carry, is that of the last commit; and a later
    failure no longer drops the slot. This holds for both output formats; in JSON the values
    of the rows have to have a text ([renders]). *)
Theorem first_run_delivers d w opts more r0 su sql rpl cat (Q : spi P) rows plan x0 x1 fs x' ts
  l s0 s' wals server_le cps tail start base h x :
  let c0 := su_producer su in
  let n := (length ts + (length cps + d))%nat in
  (* the database *)
  spi_table_list P Q = inr rows -> Forall2 (row_table cat) rows (map fst plan) ->
  NoDup (map Snapshot.t_relid (map fst plan)) -> allow_unkeyed (client c0) = true \/ Forall keyed (map fst plan) ->
  Forall (table_exportable L P cat Q) plan ->
  Forall (call_ok L P) l -> 3 * Z.of_nat (total_rows P plan + length l) < 2 ^ 29 ->
  0 < start -> calls_play L P (h_commit start (snapshot_history (total_rows P plan)), 0) wals l = Some (h, x) ->
  h_open h = false ->
  (* what the extension makes of it *)
  new_export_state P = Ret x0 -> export_first_call P cat Q (allow_unkeyed (client c0)) x0 = (Ret tt, x1) ->
  export_all L P cat Q (S (total_rows P plan)) [] x1 = (Ret fs, x') -> export_of fs ts ->
  output_avro_startup = Ret s0 -> plugin_calls L P l s0 = (Ret tt, s') ->
  length wals = length l -> stream_of server_le (zip wals (snd s')) cps -> Forall complete_copy cps ->
  (* the program, and what it meets *)
  set_up w opts more = Ret (r0, su) ->
  connects PQconninfoParse (client c0) sql rpl -> serves_snapshot start n sql rpl ->
  conn_busy sql = turn_busy <$> ts -> conn_results sql = omap turn_result ts ->
  conn_copies rpl = cps ++ replicate d CopyNone ++ tail ->
  obliging json_loadb w c0 base (Service d (length (h_txns h))) (total_rows P plan + length l) n rpl ->
  Forall (plan_can_go c0 base cat) plan ->
  Forall (calls_can_go c0 base) l ->
  exists rx1 r c log tess k1 ess k2,
    start_rec (r0, (c0, [])) = (Ret tt, rx1) /\ steps_rec n rx1 = (Ret tt, (r, (c, log))) /\
    tables_events L P cat ∅ plan tess k1 /\ calls_events L P ∅ l ess k2 /\
    log = [(start, EBegin 0)] ++ stamped (exported fs) tess ++ [(start, ECommit 0)] ++ stamped (zip wals (snd s')) ess /\
    arrived c0 tail h log r c.
Proof.
  intros c0 n Hq Hrows Hnd Hkeys Hex Hl Hlen Hstart Hplay Hopen Hx0 Hx1 Hfs Hts Hs0 Hcalls Hw Hstr Hcc
    Hset Hcn [(q & b1 & b2 & b3 & cm & sqls & Hsql & Hnq & Hb1 & Hb2 & Hb3 & Hcm) (fl & Hfl & Hflt & Hfln)
    (id & cr & go & rpls & Hrpl & Hid & Hcr & Hgo)] Hbusy Hres Hcop Hob Hwelp Hwel.
  apply set_up_state in Hset as Hsu. fold c0 in Hsu. pose proof Hsu as [Hr0 Hfresh Hk Hm Hsel Hsig [Hst Hrst] Hformat].
  destruct (first_start PQconninfoParse (recording cbs) c0 [] sql rpl id q cr b1 b2 b3 (cm :: sqls) (go :: rpls) fl start r0
    Hcn Hrpl Hsql Hfl Hid Hnq Hcr Hb1 Hb2 Hb3) as (c1 & sql1 & rpl1 & Hrun & Hstd & Hlsql & Hlrpl).
  pose proof (started_fresh _ _ _ _ _ _ Hfresh Hstd) as Hfresh1.
  rewrite snapshot_begun in Hrun by (by destruct Hfresh1).
  pose proof (obliging_works w r0 c0 base _ _ n (cm :: sqls) rpl _ fl start true (Some sql1) rpl1 c1 Hsu Hob Hstd Hlrpl) as Hworks.
  destruct (everything_arrives le clock L P json_dumps json_loadb Hparse
    base (output_format c0) (topic_prefix c0) (bool_decide (registry c0 = None)) Hformat (Service d (length (h_txns h))) cat Q (allow_unkeyed (client c0)) rows plan x0 x1 fs x' ts
    l s0 s' wals server_le cps tail start (registry c0) (w_topics w) r0 (set_client c1 c0)
    [(start, EBegin 0)] h x) as (r & c & log & tess & k1 & ess & k2 & Hsteps & Ht & Hc & Hlog & Hfin); try done.
  - by repeat constructor.
  - by destruct Hstd.
  - destruct Hstd as [E1 E2 E3 E4 E5 E6 E7 E8], Hlsql as (_ & _ & H3 & _ & _ & H6), Hlrpl as (_ & _ & _ & H4 & _).
    split; [exists sql1; split; [done|by rewrite H3, H6]|]. simpl. unfold feed_of. simpl. rewrite E2, E3, E6, E7, H4, Hst, Hrst.
    by split_and!.
  - destruct Hstd as [E1 E2 _ _ _ _ _ _], Hlsql as (Hr1 & _), Hlrpl as (Hr2 & _). unfold heard. simpl.
    rewrite E1, E2, Hr2. simpl. rewrite Hr1. split; [by eexists _, _|by eexists _, _].
  - apply Hworks. intros s [= <-]. split; [|done]. destruct Hlsql as (? & ? & _). by split_and!.
  - exists (r0, (set_client c1 c0, [(start, EBegin 0)])), r, c, log, tess, k1, ess, k2.
    split; [unfold main_start; by apply ensure_run|]. split; [done|]. split; [done|]. split; [done|]. split; [|done].
    rewrite Hlog. by rewrite <- !(assoc_L (++)).
Qed.

(** The program starts and Postgres has the slot: it streams at once. *)
Lemma resumed w opts more r0 su sql rpl start cps :
  let c0 := su_producer su in
  set_up w opts more = Ret (r0, su) -> connects PQconninfoParse (client c0) sql rpl -> serves_stream start sql rpl ->
  conn_copies rpl = cps ->
  exists c1 rpl1 rpls, start_rec (r0, (c0, [])) = (Ret tt, (r0, (set_client c1 c0, []))) /\
    set_up_for w r0 c0 /\ started (client c0) start false None rpl1 c1 /\ left_with rpls (conn_flags rpl) rpl rpl1 /\
    fresh_producer (set_client c1 c0) /\ h_initial (set_client c1 c0) = History [0] false false [] /\
    at_stream cps (feed_of (set_client c1 c0)).
Proof.
  intros c0 Hset Hcn [(q & sqls & Hsql & Hslot) (id & go & rpls & Hrpl & Hid & Hgo)] Hcop.
  apply set_up_state in Hset as Hsu. fold c0 in Hsu. pose proof Hsu as [Hr0 Hfresh Hk Hm Hsel Hsig [Hst Hrst] Hformat].
  destruct (resumed_start PQconninfoParse (recording cbs) c0 [] sql rpl id q go sqls rpls start r0
    Hcn Hrpl Hsql Hid Hslot Hgo) as (c1 & rpl1 & Hrun & Hstd & Hlrpl).
  exists c1, rpl1, rpls. split; [unfold main_start; by apply ensure_run|]. split; [done|]. split; [done|]. split; [done|].
  split; [by apply (started_fresh _ _ _ _ _ _ Hfresh Hstd)|]. split; [unfold h_initial; simpl; by rewrite (st_snapshot _ _ _ _ _ _ Hstd)|].
  destruct Hstd as [E1 E2 E3 E4 E5 E6 E7 E8], Hlrpl as (_ & _ & _ & H4 & _).
  unfold feed_of. simpl. split; simpl; rewrite ?E1, ?E2, ?E6, ?E7, ?H4, ?Hst, ?Hrst; [done|by split_and!].
Qed.

(** A later run. As in the first run, but Postgres has the slot: the program takes no
    snapshot and resumes at the slot's position. *)
Theorem later_run_delivers d w opts more r0 su sql rpl l s0 s' wals server_le cps tail start base h x :
  let c0 := su_producer su in
  let n := (length cps + d)%nat in
  (* the database, and what the extension makes of its calls *)
  Forall (call_ok L P) l -> 3 * Z.of_nat (length l) < 2 ^ 29 ->
  calls_play L P (History [0] false false [], 0) wals l = Some (h, x) -> h_open h = false ->
  output_avro_startup = Ret s0 -> plugin_calls L P l s0 = (Ret tt, s') ->
  length wals = length l -> stream_of server_le (zip wals (snd s')) cps -> Forall complete_copy cps ->
  (* the program, and what it meets *)
  set_up w opts more = Ret (r0, su) ->
  connects PQconninfoParse (client c0) sql rpl -> serves_stream start sql rpl ->
  conn_copies rpl = cps ++ replicate d CopyNone ++ tail ->
  obliging json_loadb w c0 base (Service d (length (h_txns h))) (length l) n rpl ->
  Forall (calls_can_go c0 base) l ->
  exists rx1 r c log ess k',
    start_rec (r0, (c0, [])) = (Ret tt, rx1) /\ steps_rec n rx1 = (Ret tt, (r, (c, log))) /\
    calls_events L P ∅ l ess k' /\ log = stamped (zip wals (snd s')) ess /\
    arrived c0 tail h log r c.
Proof.
  intros c0 n Hl Hlen Hplay Hopen Hs0 Hcalls Hw Hstr Hcc Hset Hcn Hsv Hcop Hob Hwel.
  destruct (resumed w opts more r0 su sql rpl start _ Hset Hcn Hsv Hcop) as (c1 & rpl1 & rpls & Hrun & Hsu & Hstd & Hlrpl & Hfresh1 & Hinit & Hfeed).
  fold c0 in Hrun, Hsu, Hstd, Hfresh1, Hinit, Hfeed.
  pose proof (obliging_works w r0 c0 base _ _ n [] rpl _ [] start false None rpl1 c1 Hsu Hob Hstd Hlrpl) as Hworks.
  destruct Hsu as [Hr0 Hfresh Hk Hm Hsel Hsig [Hst Hrst] Hformat].
  destruct (everything_streamed le clock L P json_dumps json_loadb Hparse
    base (output_format c0) (topic_prefix c0) (bool_decide (registry c0 = None)) Hformat (Service d (length (h_txns h))) l s0 s' wals server_le cps tail
    (registry c0) (w_topics w) r0 (set_client c1 c0) [] h x) as (r & c & log & ess & k' & H); try done.
  - by rewrite Hinit.
  - constructor.
  - by apply Hworks.
  - by exists (r0, (set_client c1 c0, [])), r, c, log, ess, k'.
Qed.

End launch.

(** ** Two runs *)

(** Every second poll acknowledges the first [n] messages. *)
Definition all_reports (n : nat) : poll_result := PollResult (map (fun m => (m, 0)) (seq 0 n)) None.
Fixpoint late_polls (n k : nat) : list poll_result :=
  match k with O => [] | S k => PollResult [] None :: all_reports n :: late_polls n k end.
Lemma all_reports_in n m : (m < n)%nat -> (m, 0) ∈ reports (all_reports n).
Proof. intros Hm. apply list_elem_of_fmap. exists m. split; [done|]. apply elem_of_seq. lia. Qed.
Lemma late_polls_ok n k : prompt (Service 1 n) (late_polls n k).
Proof.
  split.
  - induction k as [|k IH]; [done|]. constructor; [by split|]. constructor; [|done]. split; [|done].
    apply list.Forall_forall. by intros r (m & -> & _)%list_elem_of_fmap.
  - intros m i Hm%all_reports_in. revert i. induction k as [|k IH]; intros i Hi; cbn -[all_reports] in Hi; [lia|].
    destruct i as [|[|i]].
    + exists 1%nat, (all_reports n). split; [simpl; lia|done].
    + exists 0%nat, (all_reports n). split; [simpl; lia|done].
    + apply (IH i). simpl in *. lia.
Qed.

(** Every second value is that of [PQflush]. *)
Definition good_puts (n : nat) : list Z := concat (replicate n [1; 0]).
Lemma good_puts_ok n : sendable n (good_puts n).
Proof. induction n as [|n IH]; [done|]. by split. Qed.

(** The queue is full once, and acknowledgements may be late by a poll; data arrives at every
    wait. *)
Definition launch_world (messages iterations : nat) (sql rpl : pg_conn) : world :=
  World (replicate 14 (HttpResponse 0 200 [""])) [(sql, true); (rpl, true)] (replicate iterations (1, 0))
    ([Attempt false ENOBUFS], late_polls messages (2 * iterations + 1)) [] true (fun _ => 1)
    (fun _ _ => true) (fun _ _ => true).
Definition launch_set_up (opts : list getopt) (w : world) : frame_reader * startup :=
  match set_up w opts false with
  | Ret x => x
  | _ => (sample_reader, initial_startup w)
  end.
Definition identity_result : pg_result := PGresult PGRES_TUPLES_OK [[Some "sys"; Some "1"; Some "0/0"; Some "db"]] 4 0.
Definition copy_both_result : pg_result := PGresult PGRES_COPY_BOTH [] 0 0.

Lemma launch_obliging messages iterations sql rpl :
  let w := launch_world messages iterations sql rpl in
  sendable (4 * iterations + 1) (conn_puts rpl) -> Forall (eq true) (conn_flags rpl) ->
  (iterations <= length (conn_flags rpl))%nat ->
  registry (su_producer (snd (launch_set_up run_opts w))) = Some (schema_registry_new DEFAULT_SCHEMA_REGISTRY (w_registry w)) ->
  obliging id_seven w (su_producer (snd (launch_set_up run_opts w))) DEFAULT_SCHEMA_REGISTRY (Service 1 messages) 7 iterations rpl.
Proof.
  intros w Hputs Hflags Hreads Hreg. split; try done.
  - by repeat constructor.
  - apply late_polls_ok.
  - assert (Hlen : forall k, length (late_polls messages k) = (2 * k)%nat).
    { induction k as [|k IH]; [done|]. cbn -[all_reports]. rewrite IH. lia. }
    unfold w, launch_world, per_turn. cbn -[late_polls Nat.mul]. rewrite Hlen. lia.
  - apply Forall_replicate. by right; right.
  - simpl. rewrite length_replicate. lia.
  - rewrite Hreg. split; [done|]. split; [|by vm_compute; lia]. apply Forall_replicate.
    split; [done|]. split; [done|]. by eexists _, _.
Qed.

Lemma launch_welcome plain : welcome ref_lib any_dumps DEFAULT_SCHEMA_REGISTRY None plain sample_catalog sample_table.
Proof. eexists. split; [reflexivity|]. intros _. split; [intros []; by vm_compute|]. split; [done|]. by intros ks _. Qed.

(** The sample's rows can be rendered in either format. *)
Lemma launch_plan_welcome fmt plain :
  Forall (plan_welcome ref_lib sample_pg any_dumps DEFAULT_SCHEMA_REGISTRY fmt None plain sample_catalog)
    [(sample_export, sample_cursor)].
Proof.
  apply Forall_singleton. split; [exact (launch_welcome plain)|].
  repeat constructor; try (intros v [= <-]); intros _; by eexists.
Qed.
Lemma launch_calls_welcome fmt plain :
  Forall (call_welcome ref_lib sample_pg any_dumps DEFAULT_SCHEMA_REGISTRY fmt None plain) sample_calls.
Proof.
  repeat (constructor; [split; [try done; apply launch_welcome|]|]); try done;
    repeat constructor; try (intros v [= <-]); intros _; by eexists.
Qed.

Definition first_sql : pg_conn :=
  PGconn (PGresult PGRES_TUPLES_OK [] 1 0 :: replicate 4 ok_result) (omap turn_result first_turns) [] []
    (turn_busy <$> first_turns) (replicate 15 true) [].
Definition first_rpl : pg_conn :=
  PGconn [identity_result; PGresult PGRES_TUPLES_OK [[Some "slot"; Some "0/32"; Some "00000ABC-1"; Some "plugin"]] 4 0;
      copy_both_result] [] (flow_copies ++ [CopyNone]) (good_puts 53) [] (replicate 13 true) [].
Definition first_world : world := launch_world 6 13 first_sql first_rpl.
Definition first_history : history := History [50; 70] false true [0; 0; 1; 1; 1; 1]%nat.

Lemma first_serves : serves_snapshot 50 13 first_sql first_rpl.
Proof.
  split.
  - eexists _, _, _, _, _, _. split; [reflexivity|]. by split_and!.
  - exists (replicate 13 true). split; [done|]. split; [by apply Forall_replicate|simpl; lia].
  - eexists _, _, _, _. split; [reflexivity|]. split; [|split; [|done]].
    + split; [done|]. split; [done|]. split; [by simpl; lia|by eexists].
    + split; [done|]. split; [done|]. split; [done|]. by eexists _, _.
Qed.

Lemma first_run_delivers_witness :
  exists rx1 r c log tess k1 ess k2,
    main_start (HX := Has_fst producer_context record) sample_parse run_cbs
      (fst (launch_set_up run_opts first_world), (su_producer (snd (launch_set_up run_opts first_world)), [])) = (Ret tt, rx1) /\
    main_steps (HX := Has_fst producer_context record) true demo_clock ref_lib run_cbs 13 rx1 = (Ret tt, (r, (c, log))) /\
    tables_events ref_lib sample_pg sample_catalog ∅ [(sample_export, sample_cursor)] tess k1 /\
    calls_events ref_lib sample_pg ∅ sample_calls ess k2 /\
    log = [(50, EBegin 0)] ++ stamped (exported first_frames) tess ++ [(50, ECommit 0)] ++
      stamped (zip flow_wals flow_frames) ess /\
    finished true ref_lib OUTPUT_FORMAT_AVRO None false [] first_history log r c.
Proof.
  destruct (first_run_delivers sample_parse true demo_clock ref_lib sample_pg any_dumps id_seven ref_parse 1 first_world
    run_opts false (fst (launch_set_up run_opts first_world)) (snd (launch_set_up run_opts first_world)) first_sql first_rpl
    sample_catalog sample_spi [sample_catalog_row] [(sample_export, sample_cursor)]
    (ExportState sample_pg [] 0 (frame_value [], ∅) ([], []) []) first_export first_frames
    (snd (export_all ref_lib sample_pg sample_catalog sample_spi 3 [] first_export)) first_turns sample_calls
    (frame_value [], schema_cache_new, [])
    (snd (plugin_calls ref_lib sample_pg sample_calls (frame_value [], schema_cache_new, [])))
    flow_wals true flow_copies [] 50 DEFAULT_SCHEMA_REGISTRY first_history 700)
    as (rx1 & r & c & log & tess & k1 & ess & k2 & H);
    [done|apply sample_row_table|apply NoDup_singleton|right; apply Forall_singleton; by eexists
    |apply Forall_singleton, sample_exportable|apply sample_calls_ok|by vm_compute|done|by vm_compute|done
    |done|exact first_export_ok|exact first_frames_ok|exact first_turns_export|done|exact flow_frames_ok|done
    |exact flow_stream|by vm_compute; repeat constructor|by vm_compute
    |split; [by vm_compute|by vm_compute|by vm_compute|by vm_compute|by eexists|by eexists|done]
    |exact first_serves|done|done|done|
    |apply launch_plan_welcome|apply launch_calls_welcome|].
  - apply (launch_obliging 6 13 first_sql first_rpl); [apply (good_puts_ok 53)|by apply Forall_replicate|done|by vm_compute].
  - by exists rx1, r, c, log, tess, k1, ess, k2.
Defined.

(** The slot exists; the first messages are not sent again. *)
Definition later_sql : pg_conn := PGconn [PGresult PGRES_TUPLES_OK [[Some "0/32"]] 1 0] [] [] [] [] [] [].
Definition later_rpl : pg_conn :=
  PGconn [identity_result; copy_both_result] [] (flow_copies ++ [CopyNone]) (good_puts 33) [] (replicate 8 true) [].
Definition later_world : world := launch_world 4 8 later_sql later_rpl.
Definition later_history : history := History [0; 70] false false [1; 1; 1; 1]%nat.

Lemma later_run_delivers_witness :
  exists rx1 r c log ess k',
    main_start (HX := Has_fst producer_context record) sample_parse run_cbs
      (fst (launch_set_up run_opts later_world), (su_producer (snd (launch_set_up run_opts later_world)), [])) = (Ret tt, rx1) /\
    main_steps (HX := Has_fst producer_context record) true demo_clock ref_lib run_cbs 8 rx1 = (Ret tt, (r, (c, log))) /\
    calls_events ref_lib sample_pg ∅ sample_calls ess k' /\ log = stamped (zip flow_wals flow_frames) ess /\
    finished true ref_lib OUTPUT_FORMAT_AVRO None false [] later_history log r c.
Proof.
  destruct (later_run_delivers sample_parse true demo_clock ref_lib sample_pg any_dumps id_seven ref_parse 1 later_world
    run_opts false (fst (launch_set_up run_opts later_world)) (snd (launch_set_up run_opts later_world)) later_sql later_rpl sample_calls
    (frame_value [], schema_cache_new, [])
    (snd (plugin_calls ref_lib sample_pg sample_calls (frame_value [], schema_cache_new, [])))
    flow_wals true flow_copies [] 50 DEFAULT_SCHEMA_REGISTRY later_history 700)
    as (rx1 & r & c & log & ess & k' & H);
    [apply sample_calls_ok|by vm_compute|by vm_compute|done|done|exact flow_frames_ok|done
    |exact flow_stream|by vm_compute; repeat constructor|by vm_compute
    |split; [by vm_compute|by vm_compute|by vm_compute|by vm_compute|by eexists|by eexists|done]
    | |done| |apply launch_calls_welcome|].
  - split; [by eexists _, _; split; [reflexivity|]; split_and!; try done; eexists|].
    by eexists _, _, _; split; [reflexivity|]; split_and!; try done; eexists.
  - apply (obliging_less _ _ _ _ _ 7); [by vm_compute; lia|].
    apply (launch_obliging 4 8 later_sql later_rpl); [apply (good_puts_ok 33)|by apply Forall_replicate|done|by vm_compute].
  - by exists rx1, r, c, log, ess, k'.
Defined.

(** What Kafka is handed in the first run, and the position at the end. *)
Definition first_run_after (opts : list getopt) : outcome unit * (frame_reader * recorded_state) :=
  main_steps (HX := Has_fst producer_context record) true demo_clock ref_lib run_cbs 13
    (snd (main_start (HX := Has_fst producer_context record) sample_parse run_cbs
      (fst (launch_set_up opts first_world), (su_producer (snd (launch_set_up opts first_world)), [])))).
Definition handed (c : producer_context) : list (Z * option (list Z)) :=
  (fun m => (env_wal_pos (k_envelope m), k_key m)) <$> k_produced (kafka c).
Example first_run_messages :
  let c := fst (snd (snd (first_run_after run_opts))) in
  handed c =
    [(0, Some (prefix_bytes 7 ++ [2; 2])); (0, Some (prefix_bytes 7 ++ [2; 4]));
     (61, Some (prefix_bytes 7 ++ [2; 14])); (62, Some (prefix_bytes 7 ++ [2; 14]));
     (62, Some (prefix_bytes 7 ++ [2; 16])); (63, Some (prefix_bytes 7 ++ [2; 16]))] /\
  fsync c = 70 /\ taking_snapshot (client c) = false.
Proof. by vm_compute. Qed.

(** The same with JSON as output format, where a value's text stands without a prefix. *)
Example first_run_messages_json :
  let c := fst (snd (snd (first_run_after (Getopt (chr "f") "json" :: run_opts)))) in
  handed c =
    [(0, Some [2; 2]); (0, Some [2; 4]); (61, Some [2; 14]); (62, Some [2; 14]); (62, Some [2; 16]); (63, Some [2; 16])] /\
  fsync c = 70 /\ taking_snapshot (client c) = false.
Proof. by vm_compute. Qed.

(** ** A signal during the snapshot

    It comes after the first of two rows. The program ends with status 0 and keeps the slot;
    the second row is never sent, since a later run finds the slot and streams
    ([resumed_start]). *)
Definition signal_world : world :=
  World (w_registry first_world) (w_net first_world) (w_selects first_world)
    ([], [PollResult [] None; PollResult [] (Some 15)]) [] true (fun _ => 1) (fun _ _ => true) (fun _ _ => true).
Definition signal_run : outcome unit * (frame_reader * recorded_state) :=
  main (HX := Has_fst producer_context record) sample_parse true demo_clock ref_lib run_cbs 13
    (fst (launch_set_up run_opts signal_world), (su_producer (snd (launch_set_up run_opts signal_world)), [])).
Example interrupted_snapshot :
  let c := fst (snd (snd signal_run)) in
  fst signal_run = Exit 0 /\ handed c = [(0, Some (prefix_bytes 7 ++ [2; 2]))] /\
  taking_snapshot (client c) = true /\ conn_sent (conn (repl (client c))) =
    [SentQuery "IDENTIFY_SYSTEM";
     SentQuery ("CREATE_REPLICATION_SLOT " +:+ quote "bottledwater" +:+ " LOGICAL " +:+ quote "bottledwater"); SentFinish].
Proof. by vm_compute. Qed.
