(* ===== verification/Restart.v ===== *)
(** * Interrupted runs

    At least once, however often the program is stopped: Postgres streams again what was
    committed after a position that was reported to it, so a transaction whose messages
    Kafka has not all acknowledged is delivered by a later run. *)

From S2P Require Import Prelude Avro AvroBinary IoUtil Protocol Oid2Avro Sample SchemaCache.
From S2P Require Import ProtocolServer LogDecoder ProtocolClient EndToEnd Snapshot NetBytes Libpq.
From S2P Require Import Replication Connect Registry TableMapper Json Producer ProducerSafety Delivery.
From S2P Require Import Main Program Quiet Liveness Pipeline Progress Calls Arrival Launch.
From Stdlib Require Import Sorted.
Open Scope Z_scope.

(** ** Histories and records *)

(** The rows of a record for which a message is sent. *)
Definition counted (log : record) : nat := length (omap (event_row ∘ snd) log).
Lemma counted_app l1 l2 : counted (l1 ++ l2) = (counted l1 + counted l2)%nat.
Proof. unfold counted. by rewrite omap_app, length_app. Qed.

Lemma messages_length le L pre plain fmt past log msgs :
  messages_of le L pre plain fmt past log msgs -> length msgs = counted log.
Proof.
  induction 1 as [past|past [w e] log ms msgs He _ IH]; [done|].
  change ((w, e) :: log) with ([(w, e)] ++ log). rewrite length_app, counted_app, IH. f_equal.
  unfold event_messages, counted in *. simpl in *. destruct (event_row e) as [[[r k] v]|]; [|by subst].
  by destruct He as (? & ? & ? & ? & ? & ? & _ & _ & _ & _ & ->).
Qed.

(** The history is the one that the producer's invariant speaks about. *)
Lemma plays_h_run hx log hx' : plays hx log = Some hx' -> h_run (fst hx) (inputs_of log) = Some (fst hx').
Proof.
  revert hx. induction log as [|[w e] log IH]; intros hx H; simpl in H; [by injection H as <-|].
  destruct (play hx (w, e)) as [hx1|] eqn:E; [|done]. apply play_inv in E as [E _]. cbn [inputs_of fmap list_fmap h_run fst snd].
  unfold inputs_of in IH. rewrite E. by apply IH.
Qed.

(** What a longer record does not change: the commits and the messages so far. *)
Definition extends (h h' : history) : Prop :=
  h_txns h `prefix_of` h_txns h' /\ (current h <= current h')%nat /\
  forall tid, closed h tid -> closed h' tid /\ commit_of h' tid = commit_of h tid.

Lemma extends_refl h : extends h h.
Proof. split; [done|]. by split. Qed.
Lemma extends_trans h1 h2 h3 : extends h1 h2 -> extends h2 h3 -> extends h1 h3.
Proof.
  intros (P1 & C1 & H1) (P2 & C2 & H2). split; [by etrans|]. split; [lia|]. intros tid Hc.
  destruct (H1 tid Hc) as [Hc2 E1]. destruct (H2 tid Hc2) as [Hc3 E2]. split; [done|congruence].
Qed.

Lemma play_extends hx we hx' : h_commits (fst hx) <> [] -> play hx we = Some hx' ->
  extends (fst hx) (fst hx') /\ h_commits (fst hx') <> [].
Proof.
  destruct we as [w e]. intros Hne [Hstep _]%play_inv. destruct hx as [h x], hx' as [h' x']. cbn [fst snd] in *. clear x x'.
  assert (Hrow : h_row h = Some h' -> extends h h' /\ h_commits h' <> []).
  { unfold h_row. case_decide; [|done]. intros [= <-]. split; [|done]. split; [by eexists|]. by split. }
  destruct e as [y|y|relid k r|relid k r|relid k o r|relid [k|] o]; simpl in Hstep; auto.
  - repeat case_decide; try discriminate Hstep; [injection Hstep as <-; by split; [apply extends_refl|]|].
    destruct (h_open h) eqn:Ho; [done|]. injection Hstep as <-. split; [|simpl; by destruct (h_commits h)].
    split; [done|]. rewrite current_begin by done. split; [lia|]. intros tid Hc. rewrite commit_of_begin. split; [|done].
    left. rewrite current_begin by done. destruct Hc as [|[-> _]]; lia.
  - case_decide as Hd; [|done]. injection Hstep as <-. destruct Hd as (Ho & _ & _).
    split; [|simpl; intros E; apply (f_equal length) in E; rewrite length_insert in E; by destruct (h_commits h)].
    split; [done|]. rewrite current_commit. split; [done|]. intros tid Hc.
    assert (tid < current h)%nat by (destruct Hc as [|[_ ?]]; [done|congruence]).
    rewrite commit_of_commit by done. rewrite decide_False by lia. split; [|done]. left. by rewrite current_commit.
  - injection Hstep as <-. by split; [apply extends_refl|].
  - injection Hstep as <-. by split; [apply extends_refl|].
Qed.

Lemma plays_extends log : forall hx hx', h_commits (fst hx) <> [] -> plays hx log = Some hx' -> extends (fst hx) (fst hx').
Proof.
  induction log as [|we log IH]; intros hx hx' Hne H; simpl in H; [injection H as <-; apply extends_refl|].
  destruct (play hx we) as [hx1|] eqn:E; [|done]. destruct (play_extends hx we hx1 Hne E) as [H1 H2].
  eapply extends_trans; [exact H1|by apply IH].
Qed.

(** Commit positions come from commits. *)
Lemma plays_commits log : forall hx hx', plays hx log = Some hx' -> forall l, l ∈ h_commits (fst hx') ->
  l ∈ h_commits (fst hx) \/ l = 0 \/ exists x, (l, ECommit x) ∈ log.
Proof.
  induction log as [|[w e] log IH]; intros hx hx' H l Hl; simpl in H; [injection H as <-; by left|].
  destruct (play hx (w, e)) as [hx1|] eqn:E; [|done].
  destruct (IH hx1 hx' H l Hl) as [H1|[->|[x H1]]]; [|by right; left|right; right; exists x; by right].
  apply play_inv in E as [Hstep _]. destruct hx as [h x], hx1 as [h1 x1]. cbn [fst snd] in *.
  assert (Hrow : h_row h = Some h1 -> l ∈ h_commits h).
  { unfold h_row. case_decide; [|done]. intros [= <-]. exact H1. }
  destruct e as [y|y|relid k r|relid k r|relid k o r|relid [k|] o]; simpl in Hstep; auto.
  - repeat case_decide; try discriminate Hstep; [injection Hstep as <-; by left|].
    destruct (h_open h); [done|]. injection Hstep as <-. simpl in H1.
    apply elem_of_app in H1 as [H1|H1%list_elem_of_singleton]; [by left|by right; left].
  - case_decide; [|done]. injection Hstep as <-. simpl in H1.
    apply list_elem_of_lookup in H1 as [i Hi]. destruct (decide (i = current h)) as [->|Hne].
    + apply list_lookup_insert_Some in Hi as [(_ & <- & _)|[? _]]; [right; right; exists y; by left|done].
    + rewrite list_lookup_insert_ne in Hi by done. left. by eapply list_elem_of_lookup_2.
  - injection Hstep as <-. by left.
  - injection Hstep as <-. by left.
Qed.

(** ** Transactions *)

Section transactions.
Context (L : avro_lib) (P : pg_lib).

(** A transaction of the database: the position and arguments of the calls it causes. *)
Record txn : Type := Txn {
  tx_xid : Z;
  tx_begin : Z;
  tx_changes : list (Z * (catalog * relation * change P));
  tx_commit : Z;
  tx_lsn : Z;
}.
Definition change_call (c : Z * (catalog * relation * change P)) : Z * pg_call P :=
  let '(w, (cat, rel, ch)) := c in (w, PChange P cat rel ch).
Definition calls_of (t : txn) : list (Z * pg_call P) :=
  (tx_begin t, PBegin P (tx_xid t)) :: (change_call <$> tx_changes t) ++ [(tx_commit t, PCommit P (tx_xid t) (tx_lsn t))].
Definition all_calls (T : list txn) : list (Z * pg_call P) := concat (calls_of <$> T).

(** The events of calls, apart from schemas, at their positions. *)
Definition bodies (xs : list (Z * pg_call P)) : record :=
  concat ((fun wx => (fun e => (fst wx, e)) <$> call_body L P (snd wx)) <$> xs).
Definition tx_rows (t : txn) : record := bodies (change_call <$> tx_changes t).

Lemma bodies_app xs ys : bodies (xs ++ ys) = bodies xs ++ bodies ys.
Proof. unfold bodies. by rewrite fmap_app, concat_app. Qed.
Lemma bodies_of t : bodies (calls_of t) = [(tx_begin t, EBegin (tx_xid t))] ++ tx_rows t ++ [(tx_commit t, ECommit (tx_xid t))].
Proof. unfold calls_of. change (?a :: ?l ++ ?m) with ([a] ++ l ++ m). by rewrite !bodies_app. Qed.

Lemma calls_play_bodies xs : forall hx, calls_play L P hx (fst <$> xs) (snd <$> xs) = plays hx (bodies xs).
Proof.
  induction xs as [|[w x] xs IH]; intros hx; [done|]. cbn [fmap list_fmap calls_play fst snd].
  change (bodies ((w, x) :: xs)) with (((fun e => (w, e)) <$> call_body L P x) ++ bodies xs). rewrite plays_bind.
  destruct (plays hx _) as [hx1|]; [apply IH|done].
Qed.

(** What Postgres gives: transaction ids other than 0, rows that an [int] can count, commit
    positions that increase. *)
Definition txn_ok (t : txn) : Prop :=
  tx_xid t <> 0 /\ 0 < tx_commit t /\ Z.of_nat (counted (tx_rows t)) < 2 ^ 31.
Definition in_order (T : list txn) : Prop := StronglySorted (fun t u => tx_commit t < tx_commit u) T.

(** The history after a transaction. *)
Definition after_txn (h : history) (t : txn) : history :=
  History (h_commits h ++ [tx_commit t]) false (h_snapshot h)
    (h_txns h ++ replicate (counted (tx_rows t)) (S (current h))).

(** Rows are added to the current transaction. *)
Definition with_rows (n : nat) (h : history) : history :=
  History (h_commits h) (h_open h) (h_snapshot h) (h_txns h ++ replicate n (current h)).

Lemma rows_play (body : record) : forall h x, h_open h = true -> Forall (fun we => is_row (snd we)) body ->
  Z.of_nat (length (filter (fun u => u = current h) (h_txns h)) + counted body) < 2 ^ 31 ->
  plays (h, x) body = Some (with_rows (counted body) h, x).
Proof.
  induction body as [|[w e] body IH]; intros h x Ho Hrow Hn.
  { unfold with_rows. simpl. rewrite app_nil_r. by destruct h. }
  apply list.Forall_cons in Hrow as [He Hrow]. change ((w, e) :: body) with ([(w, e)] ++ body) in *.
  rewrite counted_app in *. rewrite plays_bind.
  assert (Hone : event_row e <> None -> h_row h = Some (with_message (current h) h)).
  { intros Hr. unfold h_row. rewrite decide_True; [done|]. split; [done|]. unfold counted in Hn at 1. simpl in Hn.
    destruct (event_row e); [|done]. simpl in Hn. lia. }
  assert (Hstep : plays (h, x) [(w, e)] = Some (with_rows (counted [(w, e)]) h, x)).
  { unfold counted, plays, play, with_rows. destruct h as [cs o s ts].
    destruct e as [| | |r k v|r k ov v|r [k|] ov]; simpl in *; try done; rewrite ?Hone by done; unfold with_message; simpl; try done.
    by rewrite app_nil_r. }
  rewrite Hstep. cbn [mbind option_bind]. rewrite IH; [|done|done|].
  - unfold with_rows, current. simpl. rewrite <- (assoc_L (++)), <- replicate_add. done.
  - simpl. rewrite list.filter_app, length_app. change (current (with_rows _ h)) with (current h).
    pose proof (length_filter (fun u => u = current h) (replicate (counted [(w, e)]) (current h))) as Hl.
    rewrite length_replicate in Hl. lia.
Qed.

Lemma tx_rows_rows t : Forall (fun we => is_row (snd we)) (tx_rows t).
Proof.
  unfold tx_rows. induction (tx_changes t) as [|[w [[cat rel] ch]] l IH]; [constructor|].
  apply Forall_app. split; [|done]. apply Forall_fmap. apply row_events_rows.
Qed.

(** Between transactions: everything is committed. *)
Record between (h : history) : Prop := {
  bw_closed : h_open h = false;
  bw_nonempty : h_commits h <> [];
  bw_txns : Forall (fun u => (u <= current h)%nat) (h_txns h);
}.
Definition before (h : history) (t : txn) : Prop := Forall (fun l => l < tx_commit t) (h_commits h).

Lemma current_after h t : h_commits h <> [] -> current (after_txn h t) = S (current h).
Proof. unfold current. simpl. rewrite length_app. destruct (h_commits h); [done|]. simpl. lia. Qed.

Lemma after_between h t : between h -> between (after_txn h t).
Proof.
  intros [H1 H2 H3]. split; [done|by simpl; destruct (h_commits h)|]. rewrite current_after by done.
  apply Forall_app. split; [|by apply Forall_replicate].
  eapply List.Forall_impl; [|exact H3]. simpl. lia.
Qed.

Lemma txn_play h x t : between h -> before h t -> txn_ok t ->
  plays (h, x) (bodies (calls_of t)) = Some (after_txn h t, tx_xid t).
Proof.
  intros [Ho Hne Htx] Hlt (Hx & Hw & Hrows). rewrite bodies_of, !plays_bind.
  assert (H1 : plays (h, x) [(tx_begin t, EBegin (tx_xid t))] = Some (h_begin h, tx_xid t)).
  { unfold plays, play. simpl. rewrite decide_False by done. by rewrite Ho. }
  rewrite H1. cbn [mbind option_bind]. rewrite plays_bind.
  rewrite (rows_play (tx_rows t)); [|done|apply tx_rows_rows|].
  2:{ rewrite current_begin by done. simpl. replace (filter _ (h_txns h)) with (@nil nat); [simpl; lia|].
      symmetry. clear -Htx. induction Htx as [|u l Hu _ IH]; [done|]. rewrite filter_cons, decide_False by lia. exact IH. }
  cbn [mbind option_bind]. set (h1 := with_rows (counted (tx_rows t)) (h_begin h)).
  assert (Hcur : current h1 = S (current h)) by (by apply current_begin).
  assert (Hlen : length (h_commits h) = S (current h)) by (unfold current; destruct (h_commits h); [done|simpl; lia]).
  unfold plays, play. cbn [fst snd h_step xid_step].
  rewrite decide_True.
  2:{ split; [done|]. split; [done|]. rewrite Hcur. cbn [h1 with_rows h_begin h_commits]. rewrite take_app_length'; [done|by rewrite Hlen]. }
  cbn [mbind option_bind]. rewrite Z.eqb_refl. cbn [mbind option_bind]. do 2 f_equal. unfold h_commit, after_txn. rewrite Hcur.
  cbn [h1 with_rows h_begin h_commits h_snapshot h_txns]. f_equal; [|by rewrite current_begin].
  rewrite insert_app_r_alt by (rewrite Hlen; lia). by rewrite Hlen, Nat.sub_diag.
Qed.

Definition after_txns (h : history) (T : list txn) : history := foldl after_txn h T.

Lemma after_commits T : forall h, h_commits (after_txns h T) = h_commits h ++ (tx_commit <$> T).
Proof.
  induction T as [|t T IH]; intros h; simpl; [by rewrite app_nil_r|]. unfold after_txns in IH. rewrite IH. simpl.
  by rewrite <- (assoc_L (++)).
Qed.
Lemma after_messages T : forall h, length (h_txns (after_txns h T)) = (length (h_txns h) + counted (bodies (all_calls T)))%nat.
Proof.
  induction T as [|t T IH]; intros h; [symmetry; apply Nat.add_0_r|]. unfold after_txns in IH. simpl. rewrite IH. simpl.
  rewrite length_app, length_replicate. unfold all_calls. cbn [fmap list_fmap concat].
  rewrite bodies_app, counted_app, bodies_of, !counted_app.
  change (counted [(tx_begin t, EBegin (tx_xid t))]) with 0%nat. change (counted [(tx_commit t, ECommit (tx_xid t))]) with 0%nat. lia.
Qed.

Lemma txns_play T : forall h x, between h -> Forall (before h) T -> in_order T -> Forall txn_ok T ->
  exists x', plays (h, x) (bodies (all_calls T)) = Some (after_txns h T, x') /\ between (after_txns h T).
Proof.
  induction T as [|t T IH]; intros h x Hb Hbef Hord Hok; [by exists x|].
  apply list.Forall_cons in Hbef as [Hb1 Hbef]. apply list.Forall_cons in Hok as [Hok1 Hok]. inversion Hord as [|? ? Hord' Hlt]; subst.
  destruct (IH (after_txn h t) (tx_xid t) (after_between h t Hb)) as (x' & Hp & Hb'); [|done|done|].
  { apply list.Forall_forall. intros u Hu. unfold before. simpl. apply Forall_app. split.
    - rewrite list.Forall_forall in Hbef. by apply Hbef.
    - apply Forall_singleton. rewrite list.Forall_forall in Hlt. by apply Hlt. }
  exists x'. split; [|done]. unfold all_calls. cbn [fmap list_fmap concat]. rewrite bodies_app, plays_bind, (txn_play h x t) by done. exact Hp.
Qed.

(** ** Prefixes of the calls *)

(** A prefix ends between two transactions, or within one. *)
Lemma calls_split T : forall xs rest, all_calls T = xs ++ rest ->
  exists T1 T2 part, T = T1 ++ T2 /\ xs = all_calls T1 ++ part /\
    (part = [] \/ exists t T3 more, T2 = t :: T3 /\ calls_of t = part ++ more /\ more <> []).
Proof.
  induction T as [|t T IH]; intros xs rest H.
  { destruct xs; [|done]. exists [], [], []. split; [done|]. split; [done|by left]. }
  unfold all_calls in H. cbn [fmap list_fmap concat] in H. fold (all_calls T) in H.
  apply app_eq_inv in H as [(k & H1 & _)|(k & -> & H2)].
  - destruct k as [|x k].
    + rewrite app_nil_r in H1. exists [t], T, []. split; [done|]. split; [|by left].
      unfold all_calls. cbn [fmap list_fmap concat]. by rewrite !app_nil_r, H1.
    + exists [], (t :: T), xs. split; [done|]. split; [done|]. right. by exists t, T, (x :: k).
  - destruct (IH k rest H2) as (T1 & T2 & part & -> & -> & Hpart). exists (t :: T1), T2, part.
    split; [done|]. split; [|done]. unfold all_calls. cbn [fmap list_fmap concat]. by rewrite <- (assoc_L (++)).
Qed.

Definition no_commit (we : Z * event) : Prop := match snd we with ECommit _ => False | _ => True end.

Lemma rows_no_commit body : Forall (fun we : Z * event => is_row (snd we)) body -> Forall no_commit body.
Proof. intros H. eapply List.Forall_impl; [|exact H]. intros [w e]. by destruct e. Qed.

Lemma part_no_commit t part more : calls_of t = part ++ more -> more <> [] -> Forall no_commit (bodies part).
Proof.
  intros H Hne. destruct (exists_last Hne) as (more' & x & ->). unfold calls_of in H. rewrite app_comm_cons, (assoc_L (++)) in H.
  apply app_inj_2 in H as [H _]; [|done].
  assert (Hall : Forall no_commit (bodies (part ++ more'))).
  { rewrite <- H. change (bodies (?a :: ?l)) with (bodies ([a] ++ l)). rewrite bodies_app. apply Forall_app.
    split; [by repeat constructor|]. apply rows_no_commit, (tx_rows_rows t). }
  rewrite bodies_app in Hall. by apply Forall_app in Hall as [? _].
Qed.

Lemma all_calls_commits T l x : (l, ECommit x) ∈ bodies (all_calls T) -> exists t, t ∈ T /\ l = tx_commit t.
Proof.
  induction T as [|t T IH]; intros H; [by apply elem_of_nil in H|].
  unfold all_calls in H. cbn [fmap list_fmap concat] in H. rewrite bodies_app, bodies_of in H.
  apply elem_of_app in H as [H|H]; [|destruct (IH H) as (u & Hu & ->); exists u; split; [by right|done]].
  exists t. split; [by left|].
  apply elem_of_app in H as [H|H]; [by apply list_elem_of_singleton in H|].
  apply elem_of_app in H as [H|H]; [|apply list_elem_of_singleton in H; congruence].
  pose proof (rows_no_commit _ (tx_rows_rows t)) as Hno. rewrite list.Forall_forall in Hno. by destruct (Hno _ H).
Qed.

(** No transaction yet. *)
Definition no_history : history := History [0] false false [].
Lemma no_history_between : between no_history.
Proof. by split. Qed.
Lemma no_history_before T : Forall txn_ok T -> Forall (before no_history) T.
Proof. intros H. eapply List.Forall_impl; [|exact H]. intros t (_ & Hw & _). by apply Forall_singleton. Qed.

Lemma in_order_before T1 t T2 : in_order (T1 ++ t :: T2) -> in_order T1 /\ Forall (fun u => tx_commit u < tx_commit t) T1.
Proof.
  intros Hord. induction T1 as [|v T1 IH]; [split; constructor|]. inversion Hord as [|? ? Hs Hall]; subst.
  destruct (IH Hs) as [H1 H2]. apply Forall_app in Hall as [Ha [Hb _]%list.Forall_cons]. split; by constructor.
Qed.

(** A transaction that was committed by a position that is in the history was received
    completely, if the calls are a prefix of those of [T]. *)
Lemma confirmed_complete T xs rest h1 x0 x1 t tid :
  in_order T -> Forall txn_ok T -> all_calls T = xs ++ rest -> plays (no_history, x0) (bodies xs) = Some (h1, x1) ->
  t ∈ T -> tx_commit t <= commit_of h1 tid ->
  exists T1 T2 xb, T = T1 ++ t :: T2 /\ xs = all_calls T1 ++ calls_of t ++ xb.
Proof.
  intros Hord Hok Hxs Hplay Ht Hle. pose proof Hok as Hok'. rewrite list.Forall_forall in Hok'.
  destruct (Hok' t Ht) as (_ & Hpos & _).
  assert (Hin : commit_of h1 tid ∈ h_commits h1).
  { unfold commit_of in *. destruct (h_commits h1 !! tid) eqn:E; [by eapply list_elem_of_lookup_2|simpl in Hle; lia]. }
  destruct (calls_split T xs rest Hxs) as (T1 & T2 & part & -> & -> & Hpart).
  assert (Ht1 : t ∈ T1).
  { destruct (plays_commits _ _ _ Hplay _ Hin) as [H|[H|[x H]]].
    - apply list_elem_of_singleton in H. lia.
    - lia.
    - rewrite bodies_app in H. apply elem_of_app in H as [H|H].
      + destruct (all_calls_commits T1 _ x H) as (u & Hu & Hcu). apply elem_of_app in Ht as [Ht|Ht]; [done|].
        apply list_elem_of_split in Hu as (Ta & Tb & ->). rewrite <- (assoc_L (++)) in Hord. cbn [app] in Hord.
        assert (Hlt : tx_commit u < tx_commit t); [|lia].
        clear -Hord Ht. induction Ta as [|v Ta IH]; inversion Hord as [|? ? Hs Hall]; subst; [|by apply IH].
        rewrite list.Forall_forall in Hall. apply Hall, elem_of_app. by right.
      + destruct Hpart as [->|(u & T3 & more & -> & Hu & Hne)]; [by apply elem_of_nil in H|].
        pose proof (part_no_commit u part more Hu Hne) as Hno. rewrite list.Forall_forall in Hno. by destruct (Hno _ H). }
  apply list_elem_of_split in Ht1 as (Ta & Tb & ->). exists Ta, (Tb ++ T2), (all_calls Tb ++ part).
  split; [by rewrite <- (assoc_L (++))|]. unfold all_calls. rewrite fmap_app, concat_app. cbn [fmap list_fmap concat].
  by rewrite <- !(assoc_L (++)).
Qed.

(** ** Records without their schemas *)

Definition unschema (log : record) : record := filter (fun we => schema_count (snd we) = 0%nat) log.

Lemma unschema_app l1 l2 : unschema (l1 ++ l2) = unschema l1 ++ unschema l2.
Proof. apply list.filter_app. Qed.

Lemma counted_unschema log : counted (unschema log) = counted log.
Proof.
  induction log as [|[w e] log IH]; [done|]. unfold unschema in *. rewrite filter_cons.
  change ((w, e) :: log) with ([(w, e)] ++ log). rewrite counted_app. case_decide as Hd.
  - change ((w, e) :: ?l) with ([(w, e)] ++ l). by rewrite counted_app, IH.
  - by destruct e.
Qed.

Lemma plays_unschema log : forall hx, plays hx (unschema log) = plays hx log.
Proof.
  induction log as [|[w e] log IH]; intros hx; [done|]. unfold unschema in *. rewrite filter_cons.
  case_decide as Hd; [simpl; destruct (play hx (w, e)); simpl; auto|]. destruct e; try done. simpl. rewrite IH. by destruct hx.
Qed.

(** The events of calls, without the schemas. *)
Lemma call_unschema k x es k' w : call_events L P k x es k' ->
  unschema ((fun e => (w, e)) <$> es) = (fun e => (w, e)) <$> call_body L P x.
Proof.
  intros [xid|xid lsn|cat rel c es' k1 (ks & _ & _ & Hes)]; [done|done|]. rewrite fmap_app, unschema_app.
  assert (Hrow : unschema ((fun e => (w, e)) <$> row_events L P cat rel c) = (fun e => (w, e)) <$> row_events L P cat rel c).
  { pose proof (row_events_rows L P cat rel c) as Hr. induction Hr as [|e l He _ IH]; [done|].
    unfold unschema in *. cbn [fmap list_fmap]. rewrite filter_cons, decide_True by (by destruct e). f_equal. exact IH. }
  rewrite Hrow. by destruct Hes as [[-> _]| ->].
Qed.

Lemma calls_unschema k l ess k' : calls_events L P k l ess k' -> forall xs fs, snd <$> xs = l -> length fs = length xs ->
  unschema (stamped (zip (fst <$> xs) fs) ess) = bodies xs.
Proof.
  induction 1 as [k|k x es k1 l ess k2 Hx Hl IH]; intros [|[w x'] xs] [|f fs] E Hlen; try done.
  injection E as -> E. injection Hlen as Hlen. cbn [fmap list_fmap fst zip zip_with stamped]. rewrite unschema_app.
  rewrite (call_unschema k x es k1 w Hx), (IH xs fs E Hlen). done.
Qed.

(** The record of some calls, and then of others. *)
Lemma record_split xs ys k ess k' fs :
  calls_events L P k (snd <$> (xs ++ ys)) ess k' -> length fs = length (xs ++ ys) ->
  exists ess1 ess2 k1 fs1 fs2,
    stamped (zip (fst <$> (xs ++ ys)) fs) ess = stamped (zip (fst <$> xs) fs1) ess1 ++ stamped (zip (fst <$> ys) fs2) ess2 /\
    calls_events L P k (snd <$> xs) ess1 k1 /\ calls_events L P k1 (snd <$> ys) ess2 k' /\
    length fs1 = length xs /\ length fs2 = length ys.
Proof.
  rewrite fmap_app. intros (ess1 & ess2 & k1 & -> & H1 & H2 & Hl)%calls_events_app Hlen.
  rewrite length_fmap in Hl. rewrite length_app in Hlen.
  exists ess1, ess2, k1, (take (length xs) fs), (drop (length xs) fs).
  assert (Ht : length (take (length xs) fs) = length xs) by (rewrite length_take; lia).
  split; [|split; [done|split; [done|split; [done|rewrite length_drop; lia]]]].
  assert (Hz : zip (fst <$> (xs ++ ys)) fs = zip (fst <$> xs) (take (length xs) fs) ++ zip (fst <$> ys) (drop (length xs) fs)).
  { rewrite <- zip_with_app by (by rewrite length_fmap). by rewrite take_drop, fmap_app. }
  rewrite Hz. apply stamped_app. rewrite length_zip_with, length_fmap. lia.
Qed.

(** ** Delivery of a transaction *)

Context (le : bool) (fmt : format_t) (pre : option string) (plain : bool).
Abbreviation messages := (messages_of le L pre plain fmt).

(** A part of the record is the transaction (and schemas that were announced within), and all
    its messages were handed to Kafka and acknowledged. *)
Definition delivered (log : record) (c : producer_context) (t : txn) : Prop :=
  exists past mine later before_ msgs after_,
    log = past ++ mine ++ later /\ unschema mine = bodies (calls_of t) /\
    messages [] past before_ /\ messages past mine msgs /\
    k_produced (kafka c) = before_ ++ msgs ++ after_ /\
    forall m, (length before_ <= m < length before_ + length msgs)%nat -> m ∈ k_reported (kafka c).

Lemma messages_app_inv l1 : forall past l2 msgs, messages past (l1 ++ l2) msgs ->
  exists m1 m2, msgs = m1 ++ m2 /\ messages past l1 m1 /\ messages (past ++ l1) l2 m2.
Proof.
  induction l1 as [|we l1 IH]; intros past l2 msgs H.
  - exists [], msgs. split; [done|]. split; [constructor|by rewrite app_nil_r].
  - inversion H as [|? ? ? ms msgs' He Hm]; subst. destruct (IH _ _ _ Hm) as (m1 & m2 & -> & H1 & H2).
    exists (ms ++ m1), m2. split; [by rewrite (assoc_L (++))|]. split; [by constructor|]. by rewrite <- (assoc_L (++)) in H2.
Qed.

(** From the record of a run to one of its transactions. *)
Lemma delivered_part T1 t xb ess k' fs msgs c :
  calls_events L P ∅ (snd <$> (all_calls T1 ++ calls_of t ++ xb)) ess k' ->
  length fs = length (all_calls T1 ++ calls_of t ++ xb) ->
  messages [] (stamped (zip (fst <$> (all_calls T1 ++ calls_of t ++ xb)) fs) ess) msgs -> k_produced (kafka c) = msgs ->
  (forall m, (counted (bodies (all_calls T1)) <= m < counted (bodies (all_calls T1)) + counted (tx_rows t))%nat ->
     m ∈ k_reported (kafka c)) ->
  delivered (stamped (zip (fst <$> (all_calls T1 ++ calls_of t ++ xb)) fs) ess) c t.
Proof.
  intros Hce Hlen Hm Hk Hrep.
  destruct (record_split (all_calls T1) _ _ _ _ _ Hce Hlen) as (ess1 & ess' & k1 & fs1 & fs' & E1 & Hc1 & Hc' & Hl1 & Hl').
  destruct (record_split (calls_of t) xb _ _ _ _ Hc' Hl') as (ess2 & ess3 & k2 & fs2 & fs3 & E2 & Hc2 & _ & Hl2 & _).
  rewrite E1, E2 in Hm |- *. set (past := stamped (zip (fst <$> all_calls T1) fs1) ess1) in *.
  set (mine := stamped (zip (fst <$> calls_of t) fs2) ess2) in *.
  apply messages_app_inv in Hm as (mb & m' & -> & Hmb & (mt & ma & -> & Hmt & _)%messages_app_inv).
  pose proof (calls_unschema _ _ _ _ Hc1 _ _ eq_refl Hl1) as U1. pose proof (calls_unschema _ _ _ _ Hc2 _ _ eq_refl Hl2) as U2.
  eexists past, mine, _, mb, mt, ma. split; [done|]. split; [done|]. split; [done|]. split; [done|]. split; [done|].
  intros m Hrange. apply Hrep. rewrite (messages_length _ _ _ _ _ _ _ _ Hmb), (messages_length _ _ _ _ _ _ _ _ Hmt) in Hrange.
  fold past in U1. fold mine in U2. rewrite <- (counted_unschema past), <- (counted_unschema mine), U1, U2, bodies_of, !counted_app in Hrange.
  change (counted [(tx_begin t, EBegin (tx_xid t))]) with 0%nat in Hrange.
  change (counted [(tx_commit t, ECommit (tx_xid t))]) with 0%nat in Hrange. lia.
Qed.

(** In the history, the messages of a transaction belong to its commit position. *)
Lemma txn_messages T1 t T2 later h1 x1 m :
  in_order (T1 ++ t :: T2) -> Forall txn_ok (T1 ++ t :: T2) ->
  plays (no_history, 0) (bodies (all_calls T1) ++ bodies (calls_of t) ++ later) = Some (h1, x1) ->
  (counted (bodies (all_calls T1)) <= m < counted (bodies (all_calls T1)) + counted (tx_rows t))%nat ->
  exists tid, h_txns h1 !! m = Some tid /\ commit_of h1 tid = tx_commit t.
Proof.
  intros Hord [Hok1 [Hokt _]%list.Forall_cons]%Forall_app Hplay Hm. destruct (in_order_before T1 t T2 Hord) as [Hord1 Hlt].
  destruct (txns_play T1 no_history 0 no_history_between (no_history_before T1 Hok1) Hord1 Hok1) as (xa & Hpa & Hba).
  rewrite plays_bind, Hpa in Hplay. cbn [mbind option_bind] in Hplay.
  rewrite plays_bind, (txn_play _ xa t Hba) in Hplay; [|unfold before; rewrite after_commits|done].
  2:{ apply Forall_app. split; [apply Forall_singleton; by destruct Hokt as (_ & ? & _)|]. by apply Forall_fmap. }
  cbn [mbind option_bind] in Hplay. set (ha := after_txns no_history T1) in *. pose proof (bw_nonempty _ Hba) as Hne.
  destruct (plays_extends _ (after_txn ha t, tx_xid t) (h1, x1) (bw_nonempty _ (after_between ha t Hba)) Hplay)
    as ((later' & Hpre) & _ & Hext). cbn [fst] in *.
  pose proof (current_after ha t Hne) as Hcur. exists (S (current ha)). split.
  - rewrite Hpre. cbn [after_txn h_txns]. pose proof (after_messages T1 no_history) as Hl. simpl in Hl. fold ha in Hl.
    rewrite lookup_app_l by (rewrite length_app, length_replicate; lia).
    rewrite lookup_app_r by lia. apply lookup_replicate_2. lia.
  - destruct (Hext (S (current ha))) as [_ ->]; [right; by rewrite Hcur|]. unfold commit_of. cbn [after_txn h_commits].
    assert (Hlen : length (h_commits ha) = S (current ha)) by (unfold current; destruct (h_commits ha); [done|simpl; lia]).
    by rewrite lookup_app_r, Hlen, Nat.sub_diag by lia.
Qed.

(** A run that was interrupted: the transactions committed up to a position that the server
    was told were delivered. *)
Lemma interrupted_delivered T xs rest ess k' fs c server R t :
  in_order T -> Forall txn_ok T -> all_calls T = xs ++ rest ->
  calls_events L P ∅ (snd <$> xs) ess k' -> length fs = length xs ->
  let log := stamped (zip (fst <$> xs) fs) ess in
  messages [] log (k_produced (kafka c)) ->
  (forall h, h_run no_history (inputs_of log) = Some h -> invariant h 0 c) ->
  was_told server (repl (client c)) R -> t ∈ T -> tx_commit t <= R -> delivered log c t.
Proof.
  intros Hord Hok Hxs Hce Hlen log Hm Hinv (buf & Hbuf & HR) Ht Hle.
  destruct (txns_play T no_history 0 no_history_between (no_history_before T Hok) Hord Hok) as (x' & Hplay & _).
  rewrite Hxs, bodies_app in Hplay. apply plays_app in Hplay as ([h1 x1] & Hplay & _).
  assert (Hlog : plays (no_history, 0) log = Some (h1, x1)).
  { unfold log. by rewrite <- plays_unschema, (calls_unschema _ _ _ _ Hce _ _ eq_refl Hlen). }
  pose proof (Hinv h1 (plays_h_run _ _ _ Hlog)) as (u & Hat). pose proof (invariant_nothing_lost h1 c (ex_intro _ u Hat)) as [_ Hlost].
  pose proof (ck_told _ _ _ (inv_checkpoint _ _ _ _ Hat) server buf R Hbuf HR) as HR'.
  assert (tx_commit t <= fsync c) as Hle' by lia. clear R HR HR' Hle.
  pose proof Hok as Hok'. rewrite list.Forall_forall in Hok'. destruct (Hok' t Ht) as (_ & Hpos & _).
  destruct (ck_source _ _ _ (inv_checkpoint _ _ _ _ Hat)) as [E|(tid & _ & E)]; [lia|]. rewrite E in Hle'.
  destruct (confirmed_complete T xs rest h1 0 x1 t tid Hord Hok Hxs Hplay Ht Hle') as (T1 & T2 & xb & -> & ->).
  apply delivered_part with (msgs := k_produced (kafka c)) (k' := k'); try done.
  rewrite bodies_app, (bodies_app (calls_of t)) in Hplay.
  intros m Hmr. destruct (decide (m ∈ k_reported (kafka c))) as [|Hno]; [done|].
  destruct (txn_messages T1 t T2 _ h1 x1 m Hord Hok Hplay Hmr) as (tid' & Hm' & Hc').
  destruct (Hlost m tid' Hm' Hno) as [H0|Hgt]; lia.
Qed.

(** A run after which everything is acknowledged. *)
Lemma complete_delivered T ess k' fs c :
  calls_events L P ∅ (snd <$> all_calls T) ess k' -> length fs = length (all_calls T) ->
  let log := stamped (zip (fst <$> all_calls T) fs) ess in
  messages [] log (k_produced (kafka c)) -> all_acked c -> Forall (delivered log c) T.
Proof.
  intros Hce Hlen log Hm Hack. apply list.Forall_forall. intros t (T1 & T2 & ->)%list_elem_of_split.
  unfold log in *. assert (E : all_calls (T1 ++ t :: T2) = all_calls T1 ++ calls_of t ++ all_calls T2).
  { unfold all_calls. by rewrite fmap_app, concat_app. }
  rewrite E in *. apply delivered_part with (msgs := k_produced (kafka c)) (k' := k'); try done.
  intros m Hr. apply Hack. rewrite (messages_length _ _ _ _ _ _ _ _ Hm), <- counted_unschema, (calls_unschema _ _ _ _ Hce _ _ eq_refl Hlen).
  rewrite !bodies_app, !counted_app, bodies_of, !counted_app. lia.
Qed.

End transactions.
Arguments tx_commit {P}.
Arguments in_order {P}.

(** ** Sessions *)

Section sessions.
Context (PQconninfoParse : string -> option (list (string * option string))).
Context (le : bool) (clock : nat -> Z * Z) (L : avro_lib) (P : pg_lib).
Context {HL : AvroConforms L} {HP : PgConforms P}.
Context (json_dumps : list Z -> option string) (json_loadb : string -> option json).
Abbreviation cbs := (producer_callbacks le clock L json_dumps json_loadb).
Abbreviation HX := (Has_fst producer_context record).
Abbreviation start_rec := (main_start (HX := HX) PQconninfoParse (recording cbs)).
Abbreviation steps_rec := (main_steps (HX := HX) le clock L (recording cbs)).
Context (Hparse : forall json n, avro_schema_from_json_length L json n <> Err 0).
Abbreviation txn := (txn P).
Abbreviation all_calls := (all_calls P).

(** One run of the program for a slot that exists: its world and command line, what they
    make of it, the connections, the decoding session of the server with the frames it
    writes, and what of it arrives on the replication connection. *)
Record session : Type := Session {
  se_world : world;
  se_opts : list getopt;
  se_more : bool;
  se_reader : frame_reader;
  se_startup : startup;
  se_sql : pg_conn;
  se_rpl : pg_conn;
  se_start : Z;
  se_plugin : plugin;
  se_le : bool;
  se_copies : list copy_result;
}.
Definition se_producer (s : session) : producer_context := su_producer (se_startup s).

(** In the session Postgres makes the calls [xs]; then comes [tail]. *)
Record session_ok (s : session) (xs : list (Z * pg_call P)) (tail : list copy_result) : Prop := {
  so_set_up : set_up (se_world s) (se_opts s) (se_more s) = Ret (se_reader s, se_startup s);
  so_connects : connects PQconninfoParse (client (se_producer s)) (se_sql s) (se_rpl s);
  so_serves : serves_stream (se_start s) (se_sql s) (se_rpl s);
  so_plugin : exists s0, output_avro_startup = Ret s0 /\ plugin_calls L P (snd <$> xs) s0 = (Ret tt, se_plugin s);
  so_stream : stream_of (se_le s) (zip (fst <$> xs) (snd (se_plugin s))) (se_copies s);
  so_copies : conn_copies (se_rpl s) = se_copies s ++ tail;
}.

(** The start and [n] iterations. *)
Definition run_session (s : session) (n : nat) : outcome unit * (frame_reader * recorded_state) :=
  (_ ← start_rec; steps_rec n) (se_reader s, (se_producer s, [])).

(** What a session was when it ended: the program's context, and the record. *)
Definition ended : Type := session * producer_context * record.
Definition delivered_by (t : txn) (e : ended) : Prop :=
  let '(s, c, log) := e in
  let c0 := se_producer s in
  delivered L P le (output_format c0) (topic_prefix c0) (bool_decide (registry c0 = None)) log c t.

(** The transactions that were not confirmed by position [R]. *)
Definition pending (R : Z) (T : list txn) : list txn := filter (fun t => R < tx_commit t) T.

(** Runs that came to an end, for whatever reason: Postgres had made some of the calls for the
    transactions that were pending, and after some iterations the run was stopped, or ended
    by itself because of a signal, having taken some of the frames. The position that
    Postgres goes on from is the one before or one that it read in a status update (not all
    of them need to have reached it). *)
Inductive interruptions (T : list txn) : Z -> list ended -> Prop :=
| not_started : interruptions T 0 []
| interrupted R ends s xs rest tail n r c log R' :
    interruptions T R ends ->
    session_ok s xs tail -> all_calls (pending R T) = xs ++ rest -> (n <= length (se_copies s))%nat ->
    run_session s n = (Ret tt, (r, (c, log))) ->
    R' = R \/ was_told (se_le s) (repl (client c)) R' ->
    interruptions T R' ((s, c, log) :: ends).

Lemma pending_ok (Q : txn -> Prop) R T : Forall Q T -> Forall Q (pending R T).
Proof. intros H. apply list.Forall_forall. intros t [_ Ht]%list_elem_of_filter. rewrite list.Forall_forall in H. by apply H. Qed.
Lemma pending_ordered R T : in_order T -> in_order (pending R T).
Proof.
  induction 1 as [|t T _ IH Hall]; [constructor|]. unfold pending. rewrite filter_cons. case_decide; [|done].
  constructor; [done|]. by apply pending_ok.
Qed.
Lemma pending_calls (Q : pg_call P -> Prop) R T : Forall Q (snd <$> all_calls T) -> Forall Q (snd <$> all_calls (pending R T)).
Proof.
  unfold Restart.all_calls, pending. induction T as [|t T IH]; intros H; [done|]. cbn [fmap list_fmap concat] in H.
  rewrite fmap_app in H. apply Forall_app in H as [H1 H2]. rewrite filter_cons. case_decide; [|by apply IH].
  cbn [fmap list_fmap concat]. rewrite fmap_app. apply Forall_app. split; [done|by apply IH].
Qed.
Lemma pending_less R T : (length (all_calls (pending R T)) <= length (all_calls T))%nat.
Proof.
  unfold Restart.all_calls, pending. induction T as [|t T IH]; [done|]. rewrite filter_cons. case_decide;
    cbn [fmap list_fmap concat]; rewrite ?length_app in *; lia.
Qed.

(** A session that was interrupted. *)
Lemma session_interrupted s T xs rest tail n r c log R t :
  in_order T -> Forall (txn_ok L P) T -> Forall (call_ok L P) (snd <$> all_calls T) ->
  3 * Z.of_nat (length (all_calls T)) < 2 ^ 29 ->
  session_ok s xs tail -> all_calls T = xs ++ rest -> (n <= length (se_copies s))%nat ->
  run_session s n = (Ret tt, (r, (c, log))) ->
  was_told (se_le s) (repl (client c)) R -> t ∈ T -> tx_commit t <= R -> delivered_by t (s, c, log).
Proof.
  intros Hord Hok Hcalls Hlen [Hset Hcn Hsv (s0 & Hs0 & Hpl) Hstr Hcop] Hxs Hn Hrun HR Ht Hle. unfold delivered_by.
  destruct (resumed PQconninfoParse le clock L json_dumps json_loadb _ _ _ _ _ _ _ _ _ Hset Hcn Hsv Hcop)
    as (c1 & rpl1 & rpls & Hstart & Hsu & Hstd & _ & Hfresh & Hinit & Hfeed).
  change (su_producer (se_startup s)) with (se_producer s) in *. unfold run_session in Hrun. set (c0 := se_producer s) in *.
  apply bind_Ret_inv in Hrun as ([] & rx1 & Hstart' & Hsteps).
  rewrite Hstart in Hstart'. injection Hstart' as <-. set (c2 := set_client c1 c0) in *.
  rewrite Hxs in Hcalls, Hlen. rewrite fmap_app in Hcalls. apply Forall_app in Hcalls as [Hcx _]. rewrite length_app in Hlen.
  destruct (plugin_frames L P (snd <$> xs) s0 (se_plugin s) Hcx Hs0 Hpl) as (ess & k' & Hce & Hfe & Hfl). rewrite length_fmap in Hfl.
  set (fs := snd (se_plugin s)) in *.
  assert (Hzip : 3 * Z.of_nat (length (zip (fst <$> xs) fs)) < 2 ^ 29) by (rewrite length_zip, length_fmap; lia).
  pose proof Hsu as [Hr0 _ _ Hm _ _ _ _].
  pose proof (stage_initial le L (se_reader s) c2 [] (length (zip (fst <$> xs) fs)) _ _ _ _ Hr0 Hzip Hfeed Hm
    (List.Forall_nil _)) as Hst0.
  rewrite (fresh_produced _ Hfresh) in Hst0.
  destruct (stream_some le clock L json_dumps json_loadb _ _ _ _ Hparse (se_le s) _ _ Hstr n ess ∅ k' [] tail _ _ Hn
    ltac:(by rewrite snd_zip by (rewrite length_fmap; lia)) Hst0 Hsteps)
    as (z1 & z2 & ess1 & ess2 & k1 & cps2 & Hz & -> & Hlz & [_ _ Hlog _ _ _ (msgs & Hmsgs & Hp)]).
  cbn [fst snd] in Hlog, Hp. simpl in Hlog, Hp. subst log.
  destruct (calls_taken L P (fst <$> xs) fs (snd <$> xs) z1 z2 ess1 ess2 k' Hz Hlz) as (j & k2 & Hj & -> & Hce1);
    [by rewrite !length_fmap|by rewrite length_fmap|done|]. rewrite length_fmap in Hj. rewrite <- !fmap_take in *.
  apply (interrupted_delivered L P le _ _ _ T (take j xs) (drop j xs ++ rest) ess1 k2 (take j fs) c (se_le s) R t); try done.
  - by rewrite (assoc_L (++)), take_drop.
  - rewrite !length_take. lia.
  - rewrite Hp. exact Hmsgs.
  - intros h Hh. pose proof (start_sound le clock L json_dumps json_loadb PQconninfoParse _ _ _ _ (su_fresh _ _ _ Hsu) Hstart) as Hs1.
    simpl in Hs1. rewrite (st_snapshot _ _ _ _ _ _ Hstd) in Hs1.
    exact (sound_steps le clock L json_dumps json_loadb false _ (se_reader s, (c2, [])) tt _ Hs1 Hsteps h Hh).
Qed.

(** Up to the position that Postgres was told, everything was delivered. *)
Lemma interruptions_delivered T R ends :
  in_order T -> Forall (txn_ok L P) T -> Forall (call_ok L P) (snd <$> all_calls T) ->
  3 * Z.of_nat (length (all_calls T)) < 2 ^ 29 -> interruptions T R ends ->
  forall t, t ∈ T -> tx_commit t <= R -> Exists (delivered_by t) ends.
Proof.
  intros Hord Hok Hcalls Hlen. induction 1 as [|R ends s xs rest tail n r c log R' _ IH Hs Hxs Hn Hrun HR]; intros t Ht Hle.
  - rewrite list.Forall_forall in Hok. destruct (Hok t Ht) as (_ & ? & _). lia.
  - destruct (decide (R < tx_commit t)) as [Hlt|Hge]; [|right; apply IH; [done|lia]]. left. destruct HR as [->|HR]; [lia|].
    pose proof (pending_less R T). assert (Hin : t ∈ pending R T) by (by apply list_elem_of_filter).
    apply (session_interrupted s (pending R T) xs rest tail n r c log R'); try done;
      [by apply pending_ordered|by apply pending_ok|by apply pending_calls|lia].
Qed.

(** The last commit is the highest position. *)
Lemma last_commit T t : in_order T -> t ∈ T ->
  let h := after_txns L P no_history T in tx_commit t <= commit_of h (current h).
Proof.
  intros Hord Ht h. destruct (exists_last (l := T)) as (Ta & u & ->); [by intros ->; apply elem_of_nil in Ht|].
  assert (Hlast : commit_of h (current h) = tx_commit u).
  { unfold commit_of, current, h. rewrite after_commits, fmap_app, (assoc_L (++)), length_app.
    rewrite lookup_app_r by (simpl; lia). simpl. by replace (_ - _)%nat with 0%nat by lia. }
  rewrite Hlast. apply elem_of_app in Ht as [Ht|Ht]; [|apply list_elem_of_singleton in Ht; subst; lia].
  destruct (in_order_before P Ta u [] Hord) as [_ Hlt]. rewrite list.Forall_forall in Hlt. specialize (Hlt t Ht). simpl in Hlt. lia.
Qed.

(** C2: At least once, however often the program is stopped. The database commits the
    transactions [T]. The program is run any number of times, in any surroundings, and
    stopped each time when it had received some of the calls; each time Postgres makes the
    calls for the transactions committed after a position that it read in a status update
    before. Then the
    program is run once more, in surroundings that work, for long enough. This run comes
    through, and every transaction of [T] was delivered by one of the runs: Kafka was handed
    exactly the messages of its rows, in order, and has acknowledged them all. The confirmed
    position is in the end one after which nothing is left to deliver. *)
Theorem committed_delivered d T R ends s tail base :
  let c0 := se_producer s in
  let todo := all_calls (pending R T) in
  let n := (length (se_copies s) + d)%nat in
  in_order T -> Forall (txn_ok L P) T -> Forall (call_ok L P) (snd <$> all_calls T) ->
  3 * Z.of_nat (length (all_calls T)) < 2 ^ 29 ->
  interruptions T R ends ->
  session_ok s todo (replicate d CopyNone ++ tail) -> Forall complete_copy (se_copies s) ->
  obliging json_loadb (se_world s) c0 base (Service d (counted (bodies L P todo))) (length todo) n (se_rpl s) ->
  Forall (call_welcome L P json_dumps base (output_format c0) (topic_prefix c0) (bool_decide (registry c0 = None)))
    (snd <$> all_calls T) ->
  exists r c log,
    run_session s n = (Ret tt, (r, (c, log))) /\
    Forall (fun t => Exists (delivered_by t) ((s, c, log) :: ends)) T /\
    Forall (fun t => tx_commit t <= Z.max R (fsync c)) T.
Proof.
  intros c0 todo n Hord Hok Hcalls Hlen Hint [Hset Hcn Hsv (s0 & Hs0 & Hpl) Hstr Hcop] Hcc Hob Hwel.
  pose proof (pending_less R T) as Hless. fold todo in Hless. pose proof (pending_ordered R T Hord) as Hord'.
  destruct (txns_play L P (pending R T) no_history 0 no_history_between) as (x & Hplay & Hbw);
    [by apply (no_history_before L P), pending_ok|done|by apply pending_ok|].
  set (h := after_txns L P no_history (pending R T)) in *.
  assert (Hmsgs : length (h_txns h) = counted (bodies L P todo)) by (unfold h; by rewrite after_messages).
  rewrite <- Hmsgs in Hob. unfold n in Hob.
  destruct (later_run_delivers PQconninfoParse le clock L P json_dumps json_loadb Hparse d (se_world s) (se_opts s) (se_more s)
    (se_reader s) (se_startup s) (se_sql s) (se_rpl s) (snd <$> todo) s0 (se_plugin s) (fst <$> todo) (se_le s) (se_copies s) tail
    (se_start s) base h x) as (rx1 & r & c & log & ess & k' & H1 & H2 & Hce & -> & Hfin); try done.
  - by apply pending_calls.
  - rewrite length_fmap. lia.
  - rewrite calls_play_bodies. exact Hplay.
  - by destruct Hbw.
  - by rewrite !length_fmap.
  - by rewrite length_fmap.
  - by apply pending_calls.
  - assert (Hfl : length (snd (se_plugin s)) = length todo).
    { destruct (plugin_frames L P (snd <$> todo) s0 (se_plugin s)) as (? & ? & _ & _ & ->); [by apply pending_calls|done|done|].
      by rewrite length_fmap. }
    destruct Hfin as [Hm Hack Hrep _ _ _ _]. eexists r, c, _. split; [unfold run_session; by rewrite (bind_Ret _ _ _ _ _ H1)|].
    split; apply list.Forall_forall; intros t Ht; (destruct (decide (R < tx_commit t)) as [Hlt|Hge]; [|]).
    + left. pose proof (complete_delivered L P le _ _ _ (pending R T) ess k' (snd (se_plugin s)) c Hce Hfl Hm Hack) as Hd.
      rewrite list.Forall_forall in Hd. apply Hd. by apply list_elem_of_filter.
    + right. apply (interruptions_delivered T R ends); try done. lia.
    + rewrite Hrep. pose proof (last_commit (pending R T) t Hord' ltac:(by apply list_elem_of_filter)) as Hl. simpl in Hl. fold h in Hl. lia.
    + lia.
Qed.

End sessions.

(** ** Two transactions, two runs *)

Definition sample_insert (id name : Z) : catalog * relation * change sample_pg :=
  (sample_catalog, sample_table, REORDER_BUFFER_CHANGE_INSERT _ (Some (sample_tuple id name))).
Definition first_txn : txn sample_pg :=
  Txn sample_pg 700 60
    [(61, sample_insert 7 3);
     (62, (sample_catalog, sample_table, REORDER_BUFFER_CHANGE_UPDATE _ (Some (sample_tuple 7 3)) (Some (sample_tuple 8 3))));
     (63, (sample_catalog, sample_table, REORDER_BUFFER_CHANGE_DELETE _ (Some (sample_tuple 8 3))))] 70 23000.
Definition second_txn : txn sample_pg := Txn sample_pg 701 75 [(76, sample_insert 9 3)] 80 24000.
Definition two_txns : list (txn sample_pg) := [first_txn; second_txn].

Definition plain_copies (wals : list Z) (fs : list (list Z)) : list copy_result :=
  zip_with (fun w f => wal_message true w flow_zeros flow_zeros f) wals fs.
Lemma plain_stream wals : forall fs, Forall is_u64 wals -> Forall (fun f => f <> []) fs ->
  stream_of true (zip wals fs) (plain_copies wals fs).
Proof.
  induction wals as [|w wals IH]; intros [|f fs] Hw Hf; try apply stream_end.
  apply list.Forall_cons in Hw as [Hw1 Hw]. apply list.Forall_cons in Hf as [Hf1 Hf].
  apply stream_data; [done|done|done|done|by apply IH].
Qed.

Definition decoded (xs : list (Z * pg_call sample_pg)) : plugin :=
  snd (plugin_calls ref_lib sample_pg (snd <$> xs) (frame_value [], schema_cache_new, [])).
Definition copies_for (xs : list (Z * pg_call sample_pg)) : list copy_result := plain_copies (fst <$> xs) (snd (decoded xs)).
Definition slot_sql : pg_conn := PGconn [PGresult PGRES_TUPLES_OK [[Some "0/32"]] 1 0] [] [] [] [] [] [].
Definition slot_rpl (xs : list (Z * pg_call sample_pg)) (n : nat) : pg_conn :=
  PGconn [identity_result; copy_both_result] [] (copies_for xs ++ [CopyNone]) (good_puts (4 * n + 1)) [] (replicate n true) [].
Definition sample_session (xs : list (Z * pg_call sample_pg)) (messages n : nat) : session :=
  let w := launch_world messages n slot_sql (slot_rpl xs n) in
  Session w run_opts false (fst (launch_set_up run_opts w)) (snd (launch_set_up run_opts w)) slot_sql (slot_rpl xs n) 50
    (decoded xs) true (copies_for xs).

(** A clock that advances by ten minutes whenever it is read. *)
Definition sample_times (n : nat) : Z * Z := (1500000000 + 600 * Z.of_nat n, 0).

(** The first run gets the first transaction and a part of the second. *)
Definition received_calls : list (Z * pg_call sample_pg) := take 7 (all_calls sample_pg two_txns).
Definition stopped_session : session := sample_session received_calls 5 7.
Abbreviation stopped_run :=
  (run_session sample_parse true sample_times ref_lib any_dumps id_seven stopped_session (length (se_copies stopped_session))).
Definition stopped_end : ended := (stopped_session, fst (snd (snd stopped_run)), snd (snd (snd stopped_run))).
(** The second run gets the second transaction. *)
Definition second_session : session := sample_session (all_calls sample_pg [second_txn]) 1 4.

Example stopped_position : fst stopped_run = Ret tt /\ fsync (fst (snd (snd stopped_run))) = 70.
Proof. by vm_compute. Qed.

Lemma told_by_message server s v i :
  (x ← conn_sent (conn s) !! i; if x is SentCopy buf then flush_position server buf else None) = Some v ->
  was_told server s v.
Proof.
  destruct (conn_sent (conn s) !! i) as [[| |buf|]|] eqn:E; try done. intros H. exists buf.
  split; [by eapply list_elem_of_lookup_2|exact H].
Qed.

Lemma stopped_told : was_told true (repl (client (fst (snd (snd stopped_run))))) 70.
Proof. apply told_by_message with (i := 8%nat). by vm_compute. Qed.

Lemma stopped_run_ok :
  stopped_run = (Ret tt, (fst (snd stopped_run), (fst (snd (snd stopped_run)), snd (snd (snd stopped_run))))).
Proof. pose proof (proj1 stopped_position) as H. revert H. generalize stopped_run. intros [o [r [c log]]] [= ->]. done. Qed.

Lemma two_txns_ok : in_order two_txns /\ Forall (txn_ok ref_lib sample_pg) two_txns.
Proof. split; [by repeat constructor|]. repeat constructor; by vm_compute. Qed.

Lemma two_txns_calls : Forall (call_ok ref_lib sample_pg) (snd <$> all_calls sample_pg two_txns).
Proof.
  pose proof sample_calls_ok as H. unfold sample_calls in H. rewrite !list.Forall_cons in H. destruct H as (H1 & H2 & H3 & H4 & H5 & _).
  unfold all_calls. cbn [two_txns fmap list_fmap concat calls_of first_txn second_txn change_call tx_changes sample_insert app snd].
  rewrite !list.Forall_cons. do 5 (split; [assumption|]). split; [by vm_compute|]. split; [|split; [by vm_compute|done]].
  split; [apply sample_rel_ok|]. split; [apply sample_sendable|]. eexists.
  eapply sends_insert; [apply sample_decodes|apply sample_is_key|apply sample_is_row|..]; by vm_compute.
Qed.
Lemma two_txns_welcome fmt plain :
  Forall (call_welcome ref_lib sample_pg any_dumps DEFAULT_SCHEMA_REGISTRY fmt None plain) (snd <$> all_calls sample_pg two_txns).
Proof.
  repeat (constructor; [split; [try done; apply launch_welcome|]|]); try done;
    repeat constructor; try (intros v [= <-]); intros _; by eexists.
Qed.

Lemma sample_session_ok xs messages n :
  set_up (launch_world messages n slot_sql (slot_rpl xs n)) run_opts false =
    Ret (se_reader (sample_session xs messages n), se_startup (sample_session xs messages n)) ->
  connects sample_parse (client (se_producer (sample_session xs messages n))) slot_sql (slot_rpl xs n) ->
  fst (plugin_calls ref_lib sample_pg (snd <$> xs) (frame_value [], schema_cache_new, [])) = Ret tt ->
  Forall is_u64 (fst <$> xs) -> Forall (fun f => f <> []) (snd (decoded xs)) ->
  session_ok sample_parse ref_lib sample_pg (sample_session xs messages n) xs [CopyNone].
Proof.
  intros H1 H2 H3 H4 H5. split; try done.
  - split; [by eexists _, _; split; [reflexivity|]; split_and!; try done; eexists|].
    by eexists _, _, _; split; [reflexivity|]; split_and!; try done; eexists.
  - eexists. split; [done|]. unfold sample_session, decoded. simpl. by destruct (plugin_calls _ _ _ _) as [o ?]; simpl in *; subst o.
  - by apply plain_stream.
Qed.

Lemma sample_interrupted :
  interruptions sample_parse true sample_times ref_lib sample_pg any_dumps id_seven two_txns 70 [stopped_end].
Proof.
  apply (interrupted _ _ _ _ _ _ _ _ 0 [] stopped_session received_calls (drop 7 (all_calls sample_pg two_txns)) [CopyNone] 7
    (fst (snd stopped_run)) (fst (snd (snd stopped_run))) (snd (snd (snd stopped_run))) 70);
    [constructor| |reflexivity|by vm_compute| |].
  - apply sample_session_ok; [by vm_compute| |by vm_compute| |by vm_compute; repeat constructor].
    2:{ change (fst <$> received_calls) with [60; 61; 62; 63; 70; 75; 76].
        repeat (apply List.Forall_cons; [unfold is_u64; lia|]). constructor. }
    split; [by vm_compute|by vm_compute|by vm_compute|by vm_compute|exact (ex_intro _ [] eq_refl)|exists []; by vm_compute|done].
  - exact stopped_run_ok.
  - right. apply stopped_told.
Qed.

Lemma pending_two : pending sample_pg 70 two_txns = [second_txn].
Proof. reflexivity. Qed.

Lemma committed_delivered_witness :
  exists r c log,
    run_session sample_parse true sample_times ref_lib any_dumps id_seven second_session 4 = (Ret tt, (r, (c, log))) /\
    Forall (fun t => Exists (delivered_by true ref_lib sample_pg t) [(second_session, c, log); stopped_end]) two_txns /\
    Forall (fun t => tx_commit t <= Z.max 70 (fsync c)) two_txns.
Proof.
  destruct two_txns_ok as [Hord Hok].
  destruct (committed_delivered sample_parse true sample_times ref_lib sample_pg any_dumps id_seven ref_parse 1 two_txns 70 [stopped_end]
    second_session [] DEFAULT_SCHEMA_REGISTRY) as (r & c & log & H); rewrite ?pending_two;
    [exact Hord|exact Hok|exact two_txns_calls|by vm_compute|exact sample_interrupted| | | |apply two_txns_welcome|].
  - apply sample_session_ok; [by vm_compute| |by vm_compute| |by vm_compute; repeat constructor].
    2:{ change (fst <$> all_calls sample_pg [second_txn]) with [75; 76; 80].
        repeat (apply List.Forall_cons; [unfold is_u64; lia|]). constructor. }
    split; [by vm_compute|by vm_compute|by vm_compute|by vm_compute|exact (ex_intro _ [] eq_refl)|exists []; by vm_compute|done].
  - by vm_compute; repeat constructor.
  - apply (obliging_less _ _ _ _ _ 7); [by vm_compute; lia|].
    apply (launch_obliging 1 4 slot_sql (slot_rpl (all_calls sample_pg [second_txn]) 4));
      [apply (good_puts_ok 17)|by apply Forall_replicate|done|by vm_compute].
  - by exists r, c, log.
Defined.
