(* ===== verification/BwTest.v ===== *)
(** * The test client ([client/bwtest.c])

    A second application of the client library: it prints every event on its standard
    output and acknowledges a position as soon as it has printed it. *)

From S2P Require Import Prelude Avro AvroBinary Protocol ProtocolClient EndToEnd NetBytes Libpq.
From S2P Require Import Replication Connect.
From Stdlib Require Import Ascii.
Open Scope Z_scope.

(** The client and the lines printed so far. *)
Record bw_context : Type := BwContext {
  bw_client : client_context;
  stdout : list string;
}.
#[export] Instance Has_bw_client : Has client_context bw_context.
Proof.
  by refine {| prj := bw_client; upd := fun c x => BwContext c (stdout x) |}; intros; destruct x.
Defined.
Abbreviation MB := (M bw_context).

Definition printf (line : string) : MB unit :=
  modify (fun x => BwContext (bw_client x) (stdout x ++ [line])).

Definition string_of_bytes (l : list Z) : string :=
  foldr (fun b s => String (ascii_of_nat (Z.to_nat b)) s) EmptyString l.

Definition BW_SLOT : string := "bottledwater".

(** ** Leaving *)

Definition bw_exit_nicely {A} : MB A :=
  taking ← gets (fun x => taking_snapshot (bw_client x));
  _ ← when taking (_ ← status (zoom (zoom (X := client_context) replication_slot_drop)); mret ());
  stop (Exit 1).

(** ** Options *)

Definition bw_set_client (f : client_context -> client_context) : MB unit := zoom (modify f).

(** What [getopt_long] returns for one option: the character and its argument. *)
Definition bw_parse_option (o : Z * string) : MB unit :=
  let c := Z.to_nat (fst o) in
  if bool_decide (c = nat_of_ascii "d") then bw_set_client (set_conninfo (Some (snd o)))
  else if bool_decide (c = nat_of_ascii "s") then
    bw_set_client (fun c => set_repl (set_slot_name (Some (snd o)) (repl c)) c)
  else if bool_decide (c = nat_of_ascii "u") then bw_set_client (set_allow_unkeyed true)
  else stop (Exit 1).
Fixpoint bw_parse_each (opts : list (Z * string)) : MB unit :=
  match opts with
  | [] => mret ()
  | o :: opts => _ ← bw_parse_option o; bw_parse_each opts
  end.
Definition bw_parse_options (opts : list (Z * string)) (more : bool) : MB unit :=
  _ ← bw_parse_each opts;
  c ← gets bw_client;
  if bool_decide (conninfo c = None) || more then stop (Exit 1) else mret ().

Definition bw_init_client (net : list connected) (selects : list (Z * Z)) : bw_context :=
  let client := set_allow_unkeyed false (set_app_name (Some "bottledwater") (db_client_new net selects)) in
  BwContext
    (set_repl (set_output_plugin (Some "bottledwater") (set_slot_name (Some BW_SLOT) (repl client))) client) [].

(** ** Callbacks *)

Definition checkpoint (wal_pos : Z) : MB unit :=
  zoom (zoom (X := client_context) (modify (fun s => set_fsync_lsn (Z.max wal_pos (fsync_lsn s)) s))).

Definition print_begin_txn (wal_pos xid : Z) : MB unit :=
  if xid =? 0 then mret ()
  else
    _ ← printf ("begin xid=" +:+ pretty xid +:+ " wal_pos=" +:+ print_lsn wal_pos);
    checkpoint wal_pos.

Definition print_commit_txn (wal_pos xid : Z) : MB unit :=
  if xid =? 0 then bw_set_client (set_taking_snapshot false)
  else
    _ ← printf ("commit xid=" +:+ pretty xid +:+ " wal_pos=" +:+ print_lsn wal_pos);
    checkpoint wal_pos.

Definition newline : string := String (ascii_of_nat 10) (String (ascii_of_nat 9) "").

(** A missing key schema has length 0 and prints as nothing. *)
Definition print_table_schema (wal_pos relid : Z) (key : option schema_arg) (row : schema_arg) : MB unit :=
  printf ("new schema for relid=" +:+ pretty relid +:+ newline +:+ "key = " +:+
          string_of_bytes (default [] (fst <$> key)) +:+ newline +:+ "row = " +:+ string_of_bytes (fst row)).

Section callbacks.
Context (L : avro_lib).
(** [avro_schema_name(avro_value_get_schema(value))]. *)
Context (value_name : avro_value -> string).

Definition to_json (v : avro_value) : MB string :=
  text ← stop (avro_value_to_json L v); mret (string_of_bytes text).
Definition to_json_opt (v : option value_arg) : MB (option string) :=
  match v with
  | Some v => s ← to_json (snd v); mret (Some s)
  | None => mret None
  end.

Definition print_insert_row (wal_pos relid : Z) (key : option value_arg) (row : value_arg) : MB unit :=
  let table_name := value_name (snd row) in
  new_json ← to_json (snd row);
  key_json ← to_json_opt key;
  _ ← printf ("insert to " +:+ table_name +:+ ": " +:+
        match key_json with Some k => k +:+ " --> " +:+ new_json | None => new_json end);
  checkpoint wal_pos.

Definition print_update_row (wal_pos relid : Z) (key old : option value_arg) (row : value_arg) : MB unit :=
  let table_name := value_name (snd row) in
  new_json ← to_json (snd row);
  old_json ← to_json_opt old;
  key_json ← to_json_opt key;
  _ ← printf ("update to " +:+ table_name +:+ ": " +:+
        match key_json, old_json with
        | Some k, Some o => "key " +:+ k +:+ ": " +:+ o +:+ " --> " +:+ new_json
        | None, Some o => o +:+ " --> " +:+ new_json
        | Some k, None => "key " +:+ k +:+ ": " +:+ new_json
        | None, None => "(?) --> " +:+ new_json
        end);
  checkpoint wal_pos.

Definition print_delete_row (wal_pos relid : Z) (key old : option value_arg) : MB unit :=
  key_json ← to_json_opt key;
  old_json ← to_json_opt old;
  let table_name := default "" ((fun o => value_name (snd o)) <$> old) in
  _ ← printf (match key_json, old_json with
        | Some k, Some o => "delete from " +:+ table_name +:+ ": " +:+ k +:+ " (was: " +:+ o +:+ ")"
        | None, Some o => "delete from " +:+ table_name +:+ ": " +:+ o
        | Some k, None => "delete from relid " +:+ pretty relid +:+ ": " +:+ k
        | None, None => "delete to relid " +:+ pretty relid +:+ " (?)"
        end);
  checkpoint wal_pos.

Definition bw_callbacks : callbacks bw_context := {|
  on_begin_txn := Some print_begin_txn;
  on_commit_txn := Some print_commit_txn;
  on_table_schema := Some print_table_schema;
  on_insert_row := Some print_insert_row;
  on_update_row := Some print_update_row;
  on_delete_row := Some print_delete_row;
|}.

(** ** The main loop *)

Context (PQconninfoParse : string -> option (list (string * option string))).
Context (le : bool) (clock : nat -> Z * Z).
Abbreviation MC := (M (frame_reader * bw_context)).

Definition bw_ensure (m : MC unit) : MC unit :=
  err ← status m;
  if negb (err =? 0) then zoom (bw_exit_nicely (A := unit)) else mret ().

Definition bw_status : MC Z := zoom (gets (fun x => cl_status (bw_client x))).

Definition bw_step : MC unit :=
  _ ← bw_ensure (db_client_poll le clock L bw_callbacks);
  st ← bw_status;
  when (st =? 0) (bw_ensure (on_client db_client_wait)).

(** The first [n] iterations. *)
Fixpoint bw_steps (n : nat) : MC unit :=
  match n with
  | O => mret ()
  | S n => st ← bw_status; if 0 <=? st then _ ← bw_step; bw_steps n else mret ()
  end.

(** The frame reader and the connections are released, on every way out. *)
Definition bw_release : MC unit :=
  r ← zoom (gets (fun r : frame_reader => r));
  r ← stop (frame_reader_free r);
  _ ← zoom (modify (fun _ : frame_reader => r));
  on_client db_client_free.

(** [main] after the options; the loop has at most [n] iterations. *)
Definition bw_run (n : nat) : MC unit :=
  _ ← bw_ensure (db_client_start PQconninfoParse bw_callbacks);
  _ ← bw_steps n;
  st ← bw_status;
  if 0 <=? st then stop Blocked else mret ().

Definition bw_run_release (n : nat) : MC unit := fun rx =>
  match bw_run n rx with
  | (Ret _, rx) => bw_release rx
  | (Exit st, rx) => (_ ← bw_release; stop (Exit st)) rx
  | (o, rx) => (o, rx)
  end.

Definition bw_main (opts : list (Z * string)) (more : bool) (n : nat) : MC unit :=
  _ ← zoom (bw_parse_options opts more);
  bw_run_release n.

End callbacks.

(** ** What is printed and what is acknowledged *)

(** The snapshot's begin and commit print nothing on standard output and acknowledge
    nothing; a schema prints but does not acknowledge. *)
Definition prints (e : event) : bool :=
  match e with EBegin xid | ECommit xid => negb (xid =? 0) | _ => true end.
Definition acknowledges (e : event) : bool :=
  match e with ESchema _ _ _ => false | _ => prints e end.
Definition ends_snapshot (e : event) : bool :=
  match e with ECommit xid => xid =? 0 | _ => false end.

(** The client after the events [l]. *)
Definition acknowledged (l : list (Z * event)) (c : client_context) : client_context :=
  foldl (fun c we =>
    let c := if ends_snapshot (snd we) then set_taking_snapshot false c else c in
    if acknowledges (snd we) then
      set_repl (set_fsync_lsn (Z.max (fst we) (fsync_lsn (repl c))) (repl c)) c
    else c) c l.

Section properties.
Context (L : avro_lib) (value_name : avro_value -> string).
Abbreviation cbs := (bw_callbacks L value_name).

Lemma client_eta c : set_repl (repl c) c = c.
Proof. by destruct c. Qed.

Lemma to_json_pure v x : exists o, to_json L v x = (o, x).
Proof. unfold to_json, mbind, M_bind, stop. simpl. destruct (avro_value_to_json L v); by eexists. Qed.
Lemma to_json_opt_pure v x : exists o, to_json_opt L v x = (o, x).
Proof.
  destruct v as [v|]; [|by eexists]. unfold to_json_opt, mbind, M_bind.
  destruct (to_json_pure (snd v) x) as [o ->]. destruct o; by eexists.
Qed.

Ltac json_calls :=
  unfold mbind, M_bind;
  repeat match goal with
  | |- context [to_json L ?v ?x] =>
      let o := fresh "o" in let H := fresh "H" in
      destruct (to_json_pure v x) as [o H]; rewrite H; clear H; destruct o; try done
  | |- context [to_json_opt L ?v ?x] =>
      let o := fresh "o" in let H := fresh "H" in
      destruct (to_json_opt_pure v x) as [o H]; rewrite H; clear H; destruct o; try done
  end.

(** One event: all of it, or nothing. *)
Lemma notify_spec w e x :
  match notify cbs w e x with
  | (Ret _, x') =>
      bw_client x' = acknowledged [(w, e)] (bw_client x) /\
      exists lines, stdout x' = stdout x ++ lines /\ length lines = (if prints e then 1 else 0)%nat
  | (_, x') => x' = x
  end.
Proof.
  destruct e as [xid|xid|relid k r|relid k r|relid k o r|relid k o]; simpl.
  - unfold print_begin_txn. destruct (xid =? 0); simpl; (split; [done|]); [|by eexists].
    exists []. by rewrite app_nil_r.
  - unfold print_commit_txn. destruct (xid =? 0); simpl; (split; [done|]); [|by eexists].
    exists []. by rewrite app_nil_r.
  - split; [done|]. by eexists.
  - unfold print_insert_row. json_calls. simpl. split; [done|]. by eexists.
  - unfold print_update_row. json_calls. simpl. split; [done|]. by eexists.
  - unfold print_delete_row. json_calls. simpl. split; [done|]. by eexists.
Qed.

Definition run_events (l : list (Z * event)) : MB unit :=
  foldr (fun we m => _ ← notify cbs (fst we) (snd we); m) (mret ()) l.

(** C30: The test client acknowledges exactly what it has printed. For any sequence of events,
    the callbacks run through some first part of it (all of it, if they all return): they
    print one line for each of its events (none for the begin and commit of the snapshot)
    after what was printed before, move the acknowledged position to the largest position
    of the transaction and row events printed, clear the snapshot flag when the snapshot
    is committed, and change nothing else; the event that fails, if there is one, has
    neither printed nor acknowledged anything. *)
Theorem bwtest_acknowledges_printed l x o x' :
  run_events l x = (o, x') ->
  exists ran lines, (o = Ret tt /\ ran = l \/ (forall u, o <> Ret u) /\ exists e rest, l = ran ++ e :: rest) /\
    bw_client x' = acknowledged ran (bw_client x) /\
    stdout x' = stdout x ++ lines /\ length lines = length (filter (fun we => prints (snd we)) ran).
Proof.
  revert x. induction l as [|[w e] l IH]; intros x Hrun; simpl in Hrun.
  - injection Hrun as <- <-. exists [], []. rewrite app_nil_r. by split; [left|].
  - pose proof (notify_spec w e x) as Hn. unfold mbind, M_bind in Hrun.
    destruct (notify cbs w e x) as [oe x1].
    assert (Hstop : (forall u, oe <> Ret u) -> x1 = x -> o = cast_outcome oe /\ x' = x1 ->
      exists ran lines, (o = Ret tt /\ ran = (w, e) :: l \/
          (forall u, o <> Ret u) /\ exists e0 rest, (w, e) :: l = ran ++ e0 :: rest) /\
        bw_client x' = acknowledged ran (bw_client x) /\ stdout x' = stdout x ++ lines /\
        length lines = length (filter (fun we => prints (snd we)) ran)).
    { intros Hne -> [-> ->]. exists [], []. split; [|by rewrite app_nil_r]. right.
      split; [|by eexists _, _]. intros u. by destruct oe. }
    destruct oe; simplify_eq/=; try by apply Hstop.
    destruct Hn as [Hc (lines1 & Ho1 & Hl1)]. destruct (IH x1 Hrun) as (ran & lines & Hran & Hcl & Hout & Hlen).
    exists ((w, e) :: ran), (lines1 ++ lines). split.
    + destruct Hran as [[-> ->]|(Hne & e0 & rest & ->)]; [by left|right]. split; [done|]. by eexists _, _.
    + split; [by rewrite Hcl, Hc|]. split; [by rewrite Hout, Ho1, <- (assoc_L (++))|].
      rewrite length_app, Hl1, Hlen, filter_cons. by destruct (prints e) eqn:E; case_decide as H;
        simpl in H; rewrite E in H.
Qed.


(** ** The loop tells the server the truth *)

Context (le : bool) (clock : nat -> Z * Z).
Abbreviation progressing s0 := (fun x => progress s0 (repl (bw_client x))).
Abbreviation PB s0 := (fun rx : frame_reader * bw_context => progressing s0 (snd rx)).

Lemma acknowledged_progress s0 w e c :
  is_u64 w \/ e = ECommit 0 -> progress s0 (repl c) -> progress s0 (repl (acknowledged [(w, e)] c)).
Proof.
  intros Hw Hc. cbn [acknowledged foldl fst snd].
  assert (Hs : progress s0 (repl (if ends_snapshot e then set_taking_snapshot false c else c)))
    by (by destruct (ends_snapshot e)).
  destruct (acknowledges e) eqn:He; [|done]. destruct Hw as [Hw| ->]; [|done].
  destruct (Hs) as ([Hr Hf] & _). eapply progress_trans; [exact Hs|].
  apply progress_mute; [|by apply mute_same|simpl; lia..].
  split; [done|]. simpl. unfold is_u64 in *. lia.
Qed.

Lemma notify_progress s0 w e : is_u64 w \/ e = ECommit 0 -> preserves (progressing s0) (notify cbs w e).
Proof.
  intros Hw x Hx. pose proof (notify_spec w e x) as Hn. destruct (notify cbs w e x) as [[] x']; simpl; try by subst.
  destruct Hn as [-> _]. by apply acknowledged_progress.
Qed.

Lemma progress_sql {A} s0 (m : M pg_conn A) : preserves (fun c => progress s0 (repl c)) (on_sql m).
Proof. intros c Hc. unfold on_sql. destruct (sql_conn c); [|done]. by destruct (m p). Qed.

Lemma progress_repl {A} s0 (m : M replication_stream A) :
  preserves (progress s0) m -> preserves (fun c => progress s0 (repl c)) (zoom m).
Proof. intros Hm c Hc. specialize (Hm (repl c) Hc). unfold zoom. simpl. by destruct (m (repl c)). Qed.

Lemma progress_work s0 : client_work (fun A m => preserves (fun c => progress s0 (repl c)) m).
Proof.
  split.
  - apply preserves_gets.
  - intros A m. apply progress_sql.
  - intros q. unfold exec_sql. apply preserves_bind; [apply progress_sql|intros res].
    destruct (bool_decide _); [apply preserves_ret|apply preserves_stop].
  - by apply preserves_modify.
  - intros f. by apply preserves_modify.
  - apply progress_repl, (held_start le), progress_holds.
Qed.

Lemma progress_client {A} s0 (m : M client_context A) :
  preserves (fun c => progress s0 (repl c)) m -> preserves (PB s0) (on_client m).
Proof.
  intros Hm [r x] Hx. specialize (Hm (bw_client x) Hx). unfold on_client, zoom. simpl.
  by destruct (m (bw_client x)).
Qed.

Lemma progress_ensure s0 m : preserves (PB s0) m -> preserves (PB s0) (bw_ensure m).
Proof.
  intros Hm. unfold bw_ensure. apply preserves_bind; [by apply preserves_status|intros err].
  destruct (negb _); [|apply preserves_ret]. intros [r x] Hx.
  assert (He : preserves (progressing s0) (bw_exit_nicely (A := unit))).
  { unfold bw_exit_nicely. apply preserves_bind; [apply preserves_gets|intros taking].
    apply preserves_bind; [|intros _; apply preserves_stop]. apply preserves_when. intros _.
    apply preserves_bind; [|intros _; apply preserves_ret]. apply preserves_status.
    intros x0 Hx0. unfold zoom at 1.
    assert (Hd : preserves (fun c => progress s0 (repl c)) (zoom (X := client_context) replication_slot_drop)).
    { apply progress_repl, (held_drop le), progress_holds. }
    specialize (Hd (bw_client x0) Hx0). simpl. by destruct (zoom replication_slot_drop (bw_client x0)). }
  specialize (He x Hx). unfold zoom. simpl. by destruct (bw_exit_nicely x).
Qed.


Lemma progress_poll s0 : preserves (PB s0) (db_client_poll le clock L cbs).
Proof.
  apply (db_client_poll_comp le clock L cbs (fun A => @preserves _ A (PB s0))
    (fun A m => preserves (fun c => progress s0 (repl c)) m) (fun A => @preserves _ A (progress s0))).
  - intros A m [r x] Hx. unfold zoom. simpl. by destruct (m r).
  - intros w e Hw [r x] Hx. pose proof (notify_progress s0 w e Hw x Hx) as H. unfold zoom. simpl.
    by destruct (notify cbs w e x).
  - intros A m. apply progress_client.
  - intros A m Hm [r x] Hx. pose proof (Hm (repl (bw_client x)) Hx) as H. unfold on_stream, zoom. simpl.
    by destruct (m (repl (bw_client x))).
  - apply progress_work.
  - apply held_stream, progress_holds.
Qed.

Lemma progress_wait s0 : preserves (fun c => progress s0 (repl c)) db_client_wait.
Proof.
  intros c Hc. unfold db_client_wait. destruct (selects c) as [|[ret errno] rest]; [done|].
  case_decide; [done|]. destruct (ret <? 0); [done|].
  match goal with |- progress s0 (repl (snd (?m ?s))) =>
    assert (Hm : preserves (fun c => progress s0 (repl c)) m); [|by apply (Hm s)] end.
  apply preserves_bind.
  { apply progress_repl, (held_consume le), progress_holds. }
  intros ok. destruct (negb ok); [apply preserves_stop|]. apply preserves_bind; [apply preserves_gets|].
  intros [sql|]; [|apply preserves_ret]. apply preserves_bind; [apply progress_sql|].
  intros [|]; [apply preserves_ret|apply preserves_stop].
Qed.

Lemma progress_steps s0 n : preserves (PB s0) (bw_steps L value_name le clock n).
Proof.
  assert (Hst : preserves (PB s0) bw_status) by (by intros [r x] Hx).
  induction n as [|n IH]; [apply preserves_ret|]. simpl. apply preserves_bind; [done|intros st].
  destruct (0 <=? st); [|apply preserves_ret]. apply preserves_bind; [|done]. unfold bw_step.
  apply preserves_bind; [apply progress_ensure, progress_poll|intros _]. apply preserves_bind; [done|intros st'].
  apply preserves_when. intros _. apply progress_ensure, progress_client, progress_wait.
Qed.

(** The test client never reports more than it has reached. After any number of iterations
    of its loop, and also when an iteration ends the process: the received and acknowledged
    positions have not decreased, and every status update that was sent meanwhile carries
    positions that had been reached. *)
Theorem bwtest_reports_truthful n r x :
  let s := repl (bw_client x) in
  let s' := repl (bw_client (snd (snd (bw_steps L value_name le clock n (r, x))))) in
  well_placed s -> recvd_lsn s <= recvd_lsn s' /\ fsync_lsn s <= fsync_lsn s' /\ reports s s'.
Proof.
  intros s s' Hs. assert (Hp : progress s s'); [|by destruct Hp as (_ & ? & ? & ?)].
  by apply (progress_steps s n (r, x)), progress_refl.
Qed.

End properties.

(** ** A run *)

Definition plain_name (_ : avro_value) : string := "t".
(** A transaction is streamed, then a keepalive asks for a reply. *)
Definition bw_copies : list copy_result :=
  [CopyData ([119] ++ sendint64 true 60 ++ sendint64 true 0 ++ sendint64 true 0 ++
     enc (frame_value [MBegin 700; MCommit 700 0]));
   CopyData ([107] ++ sendint64 true 77 ++ sendint64 true 0 ++ [1])].
Definition bw_sample : bw_context :=
  BwContext
    (ClientContext (Some "db") (Some "bottledwater") None
       (ReplicationStream (Some "bottledwater") (Some "bottledwater") None
          (PGconn [] [] bw_copies [1; 0; 1; 0; 1; 0] [] [] []) 0 0 0 0 0 0)
       false false 1 [] [] []) [].
Definition bw_after (n : nat) : outcome unit * (frame_reader * bw_context) :=
  bw_steps ref_lib plain_name true sample_clock n (sample_reader, bw_sample).

Example bw_lines :
  stdout (snd (snd (bw_after 2))) = ["begin xid=700 wal_pos=0/3C"; "commit xid=700 wal_pos=0/3C"] /\
  fsync_lsn (repl (bw_client (snd (snd (bw_after 2))))) = 60.
Proof. by vm_compute. Qed.

Lemma bwtest_reports_truthful_witness :
  reports (repl (bw_client bw_sample)) (repl (bw_client (snd (snd (bw_after 2))))).
Proof.
  apply (bwtest_reports_truthful ref_lib plain_name true sample_clock 2 sample_reader bw_sample). by split.
Defined.

Definition bw_events : list (Z * event) := [(60, EBegin 700); (60, ECommit 700)].

Lemma bwtest_acknowledges_printed_witness :
  exists ran (lines : list string), bw_client (snd (run_events ref_lib plain_name bw_events bw_sample)) =
      acknowledged ran (bw_client bw_sample) /\
    length lines = length (filter (fun we => prints (snd we)) ran).
Proof.
  destruct (bwtest_acknowledges_printed ref_lib plain_name bw_events bw_sample
    (fst (run_events ref_lib plain_name bw_events bw_sample))
    (snd (run_events ref_lib plain_name bw_events bw_sample)) eq_refl) as (ran & lines & _ & Hc & _ & Hl).
  by exists ran, lines.
Defined.
